(* ===== verification/_CoqProject ===== *)
-Q . S2P
Prelude.v
Float64.v
LoadBalance.v
Errs.v
CircuitBreaker.v
AdaptiveBreaker.v
RateLimit.v
Retry.v
ConnPool.v
GoString.v
Rbac.v
Auth.v
Token.v
Redis.v
RedisStore.v
Backpressure.v
Batch.v
AdaptiveBatch.v
GoCrypto.v
Totp.v
Mfa.v
Authentication.v
Cluster.v
Mempool.v
Scanner.v
Detectors.v
FieldEncryption.v
Isolation.v
Plugin.v
Compression.v
Serialization.v
Etcd.v
Resolver.v
Server.v
Client.v
Discovery.v
Rpc.v
Prom.v
Metrics.v
ClientMetrics.v
PromPlugin.v
Tracing.v
Logger.v
TLSConfig.v
Ticker.v
Pools.v
ProtoPool.v
AdaptiveSystem.v
ErrTrace.v
RedisLimit.v
ClusterContext.v
PoolMonitor.v
Watch.v
OAuth2.v
TokenClose.v
GetPool.v
AuthContext.v
AuthExample.v
RetryShared.v
Background.v
