(* ===== verification/Prelude.v ===== *)
(** * Eidola: a verification development

    Eidola is a Go library of building blocks for gRPC services: client-side load
    balancing, circuit breaking, retries, connection pools, rate limiting, batching,
    service discovery, cluster calls, authentication (tokens, passwords, second
    factors), authorization, field encryption and scanning. This library models
    those parts as pure, executable definitions and proves what makes each one
    correct.

    ** Conventions

    - A method of a Go struct is a function on a Record with the struct's fields;
      it takes the time it reads ([time.Now], in nanoseconds) and the random
      numbers it draws as arguments and returns its results with the new record.
    - [(value, error)] is [result] (Prelude); a computation that may panic is an
      [outcome] (Prelude). Integers are [Z] kept at their width by [i32], [i64],
      [u32], ... (Prelude); [float64] is the binary64 format of the Standard
      Library's SpecFloat (Float64), with the two conversions that the Go
      specification leaves to the implementation in the class [GoImpl] (its
      instance [amd64] is what that platform does).
    - A method that holds a mutex throughout is one step. Where the code releases
      it in between, or uses atomics, the parts are separate steps and the
      interleavings are explicit ([RateLimit.FixWindow], [RateLimit.SlideWindow],
      [ConnPool], [Backpressure], [AdaptiveBatch], [Cluster], [ClusterContext],
      [Scanner], [Server], [Prom], [TLSConfig], [RetryShared]): a run is a
      list of steps or events, and theorems are about all of them.
    - Objects that the code shares by pointer live in a heap ([Metrics]' time windows,
      the channels of [TLSConfig], [ConnPool.Pool]'s
      connections, [Rbac]'s roles, the objects of [Mempool] and [Serialization],
      the arrays behind slices in [FieldEncryption]). The order in which a Go map is
      visited is a parameter. Strings that pass through JSON are UTF-8 texts.
    - Third-party code (gRPC's dialling, connections and metadata, JSON, JWT,
      AES-GCM, codecs, regular expressions, TLS connections, the hash ring, Redis,
      etcd, the run time's stacks) is a parameter or a class; its documented behaviour, where a theorem needs
      it, is a named hypothesis or a class of laws with an instance.

    ** Files

    - Prelude: results, outcomes, machine integers, durations and times, the
      tactics, list lemmas.
    - Float64: [float64] arithmetic, comparisons, [math.Frexp], [Ldexp], [Pow],
      [Min] as the Go source has them, conversions, order lemmas.
    - LoadBalance: [loadbalance/]. Modules RoundRobin, WeightedRR, Hash (with the
      consistent ring), LeastActive, Random (with the weighted one), Fastest; each
      has [Build], [Pick] and the [Done] callback. The facts say that round robin
      rotates over the candidates, that current weights stay balanced, that least
      active takes a minimum, that weighted random picks each connection for
      exactly its share of the random numbers; and where the code goes wrong
      (counter overflow, equal weights, zero total).
    - Errs: [internal/errs/]. Error constructors, codes, recovery strategies, the
      aggregator ([RecordErr], [GetTopErrors]); counts equal the occurrences
      recorded, the top list is sorted and maximal.
    - CircuitBreaker: [internal/circuitbreaker/circuitbreaker.go]. [Allow],
      [Success], [Failure], [changeState] and runs of them; the breaker refines an
      abstract three-state automaton, an open breaker blocks until its timeout,
      the half-open budget bounds the probes; module Traffic follows the requests in
      flight, which the concurrency limit bounds but for injected failures and resets.
    - AdaptiveBreaker: [adaptive_breaker.go]. [Execute], the error patterns,
      [adjustParameters] and its bounds.
    - RateLimit: [ratelimit/]. Modules FixWindow, SlideWindow, TokenBucket,
      LeakyBucket, RedisWindow, Adaptive. The sliding window admits no more than its
      rate in any window that is shorter by the longest wait between clock and mutex,
      and refines the history of admitted requests when they decide in the order of
      their clocks; the fixed window is also modelled at the level of its atomic steps.
    - Retry: [internal/retry/]. Modules Budget, Interceptor, Backoff, Retrier. The
      interceptors give back every slot of the budget they take; the retrier's
      loop ends with the last answer; delays are within their bounds.
    - ConnPool: [internal/connpool/]. Modules Pool (connections in a store, one
      definition per critical section), Waiting (the mutex and the condition
      variable of [Get] as a step relation), AdaptivePool (resizing and health
      checks). No connection is at the same time idle and in use, counts agree
      with the connections, closed pools keep none.
    - GoString: the functions of the package strings that the source uses.
    - Rbac: [auth/authorization/rbac.go]. Roles, permissions, the interceptors; a
      call is let through exactly when a role of the context has the permission.
    - Auth: [auth/auth.go], [authorizer.go], [extractor.go], [interceptor.go]. The
      classes [TokenExtractor], [TokenManager] and [Authorizer] are the Go
      interfaces; the interceptor is verified against them.
    - Token: [auth/token/] but for its Redis store. Encryptors, the in-memory store
      and blacklist, the manager and the service. The manager is verified against
      [TokenStore] and its laws, which the in-memory store implements: what is
      issued is accepted, what is revoked stays refused.
    - Redis: the client interface of [auth/redis/] and its go-redis implementation.
      [Client] has the operations, [ClientLaws] their documented effect when a call
      may fail, [ClientReliable] when none does.
    - RedisStore: [auth/token/redis_store.go] and the Redis blacklist. A successful
      revocation is final; over a reliable client the store answers as the
      in-memory one does.
    - Backpressure: [internal/stream/backpressure.go]. [SendMsg] and [RecvMsg] as
      one step per control point; the counters equal the loads in flight.
    - Batch: [internal/batch/processor.go]: workers, batches, and why its answers
      never arrive.
    - AdaptiveBatch: [internal/batch/adaptive_batcher.go]. The loop, the batches
      and the callers over a heap of items; no item is lost or in two places,
      answers come in the order of the requests.
    - GoCrypto: SHA-1, HMAC, base32 and base64, executable, with their round trips.
    - Totp: [auth/mfa/totp.go]. A code is accepted exactly when it is the password
      of a time step in the window.
    - Mfa: the rest of [auth/mfa/]: provider, repositories, the authenticator's
      stages.
    - Authentication: [auth/authentication/auth.go]. [Authenticator] is the Go
      interface; the basic, JWT and OAuth2 authenticators; who reaches the handler.
    - Cluster: [cluster/], with the interfaces [Registry] ([registry/types.go]) and
      [Network]. A goroutine per instance as a step function; one answer for every
      instance, nothing sent on a closed channel, where a call can block for ever.
    - Mempool: [internal/mempool/pool.go], [message_pool.go]. Objects handed out
      are not shared and are zeroed; messages with reference counts.
    - Scanner: [internal/security/scanner.go]. A scan's goroutines with their
      semaphore and channel; one justified result for every target when it returns,
      which it does up to twice the concurrency.
    - Detectors: its two detectors, over TLS connections and regular expressions as
      classes.
    - FieldEncryption: [internal/security/field_encryption.go]. Messages as trees;
      the search for tags with the aliasing of Go's slices against a reference
      search; what is encrypted comes back and is sealed in between.
    - Isolation: [internal/security/isolation.go]. The rules refine a finite map,
      a call passes the isolator exactly through its gates.
    - Plugin: [plugin/plugin.go], over any state that plugins change.
    - Compression: [internal/compression/adaptive.go]. What the writer wrote the
      reader reads back, for every codec with its law.
    - Serialization: [internal/mempool/buffer.go] and
      [internal/serialization/zerocopy.go]. Reading everything ends and returns it.
    - Etcd: [registry/etcd/registry.go] as an instance of [Registry]; a listing is
      the map of the operations so far.
    - Resolver: [resolver.go]. Resolution with cache, retries and fallback; when
      changes are published and when not.
    - Server: [server.go]. [Start], [Close] and signals as steps of threads; at most
      one start, no deadlock, what is registered when.
    - Client: [client.go]. Options, dial options, dialling over CircuitBreaker and
      ConnPool; a new client's unreachable target is cut off, no connection is
      reused.
    - Discovery: from the server's registration through etcd and the resolver to
      the pickers of LoadBalance.
    - Rpc: what the observability packages use of gRPC: statuses and the three ways
      of splitting a method name.
    - Prom: calls on Prometheus vectors, the laws of a registry, and the machine of
      goroutines whose calls interleave; a gauge that goes up before and down after a
      handler counts the handlers under way.
    - Metrics: [observability/metrics/method_metrics.go]. The in-flight gauge, the
      rates of the time windows.
    - ClientMetrics: [observability/metrics/client.go], [server.go]. No call goes
      through the client interceptor; every stream is counted once.
    - PromPlugin: [plugin/metrics/prometheus.go].
    - Tracing: [observability/opentelemetry/]. Spans are complete; why traces are not
      passed on.
    - Logger: [observability/logging/logger.go]. What is written for a request, when
      the process ends.
    - TLSConfig: [auth/tls/config.go]. Rotation loops as steps; reloads keep the
      policy, verdicts of OCSP.
    - Pools: maps ([MapPool]), the pools with fixed parameters, the clean-up loop and the
      typed pools of [internal/mempool/]. A map from the pool is empty and nobody else's.
    - ProtoPool: the rest of [zerocopy.go] and the ready-made buffer pools.
    - AdaptiveSystem: the adaptive breaker with its loop and the goroutines of its
      listeners; parameters stay in their ranges, when the reported state is right.
    - ErrTrace: ids, stack traces, JSON of errors; the entries that the
      aggregator shares hold the history of what was recorded since the last [Clear].
    - RedisLimit: the Redis limiters over the server's commands; less than twice the rate
      in any interval, over all processes.
    - ClusterContext: contexts and channels of cluster calls; a context serves one call.
    - PoolMonitor: the loops and the status of the adaptive pool.
    - Watch: subscription and watcher with the channel between them.
    - OAuth2: the OAuth2 client of Authentication; TokenClose: the end of a token manager;
      GetPool: the client's unused pool constructor.
    - AuthContext: the interceptors of Auth around handlers and streams.
    - AuthExample: [auth/example/main.go], which puts a token service, an interceptor and an
      authorizer behind gRPC: who can do what in a session, from login to logout.
    - Ticker: the background loops' common shape, used by Pools, PoolMonitor and Background.
    - RetryShared: calls that share a retry budget, as threads; how retriers are set up.
    - Background: the control loop of the adaptive limiter among its requests, the
      batcher's statistics loop and the polling of the fastest balancer.

    ** How the parts interact

    A Server registers with a Registry (Cluster's class, Etcd its instance); a
    client's Resolver lists the instances and gives their addresses, with weight and
    group as attributes, to gRPC, which builds the pickers of LoadBalance from them;
    Discovery follows an instance along this way. The Client dials through a
    CircuitBreaker and a pool of ConnPool. AdaptiveBreaker embeds CircuitBreaker and
    reads Errs; Retry's interceptor is the client's. Auth's interceptor calls a token
    manager (Token, over its store in memory or RedisStore) and an authorizer (its
    own or Rbac's interceptor instead); Authentication's provider calls one of its
    authenticators, Mfa's authenticator a provider over Totp. RateLimit's limiters
    are server interceptors.

    ** Loops, bounds and fuel

    Loops over slices are folds or structural recursions. The retry loops take a
    fuel: [Interceptor.fuel_for] and [Retrier.fuel_of] give one unit more than the
    attempts the configuration allows, and the theorems show that the result is
    then [Some]. [Extractor.TrimLeft], [TrimRight] and the aggregator's sort take
    the length of their input, of which every turn uses up at least one element.
    Theorems on counters that may overflow state the range in which they hold.

    ** Not modelled

    The programs under [examples/], which call the library and print; generated code;
    what third-party libraries do behind the classes that stand for them (see
    Conventions); code that is commented out in the source (the Casbin authorizer).
    Critical sections of one call that touch separate objects (a method of the adaptive
    breaker and its metrics, the server's registration and the line it prints) are one
    step where no theorem looks between them.
*)
From Stdlib Require Export ZArith Lia Bool.
From Stdlib Require Export SpecFloat.
From Stdlib Require Export Ascii.
From stdpp Require Export base tactics list gmap strings sorting.

#[global] Open Scope Z_scope.

(** * Results of Go calls *)

(** A Go call that returns [(value, error)]: exactly one of the two is
    meaningful in every function modelled here. *)
Inductive result (E A : Type) : Type :=
| Ok (a : A)
| Err (e : E).
Arguments Ok {E A} a.
Arguments Err {E A} e.

(** A Go computation that either returns or panics (index out of range,
    integer division by zero, nil dereference, close of a closed channel). *)
Inductive outcome (A : Type) : Type :=
| Returns (a : A)
| Panics.
Arguments Returns {A} a.
Arguments Panics {A}.

#[export] Instance result_eq_dec {E A} `{EqDecision E, EqDecision A} : EqDecision (result E A).
Proof. solve_decision. Defined.

Definition result_bind {E A B : Type} (m : result E A) (k : A -> result E B) : result E B :=
  match m with Ok a => k a | Err e => Err e end.

Definition is_ok {E A : Type} (r : result E A) : bool :=
  match r with Ok _ => true | Err _ => false end.

Declare Scope go_scope.
Delimit Scope go_scope with go.
Notation "'let?' x := m 'in' k" := (result_bind m (fun x => k))
  (at level 10, x name, m at level 100, k at level 200) : go_scope.

(** * Machine integers

    A w-bit integer is a [Z] in its range; the conversion that Go's arithmetic
    applies after each operation is written out. *)

Definition u8 (z : Z) : Z := z mod 2 ^ 8.
Definition u32 (z : Z) : Z := z mod 2 ^ 32.
Definition u64 (z : Z) : Z := z mod 2 ^ 64.
Definition i32 (z : Z) : Z := (z + 2 ^ 31) mod 2 ^ 32 - 2 ^ 31.
Definition i64 (z : Z) : Z := (z + 2 ^ 63) mod 2 ^ 64 - 2 ^ 63.

Definition is_u32 (z : Z) : Prop := 0 <= z < 2 ^ 32.
Definition is_i32 (z : Z) : Prop := - 2 ^ 31 <= z < 2 ^ 31.
Definition is_i64 (z : Z) : Prop := - 2 ^ 63 <= z < 2 ^ 63.

(** [math.MaxUint32], also written [^uint32(0)] in the source. *)
Definition MaxUint32 : Z := 2 ^ 32 - 1.

(** Durations are [int64] nanoseconds, instants are nanoseconds since 1970. *)
Definition Nanosecond : Z := 1.
Definition Millisecond : Z := 1000000.
Definition Second : Z := 1000000000.
Definition Minute : Z := 60 * Second.
Definition Hour : Z := 60 * Minute.

(** [t.Unix()]: whole seconds since 1970. *)
Definition unix (now : Z) : Z := now / Second.

(** * The development's tactics *)

(** Case analysis on the boolean tests of a goal or a hypothesis. *)
Ltac case_bool :=
  match goal with
  | |- context [if ?b then _ else _] => destruct b eqn:?
  | H : context [if ?b then _ else _] |- _ => destruct b eqn:?
  end.

Ltac bool_to_prop :=
  repeat match goal with
  | H : (_ && _)%bool = true |- _ => apply andb_true_iff in H; destruct H
  | H : (_ || _)%bool = false |- _ => apply orb_false_iff in H; destruct H
  | H : (_ && _)%bool = false |- _ => apply andb_false_iff in H
  | H : (_ || _)%bool = true |- _ => apply orb_true_iff in H
  | H : negb _ = true |- _ => apply negb_true_iff in H
  | H : negb _ = false |- _ => apply negb_false_iff in H
  | H : (_ >=? _) = _ |- _ => rewrite Z.geb_leb in H
  | H : (_ >? _) = _ |- _ => rewrite Z.gtb_ltb in H
  | H : (_ <? _) = true |- _ => apply Z.ltb_lt in H
  | H : (_ <? _) = false |- _ => apply Z.ltb_ge in H
  | H : (_ <=? _) = true |- _ => apply Z.leb_le in H
  | H : (_ <=? _) = false |- _ => apply Z.leb_gt in H
  | H : (_ =? _) = true |- _ => apply Z.eqb_eq in H
  | H : (_ =? _) = false |- _ => apply Z.eqb_neq in H
  end.

(** The common ending: split the tests, read them as propositions, decide. *)
Ltac crush := repeat (case_bool; simplify_eq/=); bool_to_prop; try done; try lia.

(** * Lemmas on machine integers *)

Lemma u32_range z : is_u32 (u32 z).
Proof. unfold is_u32, u32. apply Z.mod_pos_bound. lia. Qed.

Lemma u32_small z : is_u32 z -> u32 z = z.
Proof. unfold is_u32, u32. apply Z.mod_small. Qed.

Lemma i32_small z : is_i32 z -> i32 z = z.
Proof. unfold is_i32, i32. intros H. rewrite Z.mod_small; lia. Qed.

Lemma i32_range z : is_i32 (i32 z).
Proof.
  unfold is_i32, i32. pose proof (Z.mod_pos_bound (z + 2 ^ 31) (2 ^ 32)). lia.
Qed.

Lemma i64_range z : is_i64 (i64 z).
Proof.
  unfold is_i64, i64. pose proof (Z.mod_pos_bound (z + 2 ^ 63) (2 ^ 64)). lia.
Qed.

Lemma i64_small z : is_i64 z -> i64 z = z.
Proof. unfold is_i64, i64. intros H. rewrite Z.mod_small; lia. Qed.

Lemma u32_add_l a b : u32 (u32 a + b) = u32 (a + b).
Proof. unfold u32. rewrite Zplus_mod_idemp_l. done. Qed.

Lemma u32_add_r a b : u32 (a + u32 b) = u32 (a + b).
Proof. unfold u32. rewrite Zplus_mod_idemp_r. done. Qed.

Lemma u32_sub_l a b : u32 (u32 a - b) = u32 (a - b).
Proof. unfold u32. rewrite Zminus_mod_idemp_l. done. Qed.

Lemma u32_sub_r a b : u32 (a - u32 b) = u32 (a - b).
Proof. unfold u32. rewrite Zminus_mod_idemp_r. done. Qed.

Lemma i32_add_l a b : i32 (i32 a + b) = i32 (a + b).
Proof.
  unfold i32. replace ((a + 2 ^ 31) mod 2 ^ 32 - 2 ^ 31 + b + 2 ^ 31) with ((a + 2 ^ 31) mod 2 ^ 32 + b) by lia.
  rewrite Zplus_mod_idemp_l. do 2 f_equal. lia.
Qed.

Lemma i64_add_l a b : i64 (i64 a + b) = i64 (a + b).
Proof.
  unfold i64. replace ((a + 2 ^ 63) mod 2 ^ 64 - 2 ^ 63 + b + 2 ^ 63) with ((a + 2 ^ 63) mod 2 ^ 64 + b) by lia.
  rewrite Zplus_mod_idemp_l. do 2 f_equal. lia.
Qed.

(** [now.Unix()] is monotone, so a deadline that has passed stays passed. *)
Lemma unix_mono a b : a <= b -> unix a <= unix b.
Proof. unfold unix, Second. intros. apply Z.div_le_mono; lia. Qed.

(** An instant is in second [e] or before exactly when it is before the next one. *)
Lemma unix_le_iff now e : unix now <= e <-> now < (e + 1) * Second.
Proof.
  unfold unix, Second. split; intros H.
  - pose proof (Z.mul_succ_div_gt now 1000000000 ltac:(lia)). nia.
  - apply Z.lt_succ_r. apply Z.div_lt_upper_bound; lia.
Qed.

Lemma unix_mul now : unix now * Second <= now < (unix now + 1) * Second.
Proof. split; [|by apply unix_le_iff]. unfold unix, Second. pose proof (Z.mul_div_le now 1000000000 ltac:(lia)). lia. Qed.

Create HintDb go.
Create Rewrite HintDb go_wrap.
#[export] Hint Resolve u32_range i32_range i64_range unix_mono : go.
#[export] Hint Rewrite i32_add_l i64_add_l u32_add_l u32_add_r u32_sub_l u32_sub_r : go_wrap.

(** * Lemmas on lists *)

Definition sumZ (l : list Z) : Z := foldr Z.add 0 l.

Lemma sumZ_app l1 l2 : sumZ (l1 ++ l2) = sumZ l1 + sumZ l2.
Proof. unfold sumZ. induction l1; simpl; lia. Qed.

Lemma sumZ_nonneg l : Forall (fun z => 0 <= z) l -> 0 <= sumZ l.
Proof. unfold sumZ. induction 1; simpl; lia. Qed.

(** A rotation of a list has the same elements. *)
Lemma rotate_permutation {A} (l : list A) k : drop k l ++ take k l ≡ₚ l.
Proof. rewrite Permutation_app_comm. by rewrite take_drop. Qed.

(** [append] to a slice, then read back. *)
Lemma length_filter_le {A} (P : A -> Prop) `{!forall x, Decision (P x)} (l : list A) :
  (length (filter P l) <= length l)%nat.
Proof. apply length_filter. Qed.

Lemma filter_all {A} (P : A -> Prop) `{!forall x, Decision (P x)} (l : list A) : Forall P l -> filter P l = l.
Proof. induction 1 as [|x l Hx _ IH]; [done|]. by rewrite filter_cons_True, IH. Qed.

(** [l[k]] with Go's bounds check: [None] is the index-out-of-range panic. *)
Definition slice_at {A} (l : list A) (k : Z) : option A :=
  if k <? 0 then None else l !! Z.to_nat k.

Lemma slice_at_lookup {A} (l : list A) (n : nat) : slice_at l (Z.of_nat n) = l !! n.
Proof. unfold slice_at. destruct (Z.of_nat n <? 0) eqn:E; bool_to_prop; [lia|]. by rewrite Nat2Z.id. Qed.

Lemma slice_at_Some {A} (l : list A) k :
  0 <= k < Z.of_nat (length l) -> is_Some (slice_at l k).
Proof.
  intros H. unfold slice_at. destruct (k <? 0) eqn:E; bool_to_prop; [lia|].
  apply lookup_lt_is_Some. lia.
Qed.

(** Sum of a measure over a list, and how it changes when one element does. *)
Definition sum_of {A} (f : A -> Z) (l : list A) : Z := sumZ (f <$> l).

Lemma sum_of_app {A} (f : A -> Z) l1 l2 : sum_of f (l1 ++ l2) = sum_of f l1 + sum_of f l2.
Proof. unfold sum_of. by rewrite fmap_app, sumZ_app. Qed.

Lemma sum_of_alter {A} (f : A -> Z) (g : A -> A) l i x :
  l !! i = Some x -> sum_of f (alter g i l) = sum_of f l + (f (g x) - f x).
Proof.
  revert i. unfold sum_of, sumZ. induction l as [|y l IH]; intros [|i] H; simplify_eq/=; [lia|].
  rewrite (IH i H). lia.
Qed.

Lemma sum_of_insert {A} (f : A -> Z) l i x y :
  l !! i = Some x -> sum_of f (<[i := y]> l) = sum_of f l + (f y - f x).
Proof.
  intros H. rewrite <- (sum_of_alter f (fun _ => y) l i x H). f_equal. apply list_eq. intros j.
  destruct (decide (i = j)) as [<-|Hj].
  - rewrite list_lookup_alter_eq, H, list_lookup_insert_eq; [done|]. by apply lookup_lt_Some in H.
  - by rewrite list_lookup_alter_ne, list_lookup_insert_ne.
Qed.

Lemma sum_of_cons {A} (f : A -> Z) x l : sum_of f (x :: l) = f x + sum_of f l.
Proof. done. Qed.

Lemma sum_of_zero {A} (f : A -> Z) l : Forall (fun x => f x = 0) l -> sum_of f l = 0.
Proof. induction 1 as [|x l Hx _ IH]; [done|]. rewrite sum_of_cons. lia. Qed.

Lemma sum_of_nonneg {A} (f : A -> Z) l : Forall (fun x => 0 <= f x) l -> 0 <= sum_of f l.
Proof. induction 1 as [|x l Hx _ IH]; [done|]. rewrite sum_of_cons. lia. Qed.

Lemma sum_of_ext {A} (f g : A -> Z) l : (forall x, f x = g x) -> sum_of f l = sum_of g l.
Proof. intros H. induction l as [|x l IH]; [done|]. rewrite !sum_of_cons, H, IH. done. Qed.

(** An [alter] that keeps a predicate on the elements keeps it on the list. *)
Lemma Forall_alter_all {A} (P : A -> Prop) g (l : list A) i :
  Forall P l -> (forall x, P x -> P (g x)) -> Forall P (alter g i l).
Proof. intros H Hg. by apply Forall_alter; [|auto]. Qed.

Lemma alter_as_insert {A} (g : A -> A) (l : list A) i x : l !! i = Some x -> alter g i l = <[i := g x]> l.
Proof. revert i. induction l as [|y l IH]; intros [|i] H; simplify_eq/=; [done|]. f_equal. by apply IH. Qed.

Lemma alter_insert_same {A} (g : A -> A) (l : list A) i x : alter g i (<[i:=x]> l) = <[i := g x]> l.
Proof. revert i. induction l as [|y l IH]; intros [|i]; simpl; try done. f_equal. apply IH. Qed.

Lemma sum_of_alter_same {A} (f : A -> Z) (g : A -> A) l i :
  (forall x, f (g x) = f x) -> sum_of f (alter g i l) = sum_of f l.
Proof.
  intros H. revert i. induction l as [|x l IH]; intros [|i]; simpl; try done;
    rewrite !sum_of_cons; [by rewrite H|]. f_equal. apply IH.
Qed.

(** [a.Sub(b)] of [time.Time]: the difference, saturated to an [int64] duration. *)
Definition time_sub (a b : Z) : Z := Z.max (- 2 ^ 63) (Z.min (2 ^ 63 - 1) (a - b)).

Lemma time_sub_small a b : is_i64 (a - b) -> time_sub a b = a - b.
Proof. unfold time_sub, is_i64. lia. Qed.

Lemma sum_of_perm {A} (f : A -> Z) l1 l2 : l1 ≡ₚ l2 -> sum_of f l1 = sum_of f l2.
Proof. induction 1; rewrite ?sum_of_cons; lia. Qed.

(** Sum of a measure over the values of a map. *)
Definition msum {A} (f : A -> Z) (m : gmap nat A) : Z := sum_of f (map_to_list m).*2.

Lemma msum_empty {A} (f : A -> Z) : msum f ∅ = 0.
Proof. unfold msum. by rewrite map_to_list_empty. Qed.

Lemma msum_insert {A} (f : A -> Z) m k x : m !! k = None -> msum f (<[k := x]> m) = f x + msum f m.
Proof.
  intros H. unfold msum.
  assert ((map_to_list (<[k := x]> m)).*2 ≡ₚ x :: (map_to_list m).*2) as ->%(sum_of_perm f); [|done].
  by rewrite map_to_list_insert.
Qed.

Lemma msum_delete {A} (f : A -> Z) m k x : m !! k = Some x -> msum f m = f x + msum f (delete k m).
Proof. intros H. rewrite <- (msum_insert f _ k x (lookup_delete_eq m k)). by rewrite insert_delete_id. Qed.

Lemma msum_update {A} (f : A -> Z) m k x y : m !! k = Some x -> msum f (<[k := y]> m) = msum f m + (f y - f x).
Proof.
  intros H. rewrite (msum_delete f m k x H). rewrite <- (insert_delete_eq m k y), msum_insert by apply lookup_delete_eq. lia.
Qed.

Lemma msum_zero {A} (f : A -> Z) m : map_Forall (fun _ x => f x = 0) m -> msum f m = 0.
Proof.
  intros H. apply sum_of_zero. apply Forall_fmap, Forall_forall. intros [k x] Hx.
  apply elem_of_map_to_list in Hx. exact (H k x Hx).
Qed.
