(* ===== verification/Float64.v ===== *)
(** Go's [float64]: the binary64 arithmetic of the Standard Library's executable
    [SpecFloat], the conversions to and from the integer types, and the order
    facts that the clamping code of the adaptive components relies on. *)
From S2P Require Import Prelude.

Abbreviation float64 := spec_float.

(** * Operations *)

Definition fadd : float64 -> float64 -> float64 := SFadd 53 1024.
Definition fsub : float64 -> float64 -> float64 := SFsub 53 1024.
Definition fmul : float64 -> float64 -> float64 := SFmul 53 1024.
Definition fdiv : float64 -> float64 -> float64 := SFdiv 53 1024.
Definition flt (x y : float64) : bool := SFltb x y.
Definition fgt (x y : float64) : bool := SFltb y x.
Definition fle (x y : float64) : bool := SFleb x y.
Definition fge (x y : float64) : bool := SFleb y x.

(** [math.Frexp] and [math.Ldexp]. *)
Definition frexp : float64 -> float64 * Z := SFfrexp 53 1024.
Definition ldexp (x : float64) (e : Z) : float64 := SFldexp 53 1024 x e.

(** [math.Min] on numbers. *)
Definition fmin (x y : float64) : float64 := if flt x y then x else y.

(** [float64(z)] for an integer [z]: round to nearest even. *)
Definition of_int (z : Z) : float64 := binary_normalize 53 1024 z 0 false.

(** A decimal literal [n/d], correctly rounded when [n] and [d] are below 2^53. *)
Definition lit (n d : Z) : float64 := fdiv (of_int n) (of_int d).

(** [d.Seconds()]: whole seconds plus the nanosecond remainder. *)
Definition Seconds (d : Z) : float64 :=
  fadd (of_int (Z.quot d Second)) (fdiv (of_int (Z.rem d Second)) (of_int Second)).

Definition is_nan (x : float64) : bool :=
  match x with S754_nan => true | _ => false end.

(** [math.Pow(x, n)] for a non-negative integer [n] and an [x] that is not
    negative: the square-and-multiply loop of the standard library on the mantissa
    [x1] and the exponent [xe] of [x]. *)
Fixpoint pow_loop (i : positive) (a1 x1 : float64) (ae xe : Z) : float64 * Z :=
  let sq := fmul x1 x1 in
  let x1' := if flt sq (lit 1 2) then fadd sq sq else sq in
  let xe' := if flt sq (lit 1 2) then 2 * xe - 1 else 2 * xe in
  if (xe <? - 4096) || (4096 <? xe) then (a1, ae + xe)
  else match i with
       | xH => (fmul a1 x1, ae + xe)
       | xO i' => pow_loop i' a1 x1' ae xe'
       | xI i' => pow_loop i' (fmul a1 x1) x1' (ae + xe) xe'
       end.

Definition pow (x : float64) (n : Z) : float64 :=
  match n with
  | Zpos i =>
      match x with
      | S754_finite _ _ _ =>
          if SFeqb x (of_int 1) then x
          else if (n =? 1) then x
          else let '(x1, xe) := frexp x in let '(a1, ae) := pow_loop i (of_int 1) x1 0 xe in ldexp a1 ae
      | _ => x
      end
  | _ => of_int 1
  end.

(** Truncation towards zero; [None] on infinities and NaN. *)
Definition trunc (x : float64) : option Z :=
  match x with
  | S754_zero _ => Some 0
  | S754_finite s m e =>
      let q := match e with
               | Zneg p => Z.shiftr (Zpos m) (Zpos p)
               | _ => Z.shiftl (Zpos m) e
               end in
      Some (if s then - q else q)
  | _ => None
  end.

(** Go leaves the conversion of an unrepresentable float to an integer type to
    the implementation: the result is some value of the type. *)
Class GoImpl : Type := {
  conv_i64 : float64 -> Z;
  conv_u32 : float64 -> Z;
  conv_u64 : float64 -> Z;
  conv_i64_range : forall x, is_i64 (conv_i64 x);
  conv_u32_range : forall x, is_u32 (conv_u32 x);
  conv_u64_range : forall x, 0 <= conv_u64 x < 2 ^ 64
}.

Definition to_range (lo hi : Z) (other : float64 -> Z) (x : float64) : Z :=
  match trunc x with
  | Some z => if (lo <=? z) && (z <? hi) then z else other x
  | None => other x
  end.

(** [int64(x)], [time.Duration(x)] and, on 64-bit targets, [int(x)]. *)
Definition to_i64 `{GoImpl} : float64 -> Z := to_range (- 2 ^ 63) (2 ^ 63) conv_i64.
Definition to_u32 `{GoImpl} : float64 -> Z := to_range 0 (2 ^ 32) conv_u32.
Definition to_u64 `{GoImpl} : float64 -> Z := to_range 0 (2 ^ 64) conv_u64.

(** [math.Floor]: exact, since the integer has at most as many bits as the mantissa. *)
Definition ffloor (x : float64) : float64 :=
  match x with
  | S754_finite s m (Zneg p) => of_int (Z.shiftr (if s then Zneg m else Zpos m) (Zpos p))
  | _ => x
  end.

(** [math.Pow10(n)]: a product of two table entries. *)
Definition Pow10 (n : Z) : float64 :=
  if (0 <=? n) && (n <=? 308) then fmul (of_int (10 ^ (32 * (n / 32)))) (of_int (10 ^ (n mod 32)))
  else if (-323 <=? n) && (n <=? 0) then fdiv (of_int 1) (fmul (of_int (10 ^ (32 * (- n / 32)))) (of_int (10 ^ (- n mod 32))))
  else if n >? 0 then S754_infinity false else S754_zero false.

(** The [if x < lo { x = lo } else if x > hi { x = hi }] of the adaptive code. *)
Definition clamp (lo hi x : float64) : float64 :=
  if flt x lo then lo else if fgt x hi then hi else x.

(** The same clamping on integers. *)
Definition clampZ (lo hi x : Z) : Z :=
  if x <? lo then lo else if x >? hi then hi else x.

(** The conversions of the gc compiler on amd64: CVTTSD2SQ yields [-2^63] for
    an unrepresentable value, and the narrower types take its low bits. *)
#[refine] Definition amd64 : GoImpl := {|
  conv_i64 _ := - 2 ^ 63;
  conv_u32 x := match trunc x with
                | Some z => if (- 2 ^ 63 <=? z) && (z <? 2 ^ 63) then u32 z else 0
                | None => 0
                end;
  conv_u64 _ := 2 ^ 63
|}.
Proof.
  - intros _. unfold is_i64. lia.
  - intros x. destruct (trunc x) as [z|]; [case_bool|]; auto with go; unfold is_u32; lia.
  - intros _. lia.
Defined.

(** * Conversions stay in range *)

Lemma to_range_range lo hi other x :
  (forall y, lo <= other y < hi) -> lo <= to_range lo hi other x < hi.
Proof. unfold to_range. intros H. destruct (trunc x); crush. Qed.

Lemma to_i64_range `{GoImpl} x : is_i64 (to_i64 x).
Proof. apply to_range_range, conv_i64_range. Qed.

Lemma to_u32_range `{GoImpl} x : is_u32 (to_u32 x).
Proof. apply to_range_range, conv_u32_range. Qed.

(** * Order *)

Lemma SFcompare_swap x y : SFcompare y x = CompOpp <$> SFcompare x y.
Proof.
  destruct x as [sx|sx| |sx mx ex], y as [sy|sy| |sy my ey]; try destruct sx; try destruct sy; try done;
    simpl; rewrite (Z.compare_antisym ex ey); destruct (ex ?= ey) eqn:E; simpl; try done;
    change (Pos.compare_cont Eq my mx) with (my ?= mx)%positive;
    change (Pos.compare_cont Eq mx my) with (mx ?= my)%positive;
    by rewrite (Pos.compare_antisym mx my).
Qed.

Lemma flt_asym x y : flt x y = true -> flt y x = false.
Proof.
  unfold flt, SFltb. rewrite (SFcompare_swap x y).
  by destruct (SFcompare x y) as [[]|].
Qed.

Lemma fle_not_gt x y : fle x y = true -> flt y x = false.
Proof.
  unfold fle, flt, SFleb, SFltb. rewrite (SFcompare_swap x y).
  by destruct (SFcompare x y) as [[]|].
Qed.

Lemma SFcompare_num x y :
  is_nan x = false -> is_nan y = false -> is_Some (SFcompare x y).
Proof. destruct x, y; try done; simpl; eauto. Qed.

Lemma flt_total x y :
  is_nan x = false -> is_nan y = false -> flt x y = false -> fle y x = true.
Proof.
  intros Hx Hy. unfold fle, flt, SFleb, SFltb. rewrite (SFcompare_swap x y).
  destruct (SFcompare_num x y Hx Hy) as [[] ->]; done.
Qed.

Lemma fle_refl x : is_nan x = false -> fle x x = true.
Proof.
  destruct x as [[]|[]| |[] m e]; try done; unfold fle, SFleb; simpl;
    rewrite Z.compare_refl; simpl;
    change (Pos.compare_cont Eq m m) with (m ?= m)%positive; by rewrite Pos.compare_refl.
Qed.

Lemma flt_fle x y : flt x y = true -> fle x y = true.
Proof. unfold flt, fle, SFltb, SFleb. by destruct (SFcompare x y) as [[]|]. Qed.

(** Lexicographic comparison of exponent and mantissa, as [SFcompare] does it. *)
Lemma flt_finite s1 m1 e1 s2 m2 e2 :
  flt (S754_finite s1 m1 e1) (S754_finite s2 m2 e2) = true <->
  match s1, s2 with
  | true, false => True
  | false, true => False
  | false, false => e1 < e2 \/ e1 = e2 /\ Zpos m1 < Zpos m2
  | true, true => e2 < e1 \/ e1 = e2 /\ Zpos m2 < Zpos m1
  end.
Proof.
  unfold flt, SFltb. simpl. change (Pos.compare_cont Eq m1 m2) with (m1 ?= m2)%positive.
  destruct s1, s2; try (split; done);
    destruct (Z.compare_spec e1 e2); destruct (Pos.compare_spec m1 m2); simpl; split; intros; try done; lia.
Qed.

Lemma fle_finite s1 m1 e1 s2 m2 e2 :
  fle (S754_finite s1 m1 e1) (S754_finite s2 m2 e2) = true <->
  match s1, s2 with
  | true, false => True
  | false, true => False
  | false, false => e1 < e2 \/ e1 = e2 /\ Zpos m1 <= Zpos m2
  | true, true => e2 < e1 \/ e1 = e2 /\ Zpos m2 <= Zpos m1
  end.
Proof.
  unfold fle, SFleb. simpl. change (Pos.compare_cont Eq m1 m2) with (m1 ?= m2)%positive.
  destruct s1, s2; try (split; done);
    destruct (Z.compare_spec e1 e2); destruct (Pos.compare_spec m1 m2); simpl; split; intros; try done; lia.
Qed.

Lemma flt_fle_trans x y z : flt x y = true -> fle y z = true -> flt x z = true.
Proof.
  destruct x as [sx|sx| |sx mx ex], y as [sy|sy| |sy my ey], z as [sz|sz| |sz mz ez];
    try destruct sx; try destruct sy; try destruct sz; try done;
    rewrite ?flt_finite, ?fle_finite; try done; lia.
Qed.

Lemma fle_trans x y z : fle x y = true -> fle y z = true -> fle x z = true.
Proof.
  destruct x as [sx|sx| |sx mx ex], y as [sy|sy| |sy my ey], z as [sz|sz| |sz mz ez];
    try destruct sx; try destruct sy; try destruct sz; try done;
    rewrite ?fle_finite; try done; lia.
Qed.

Lemma flt_irrefl x : flt x x = false.
Proof. destruct (flt x x) eqn:E; [|done]. by rewrite (flt_asym _ _ E) in E. Qed.

Lemma flt_fle_false x y : flt x y = true -> fle y x = false.
Proof. intros H. destruct (fle y x) eqn:E; [|done]. apply fle_not_gt in E. congruence. Qed.

(** A clamped value, even NaN, does not compare outside of the bounds. *)
Lemma clamp_inside lo hi x :
  fle lo hi = true -> flt (clamp lo hi x) lo = false /\ fgt (clamp lo hi x) hi = false.
Proof.
  intros H. pose proof (fle_not_gt _ _ H). unfold clamp, fgt in *.
  destruct (flt x lo) eqn:E1; [by rewrite flt_irrefl|].
  fold (flt hi x). destruct (flt hi x) eqn:E2; [|done].
  unfold flt in *. split; [done|]. apply flt_irrefl.
Qed.

(** The clamp keeps its result between the bounds, when these are ordered and
    the value is a number. *)
Lemma clamp_bounds lo hi x :
  fle lo hi = true -> is_nan x = false ->
  fle lo (clamp lo hi x) = true /\ fle (clamp lo hi x) hi = true.
Proof.
  intros Hlh Hx. unfold clamp, fgt.
  assert (is_nan lo = false /\ is_nan hi = false) as [Hl Hh].
  { destruct lo, hi; try done. }
  destruct (flt x lo) eqn:E1; [split; [by apply fle_refl|done]|].
  destruct (SFltb hi x) eqn:E2; [split; [done|by apply fle_refl]|].
  split; by apply flt_total.
Qed.

Lemma clampZ_bounds lo hi x : lo <= hi -> lo <= clampZ lo hi x <= hi.
Proof. unfold clampZ. intros. destruct (x <? lo) eqn:?; [|destruct (x >? hi) eqn:E]; bool_to_prop; lia. Qed.

(** * Exactness of [float64(z)] below 2^53 *)

(** Normalised mantissa and exponent of a positive integer below 2^53. *)
Definition int_exp (m : positive) : Z := Zpos (digits2_pos m) - 53.
Definition int_mant (m : positive) : positive :=
  match int_exp m with Zneg p => Pos.iter xO m p | _ => m end.

Lemma digits2_pos_size m : digits2_pos m = Pos.size m.
Proof. induction m; simpl; congruence. Qed.

Lemma digits2_bounds m : 2 ^ (Zpos (digits2_pos m) - 1) <= Zpos m < 2 ^ Zpos (digits2_pos m).
Proof.
  rewrite digits2_pos_size. pose proof (Pos.size_gt m). pose proof (Pos.size_le m).
  rewrite <- Pos2Z.inj_pow. split; [|lia].
  assert (2 * 2 ^ (Zpos (Pos.size m) - 1) = 2 ^ Zpos (Pos.size m)) as E.
  { rewrite <- Z.pow_succ_r by lia. f_equal. lia. }
  rewrite <- Pos2Z.inj_pow in E. lia.
Qed.

Lemma digits2_le_53 m : Zpos m < 2 ^ 53 -> Zpos (digits2_pos m) <= 53.
Proof.
  intros H. pose proof (digits2_bounds m) as [Hl _].
  destruct (Z.le_gt_cases (Zpos (digits2_pos m)) 53) as [|Hc]; [done|].
  assert (2 ^ 53 <= 2 ^ (Zpos (digits2_pos m) - 1)) by (apply Z.pow_le_mono_r; lia). lia.
Qed.

Lemma iter_xO_digits m p : digits2_pos (Pos.iter xO m p) = (digits2_pos m + p)%positive.
Proof.
  induction p using Pos.peano_ind; [simpl; lia|].
  rewrite Pos.iter_succ. simpl. rewrite IHp. lia.
Qed.

Lemma iter_xO_value m p : Zpos (Pos.iter xO m p) = Zpos m * 2 ^ Zpos p.
Proof.
  induction p using Pos.peano_ind; [simpl; lia|].
  rewrite Pos.iter_succ, Pos2Z.inj_succ, Z.pow_succ_r by lia.
  rewrite Pos2Z.inj_xO, IHp. ring.
Qed.

Lemma int_mant_value m : Zpos m < 2 ^ 53 -> Zpos (int_mant m) = Zpos m * 2 ^ (- int_exp m).
Proof.
  intros H%digits2_le_53. unfold int_mant. unfold int_exp in *.
  destruct (Zpos (digits2_pos m) - 53) eqn:E; [simpl; lia|lia|apply iter_xO_value].
Qed.

Lemma int_mant_digits m : Zpos m < 2 ^ 53 -> Zpos (digits2_pos (int_mant m)) = 53.
Proof.
  intros H%digits2_le_53. unfold int_mant, int_exp.
  destruct (Zpos (digits2_pos m) - 53) eqn:E; [lia|lia|].
  rewrite iter_xO_digits. lia.
Qed.

Lemma shr_fexp_53 m e :
  Zpos (digits2_pos m) = 53 -> -1074 <= e ->
  shr_fexp 53 1024 (Zpos m) e loc_Exact = (Build_shr_record (Zpos m) false false, e).
Proof.
  intros Hd He. unfold shr_fexp, fexp, emin, Zdigits2, shr_record_of_loc. rewrite Hd.
  replace (Z.max (53 + e - 53) (3 - 1024 - 53) - e) with 0 by lia. done.
Qed.

Lemma binary_round_int s m :
  Zpos m < 2 ^ 53 -> binary_round 53 1024 s m 0 = S754_finite s (int_mant m) (int_exp m).
Proof.
  intros H. pose proof (digits2_le_53 m H) as Hd. unfold binary_round.
  assert (shl_align m 0 (fexp 53 1024 (Zpos (digits2_pos m) + 0)) = (int_mant m, int_exp m)) as ->.
  { unfold shl_align, int_mant, int_exp, fexp, emin.
    rewrite Z.add_0_r. replace (Z.max _ _) with (Zpos (digits2_pos m) - 53) by lia.
    rewrite Z.sub_0_r.
    destruct (Zpos (digits2_pos m) - 53) eqn:E; [done|lia|done]. }
  assert (Hm := int_mant_digits m H).
  assert ((int_exp m <=? 1024 - 53) = true) as E by (apply Z.leb_le; unfold int_exp; lia).
  unfold binary_round_aux. rewrite shr_fexp_53 by (unfold int_exp; lia).
  cbn [shr_m loc_of_shr_record round_nearest_even].
  rewrite shr_fexp_53 by (unfold int_exp; lia). cbn [shr_m]. by rewrite E.
Qed.

Lemma of_int_pos m : Zpos m < 2 ^ 53 -> of_int (Zpos m) = S754_finite false (int_mant m) (int_exp m).
Proof. apply binary_round_int. Qed.

Lemma int_exp_mono a b : int_exp a < int_exp b -> Zpos a < Zpos b.
Proof.
  unfold int_exp. intros H. pose proof (digits2_bounds a). pose proof (digits2_bounds b).
  assert (2 ^ Zpos (digits2_pos a) <= 2 ^ (Zpos (digits2_pos b) - 1))
    by (apply Z.pow_le_mono_r; lia). lia.
Qed.

(** Counts below 2^53 compare as floats the way they compare as integers. *)
Lemma of_int_compare a b :
  0 <= a < 2 ^ 53 -> 0 <= b < 2 ^ 53 -> SFcompare (of_int a) (of_int b) = Some (a ?= b).
Proof.
  intros Ha Hb. destruct a as [|a|a], b as [|b|b]; try lia; try done.
  - rewrite of_int_pos by lia. done.
  - rewrite of_int_pos by lia. done.
  - rewrite !of_int_pos by lia. simpl.
    destruct (Z.compare_spec (int_exp a) (int_exp b)) as [E|E|E]; f_equal.
    + change (Pos.compare_cont Eq (int_mant a) (int_mant b)) with (int_mant a ?= int_mant b)%positive.
      pose proof (int_mant_value a ltac:(lia)) as Va. pose proof (int_mant_value b ltac:(lia)) as Vb.
      rewrite E in Va. pose proof (digits2_le_53 b ltac:(lia)).
      assert (0 < 2 ^ (- int_exp b)) by (apply Z.pow_pos_nonneg; unfold int_exp; lia).
      change ((Zpos (int_mant a) ?= Zpos (int_mant b)) = (Zpos a ?= Zpos b)).
      rewrite Va, Vb. symmetry. apply Zmult_compare_compat_r. lia.
    + apply int_exp_mono in E. symmetry. exact (proj2 (Z.compare_lt_iff _ _) E).
    + apply int_exp_mono in E. symmetry. exact (proj2 (Z.compare_gt_iff _ _) E).
Qed.

Lemma of_int_flt a b : 0 <= a < 2 ^ 53 -> 0 <= b < 2 ^ 53 -> flt (of_int a) (of_int b) = (a <? b).
Proof.
  intros Ha Hb. unfold flt, SFltb. rewrite of_int_compare by done.
  unfold Z.ltb. by destruct (a ?= b).
Qed.

Lemma trunc_of_int z : 0 <= z < 2 ^ 53 -> trunc (of_int z) = Some z.
Proof.
  intros H. destruct z as [|m|m]; [done| |lia].
  rewrite of_int_pos by lia. pose proof (int_mant_value m ltac:(lia)) as V.
  pose proof (digits2_le_53 m ltac:(lia)) as Hd. unfold trunc. f_equal.
  unfold int_exp in *. destruct (Zpos (digits2_pos m) - 53) as [|p|p] eqn:E.
  - rewrite V. change (- 0) with 0. rewrite Z.shiftl_0_r. lia.
  - lia.
  - rewrite V. rewrite Z.shiftr_div_pow2 by lia. change (- Zneg p) with (Zpos p).
    apply Z.div_mul. lia.
Qed.

(** A count below 2^53 survives the round trip through [float64]. *)
Lemma to_i64_of_int `{GoImpl} z : 0 <= z < 2 ^ 53 -> to_i64 (of_int z) = z.
Proof.
  intros Hz. unfold to_i64, to_range. rewrite trunc_of_int by done. crush.
Qed.

(** * Signs and mantissas of results *)

(** Not below zero (NaN included), and with a mantissa of the format. *)
Definition nonneg (x : float64) : bool :=
  match x with S754_zero s | S754_infinity s | S754_finite s _ _ => negb s | S754_nan => true end.

Definition mant_ok (x : float64) : Prop :=
  match x with S754_finite _ m _ => Zpos m < 2 ^ 53 | _ => True end.

Lemma shr_1_div r : 0 <= shr_m r -> shr_m (shr_1 r) = shr_m r / 2.
Proof.
  intros H. rewrite <- Z.div2_div. destruct r as [[|[p|p|]|p] ? ?]; simpl in *; try done; lia.
Qed.

Lemma iter_pos_shr p : forall r, 0 <= shr_m r -> shr_m (SpecFloat.iter_pos shr_1 p r) = shr_m r / 2 ^ Zpos p.
Proof.
  assert (forall r, 0 <= shr_m r -> 0 <= shr_m (shr_1 r)) as Hn.
  { intros r H. rewrite shr_1_div by done. apply Z.div_pos; lia. }
  induction p as [p IH|p IH|]; intros r H; cbn [SpecFloat.iter_pos].
  - rewrite !IH, shr_1_div, !Z.div_div; try lia; try (rewrite ?IH; auto; apply Z.div_pos; auto; lia).
    f_equal. replace (Zpos p~1) with (1 + Zpos p + Zpos p) by lia. rewrite !Z.pow_add_r by lia. lia.
  - rewrite !IH, !Z.div_div; try lia; try (rewrite ?IH; auto; apply Z.div_pos; auto; lia).
    f_equal. replace (Zpos p~0) with (Zpos p + Zpos p) by lia. rewrite !Z.pow_add_r by lia. lia.
  - by rewrite shr_1_div.
Qed.

Lemma shr_fexp_mant m e l : 0 <= m -> 0 <= shr_m (shr_fexp 53 1024 m e l).1 < 2 ^ 53.
Proof.
  intros H. unfold shr_fexp.
  assert (shr_m (shr_record_of_loc m l) = m) as Hm by (by destruct l as [|[]]).
  assert (m < 2 ^ Zdigits2 m) as Hd by (destruct m; [done|apply digits2_bounds|lia]).
  set (n := fexp 53 1024 (Zdigits2 m + e) - e).
  assert (Zdigits2 m - 53 <= n) as Hn by (unfold n, fexp; lia).
  assert (forall k, 0 <= k -> Zdigits2 m - 53 <= k -> 0 <= m / 2 ^ k < 2 ^ 53) as Hk.
  { intros k Hk0 Hk. split; [apply Z.div_pos; lia|]. apply Z.div_lt_upper_bound; [lia|].
    apply Z.lt_le_trans with (2 ^ Zdigits2 m); [done|]. rewrite <- Z.pow_add_r by lia.
    apply Z.pow_le_mono_r; lia. }
  destruct n as [|p|p] eqn:En; simpl.
  - rewrite Hm. replace m with (m / 2 ^ 0) by apply Z.div_1_r. apply Hk; lia.
  - rewrite iter_pos_shr by lia. rewrite Hm. apply Hk; lia.
  - rewrite Hm. replace m with (m / 2 ^ 0) by apply Z.div_1_r. apply Hk; lia.
Qed.

(** What rounding a non-negative mantissa gives. *)
Lemma round_aux_cases s m e l : 0 <= m ->
  let x := binary_round_aux 53 1024 s m e l in
  x = S754_zero s \/ x = S754_infinity s \/ exists m' e', x = S754_finite s m' e' /\ Zpos m' < 2 ^ 53.
Proof.
  intros H. unfold binary_round_aux.
  pose proof (shr_fexp_mant m e l H) as H1. destruct (shr_fexp 53 1024 m e l) as [r1 e1]. simpl in H1.
  match goal with |- context [shr_fexp _ _ ?m2 _ _] => assert (0 <= m2) as H2 end.
  { unfold round_nearest_even. destruct (loc_of_shr_record r1) as [|[]]; repeat case_bool; lia. }
  pose proof (shr_fexp_mant _ e1 loc_Exact H2) as H3. destruct (shr_fexp _ _ _ e1 _) as [r2 e2]. simpl in H3.
  destruct (shr_m r2) as [|m'|]; [by left| |lia]. case_bool; [right; right; eauto with lia|right; by left].
Qed.

Lemma round_aux_nonneg p e l : nonneg (binary_round_aux 53 1024 false (Zpos p) e l) = true.
Proof. by destruct (round_aux_cases false (Zpos p) e l) as [->|[->|(m & e' & -> & ?)]]. Qed.

Lemma fmul_mant x y : mant_ok (fmul x y).
Proof.
  destruct x as [| | |sx mx ex], y as [| | |sy my ey]; try done. unfold fmul, SFmul.
  by destruct (round_aux_cases (xorb sx sy) (Zpos (mx * my)) (ex + ey) loc_Exact) as [->|[->|(m & e & -> & ?)]].
Qed.

Lemma fmul_nonneg x y : nonneg x = true -> nonneg y = true -> nonneg (fmul x y) = true.
Proof.
  destruct x as [[]|[]| |[] mx ex], y as [[]|[]| |[] my ey]; intros; try done. unfold fmul, SFmul.
  by destruct (round_aux_cases (xorb false false) (Zpos (mx * my)) (ex + ey) loc_Exact) as [->|[->|(m & e & -> & ?)]].
Qed.

(** A product with a finite non-zero factor is a number. *)
Lemma fmul_finite_not_nan s m e y : is_nan y = false -> is_nan (fmul (S754_finite s m e) y) = false.
Proof.
  destruct y as [| | |sy my ey]; intros H; try done. unfold fmul, SFmul.
  by destruct (round_aux_cases (xorb s sy) (Zpos (m * my)) (e + ey) loc_Exact) as [->|[->|(m' & e' & -> & ?)]].
Qed.

Lemma of_int_cases z : 0 < z ->
  of_int z = S754_zero false \/ of_int z = S754_infinity false \/
  exists m e, of_int z = S754_finite false m e /\ Zpos m < 2 ^ 53.
Proof.
  destruct z as [|m|m]; intros H; [lia| |lia]. unfold of_int, binary_normalize, binary_round.
  destruct (shl_align _ _ _). by apply round_aux_cases.
Qed.

Lemma of_int_nonneg z : 0 <= z -> nonneg (of_int z) = true.
Proof.
  intros H. destruct (Z.eq_dec z 0) as [->|]; [done|].
  by destruct (of_int_cases z) as [->|[->|(m & e & -> & ?)]]; [lia|..].
Qed.

Lemma of_int_mant z : 0 <= z -> mant_ok (of_int z).
Proof.
  intros H. destruct (Z.eq_dec z 0) as [->|]; [done|].
  by destruct (of_int_cases z) as [->|[->|(m & e & -> & ?)]]; [lia|..].
Qed.

Lemma nonneg_cases x : nonneg x = true ->
  x = S754_zero false \/ x = S754_infinity false \/ x = S754_nan \/ exists m e, x = S754_finite false m e.
Proof. destruct x as [[]|[]| |[] m e]; try done; eauto 8. Qed.

Lemma fadd_nonneg_same x : nonneg x = true -> nonneg (fadd x x) = true.
Proof.
  intros [->|[->|[->|(m & e & ->)]]]%nonneg_cases; try done.
  unfold fadd, SFadd, cond_Zopp. generalize (shl_align m e (Z.min e e)).1. intros p. simpl. unfold binary_round.
  destruct (shl_align _ _ _). apply (round_aux_nonneg p0).
Qed.

Lemma ldexp_nonneg x e : nonneg x = true -> nonneg (ldexp x e) = true.
Proof.
  intros [->|[->|[->|(m & e' & ->)]]]%nonneg_cases; try done.
  unfold ldexp, SFldexp, binary_round. destruct (shl_align _ _ _). apply (round_aux_nonneg p).
Qed.

Lemma frexp_nonneg x : nonneg x = true -> nonneg (frexp x).1 = true.
Proof.
  intros [->|[->|[->|(m & e' & ->)]]]%nonneg_cases; try done.
  unfold frexp, SFfrexp. by repeat case_bool.
Qed.

Lemma pow_nonneg x n : nonneg x = true -> nonneg (pow x n) = true.
Proof.
  intros H. unfold pow. destruct n as [|i|]; try done.
  destruct x as [| | |s m e] eqn:Ex; try done. repeat case_bool; try done. rewrite <- Ex in *.
  pose proof (frexp_nonneg x H) as Hf. destruct (frexp x) as [x1 xe]. simpl in Hf.
  assert (forall a1 ae, nonneg a1 = true -> nonneg (pow_loop i a1 x1 ae xe).1 = true) as Hl.
  { clear -Hf. revert x1 Hf xe. induction i as [i IH|i IH|]; intros x1 Hf xe a1 ae Ha; cbn [pow_loop].
    all: assert (nonneg (fmul x1 x1) = true) by (by apply fmul_nonneg).
    all: assert (nonneg (fmul a1 x1) = true) by (by apply fmul_nonneg).
    all: case_bool; [done|]; try done.
    all: apply IH; try done; case_bool; try done; by apply fadd_nonneg_same. }
  specialize (Hl (of_int 1) 0 eq_refl). destruct (pow_loop i (of_int 1) x1 0 xe) as [a1 ae].
  by apply ldexp_nonneg.
Qed.

(** A number that compares at most an integer truncates to at most that integer. *)
Lemma trunc_le x z :
  nonneg x = true -> mant_ok x -> 0 <= z < 2 ^ 53 -> fle x (of_int z) = true ->
  exists t, trunc x = Some t /\ 0 <= t <= z.
Proof.
  intros Hs Hm Hz Hle. destruct x as [[]|[]| |[] m e]; try done.
  { exists 0. split; [done|lia]. }
  { by destruct z as [|p|p]; [|rewrite of_int_pos in Hle by lia|lia]. }
  destruct z as [|p|p]; [done| |lia]. rewrite of_int_pos, fle_finite in Hle by lia.
  pose proof (int_mant_value p ltac:(lia)) as V. pose proof (int_mant_digits p ltac:(lia)) as D.
  pose proof (digits2_bounds (int_mant p)) as B. rewrite D in B.
  assert (int_exp p <= 0) as He by (unfold int_exp; pose proof (digits2_le_53 p ltac:(lia)); lia).
  exists (match e with Zneg q => Z.shiftr (Zpos m) (Zpos q) | _ => Z.shiftl (Zpos m) e end). split; [done|].
  simpl in Hm. unfold Z.shiftl. destruct e as [|q|q]; [split; [lia|]|lia|].
  { rewrite V in Hle. destruct Hle as [Hle|[<- Hle]]; [lia|]. simpl. lia. }
  rewrite Z.shiftr_div_pow2 by lia. split; [apply Z.div_pos; lia|].
  apply Z.div_le_upper_bound; [lia|]. destruct Hle as [Hle|[He' Hle]].
  - assert (Zpos p * 2 ^ Zpos q = Zpos (int_mant p) * 2 ^ (Zpos q + int_exp p)) as E.
    { rewrite V, <- Z.mul_assoc, <- Z.pow_add_r by lia. do 2 f_equal. lia. }
    assert (2 ^ 1 <= 2 ^ (Zpos q + int_exp p)) by (apply Z.pow_le_mono_r; lia). nia.
  - rewrite V, <- He' in Hle. change (- Zneg q) with (Zpos q) in Hle. lia.
Qed.

Lemma to_i64_le `{GoImpl} x z :
  nonneg x = true -> mant_ok x -> 0 <= z < 2 ^ 53 -> fle x (of_int z) = true -> 0 <= to_i64 x <= z.
Proof.
  intros Hs Hm Hz Hle. destruct (trunc_le x z Hs Hm Hz Hle) as (t & Ht & Hr).
  unfold to_i64, to_range. rewrite Ht. crush.
Qed.

#[export] Hint Resolve to_i64_range to_u32_range : go.

(** * The floor of a quotient *)

Lemma round_nearest_even_cases m l : round_nearest_even m l = m \/ round_nearest_even m l = m + 1.
Proof. unfold round_nearest_even. destruct l as [|[]]; auto. destruct (Z.even m); auto. Qed.

Lemma digits_of_range q k : 0 < k -> 2 ^ (k - 1) <= q < 2 ^ k -> Zdigits2 q = k.
Proof.
  intros Hk Hq. assert (0 < 2 ^ (k - 1)) by (apply Z.pow_pos_nonneg; lia). destruct q as [|q|q]; try lia.
  pose proof (digits2_bounds q) as B. cbn [Zdigits2] in *.
  assert (k - 1 < Zpos (digits2_pos q)) by (apply (Z.pow_lt_mono_r_iff 2); lia).
  assert (Zpos (digits2_pos q) - 1 < k) by (apply (Z.pow_lt_mono_r_iff 2); lia). lia.
Qed.

Lemma shr_record_m q l : shr_m (shr_record_of_loc q l) = q.
Proof. by destruct l as [|[]]. Qed.

(** Normalising a mantissa of 53 or 54 bits. *)
Lemma shr_fexp_near q e l : -1070 <= e -> 2 ^ 52 <= q < 2 ^ 54 ->
  exists r e', shr_fexp 53 1024 q e l = (r, e') /\
    ((q < 2 ^ 53 /\ shr_m r = q /\ e' = e) \/ (2 ^ 53 <= q /\ shr_m r = q / 2 /\ e' = e + 1)).
Proof.
  intros He Hq. unfold shr_fexp, fexp, emin. destruct (Z.lt_ge_cases q (2 ^ 53)) as [H|H].
  - rewrite (digits_of_range q 53) by lia. replace (Z.max _ _ - e) with 0 by lia.
    eexists _, _. split; [reflexivity|]. left. by rewrite shr_record_m.
  - rewrite (digits_of_range q 54) by lia. replace (Z.max _ _ - e) with 1 by lia.
    eexists _, _. split; [reflexivity|]. right. split; [done|]. split; [|done]. cbn [SpecFloat.iter_pos].
    rewrite shr_1_div by (rewrite shr_record_m; lia). by rewrite shr_record_m.
Qed.

Lemma div_pow2_succ q k : 0 < k -> q / 2 / 2 ^ (k - 1) = q / 2 ^ k.
Proof. intros Hk. rewrite Z.div_div by lia. do 2 f_equal. rewrite <- Z.pow_succ_r by lia. f_equal. lia. Qed.

(** Rounding moves a mantissa of 53 or 54 bits by less than two units. *)
Lemma round_aux_near q e l : -1000 <= e -> e <= -3 -> 2 ^ 52 <= q < 2 ^ 54 ->
  exists m p, binary_round_aux 53 1024 false q e l = S754_finite false m (Zneg p) /\
    q / 2 ^ (- e) <= Zpos m / 2 ^ Zpos p <= (q + 2) / 2 ^ (- e).
Proof.
  intros He1 He2 Hq. unfold binary_round_aux.
  destruct (shr_fexp_near q e l) as (r1 & e1 & -> & H1); [lia..|].
  set (m1 := round_nearest_even _ _).
  assert (Hm1 : e <= e1 <= e + 1 /\ 2 ^ 52 <= m1 <= 2 ^ 53 /\ q / 2 ^ (- e) <= m1 / 2 ^ (- e1) <= (q + 2) / 2 ^ (- e)).
  { assert (shr_m r1 <= m1 <= shr_m r1 + 1) as Hm by (unfold m1; destruct (round_nearest_even_cases (shr_m r1) (loc_of_shr_record r1)); lia).
    clearbody m1. assert (0 < 2 ^ (- e)) by (apply Z.pow_pos_nonneg; lia).
    pose proof (Z.mul_div_le q 2 ltac:(lia)). pose proof (Z.mul_succ_div_gt q 2 ltac:(lia)).
    destruct H1 as [(Hlt & Hr & ->)|(Hge & Hr & ->)]; rewrite Hr in Hm; (split; [lia|]).
    - split; [lia|]. split; apply Z.div_le_mono; lia.
    - split; [lia|]. replace (- (e + 1)) with (- e - 1) by lia.
      assert (0 < 2 ^ (- e - 1)) by (apply Z.pow_pos_nonneg; lia).
      rewrite <- (div_pow2_succ q), <- (div_pow2_succ (q + 2)) by lia.
      split; apply Z.div_le_mono; try lia. replace (q + 2) with (q + 1 * 2) by lia. rewrite Z.div_add by lia. lia. }
  clearbody m1. destruct Hm1 as (He & Hm1 & Hv).
  destruct (shr_fexp_near m1 e1 loc_Exact) as (r2 & e2 & -> & H2); [lia..|].
  pose proof (Z.mul_div_le m1 2 ltac:(lia)). pose proof (Z.mul_succ_div_gt m1 2 ltac:(lia)).
  assert (Hm2 : 2 ^ 52 <= shr_m r2 /\ e2 <= -1 /\ shr_m r2 / 2 ^ (- e2) = m1 / 2 ^ (- e1)).
  { destruct H2 as [(Hlt & -> & ->)|(Hge & -> & ->)]; [lia|]. split; [lia|]. split; [lia|].
    replace (- (e1 + 1)) with (- e1 - 1) by lia. by rewrite div_pow2_succ by lia. }
  destruct Hm2 as (Hp & Hneg & Heq). destruct (shr_m r2) as [|m|m], e2 as [|p|p]; try lia.
  rewrite (proj2 (Z.leb_le _ _)) by lia. exists m, p. split; [done|]. change (- Z.neg p) with (Z.pos p) in Heq. by rewrite Heq.
Qed.

(** The significand of the quotient of two positive integers, before rounding. *)
Lemma quotient_significand (t p : positive) : Zpos t < 2 ^ 51 -> Zpos p < 2 ^ 53 ->
  let q := Zpos (int_mant t) * 2 ^ 53 / Zpos (int_mant p) in
  let k := 53 + int_exp p - int_exp t in
  3 <= k <= 110 /\ 2 ^ 52 <= q < 2 ^ 54 /\ q / 2 ^ k = Zpos t / Zpos p /\ (q + 2) / 2 ^ k = Zpos t / Zpos p.
Proof.
  intros Ht Hp q k.
  assert (Hbt := digits2_bounds t). assert (Hbp := digits2_bounds p).
  assert (Hdt : 1 <= Zpos (digits2_pos t) <= 51).
  { split; [lia|]. assert (Zpos (digits2_pos t) - 1 < 51); [|lia]. apply (Z.pow_lt_mono_r_iff 2); lia. }
  pose proof (digits2_le_53 p Hp) as Hdp.
  assert (Hk : k = 53 + Zpos (digits2_pos p) - Zpos (digits2_pos t)) by (unfold k, int_exp; lia).
  assert (HM := int_mant_value t ltac:(lia)). assert (HN := int_mant_value p Hp).
  assert (HMb := digits2_bounds (int_mant t)). rewrite int_mant_digits in HMb by lia.
  assert (HNb := digits2_bounds (int_mant p)). rewrite int_mant_digits in HNb by lia.
  assert (Hq : q = Zpos t * 2 ^ k / Zpos p).
  { unfold q. rewrite HM, HN. rewrite <- Z.mul_assoc, <- Z.pow_add_r by (unfold int_exp; lia).
    replace (- int_exp t + 53) with (k + - int_exp p) by (unfold k; lia).
    rewrite Z.pow_add_r, Z.mul_assoc by (unfold int_exp; lia). apply Z.div_mul_cancel_r; [lia|].
    apply Z.pow_nonzero; unfold int_exp; lia. }
  assert (H2k : 0 < 2 ^ k) by (apply Z.pow_pos_nonneg; lia).
  assert (Hbig : 4 * Zpos p < 2 ^ k).
  { assert (2 ^ (Zpos (digits2_pos p) + 2) <= 2 ^ k) by (apply Z.pow_le_mono_r; lia).
    rewrite Z.pow_add_r in * by lia. lia. }
  split; [lia|]. split.
  { clearbody k. unfold q. change (53 - 1) with 52 in *. split.
    - apply Z.div_le_lower_bound; [lia|]. nia.
    - apply Z.div_lt_upper_bound; [lia|]. nia. }
  assert (Hlow : q / 2 ^ k = Zpos t / Zpos p).
  { rewrite Hq, Z.div_div, (Z.mul_comm (Zpos p)), <- Z.div_div, Z.div_mul by lia. done. }
  split; [done|]. apply Z.le_antisymm; [|rewrite <- Hlow; apply Z.div_le_mono; lia].
  enough ((q + 2) / 2 ^ k < Zpos t / Zpos p + 1) by lia. apply Z.div_lt_upper_bound; [lia|].
  assert (Hqp : q * Zpos p <= Zpos t * 2 ^ k) by (rewrite Hq, Z.mul_comm; apply Z.mul_div_le; lia).
  pose proof (Z.mul_succ_div_gt (Zpos t) (Zpos p) ltac:(lia)). clearbody q. nia.
Qed.

(** The floor of the floating-point quotient of two integers is their integer
    quotient, for a dividend below 2^51. *)
Lemma floor_quotient t p : 0 <= t < 2 ^ 51 -> 0 < p < 2 ^ 53 ->
  ffloor (fdiv (of_int t) (of_int p)) = of_int (t / p).
Proof.
  intros Ht Hp. destruct p as [|p|p]; [lia| |lia]. destruct t as [|t|t]; [| |lia].
  { rewrite (of_int_pos p) by lia. done. }
  destruct (quotient_significand t p) as (Hk & Hq & Hl & Hu); [lia..|].
  rewrite (of_int_pos t), (of_int_pos p) by lia. unfold fdiv, SFdiv, SFdiv_core_binary.
  cbn [Zdigits2]. rewrite !int_mant_digits by lia. unfold fexp, emin. cbv zeta.
  replace (Z.min _ _) with (- (53 + int_exp p - int_exp t)) by lia.
  replace (int_exp t - int_exp p - - (53 + int_exp p - int_exp t)) with 53 by lia.
  cbv beta iota. rewrite Z.shiftl_mul_pow2 by lia.
  destruct (Z.div_eucl (Zpos (int_mant t) * 2 ^ 53) (Zpos (int_mant p))) as [q r] eqn:E.
  assert (q = Zpos (int_mant t) * 2 ^ 53 / Zpos (int_mant p)) as -> by (unfold Z.div; by rewrite E).
  set (q := _ / _) in *. set (k := 53 + int_exp p - int_exp t) in *.
  change (xorb false false) with false.
  match goal with |- context [binary_round_aux _ _ _ _ _ ?l] =>
    destruct (round_aux_near q (- k) l) as (m & e & -> & Hm); [lia..|] end.
  rewrite Z.opp_involutive in Hm. cbn [ffloor]. f_equal. rewrite Z.shiftr_div_pow2 by lia. lia.
Qed.
