(* ===== verification/LoadBalance.v ===== *)
(** The client-side load balancers of [src/loadbalance]: the group filter and the
    pickers of [round_robin], [hash], [leastactive], [random] and [fastest].

    A picker's [Build] receives a Go map of ready sub-connections; Go leaves the
    iteration order open, so [Build] here takes the map's entries as a list and
    every theorem holds for each order. *)
From S2P Require Import Prelude.

(** * gRPC's data, as far as the balancers read it *)

(** A value stored under a key of [attributes.Attributes] or of a context. *)
Inductive attr : Type :=
| AttrString (s : string)
| AttrUint32 (n : Z)
| AttrInt (n : Z)
| AttrOther.

Record Address : Type := { Addr : string; Attributes : gmap string attr }.

Record PickInfo : Type := { FullMethodName : string; Ctx : gmap string attr }.

(** [balancer.SubConn] is an interface value compared by identity. *)
Abbreviation SubConn := nat.

Inductive pick_error : Type := ErrNoSubConnAvailable | ErrLoadBalanceAvailable.

Abbreviation Filter := (PickInfo -> Address -> bool).

(** [b.filter == nil || b.filter(info, addr)] *)
Definition passes (f : option Filter) (info : PickInfo) (a : Address) : bool :=
  match f with None => true | Some f => f info a end.

(** [v, _ := x.(string)]: the zero value when the assertion fails. *)
Definition as_string (v : option attr) : string :=
  match v with Some (AttrString s) => s | _ => "" end.

(** [GroupFilterBuilder.Build] *)
Definition GroupFilter : Filter := fun info addr =>
  String.eqb (as_string (Attributes addr !! "group")) (as_string (Ctx info !! "group")).

(** * Round robin *)
Module RoundRobin.

Record subConn : Type := { conn : SubConn; addr : Address }.

Record Balancer : Type := { index : Z; connections : list subConn; filter : option Filter }.

Definition Build (flt : option Filter) (readySCs : list (SubConn * Address)) : Balancer :=
  {| index := -1;
     connections := (fun p => {| conn := p.1; addr := p.2 |}) <$> readySCs;
     filter := flt |}.

Definition candidates (b : Balancer) (info : PickInfo) : list subConn :=
  base.filter (fun c => passes (filter b) info (addr c) = true) (connections b).

(** [Pick]: the [int32] counter is advanced atomically and its truncated
    remainder indexes the candidates. *)
Definition Pick (b : Balancer) (info : PickInfo)
  : outcome (result pick_error SubConn) * Balancer :=
  let cands := candidates b info in
  if (length cands =? 0)%nat then (Returns (Err ErrNoSubConnAvailable), b)
  else
    let i := i32 (index b + 1) in
    let b' := {| index := i; connections := connections b; filter := filter b |} in
    let n := i32 (Z.of_nat (length cands)) in
    if n =? 0 then (Panics, b')
    else match slice_at cands (Z.rem i n) with
         | Some c => (Returns (Ok (conn c)), b')
         | None => (Panics, b')
         end.

(** [k] picks in a row, with the same request. *)
Fixpoint picks (k : nat) (b : Balancer) (info : PickInfo)
  : list (outcome (result pick_error SubConn)) * Balancer :=
  match k with
  | O => ([], b)
  | S k => let '(r, b1) := Pick b info in
           let '(rs, b2) := picks k b1 info in (r :: rs, b2)
  end.

End RoundRobin.

(** * Weighted round robin *)
Module WeightedRR.

Record weightConn : Type := {
  c : SubConn; weight : Z; currentWeight : Z; efficientWeight : Z; addr : Address }.

Record WeightBalancer : Type := { connections : list weightConn; filter : option Filter }.

Definition set_current (w : Z) (x : weightConn) : weightConn :=
  {| c := c x; weight := weight x; currentWeight := w;
     efficientWeight := efficientWeight x; addr := addr x |}.

Definition set_efficient (w : Z) (x : weightConn) : weightConn :=
  {| c := c x; weight := weight x; currentWeight := currentWeight x;
     efficientWeight := w; addr := addr x |}.

(** [Build]: the assertion [.(uint32)] on the weight attribute panics when the
    attribute is missing or of another type. *)
Fixpoint build_conns (readySCs : list (SubConn * Address)) : option (list weightConn) :=
  match readySCs with
  | [] => Some []
  | (sub, a) :: rest =>
      match Attributes a !! "weight" with
      | Some (AttrUint32 w) =>
          cs ← build_conns rest;
          Some ({| c := sub; weight := w; currentWeight := 0; efficientWeight := w; addr := a |} :: cs)
      | _ => None
      end
  end.

Definition Build (flt : option Filter) (readySCs : list (SubConn * Address)) : outcome WeightBalancer :=
  match build_conns readySCs with
  | Some cs => Returns {| connections := cs; filter := flt |}
  | None => Panics
  end.

(** The loop of [Pick]: the connections with their updated current weights, the
    running total and the position and current weight of the best one so far. *)
Fixpoint pick_loop (f : option Filter) (info : PickInfo) (i : nat) (l : list weightConn)
    (total : Z) (res : option (nat * Z)) : list weightConn * Z * option (nat * Z) :=
  match l with
  | [] => ([], total, res)
  | x :: l =>
      if passes f info (addr x) then
        let cw := u32 (currentWeight x + efficientWeight x) in
        let res' := match res with
                    | None => Some (i, cw)
                    | Some (j, w) => if w <? cw then Some (i, cw) else Some (j, w)
                    end in
        let '(l', total', r) :=
          pick_loop f info (S i) l (u32 (total + efficientWeight x)) res' in
        (set_current cw x :: l', total', r)
      else
        let '(l', total', r) := pick_loop f info (S i) l total res in
        (x :: l', total', r)
  end.

(** [Pick]: the position of the chosen connection, which its [Done] callback
    captures, or the error. *)
Definition Pick (w : WeightBalancer) (info : PickInfo) : result pick_error nat * WeightBalancer :=
  let '(l, total, res) := pick_loop (filter w) info 0 (connections w) 0 None in
  match res with
  | None => (Err ErrNoSubConnAvailable, {| connections := l; filter := filter w |})
  | Some (i, cw) =>
      (Ok i, {| connections := alter (set_current (u32 (cw - total))) i l; filter := filter w |})
  end.

(** The value that [Done] stores: saturating decrement on error, saturating
    increment on success. *)
Definition done_weight (failed : bool) (weight : Z) : Z :=
  if (failed && (weight =? 0)) || (negb failed && (weight =? MaxUint32)) then weight
  else if failed then u32 (weight - 1) else u32 (weight + 1).

Definition Done (w : WeightBalancer) (i : nat) (failed : bool) : WeightBalancer :=
  {| connections :=
       alter (fun x => set_efficient (done_weight failed (efficientWeight x)) x) i (connections w);
     filter := filter w |}.

(** The sub-connections chosen by [k] successive picks. *)
Fixpoint picks (k : nat) (w : WeightBalancer) (info : PickInfo) : list (option SubConn) :=
  match k with
  | O => []
  | S k => let '(r, w') := Pick w info in
           match r with
           | Ok i => (c <$> connections w' !! i) :: picks k w' info
           | Err _ => None :: picks k w' info
           end
  end.

(** The smooth weighted round robin that the code follows, over unbounded signed
    integers: the specification the [uint32] code is compared with. *)
Fixpoint swrr_loop (i : nat) (l : list (Z * Z)) (res : option (nat * Z)) : option (nat * Z) :=
  match l with
  | [] => res
  | (cur, eff) :: l =>
      let cw := cur + eff in
      let res' := match res with
                  | None => Some (i, cw)
                  | Some (j, w) => if w <? cw then Some (i, cw) else Some (j, w)
                  end in
      swrr_loop (S i) l res'
  end.

Definition swrr_step (l : list (Z * Z)) : option nat * list (Z * Z) :=
  let total := sum_of snd l in
  let l' := (fun p => (p.1 + p.2, p.2)) <$> l in
  match swrr_loop 0 l None with
  | None => (None, l')
  | Some (i, _) => (Some i, alter (fun p => (p.1 - total, p.2)) i l')
  end.

Fixpoint swrr_picks (k : nat) (l : list (Z * Z)) : list (option nat) :=
  match k with
  | O => []
  | S k => let '(r, l') := swrr_step l in r :: swrr_picks k l'
  end.

(** The states of a balancer: built from [uint32] weights, then any sequence of
    picks and of [Done] callbacks. *)
Inductive reachable : WeightBalancer -> Prop :=
| reach_build flt scs w :
    Build flt scs = Returns w ->
    Forall (fun x => is_u32 (weight x)) (connections w) -> reachable w
| reach_pick w info : reachable w -> reachable (Pick w info).2
| reach_done w i failed : reachable w -> reachable (Done w i failed).

End WeightedRR.

(** * Hashing *)
Module Hash.

(** [fnv.New32a] of the Go standard library: FNV-1a over the bytes. *)
Definition fnv32a_step (h b : Z) : Z := u32 (Z.lxor h b * 16777619).
Definition fnv32a (bytes : list Z) : Z := foldl fnv32a_step 2166136261 bytes.

Record Conn : Type := { conn : SubConn; Addr_ : Address }.

Record SimpleHashBalancer : Type := { conns : list Conn; filter : option Filter }.

Definition Build (flt : option Filter) (readySCs : list (SubConn * Address)) : SimpleHashBalancer :=
  {| conns := (fun p => {| conn := p.1; Addr_ := p.2 |}) <$> readySCs; filter := flt |}.

(** [Pick]; [sprintf info] stands for the bytes of [fmt.Sprintf("%v", info)]. *)
Definition Pick (sprintf : PickInfo -> list Z) (b : SimpleHashBalancer) (info : PickInfo)
  : outcome (result pick_error SubConn) :=
  let n := length (conns b) in
  if (n =? 0)%nat then Returns (Err ErrNoSubConnAvailable)
  else
    let m := u32 (Z.of_nat n) in
    if m =? 0 then Panics
    else match slice_at (conns b) (fnv32a (sprintf info) mod m) with
         | None => Panics
         | Some x => if passes (filter b) info (Addr_ x) then Returns (Ok (conn x))
                     else Returns (Err ErrNoSubConnAvailable)
         end.

(** ** Consistent hashing

    The ring is the third-party package [serialx/hashring]: a type of rings,
    [hashring.New] and [GetNode] are parameters. *)
Section Consistent.
Context {ring : Type} (New : list string -> ring) (GetNode : ring -> string -> option string).

(** A connection added by [UpdateState] has a nil sub-connection. *)
Record ConsistentConn : Type := { SubConn_ : option SubConn; Address_ : Address }.

(** The order in which [for addr := range conns] visits the keys. *)
Context (range : gmap string ConsistentConn -> list string).

Record ConsistentHashBalancer : Type := {
  hring : option ring; hconns : gmap string ConsistentConn; hfilter : option Filter }.

Definition BuildConsistent (flt : option Filter) (readySCs : list (SubConn * Address))
  : ConsistentHashBalancer :=
  let conns := foldl (fun m p =>
    <[Addr p.2 := {| SubConn_ := Some p.1; Address_ := p.2 |}]> m) ∅ readySCs in
  {| hring := Some (New (range conns)); hconns := conns; hfilter := flt |}.

Definition PickConsistent (b : ConsistentHashBalancer) (info : PickInfo)
  : result pick_error (option SubConn) :=
  match hring b with
  | None => Err ErrNoSubConnAvailable
  | Some r =>
      match GetNode r (FullMethodName info) with
      | None => Err ErrNoSubConnAvailable
      | Some server =>
          match hconns b !! server with
          | None => Err ErrNoSubConnAvailable
          | Some x => if passes (hfilter b) info (Address_ x) then Ok (SubConn_ x)
                      else Err ErrNoSubConnAvailable
          end
      end
  end.

Definition UpdateState (b : ConsistentHashBalancer) (addrs : list Address) : ConsistentHashBalancer :=
  {| hring := Some (New (Addr <$> addrs));
     hconns := foldl (fun m a => <[Addr a := {| SubConn_ := None; Address_ := a |}]> m) ∅ addrs;
     hfilter := hfilter b |}.
End Consistent.

End Hash.

(** * Least active *)
Module LeastActive.

Record activeConn : Type := { active : Z; conn : SubConn; address : Address }.

Record Balancer : Type := { connections : list activeConn; filter : Filter }.

Definition set_active (n : Z) (x : activeConn) : activeConn :=
  {| active := n; conn := conn x; address := address x |}.

(** [Build] replaces a nil filter by the one that accepts everything. *)
Definition Build (flt : option Filter) (readySCs : list (SubConn * Address)) : Balancer :=
  {| connections := (fun p => {| active := 0; conn := p.1; address := p.2 |}) <$> readySCs;
     filter := match flt with Some f => f | None => fun _ _ => true end |}.

Fixpoint scan (flt : Filter) (info : PickInfo) (i : nat) (l : list activeConn)
    (leastActiveCount : Z) (leastActiveConn : option nat) : option nat :=
  match l with
  | [] => leastActiveConn
  | x :: l =>
      if negb (flt info (address x)) then scan flt info (S i) l leastActiveCount leastActiveConn
      else if active x <? leastActiveCount then scan flt info (S i) l (active x) (Some i)
      else scan flt info (S i) l leastActiveCount leastActiveConn
  end.

Definition add_active (d : Z) (i : nat) (b : Balancer) : Balancer :=
  {| connections := alter (fun x => set_active (u32 (active x + d)) x) i (connections b);
     filter := filter b |}.

Definition Pick (b : Balancer) (info : PickInfo) : result pick_error nat * Balancer :=
  match scan (filter b) info 0 (connections b) MaxUint32 None with
  | None => (Err ErrLoadBalanceAvailable, b)
  | Some i => (Ok i, add_active 1 i b)
  end.

(** The [Done] callback: [atomic.AddUint32(&active, ^uint32(0))]. *)
Definition Done (i : nat) (b : Balancer) : Balancer := add_active MaxUint32 i b.

End LeastActive.

(** * Random *)
Module Random.

Record subConn : Type := { c : SubConn; addr : Address }.

Record Balancer : Type := { connections : list subConn; filter : option Filter }.

Definition Build (flt : option Filter) (readySCs : list (SubConn * Address)) : Balancer :=
  {| connections := (fun p => {| c := p.1; addr := p.2 |}) <$> readySCs; filter := flt |}.

(** [rand.Intn n]: panics unless [0 < n], else the draw [r], which the standard
    library promises to lie in [0, n). *)
Definition Intn (r n : Z) : outcome Z := if n <=? 0 then Panics else Returns (r mod n).

(** [Pick], given the raw value [r] that the generator produces. *)
Definition Pick (b : Balancer) (info : PickInfo) (r : Z) : outcome (result pick_error SubConn) :=
  let cands := base.filter (fun x => passes (filter b) info (addr x) = true) (connections b) in
  if (length cands =? 0)%nat then Returns (Err ErrNoSubConnAvailable)
  else match Intn r (Z.of_nat (length cands)) with
       | Panics => Panics
       | Returns idx => match slice_at cands idx with
                        | Some x => Returns (Ok (c x))
                        | None => Panics
                        end
       end.

Record weightConn : Type := { wc : SubConn; weight : Z; waddr : Address }.

Record WeightBalancer : Type := { wconnections : list weightConn; wfilter : option Filter }.

(** [weight, _ := ....(int)]: zero when the attribute is not set. *)
Definition attr_weight (a : Address) : Z :=
  match Attributes a !! "weight" with Some (AttrInt n) => n | _ => 0 end.

Definition BuildWeight (flt : option Filter) (readySCs : list (SubConn * Address)) : WeightBalancer :=
  {| wconnections := (fun p => {| wc := p.1; weight := attr_weight p.2; waddr := p.2 |}) <$> readySCs;
     wfilter := flt |}.

Fixpoint weight_loop (tgt : Z) (cands : list weightConn) : option weightConn :=
  match cands with
  | [] => None
  | x :: l => if tgt <? weight x then Some x else weight_loop (i64 (tgt - weight x)) l
  end.

Definition PickWeight (b : WeightBalancer) (info : PickInfo) (r : Z)
  : outcome (result pick_error SubConn) :=
  let cands := base.filter (fun x => passes (wfilter b) info (waddr x) = true) (wconnections b) in
  let totalWeight := foldl (fun t x => i64 (t + weight x)) 0 cands in
  if (length cands =? 0)%nat then Returns (Err ErrNoSubConnAvailable)
  else match Intn r totalWeight with
       | Panics => Panics
       | Returns tgt => match weight_loop tgt cands with
                        | Some x => Returns (Ok (wc x))
                        | None => Returns (Err ErrNoSubConnAvailable)
                        end
       end.

End Random.

(** * Fastest response *)
Module Fastest.

Record Conn : Type := { conn : SubConn; address : Address; Response : Z }.

Record Balancer : Type := { conns : list Conn; filter : option Filter }.

Definition Build (flt : option Filter) (readySCs : list (SubConn * Address)) : Balancer :=
  {| conns := (fun p => {| conn := p.1; address := p.2; Response := Millisecond * 100 |}) <$> readySCs;
     filter := flt |}.

Fixpoint scan (flt : option Filter) (info : PickInfo) (l : list Conn) (res : option Conn) : option Conn :=
  match l with
  | [] => res
  | x :: l =>
      if negb (passes flt info (address x)) then scan flt info l res
      else scan flt info l (match res with
                            | None => Some x
                            | Some y => if Response y >? Response x then Some x else Some y
                            end)
  end.

Definition Pick (b : Balancer) (info : PickInfo) : result pick_error SubConn :=
  if (length (conns b) =? 0)%nat then Err ErrNoSubConnAvailable
  else match scan (filter b) info (conns b) None with
       | None => Err ErrNoSubConnAvailable
       | Some x => Ok (conn x)
       end.

(** One [result] of the decoded Prometheus answer; an element of [Value] that is
    not a JSON string is [None]. *)
Record prom_result : Type := { Metric : gmap string string; Value : list (option string) }.

(** [strconv.ParseInt(s, 10, 64)]: an optional sign and decimal digits. *)
Fixpoint parse_digits (acc : Z) (l : list Ascii.ascii) : option Z :=
  match l with
  | [] => Some acc
  | a :: l => let d := Z.of_N (Ascii.N_of_ascii a) - 48 in
              if (0 <=? d) && (d <=? 9) then parse_digits (10 * acc + d) l else None
  end.

Definition ParseInt (s : string) : option Z :=
  let digits l := match l with [] => None | _ => parse_digits 0 l end in
  let v := match String.list_ascii_of_string s with
           | "+"%char :: l => digits l
           | "-"%char :: l => Z.opp <$> digits l
           | l => digits l
           end in
  match v with
  | Some z => if (- 2 ^ 63 <=? z) && (z <? 2 ^ 63) then Some z else None
  | None => None
  end.

Definition set_response (d : Z) (x : Conn) : Conn :=
  {| conn := conn x; address := address x; Response := d |}.

(** The inner loop over the connections. The panic of [Value[1].(string)] is
    raised only when some connection has the result's address. *)
Fixpoint update_conns (addr : string) (value : list (option string)) (l : list Conn) : outcome (list Conn) :=
  match l with
  | [] => Returns []
  | x :: l =>
      if String.eqb (Addr (address x)) addr then
        match value !! 1%nat with
        | Some (Some s) =>
            let x' := match ParseInt s with
                      | Some ms => set_response (i64 (ms * Millisecond)) x
                      | None => x
                      end in
            match update_conns addr value l with Returns l' => Returns (x' :: l') | Panics => Panics end
        | _ => Panics
        end
      else match update_conns addr value l with Returns l' => Returns (x :: l') | Panics => Panics end
  end.

Fixpoint update_results (rs : list prom_result) (l : list Conn) : outcome (list Conn) :=
  match rs with
  | [] => Returns l
  | r :: rs =>
      match Metric r !! "address" with
      | None => update_results rs l
      | Some a => match update_conns a (Value r) l with
                  | Returns l' => update_results rs l'
                  | Panics => Panics
                  end
      end
  end.

(** [updateRespTime] on a decoded answer [(Status, Data.Result)]; [None] stands
    for a failed request or a failed decoding. *)
Definition updateRespTime (b : Balancer) (resp : option (string * list prom_result)) : outcome Balancer :=
  match resp with
  | None => Returns b
  | Some (status, rs) =>
      if negb (String.eqb status "success") then Returns b
      else match update_results rs (conns b) with
           | Returns l => Returns {| conns := l; filter := filter b |}
           | Panics => Panics
           end
  end.

End Fastest.

(** * Theorems: round robin *)
Module RoundRobinFacts.
Import RoundRobin.

Definition picked (c : subConn) : outcome (result pick_error SubConn) := Returns (Ok (conn c)).

Lemma Pick_in_range b info :
  let cs := candidates b info in
  (0 < length cs)%nat -> Z.of_nat (length cs) < 2 ^ 31 ->
  -1 <= index b -> index b + 1 < 2 ^ 31 ->
  exists c, cs !! Z.to_nat ((index b + 1) mod Z.of_nat (length cs)) = Some c /\
    Pick b info = (picked c, {| index := index b + 1; connections := connections b; filter := filter b |}).
Proof.
  intros cs Hpos Hlen Hlo Hhi.
  set (n := Z.of_nat (length cs)) in *.
  pose proof (Z.mod_pos_bound (index b + 1) n ltac:(lia)) as Hb.
  destruct (lookup_lt_is_Some_2 cs (Z.to_nat ((index b + 1) mod n))) as [c Hc]; [lia|].
  exists c. split; [done|]. unfold Pick. fold cs.
  destruct (Nat.eqb_spec (length cs) 0); [lia|].
  rewrite !i32_small by (unfold is_i32; lia). fold n.
  destruct (Z.eqb_spec n 0); [lia|].
  rewrite Z.rem_mod_nonneg by lia. unfold slice_at.
  destruct (Z.ltb_spec ((index b + 1) mod n) 0); [lia|]. by rewrite Hc.
Qed.

Lemma candidates_index i b info :
  candidates {| index := i; connections := connections b; filter := filter b |} info = candidates b info.
Proof. done. Qed.

(** The [j]-th of [k] successive picks, as long as the counter does not wrap. *)
Lemma picks_nth k b info :
  let cs := candidates b info in
  (0 < length cs)%nat -> Z.of_nat (length cs) < 2 ^ 31 ->
  -1 <= index b -> index b + Z.of_nat k < 2 ^ 31 ->
  length (picks k b info).1 = k /\
  forall j, (j < k)%nat ->
    (picks k b info).1 !! j =
    picked <$> cs !! Z.to_nat ((index b + 1 + Z.of_nat j) mod Z.of_nat (length cs)).
Proof.
  intros cs. revert b cs. induction k as [|k IH]; intros b cs Hpos Hlen Hlo Hhi; [split; [done|lia]|].
  destruct (Pick_in_range b info) as (c & Hc & HP); [done|done|lia|lia|].
  simpl. rewrite HP.
  set (b1 := {| index := index b + 1; connections := connections b; filter := filter b |}).
  specialize (IH b1). destruct (picks k b1 info) as [rs b2] eqn:E. simpl in *.
  change (candidates b1 info) with cs in IH.
  destruct IH as [Hl Hj]; [done|done|lia|lia|].
  split; [lia|]. intros [|j] Hlt; simpl.
  - fold cs in Hc. rewrite Z.add_0_r, Hc. done.
  - rewrite Hj by lia. do 4 f_equal; lia.
Qed.

(** As long as the [int32] counter does not wrap, [n] successive picks over [n]
    candidates go through the candidate list exactly once, in order, starting
    after the last position used: no candidate is skipped or favoured, and no
    pick panics. *)
Theorem picks_rotate (b : Balancer) (info : PickInfo)
  (Hne : (0 < length (candidates b info))%nat)
  (Hlen : Z.of_nat (length (candidates b info)) < 2 ^ 31) (Hlo : -1 <= index b)
  (Hhi : index b + Z.of_nat (length (candidates b info)) < 2 ^ 31) :
  let n := length (candidates b info) in
  (picks n b info).1
    = picked <$> rotate (Z.to_nat ((index b + 1) mod Z.of_nat n)) (candidates b info)
  /\ (picks n b info).1 ≡ₚ (picked <$> candidates b info).
Proof.
  cbv zeta. set (cs := candidates b info) in *. remember (length cs) as n eqn:En.
  destruct (picks_nth n b info) as [Hl Hj]; fold cs; [lia|lia|done|done|].
  fold cs in Hj. rewrite <- En in Hj.
  pose proof (Z.mod_pos_bound (index b + 1) (Z.of_nat n) ltac:(lia)) as Hm.
  assert ((picks n b info).1 = picked <$> rotate (Z.to_nat ((index b + 1) mod Z.of_nat n)) cs) as ->.
  { apply list_eq_same_length with n; [|done|].
    - by rewrite length_fmap, length_rotate.
    - intros j x y Hlt Hx Hy. rewrite Hj in Hx by done.
      rewrite list_lookup_fmap, lookup_rotate_r in Hy by lia.
      unfold rotate_nat_add in Hy. rewrite Z2Nat.id, <- En in Hy by lia.
      rewrite Zplus_mod_idemp_l in Hy. congruence. }
  split; [done|]. apply fmap_Permutation. unfold rotate. apply rotate_permutation.
Qed.

(** The [int32] counter overflows: from [2^31 - 1] the next pick over three
    candidates computes a negative remainder and panics with an index out of range. *)
Theorem counter_overflow_panics : exists b info,
  index b = 2 ^ 31 - 1 /\ length (candidates b info) = 3%nat /\ (Pick b info).1 = Panics.
Proof.
  exists {| index := 2 ^ 31 - 1;
       connections := (fun n => {| conn := n; addr := {| Addr := ""; Attributes := ∅ |} |}) <$> [0; 1; 2]%nat;
       filter := None |}, {| FullMethodName := ""; Ctx := ∅ |}.
  repeat split; vm_compute; reflexivity.
Qed.

Lemma picks_rotate_witness : exists b info,
  (0 < length (candidates b info))%nat /\
  (picks (length (candidates b info)) b info).1 = [Returns (Ok 8%nat); Returns (Ok 9%nat); Returns (Ok 7%nat)].
Proof.
  pose (b := {| index := 3;
       connections := (fun n => {| conn := n; addr := {| Addr := ""; Attributes := ∅ |} |}) <$> [7; 8; 9]%nat;
       filter := None |}).
  pose (i := {| FullMethodName := ""; Ctx := ∅ |}).
  exists b, i. split; [vm_compute; lia|].
  rewrite (proj1 (picks_rotate b i ltac:(vm_compute; lia) ltac:(vm_compute; reflexivity)
                    ltac:(vm_compute; discriminate) ltac:(vm_compute; reflexivity))).
  vm_compute. reflexivity.
Defined.

End RoundRobinFacts.

(** * Theorems: weighted round robin *)
Module WeightedRRFacts.
Import WeightedRR.

(** The efficient weight that a pick adds to a connection. *)
Definition added (f : option Filter) (info : PickInfo) (x : weightConn) : Z :=
  if passes f info (addr x) then efficientWeight x else 0.

(** The loop adds the efficient weights to the connections and to the total
    alike, and the best position points at a connection that passes. *)
Lemma pick_loop_spec f info l : forall i total res l' total' r,
  pick_loop f info i l total res = (l', total', r) ->
  length l' = length l /\
  u32 (sum_of currentWeight l') = u32 (sum_of currentWeight l + sum_of (added f info) l) /\
  u32 total' = u32 (total + sum_of (added f info) l) /\
  (r = res \/ exists j x, r = Some ((i + j)%nat, currentWeight x) /\ l' !! j = Some x /\
                         passes f info (addr x) = true).
Proof.
  induction l as [|x l IH]; intros i total res l' total' r H; simpl in H.
  { simplify_eq. repeat split; auto; unfold sum_of, sumZ; simpl; f_equal; lia. }
  destruct (passes f info (addr x)) eqn:Hp.
  - set (cw := u32 (currentWeight x + efficientWeight x)) in *.
    set (res' := match res with None => _ | Some _ => _ end) in *.
    destruct (pick_loop f info (S i) l _ res') as [[l1 t1] r1] eqn:E. simplify_eq.
    destruct (IH _ _ _ _ _ _ E) as (Hlen & Hsum & Htot & Hr).
    change (sum_of (added f info) (x :: l)) with (added f info x + sum_of (added f info) l).
    change (sum_of currentWeight (x :: l)) with (currentWeight x + sum_of currentWeight l).
    change (sum_of currentWeight (set_current cw x :: l1)) with (cw + sum_of currentWeight l1).
    unfold added at 1 3. rewrite Hp. split; [simpl; lia|].
    split; [|split].
    + rewrite <- u32_add_r, Hsum, u32_add_r. unfold cw. rewrite u32_add_l. f_equal; lia.
    + rewrite Htot, u32_add_l. f_equal; lia.
    + destruct Hr as [->|(j & y & -> & Hy & Hpy)].
      * unfold res'. destruct res as [[k w]|]; [destruct (w <? cw)|];
          [right|by left|right]; exists 0%nat, (set_current cw x); rewrite Nat.add_0_r; auto.
      * right. exists (S j), y. rewrite Nat.add_succ_r. auto.
  - destruct (pick_loop f info (S i) l total res) as [[l1 t1] r1] eqn:E. simplify_eq.
    destruct (IH _ _ _ _ _ _ E) as (Hlen & Hsum & Htot & Hr).
    change (sum_of (added f info) (x :: l)) with (added f info x + sum_of (added f info) l).
    change (sum_of currentWeight (x :: ?k)) with (currentWeight x + sum_of currentWeight k).
    unfold added at 1 3. rewrite Hp. split; [simpl; lia|].
    split; [|split].
    + rewrite <- u32_add_r, Hsum, u32_add_r. f_equal; lia.
    + rewrite Htot. f_equal; lia.
    + destruct Hr as [->|(j & y & -> & Hy & Hpy)]; [by left|].
      right. exists (S j), y. rewrite Nat.add_succ_r. auto.
Qed.

Lemma pick_loop_none f info l : forall i total res,
  (pick_loop f info i l total res).2 = None <->
  res = None /\ Forall (fun x => passes f info (addr x) = false) l.
Proof.
  induction l as [|x l IH]; intros i total res; simpl; [by rewrite Forall_nil; intuition|].
  rewrite Forall_cons. destruct (passes f info (addr x)).
  - match goal with |- context [pick_loop _ _ _ _ ?t ?r'] =>
      specialize (IH (S i) t r'); destruct (pick_loop f info (S i) l t r') as [[? ?] ?] end.
    simpl in *. rewrite IH. split; [|by intros (_ & ? & _)].
    intros [H _]. destruct res as [[? w]|]; [destruct (w <? _)|]; done.
  - specialize (IH (S i) total res). destruct (pick_loop f info (S i) l total res) as [[? ?] ?].
    simpl in *. rewrite IH. tauto.
Qed.

(** Well-formedness of one connection: both weights are [uint32] values. *)
Definition conn_wf (x : weightConn) : Prop := is_u32 (currentWeight x) /\ is_u32 (efficientWeight x).

Lemma pick_loop_wf f info l : forall i total res,
  Forall conn_wf l -> Forall conn_wf (pick_loop f info i l total res).1.1.
Proof.
  induction l as [|x l IH]; intros i total res H; simpl; [done|].
  apply Forall_cons in H as [[Hc He] H].
  destruct (passes f info (addr x)).
  - match goal with |- context [pick_loop _ _ _ _ ?t ?r'] =>
      specialize (IH (S i) t r' H); destruct (pick_loop f info (S i) l t r') as [[? ?] ?] end.
    constructor; [split; simpl; auto with go|done].
  - specialize (IH (S i) total res H).
    destruct (pick_loop f info (S i) l total res) as [[? ?] ?]. by constructor.
Qed.

Lemma done_weight_range failed w : is_u32 w -> is_u32 (done_weight failed w).
Proof. unfold done_weight. intros. repeat case_bool; auto with go. Qed.

Lemma build_conns_spec scs cs :
  build_conns scs = Some cs ->
  Forall (fun x => currentWeight x = 0 /\ efficientWeight x = weight x) cs.
Proof.
  revert cs. induction scs as [|[sub a] scs IH]; intros cs H; simplify_eq/=; [done|].
  destruct (Attributes a !! "weight") as [[]|]; simplify_eq.
  destruct (build_conns scs) as [cs'|]; simplify_eq/=. constructor; auto.
Qed.

Lemma sum_current_zero l :
  Forall (fun x => currentWeight x = 0 /\ efficientWeight x = weight x) l -> sum_of currentWeight l = 0.
Proof. intros H. apply sum_of_zero. eapply Forall_impl; [done|]. by intros x [Hx _]. Qed.

(** A pick leaves the sum of all current weights unchanged modulo 2^32. *)
Lemma Pick_sum w info :
  u32 (sum_of currentWeight (connections (Pick w info).2)) = u32 (sum_of currentWeight (connections w)).
Proof.
  unfold Pick. destruct (pick_loop (filter w) info 0 (connections w) 0 None) as [[l t] r] eqn:E.
  pose proof (pick_loop_none (filter w) info (connections w) 0 0 None) as Hn. rewrite E in Hn.
  destruct (pick_loop_spec _ _ _ _ _ _ _ _ _ E) as (_ & Hsum & Htot & Hr).
  destruct r as [[i cw]|]; simpl.
  - destruct Hr as [|(j & x & [= -> ->] & Hx & _)]; [done|]. simpl.
    rewrite (sum_of_alter _ _ _ _ _ Hx). simpl.
    replace (sum_of currentWeight l + (u32 (currentWeight x - t) - currentWeight x))
      with (u32 (currentWeight x - t) + (sum_of currentWeight l - currentWeight x)) by lia.
    rewrite u32_add_l.
    replace (currentWeight x - t + (sum_of currentWeight l - currentWeight x))
      with (sum_of currentWeight l - t) by lia.
    rewrite <- u32_sub_l, Hsum, u32_sub_l, <- u32_sub_r, Htot, u32_sub_r. f_equal; lia.
  - rewrite Hsum. destruct (proj1 Hn eq_refl) as [_ HF]. f_equal.
    rewrite (sum_of_zero (added _ _)); [lia|]. eapply Forall_impl; [done|].
    intros x Hx. unfold added. by rewrite Hx.
Qed.

Lemma Pick_wf w info : Forall conn_wf (connections w) -> Forall conn_wf (connections (Pick w info).2).
Proof.
  intros H. unfold Pick.
  pose proof (pick_loop_wf (filter w) info (connections w) 0 0 None H) as Hwf.
  destruct (pick_loop _ _ _ _ _ _) as [[l t] [[i cw]|]]; simpl in *; [|done].
  apply Forall_alter_all; [done|]. intros x [_ He]. split; simpl; auto with go.
Qed.

(** In every reachable state the current weights are balanced: they sum to 0
    modulo 2^32, whatever requests were filtered and whichever callbacks ran; and
    both weights of every connection stay in the range of [uint32], so the
    saturating [Done] neither underflows nor overflows. *)
Theorem current_weights_balanced (w : WeightBalancer) (Hw : reachable w) :
  u32 (sum_of currentWeight (connections w)) = 0 /\ Forall conn_wf (connections w).
Proof.
  induction Hw as [flt scs w HB Hr|w info _ [IHs IHw]|w i failed _ [IHs IHw]].
  - unfold Build in HB. destruct (build_conns scs) as [cs|] eqn:E; simplify_eq.
    apply build_conns_spec in E. simpl in *. split; [by rewrite sum_current_zero|].
    assert (Forall (fun x => (currentWeight x = 0 /\ efficientWeight x = weight x) /\ is_u32 (weight x)) cs)
      as HF by (by apply Forall_and). eapply Forall_impl; [exact HF|].
    intros x [[Hc He] Hw]. unfold conn_wf. rewrite Hc, He. split; [unfold is_u32; lia|done].
  - split; [by rewrite Pick_sum|by apply Pick_wf].
  - split; simpl.
    + by rewrite sum_of_alter_same.
    + apply Forall_alter_all; [done|]. intros x [Hc He]. split; simpl; [done|].
      by apply done_weight_range.
Qed.

(** A connection of weight 1, and the state of three of them after [k] picks. *)
Definition unit_conn (i : nat) (cur : Z) : weightConn :=
  {| c := i; weight := 1; currentWeight := u32 cur; efficientWeight := 1;
     addr := {| Addr := ""; Attributes := ∅ |} |}.

Definition after (k : Z) : WeightBalancer :=
  {| connections := [unit_conn 0 (- (2 * k)); unit_conn 1 k; unit_conn 2 k]; filter := None |}.

Lemma after_step k info : 0 <= k -> 3 * (k + 1) < 2 ^ 32 -> Pick (after k) info = (Ok 0%nat, after (k + 1)).
Proof.
  intros H0 Hk. unfold Pick, after. simpl.
  assert (u32 (u32 (- (2 * k)) + 1) = if k =? 0 then 1 else 2 ^ 32 - 2 * k + 1) as Ha.
  { rewrite u32_add_l. unfold u32. destruct (Z.eqb_spec k 0) as [->|]; [done|].
    rewrite <- (Z_mod_plus_full _ 1 (2 ^ 32)), Z.mod_small; lia. }
  assert (u32 (u32 k + 1) = k + 1) as Hb by (rewrite u32_add_l; apply u32_small; unfold is_u32; lia).
  rewrite Ha, Hb. change (u32 (u32 (u32 (0 + 1) + 1) + 1)) with 3.
  destruct (Z.ltb_spec (if k =? 0 then 1 else 2 ^ 32 - 2 * k + 1) (k + 1)).
  { destruct (Z.eqb_spec k 0); lia. }
  destruct (Z.ltb_spec (if k =? 0 then 1 else 2 ^ 32 - 2 * k + 1) (k + 1)); [lia|].
  rewrite <- Ha. unfold unit_conn, set_current; simpl.
  assert (u32 (u32 (u32 (- (2 * k)) + 1) - 3) = u32 (- (2 * (k + 1)))) as ->.
  { rewrite u32_sub_l. rewrite <- u32_sub_l, u32_add_l, u32_sub_l. f_equal. lia. }
  by rewrite (u32_small (k + 1)) by (unfold is_u32; lia).
Qed.

(** The unsigned current weights starve connections: of three connections of
    equal weight 1, the first one is chosen by every one of the first [k] picks
    for all [k] up to [(2^32 - 1) / 3], where the signed algorithm alternates. *)
Theorem equal_weights_starve (k : nat) (info : PickInfo) (Hk : 3 * Z.of_nat k < 2 ^ 32) :
  picks k (after 0) info = replicate k (Some 0%nat)
  /\ swrr_picks 3 [(0, 1); (0, 1); (0, 1)] = [Some 0%nat; Some 1%nat; Some 2%nat].
Proof.
  split; [|done].
  assert (forall j, 0 <= j -> 3 * (j + Z.of_nat k) < 2 ^ 32 ->
                    picks k (after j) info = replicate k (Some 0%nat)) as H.
  { clear Hk. induction k as [|k IH]; intros j Hj Hlt; [done|].
    simpl. rewrite after_step by lia. f_equal. apply IH; lia. }
  apply (H 0); lia.
Qed.

Lemma equal_weights_starve_witness :
  3 * Z.of_nat 4 < 2 ^ 32 /\
  picks 4 (after 0) {| FullMethodName := ""; Ctx := ∅ |} = [Some 0%nat; Some 0%nat; Some 0%nat; Some 0%nat].
Proof.
  split; [vm_compute; reflexivity|].
  exact (proj1 (equal_weights_starve 4 {| FullMethodName := ""; Ctx := ∅ |} ltac:(vm_compute; reflexivity))).
Defined.

(** Weights 5, 1, 1: the second connection takes every pick from the third on. *)
Lemma heavy_connection_starves :
  let w i n := {| c := i; weight := n; currentWeight := 0; efficientWeight := n;
                  addr := {| Addr := ""; Attributes := ∅ |} |} in
  picks 21 {| connections := [w 0%nat 5; w 1%nat 1; w 2%nat 1]; filter := None |}
        {| FullMethodName := ""; Ctx := ∅ |} = [Some 0%nat; Some 0%nat] ++ replicate 19 (Some 1%nat)
  /\ swrr_picks 7 [(0, 5); (0, 1); (0, 1)] = Some <$> [0; 0; 1; 0; 2; 0; 0]%nat.
Proof. split; vm_compute; reflexivity. Qed.

Definition demo_scs : list (SubConn * Address) :=
  (fun n : nat => (n, {| Addr := ""; Attributes := {[ "weight" := AttrUint32 (Z.of_nat n) ]} |})) <$> [5; 1; 1]%nat.

Lemma current_weights_balanced_witness : exists w,
  Build None demo_scs = Returns w /\
  u32 (sum_of currentWeight (connections (Pick w {| FullMethodName := ""; Ctx := ∅ |}).2)) = 0.
Proof.
  eexists. split; [vm_compute; reflexivity|].
  apply current_weights_balanced, reach_pick.
  eapply (reach_build None demo_scs); [vm_compute; reflexivity|].
  repeat constructor; vm_compute; congruence.
Defined.

End WeightedRRFacts.

(** * Theorems: least active *)
Module LeastActiveFacts.
Import LeastActive.

(** What the scan knows: nothing below the count so far, or the first minimum. *)
Lemma scan_spec flt info l : forall i cnt best,
  (scan flt info i l cnt best = best /\
     Forall (fun y => flt info (address y) = true -> cnt <= active y) l) \/
  (exists j x, scan flt info i l cnt best = Some (i + j)%nat /\ l !! j = Some x /\
     flt info (address x) = true /\ active x < cnt /\
     Forall (fun y => flt info (address y) = true -> active x <= active y) l).
Proof.
  induction l as [|x l IH]; intros i cnt best; simpl; [left; auto|].
  destruct (flt info (address x)) eqn:Hp; simpl.
  - destruct (Z.ltb_spec (active x) cnt) as [Hlt|Hge].
    + destruct (IH (S i) (active x) (Some i)) as [[-> HF]|(j & y & -> & Hj & Hy & Hl & HF)]; right.
      * exists 0%nat, x. rewrite Nat.add_0_r. repeat split; auto. constructor; [lia|done].
      * exists (S j), y. rewrite Nat.add_succ_r. repeat split; auto; [lia|]. constructor; [lia|done].
    + destruct (IH (S i) cnt best) as [[-> HF]|(j & y & -> & Hj & Hy & Hl & HF)].
      * left. split; [done|]. constructor; auto.
      * right. exists (S j), y. rewrite Nat.add_succ_r. repeat split; auto. constructor; [lia|done].
  - destruct (IH (S i) cnt best) as [[-> HF]|(j & y & -> & Hj & Hy & Hl & HF)].
    + left. split; [done|]. constructor; [congruence|done].
    + right. exists (S j), y. rewrite Nat.add_succ_r. repeat split; auto. constructor; [congruence|done].
Qed.

Lemma add_active_inverse i b :
  Forall (fun x => is_u32 (active x)) (connections b) -> add_active MaxUint32 i (add_active 1 i b) = b.
Proof.
  intros H. unfold add_active. destruct b as [l flt]. simpl in *. f_equal.
  revert i. induction H as [|x l Hx H IH]; intros [|i]; simpl; try done.
  - f_equal. destruct x as [a cn ad]. unfold set_active. simpl in *. f_equal.
    rewrite u32_add_l. unfold MaxUint32. replace (a + 1 + (2 ^ 32 - 1)) with (a + 1 * 2 ^ 32) by lia.
    unfold u32. rewrite Z_mod_plus_full. by apply Z.mod_small.
  - f_equal. apply IH.
Qed.

(** [Pick] chooses a connection that passes the filter and has the least
    number of active calls among those that do, counts the new call on it and on
    no other, and its [Done] callback undoes exactly that count; when it reports
    an error no passing connection has room for another call. *)
Theorem Pick_least_active (b : Balancer) (info : PickInfo)
  (Hwf : Forall (fun x => is_u32 (active x)) (connections b)) :
  match Pick b info with
  | (Ok i, b') => exists x, connections b !! i = Some x /\ filter b info (address x) = true /\
      Forall (fun y => filter b info (address y) = true -> active x <= active y) (connections b) /\
      b' = add_active 1 i b /\ Done i b' = b
  | (Err e, b') => e = ErrLoadBalanceAvailable /\ b' = b /\
      Forall (fun y => filter b info (address y) = true -> active y = MaxUint32) (connections b)
  end.
Proof.
  unfold Pick.
  destruct (scan_spec (filter b) info (connections b) 0 MaxUint32 None)
    as [[-> HF]|(j & x & -> & Hj & Hp & _ & HF)].
  - repeat split. eapply Forall_impl; [exact (proj2 (Forall_and _ _) (conj Hwf HF))|].
    intros y [Hy Hm] Hpass. specialize (Hm Hpass). unfold is_u32, MaxUint32 in *. lia.
  - exists x. repeat split; auto. by apply add_active_inverse.
Qed.

Lemma Pick_least_active_witness :
  let a n i := {| active := n; conn := i; address := {| Addr := ""; Attributes := ∅ |} |} in
  let b := {| connections := [a 4 10%nat; a 2 11%nat; a 3 12%nat]; filter := fun _ _ => true |} in
  let i := {| FullMethodName := ""; Ctx := ∅ |} in
  (Pick b i).1 = Ok 1%nat /\ Done 1 (Pick b i).2 = b.
Proof.
  intros a b i. split; [vm_compute; reflexivity|].
  assert (Forall (fun x => is_u32 (active x)) (connections b)) as H
    by (repeat constructor; vm_compute; congruence).
  pose proof (Pick_least_active b i H) as T.
  destruct T as (x & _ & _ & _ & _ & Hd). exact Hd.
Defined.

End LeastActiveFacts.

(** * Theorems: weighted random *)
Module RandomFacts.
Import Random.

Definition wtotal (l : list weightConn) : Z := sum_of weight l.

Lemma foldl_total l : forall t,
  0 <= t -> Forall (fun x => 0 <= weight x) l -> t + wtotal l < 2 ^ 63 ->
  foldl (fun t x => i64 (t + weight x)) t l = t + wtotal l.
Proof.
  induction l as [|x l IH]; intros t Ht Hw Hlt; [unfold wtotal, sum_of, sumZ; simpl; lia|].
  apply Forall_cons in Hw as [Hx Hw]. unfold wtotal in *. rewrite sum_of_cons in *. simpl.
  pose proof (sum_of_nonneg _ _ Hw). rewrite i64_small by (unfold is_i64; lia).
  rewrite IH by (auto; lia). lia.
Qed.

(** A draw inside the interval of the [j]-th candidate chooses it. *)
Lemma weight_loop_interval l : forall tgt j x,
  Forall (fun x => 0 <= weight x) l -> wtotal l < 2 ^ 63 -> l !! j = Some x ->
  wtotal (take j l) <= tgt < wtotal (take j l) + weight x -> weight_loop tgt l = Some x.
Proof.
  induction l as [|y l IH]; intros tgt [|j] x Hw Hlt Hj Ht; simplify_eq/=;
    apply Forall_cons in Hw as [Hy Hw]; unfold wtotal in *; rewrite ?sum_of_cons in *.
  - unfold sum_of, sumZ in Ht. simpl in Ht. destruct (Z.ltb_spec tgt (weight x)); [done|lia].
  - pose proof (sum_of_nonneg _ _ Hw). pose proof (sum_of_nonneg weight (take j l) ltac:(by apply Forall_take)).
    assert (sum_of weight (take j l) + weight x <= sum_of weight l).
    { rewrite <- (take_drop_middle l j x Hj) at 2. rewrite sum_of_app, sum_of_cons.
      pose proof (sum_of_nonneg weight (drop (S j) l) ltac:(by apply Forall_drop)). lia. }
    destruct (Z.ltb_spec tgt (weight y)); [lia|].
    rewrite i64_small by (unfold is_i64; lia). apply (IH _ j); auto; lia.
Qed.

(** Every draw lies in the interval of some candidate. *)
Lemma interval_exists l tgt :
  Forall (fun x => 0 <= weight x) l -> 0 <= tgt < wtotal l ->
  exists j x, l !! j = Some x /\ wtotal (take j l) <= tgt < wtotal (take j l) + weight x.
Proof.
  revert tgt. unfold wtotal. induction l as [|y l IH]; intros tgt Hw Ht.
  { unfold sum_of, sumZ in Ht. simpl in Ht. lia. }
  apply Forall_cons in Hw as [Hy Hw]. rewrite sum_of_cons in Ht.
  destruct (Z.lt_ge_cases tgt (weight y)).
  - exists 0%nat, y. unfold sum_of at 1 2, sumZ; simpl. split; [done|lia].
  - destruct (IH (tgt - weight y) Hw) as (j & x & Hj & Hr); [lia|].
    exists (S j), x. simpl. rewrite sum_of_cons. split; [done|lia].
Qed.

(** The weighted random pick is proportional: with non-negative weights whose
    total is positive and fits an [int], a draw [r mod total] that falls in the
    [weight]-long interval of a candidate chooses that candidate, the intervals
    cover every draw, and the fallback error is never reached. *)
Theorem PickWeight_proportional (b : WeightBalancer) (info : PickInfo) (r : Z)
  (cands : list weightConn)
  (Hc : cands = base.filter (fun x => passes (wfilter b) info (waddr x) = true) (wconnections b))
  (Hw : Forall (fun x => 0 <= weight x) cands) (Hpos : 0 < wtotal cands) (Hlt : wtotal cands < 2 ^ 63) :
  (forall j x, cands !! j = Some x ->
     wtotal (take j cands) <= r mod wtotal cands < wtotal (take j cands) + weight x ->
     PickWeight b info r = Returns (Ok (wc x))) /\
  exists j x, cands !! j = Some x /\
     wtotal (take j cands) <= r mod wtotal cands < wtotal (take j cands) + weight x.
Proof.
  pose proof (Z.mod_pos_bound r (wtotal cands) Hpos) as Hr.
  split; [|by apply interval_exists].
  intros j x Hj Hx. unfold PickWeight. rewrite <- Hc.
  rewrite foldl_total, Z.add_0_l by (auto; lia).
  destruct cands as [|y l] eqn:E; [done|]. simpl (length _ =? 0)%nat. cbv iota. rewrite <- E in *.
  unfold Intn. destruct (Z.leb_spec (wtotal cands) 0); [lia|].
  by rewrite (weight_loop_interval cands _ j x).
Qed.

Lemma PickWeight_proportional_witness :
  let x i w := {| wc := i; weight := w; waddr := {| Addr := ""; Attributes := ∅ |} |} in
  let b := {| wconnections := [x 0%nat 2; x 1%nat 0; x 2%nat 3]; wfilter := None |} in
  PickWeight b {| FullMethodName := ""; Ctx := ∅ |} 14 = Returns (Ok 2%nat).
Proof.
  intros x b.
  assert (Forall (fun y => 0 <= weight y) (wconnections b)) as Hw
    by (repeat constructor; vm_compute; congruence).
  pose proof (PickWeight_proportional b {| FullMethodName := ""; Ctx := ∅ |} 14 (wconnections b)
                eq_refl Hw ltac:(vm_compute; reflexivity) ltac:(vm_compute; reflexivity)) as [T _].
  apply (T 2%nat (x 2%nat 3)); [reflexivity|vm_compute; split; congruence].
Defined.

(** Weights default to zero when the attribute is missing, and a total of zero
    makes [rand.Intn] panic although candidates are available. *)
Lemma PickWeight_zero_total_panics : exists readySCs info,
  readySCs <> [] /\ forall r, PickWeight (BuildWeight None readySCs) info r = Panics.
Proof.
  exists [(0%nat, {| Addr := ""; Attributes := ∅ |})], {| FullMethodName := ""; Ctx := ∅ |}.
  split; [done|]. intros r. vm_compute. reflexivity.
Qed.

End RandomFacts.

(** * Theorems: fastest response *)
Module FastestFacts.
Import Fastest.

Lemma fastest_scan_spec flt info l : forall res,
  match scan flt info l res with
  | None => res = None /\ Forall (fun y => passes flt info (address y) = false) l
  | Some x => (res = Some x \/ (x ∈ l /\ passes flt info (address x) = true)) /\
      Forall (fun y => passes flt info (address y) = true -> Response x <= Response y) l /\
      (forall y, res = Some y -> Response x <= Response y)
  end.
Proof.
  induction l as [|z l IH]; intros res; simpl.
  { destruct res; repeat split; auto. intros y [= ->]. lia. }
  destruct (passes flt info (address z)) eqn:Hp; simpl.
  - set (res' := match res with None => Some z | Some y => _ end).
    specialize (IH res'). destruct (scan flt info l res') as [x|].
    + destruct IH as (Hx & HF & Hmin).
      assert (Response x <= Response z /\ forall y, res = Some y -> Response x <= Response y) as [Hz Hr].
      { unfold res' in Hmin. destruct res as [y|]; [destruct (Z.gtb_spec (Response y) (Response z))|];
          specialize (Hmin _ eq_refl); split; intros; simplify_eq; lia. }
      split; [|split; [constructor; auto|exact Hr]].
      destruct Hx as [Hx|[? ?]]; [|right; split; [by right|done]].
      unfold res' in Hx. destruct res as [y|]; [destruct (Response y >? Response z)|];
        simplify_eq; first [by left | right; split; [by left|done]].
    + destruct IH as [Hr _]. unfold res' in Hr. destruct res; [destruct (_ >? _)|]; done.
  - specialize (IH res). destruct (scan flt info l res) as [x|].
    + destruct IH as (Hx & HF & Hmin). split; [|split; [constructor; [congruence|done]|done]].
      destruct Hx as [->|[? ?]]; [by left|right; split; [by right|done]].
    + destruct IH as [-> HF]. split; [done|]. by constructor.
Qed.

(** The picked connection passes the filter and no passing connection answered
    faster; the error means that none passes. *)
Lemma Pick_fastest b info :
  match Pick b info with
  | Ok s => exists x, x ∈ conns b /\ conn x = s /\ passes (filter b) info (address x) = true /\
      Forall (fun y => passes (filter b) info (address y) = true -> Response x <= Response y) (conns b)
  | Err e => e = ErrNoSubConnAvailable /\
      Forall (fun y => passes (filter b) info (address y) = false) (conns b)
  end.
Proof.
  unfold Pick. destruct (Nat.eqb_spec (length (conns b)) 0) as [E|_].
  { split; [done|]. by destruct (conns b). }
  pose proof (fastest_scan_spec (filter b) info (conns b) None) as H.
  destruct (scan _ _ _ _) as [x|]; [|tauto].
  destruct H as ([?|[? ?]] & HF & _); [done|]. eauto.
Qed.

End FastestFacts.

(** * Theorems: hashing *)
Module HashFacts.
Import Hash.

Lemma fnv32a_range bytes : is_u32 (fnv32a bytes).
Proof.
  unfold fnv32a.
  assert (forall h, is_u32 h -> is_u32 (foldl fnv32a_step h bytes)) as H.
  { induction bytes as [|x l IH]; intros h Hh; simpl; [done|]. apply IH. unfold fnv32a_step. auto with go. }
  apply H. unfold is_u32. lia.
Qed.

(** A hash always indexes inside the list: [Pick] never panics. *)
Lemma hash_Pick_no_panic sprintf b info :
  Z.of_nat (length (conns b)) < 2 ^ 32 -> Pick sprintf b info <> Panics.
Proof.
  intros Hlen. unfold Pick. destruct (Nat.eqb_spec (length (conns b)) 0); [done|].
  rewrite u32_small by (unfold is_u32; lia).
  destruct (Z.eqb_spec (Z.of_nat (length (conns b))) 0); [lia|].
  destruct (slice_at_Some (conns b) (fnv32a (sprintf info) mod Z.of_nat (length (conns b)))) as [x ->].
  - apply Z.mod_pos_bound. lia.
  - by destruct (passes _ _ _).
Qed.

(** After [UpdateState] every successful pick hands gRPC a nil sub-connection. *)
Lemma UpdateState_nil_subconn {ring} (New : list string -> ring) GetNode b addrs info s :
  PickConsistent GetNode (UpdateState New b addrs) info = Ok s -> s = None.
Proof.
  assert (forall m : gmap string ConsistentConn,
    (forall k x, m !! k = Some x -> SubConn_ x = None) ->
    forall k x, foldl (fun m a => <[Addr a := {| SubConn_ := None; Address_ := a |}]> m) m addrs !! k = Some x ->
    SubConn_ x = None) as H.
  { induction addrs as [|a l IH]; intros m Hm; simpl; [done|]. apply IH.
    intros k x. rewrite lookup_insert. case_decide; [by intros [= <-]|apply Hm]. }
  unfold PickConsistent, UpdateState. simpl. destruct (GetNode _ _) as [server|]; [|done].
  destruct (foldl _ _ _ !! server) as [x|] eqn:E; [|done].
  apply H in E; [|intros ?? Hx; by rewrite lookup_empty in Hx].
  destruct (passes _ _ _); [|done]. intros [= <-]. done.
Qed.

End HashFacts.
