(* ===== verification/Errs.v ===== *)
(** The error package [src/internal/errs]: the framework's wrapped errors
    ([error.go]), the structured errors and the aggregator ([enhanced_errors.go]). *)
From S2P Require Import Prelude.
#[local] Set Warnings "-register-all".

(** * Error values *)

(** The sentinels of [error.go]. *)
Inductive sentinel : Type :=
| errServerListening | errSeverRegister | errFailedServe | errServerClose | errServerAlreadyRunning
| errClientCreateRegistry | errClientDial | errClusterNoResponse | errRateLimitClose
| errLoadBalanceAvailable.

#[export] Instance sentinel_eq_dec : EqDecision sentinel.
Proof. solve_decision. Defined.

Abbreviation ErrorSeverity := Z.
Definition SeverityInfo : ErrorSeverity := 0.
Definition SeverityWarning : ErrorSeverity := 1.
Definition SeverityError : ErrorSeverity := 2.
Definition SeverityCritical : ErrorSeverity := 3.
Definition SeverityFatal : ErrorSeverity := 4.

Definition severity_String (s : ErrorSeverity) : string :=
  if s =? SeverityInfo then "INFO" else if s =? SeverityWarning then "WARNING"
  else if s =? SeverityError then "ERROR" else if s =? SeverityCritical then "CRITICAL"
  else if s =? SeverityFatal then "FATAL" else "UNKNOWN".

Abbreviation ErrorRecoveryStrategy := Z.
Definition RecoveryRetry : ErrorRecoveryStrategy := 0.
Definition RecoveryFallback : ErrorRecoveryStrategy := 1.
Definition RecoveryCircuitBreak : ErrorRecoveryStrategy := 2.
Definition RecoveryIgnore : ErrorRecoveryStrategy := 3.
Definition RecoveryAbort : ErrorRecoveryStrategy := 4.

Definition strategy_String (s : ErrorRecoveryStrategy) : string :=
  if s =? RecoveryRetry then "RETRY" else if s =? RecoveryFallback then "FALLBACK"
  else if s =? RecoveryCircuitBreak then "CIRCUIT_BREAK" else if s =? RecoveryIgnore then "IGNORE"
  else if s =? RecoveryAbort then "ABORT" else "UNKNOWN".

(** gRPC status codes, by number. *)
Definition codes_OK : Z := 0.
Definition codes_Unknown : Z := 2.
Definition codes_Internal : Z := 13.

Definition mapSeverityToGRPCCode (s : ErrorSeverity) : Z :=
  if s =? SeverityInfo then codes_OK else if s =? SeverityWarning then codes_Internal
  else if s =? SeverityError then codes_Internal else if s =? SeverityCritical then codes_Internal
  else if s =? SeverityFatal then codes_Internal else codes_Unknown.

Definition chooseDefaultRecoveryStrategy (s : ErrorSeverity) : ErrorRecoveryStrategy :=
  if s =? SeverityInfo then RecoveryIgnore else if s =? SeverityWarning then RecoveryRetry
  else if s =? SeverityError then RecoveryFallback else if s =? SeverityCritical then RecoveryCircuitBreak
  else if s =? SeverityFatal then RecoveryAbort else RecoveryRetry.

(** The struct [enhancedError] over the type of its cause; metadata values are
    the keys of an arbitrary Go value, kept abstract as strings. *)
Record enhancedErrorOf (E : Type) : Type := {
  id : string; code : string; message : string; grpcCode : Z; severity : ErrorSeverity;
  category : string; metadata : gmap string string; recoveryStrategy : ErrorRecoveryStrategy;
  trace : list string; isTimeout : bool; isTemporary : bool; cause : option E;
  timestamp : Z; callerInfo : string }.
Arguments id {E}. Arguments code {E}. Arguments message {E}. Arguments grpcCode {E}.
Arguments severity {E}. Arguments category {E}. Arguments metadata {E}. Arguments recoveryStrategy {E}.
Arguments trace {E}. Arguments isTimeout {E}. Arguments isTemporary {E}. Arguments cause {E}.
Arguments timestamp {E}. Arguments callerInfo {E}.

(** A Go [error]: a sentinel, an [errors.New] value, a gRPC status, an
    [fmt.Errorf] with its wrapped errors, or an enhanced error. *)
Inductive error : Type :=
| Sentinel (s : sentinel)
| New (msg : string)
| Status (code : Z) (msg : string)
| Wrap (errs : list error)
| Enhanced (e : enhancedErrorOf error).

Abbreviation enhancedError := (enhancedErrorOf error).

(** [fmt.Errorf("%w: %w", s, err)] of [error.go]. *)
Definition ErrServerListening (err : error) : error := Wrap [Sentinel errServerListening; err].
Definition ErrServerRegister (err : error) : error := Wrap [Sentinel errSeverRegister; err].
Definition ErrFailedServe (err : error) : error := Wrap [Sentinel errFailedServe; err].
Definition ErrServerClose (err : error) : error := Wrap [Sentinel errServerClose; err].
Definition ErrServerAlreadyRunning : error := Sentinel errServerAlreadyRunning.
Definition ErrClientCreateRegistry (err : error) : error := Wrap [Sentinel errClientCreateRegistry; err].
Definition ErrClientDial (target : string) (err : error) : error := Wrap [Sentinel errClientDial; err].
Definition ErrClusterNoResponse (err : error) : error := Wrap [Sentinel errClusterNoResponse; err].
Definition ErrRateLimitClose : error := Sentinel errRateLimitClose.
Definition ErrLoadBalanceAvailable : error := Sentinel errLoadBalanceAvailable.

(** [errors.Is(err, sentinel)]: the error or one it wraps. *)
Fixpoint errors_Is (err : error) (s : sentinel) : bool :=
  match err with
  | Sentinel s' => bool_decide (s = s')
  | Wrap l => existsb (fun e => errors_Is e s) l
  | _ => false
  end.

(** What the runtime supplies when an error is built: the id, the stack, the
    caller and the time. *)
Record frame : Type := { f_id : string; f_trace : list string; f_caller : string; f_now : Z }.

Definition NewEnhancedError (f : frame) (cd msg : string) (sev : ErrorSeverity) (cat : string) : enhancedError :=
  {| id := f_id f; code := cd; message := msg; grpcCode := mapSeverityToGRPCCode sev;
     severity := sev; category := cat; metadata := ∅;
     recoveryStrategy := chooseDefaultRecoveryStrategy sev; trace := f_trace f;
     isTimeout := false; isTemporary := false; cause := None; timestamp := f_now f;
     callerInfo := f_caller f |}.

Definition GRPCStatus (e : enhancedError) : Z * string := (grpcCode e, message e).

Definition Error (e : enhancedError) : string :=
  "[" +:+ category e +:+ "][" +:+ severity_String (severity e) +:+ "] " +:+ code e +:+ ": " +:+ message e.

Definition WithMetadata (e : enhancedError) (k v : string) : enhancedError :=
  {| id := id e; code := code e; message := message e; grpcCode := grpcCode e; severity := severity e;
     category := category e; metadata := <[k := v]> (metadata e); recoveryStrategy := recoveryStrategy e;
     trace := trace e; isTimeout := isTimeout e; isTemporary := isTemporary e; cause := cause e;
     timestamp := timestamp e; callerInfo := callerInfo e |}.

Definition WithRecoveryStrategy (e : enhancedError) (s : ErrorRecoveryStrategy) : enhancedError :=
  {| id := id e; code := code e; message := message e; grpcCode := grpcCode e; severity := severity e;
     category := category e; metadata := metadata e; recoveryStrategy := s;
     trace := trace e; isTimeout := isTimeout e; isTemporary := isTemporary e; cause := cause e;
     timestamp := timestamp e; callerInfo := callerInfo e |}.

(** [FromError]: [status.FromError] and [err.Error()] of the wrapped error are
    gRPC's and the error's own; nil is [None]. *)
Definition FromError (status_FromError : error -> option (Z * string)) (error_text : error -> string)
    (f : frame) (err : option error) (cd : string) (sev : ErrorSeverity) (cat : string)
  : option enhancedError :=
  match err with
  | None => None
  | Some (Enhanced e) => Some e
  | Some err =>
      let '(c, m) := match status_FromError err with
                     | Some (c, m) => (c, m)
                     | None => (mapSeverityToGRPCCode sev, error_text err)
                     end in
      Some {| id := f_id f; code := cd; message := m; grpcCode := c; severity := sev; category := cat;
              metadata := ∅; recoveryStrategy := chooseDefaultRecoveryStrategy sev; trace := f_trace f;
              isTimeout := false; isTemporary := false; cause := Some err; timestamp := f_now f;
              callerInfo := f_caller f |}
  end.

(** * The aggregator *)

Record aggregatedError : Type := {
  Code : string; Count : Z; FirstSeen : Z; LastSeen : Z; Samples : list enhancedError; MaxSamples : nat }.

(** [logger] is [false] for a nil logger; [logged] counts the lines written. *)
Record ErrorAggregator : Type := {
  errors : gmap string aggregatedError; maxCapacity : Z; logger : bool; logged : nat }.

Definition NewErrorAggregator (capacity : Z) (log : bool) : ErrorAggregator :=
  {| errors := ∅; maxCapacity := capacity; logger := log; logged := 0 |}.

(** [GetGlobalErrorAggregator]: built once with a nil logger. *)
Definition GlobalErrorAggregator : ErrorAggregator := NewErrorAggregator 1000 false.

(** The entry that [Record] leaves for the error's code. *)
Definition next_entry (now : Z) (old : option aggregatedError) (err : enhancedError) : aggregatedError :=
  match old with
  | Some a =>
      {| Code := Code a; Count := i64 (Count a + 1); FirstSeen := FirstSeen a; LastSeen := now;
         Samples := if (length (Samples a) <? MaxSamples a)%nat then Samples a ++ [err] else Samples a;
         MaxSamples := MaxSamples a |}
  | None =>
      {| Code := code err; Count := 1; FirstSeen := now; LastSeen := now;
         Samples := [err]; MaxSamples := 10 |}
  end.

(** [Record]. The map is updated before the log call, which dereferences the
    logger and the first frame of the trace. *)
Definition RecordErr (now : Z) (ea : ErrorAggregator) (err : option enhancedError)
  : outcome unit * ErrorAggregator :=
  match err with
  | None => (Returns tt, ea)
  | Some err =>
      let upd n := {| errors := <[code err := next_entry now (errors ea !! code err) err]> (errors ea);
                      maxCapacity := maxCapacity ea; logger := logger ea; logged := n |} in
      if severity err >=? SeverityError then
        match logger ea, trace err with
        | true, _ :: _ => (Returns tt, upd (S (logged ea)))
        | _, _ => (Panics, upd (logged ea))
        end
      else (Returns tt, upd (logged ea))
  end.

Definition Clear (ea : ErrorAggregator) : ErrorAggregator :=
  {| errors := ∅; maxCapacity := maxCapacity ea; logger := logger ea; logged := logged ea |}.

(** The inner loop of the sort of [GetTopErrors] at a fixed [i]: the elements after
    position [i] are compared with the one held there and swapped in place. *)
Fixpoint sort_inner (x : aggregatedError) (l : list aggregatedError) : aggregatedError * list aggregatedError :=
  match l with
  | [] => (x, [])
  | y :: l =>
      if Count x <? Count y then let '(m, l') := sort_inner y l in (m, x :: l')
      else let '(m, l') := sort_inner x l in (m, y :: l')
  end.

Fixpoint sort_outer (fuel : nat) (l : list aggregatedError) : list aggregatedError :=
  match fuel, l with
  | S fuel, x :: l => let '(m, l') := sort_inner x l in m :: sort_outer fuel l'
  | _, _ => l
  end.

(** [GetTopErrors], given the values of the map in the order of its range loop;
    a negative [n] slices out of range and panics. *)
Definition GetTopErrors (errorSlice : list aggregatedError) (n : Z) : outcome (list aggregatedError) :=
  let l := sort_outer (length errorSlice) errorSlice in
  let n := if n >? Z.of_nat (length l) then Z.of_nat (length l) else n in
  if n <? 0 then Panics else Returns (take (Z.to_nat n) l).

Definition GetErrorsBySeverity (vals : list aggregatedError) (sev : ErrorSeverity) : list aggregatedError :=
  filter (fun a => match Samples a with e :: _ => severity e =? sev | [] => false end = true) vals.

Definition GetErrorsByCategory (vals : list aggregatedError) (cat : string) : list aggregatedError :=
  filter (fun a => match Samples a with e :: _ => String.eqb (category e) cat | [] => false end = true) vals.

(** A run of [Record] calls at given times. *)
Definition record_all (calls : list (Z * enhancedError)) (ea : ErrorAggregator) : ErrorAggregator :=
  foldl (fun ea c => (RecordErr c.1 ea (Some c.2)).2) ea calls.

(** The calls that carry a given code. *)
Definition with_code (c : string) (calls : list (Z * enhancedError)) : list (Z * enhancedError) :=
  filter (fun p => code p.2 = c) calls.

(** * Theorems *)

Lemma errors_Is_wrapped s err : errors_Is (Wrap [Sentinel s; err]) s = true.
Proof. simpl. by rewrite bool_decide_eq_true_2. Qed.

(** Every constructor of [error.go] keeps both its sentinel and its cause visible
    to [errors.Is]. *)
Lemma wrapped_cause_visible s err s' : errors_Is err s' = true -> errors_Is (Wrap [Sentinel s; err]) s' = true.
Proof. simpl. intros ->. by rewrite orb_true_r. Qed.

Lemma FromError_enhanced sf et f e cd sev cat : FromError sf et f (Some (Enhanced e)) cd sev cat = Some e.
Proof. done. Qed.

(** ** The sort of [GetTopErrors] *)

Definition desc (a b : aggregatedError) : Prop := Count b <= Count a.

#[export] Instance desc_dec a b : Decision (desc a b).
Proof. unfold desc. apply _. Defined.

Lemma sort_inner_spec x l :
  let '(m, l') := sort_inner x l in m :: l' ≡ₚ x :: l /\ Forall (desc m) l' /\ length l' = length l.
Proof.
  revert x. induction l as [|y l IH]; intros x; simpl; [auto|].
  destruct (Z.ltb_spec (Count x) (Count y)) as [H|H].
  - specialize (IH y). destruct (sort_inner y l) as [m l']. destruct IH as (HP & HF & Hl).
    repeat split; [|constructor; [|done]|simpl; lia].
    + by rewrite (Permutation_swap x m), HP.
    + unfold desc. assert (y ∈ m :: l') as Hy by (rewrite HP; by left).
      apply elem_of_cons in Hy as [->|Hy]; [lia|].
      rewrite Forall_forall in HF. specialize (HF _ Hy). unfold desc in HF. lia.
  - specialize (IH x). destruct (sort_inner x l) as [m l']. destruct IH as (HP & HF & Hl).
    repeat split; [|constructor; [|done]|simpl; lia].
    + rewrite (Permutation_swap y m), HP. apply Permutation_swap.
    + unfold desc. assert (x ∈ m :: l') as Hx by (rewrite HP; by left).
      apply elem_of_cons in Hx as [->|Hx]; [lia|].
      rewrite Forall_forall in HF. specialize (HF _ Hx). unfold desc in HF. lia.
Qed.

Lemma sort_outer_spec n : forall l, length l = n ->
  sort_outer n l ≡ₚ l /\ StronglySorted desc (sort_outer n l).
Proof.
  induction n as [|n IH]; intros [|x l] Hl; try done; [split; [done|constructor]|].
  simpl. pose proof (sort_inner_spec x l) as H. destruct (sort_inner x l) as [m l'].
  destruct H as (HP & HF & Hl'). destruct (IH l') as [HP' HS]; [simpl in Hl; lia|].
  split; [by rewrite HP'|]. constructor; [done|]. by rewrite HP'.
Qed.

Lemma StronglySorted_take {A} (R : A -> A -> Prop) l n : StronglySorted R l -> StronglySorted R (take n l).
Proof.
  intros H. revert n. induction H as [|x l H IH HF]; intros [|n]; simpl; try constructor; auto.
  by apply Forall_take.
Qed.

(** [GetTopErrors] returns the [n] most frequent errors (all of them when there
    are fewer): the result is sorted by decreasing count, it is a sub-multiset of
    the map's values, and no error left out is more frequent than one returned. *)
Theorem GetTopErrors_top (vals : list aggregatedError) (n : Z) (Hn : 0 <= n) :
  exists top rest, GetTopErrors vals n = Returns top /\
    top ++ rest ≡ₚ vals /\ Z.of_nat (length top) = Z.min n (Z.of_nat (length vals)) /\
    StronglySorted desc top /\ Forall (fun a => Forall (desc a) rest) top.
Proof.
  destruct (sort_outer_spec (length vals) vals eq_refl) as [HP HS].
  unfold GetTopErrors. set (l := sort_outer (length vals) vals) in *.
  assert (length l = length vals) as Hl by (by rewrite HP).
  set (k := if n >? Z.of_nat (length l) then Z.of_nat (length l) else n).
  assert (k = Z.min n (Z.of_nat (length vals))) as Hk.
  { unfold k. destruct (Z.gtb_spec n (Z.of_nat (length l))); lia. }
  destruct (Z.ltb_spec k 0); [lia|].
  exists (take (Z.to_nat k) l), (drop (Z.to_nat k) l). split; [done|].
  rewrite take_drop, length_take. repeat split; [done|lia|by apply StronglySorted_take|].
  rewrite <- (take_drop (Z.to_nat k) l) in HS. clear -HS.
  induction (take (Z.to_nat k) l) as [|x t IH]; [done|].
  simpl in HS. apply StronglySorted_inv in HS as [HS HF]. rewrite Forall_app in HF.
  constructor; [tauto|auto].
Qed.

Lemma GetTopErrors_top_witness :
  let a c n := {| Code := c; Count := n; FirstSeen := 0; LastSeen := 0; Samples := []; MaxSamples := 10 |} in
  0 <= 2 /\ exists top rest, GetTopErrors [a "x" 1; a "y" 5; a "z" 3] 2 = Returns top /\
     top ++ rest ≡ₚ [a "x" 1; a "y" 5; a "z" 3].
Proof.
  intros a. split; [lia|].
  destruct (GetTopErrors_top [a "x" 1; a "y" 5; a "z" 3] 2 ltac:(lia)) as (t & r & H1 & H2 & _). eauto.
Defined.

(** ** Counting *)

Lemma RecordErr_errors now ea err :
  errors (RecordErr now ea (Some err)).2 =
  <[code err := next_entry now (errors ea !! code err) err]> (errors ea).
Proof. unfold RecordErr. destruct (_ >=? _); [destruct (logger ea), (trace err)|]; done. Qed.

(** The entry that a list of calls with one code leaves, as the code promises it. *)
Definition entry_of (c : string) (l : list (Z * enhancedError)) : option aggregatedError :=
  match l with
  | [] => None
  | (t, _) :: _ =>
      Some {| Code := c; Count := Z.of_nat (length l); FirstSeen := t;
              LastSeen := default 0 (fst <$> last l); Samples := take 10 (snd <$> l); MaxSamples := 10 |}
  end.

Lemma entry_of_snoc c l t e :
  code e = c -> Z.of_nat (length l) + 1 < 2 ^ 63 ->
  entry_of c (l ++ [(t, e)]) = Some (next_entry t (entry_of c l) e).
Proof.
  intros Hc Hl. destruct l as [|[t0 e0] l]; [by rewrite <- Hc|].
  change (((t0, e0) :: l) ++ [(t, e)]) with ((t0, e0) :: (l ++ [(t, e)])).
  unfold entry_of, next_entry. cbv [Code Count FirstSeen LastSeen Samples MaxSamples].
  rewrite i64_small by (unfold is_i64; lia). f_equal. f_equal.
  - simpl. rewrite length_app. simpl. lia.
  - change ((t0, e0) :: (l ++ [(t, e)])) with (((t0, e0) :: l) ++ [(t, e)]). by rewrite last_snoc.
  - change ((t0, e0) :: (l ++ [(t, e)])) with (((t0, e0) :: l) ++ [(t, e)]).
    rewrite fmap_app. set (s := snd <$> (t0, e0) :: l). rewrite length_take.
    destruct (Nat.ltb_spec (10 `min` length s) 10).
    + rewrite (take_ge s) by lia. rewrite take_ge; [done|]. rewrite length_app, length_fmap. cbn [length]. lia.
    + by rewrite take_app_le by lia.
Qed.

(** One call more changes the entry of its code. *)
Lemma entry_of_record c calls t e : Z.of_nat (length calls) + 1 < 2 ^ 63 ->
  entry_of c (with_code c (calls ++ [(t, e)])) =
  if decide (code e = c) then Some (next_entry t (entry_of c (with_code c calls)) e) else entry_of c (with_code c calls).
Proof.
  intros Hlen. unfold with_code. rewrite filter_app. pose proof (length_filter (fun p : Z * enhancedError => code p.2 = c) calls) as Hf. case_decide as Hc.
  - rewrite (filter_cons_True _ (t, e)), filter_nil by done. by rewrite entry_of_snoc by (done || lia).
  - by rewrite (filter_cons_False _ (t, e)), filter_nil, app_nil_r by done.
Qed.

Lemma record_all_snoc calls t e ea :
  record_all (calls ++ [(t, e)]) ea = (RecordErr t (record_all calls ea) (Some e)).2.
Proof. unfold record_all. by rewrite foldl_app. Qed.

(** Starting from an empty aggregator, after any sequence of [Record] calls the
    entry of a code exists exactly when the code occurred; its count is the number
    of occurrences, its samples are the first ten of them, in order, and its time
    stamps are those of the first and the last one. *)
Theorem record_all_counts (calls : list (Z * enhancedError)) (cap : Z) (log : bool) (c : string)
  (Hlen : Z.of_nat (length calls) < 2 ^ 63) :
  errors (record_all calls (NewErrorAggregator cap log)) !! c = entry_of c (with_code c calls).
Proof.
  induction calls as [|[t e] calls IH] using rev_ind; [done|].
  rewrite length_app in Hlen. simpl in Hlen. specialize (IH ltac:(lia)).
  rewrite record_all_snoc, RecordErr_errors, entry_of_record by lia. case_decide as Hc.
  - by rewrite Hc, lookup_insert_eq, IH.
  - by rewrite lookup_insert_ne, IH.
Qed.

Definition sample_error (c : string) (sev : ErrorSeverity) : enhancedError :=
  NewEnhancedError {| f_id := "1"; f_trace := ["main.go:1 main.main"]; f_caller := "main.go:1"; f_now := 0 |}
    c "boom" sev "SYSTEM".

Lemma record_all_counts_witness :
  Z.of_nat (length [(5, sample_error "E1" 2); (6, sample_error "E2" 2); (7, sample_error "E1" 1)]) < 2 ^ 63 /\
  (Count <$> errors (record_all [(5, sample_error "E1" 2); (6, sample_error "E2" 2); (7, sample_error "E1" 1)]
                       (NewErrorAggregator 1 true)) !! "E1") = Some 2.
Proof. split; [vm_compute; reflexivity|]. rewrite record_all_counts; vm_compute; reflexivity. Defined.

(** The capacity is stored and never enforced: an aggregator of capacity 1 holds
    two codes after two calls. *)
Lemma capacity_not_enforced :
  size (errors (record_all [(5, sample_error "E1" 1); (6, sample_error "E2" 1)] (NewErrorAggregator 1 true))) = 2%nat.
Proof. vm_compute. reflexivity. Qed.

(** The process-wide aggregator has a nil logger: it accepts mild errors, and
    recording any error of severity [Error] or above panics on it, whatever was
    recorded before. *)
Theorem global_aggregator_panics (calls : list (Z * enhancedError)) (now : Z) (e : enhancedError) :
  (RecordErr now (record_all calls GlobalErrorAggregator) (Some e)).1 =
  if severity e >=? SeverityError then Panics else Returns tt.
Proof.
  assert (logger (record_all calls GlobalErrorAggregator) = false) as Hl.
  { induction calls as [|[t x] calls IH] using rev_ind; [done|].
    rewrite record_all_snoc. unfold RecordErr.
    destruct (_ >=? _); [rewrite IH|]; simpl; done. }
  unfold RecordErr. rewrite Hl. by destruct (_ >=? _).
Qed.
