(* ===== verification/CircuitBreaker.v ===== *)
(** The circuit breaker [src/internal/circuitbreaker/circuitbreaker.go]. Every
    method takes the mutex for its whole body, so a method is one step of the
    breaker; the clock value that it reads is an argument. *)
From S2P Require Import Prelude Float64.

(** * State and configuration *)

(** [State] is an [int] with three named values. *)
Inductive State : Type :=
| StateClosed
| StateHalfOpen
| StateOpen
| StateUnknown (n : Z).

#[export] Instance State_eq_dec : EqDecision State.
Proof. solve_decision. Defined.

Definition State_String (s : State) : string :=
  match s with
  | StateClosed => "closed" | StateHalfOpen => "half-open" | StateOpen => "open"
  | StateUnknown _ => "unknown"
  end.

Inductive cb_error : Type := ErrOpenState | ErrTooManyConcurrent.

#[export] Instance cb_error_eq_dec : EqDecision cb_error.
Proof. solve_decision. Defined.

(** A listener is a function value: a name for it, [None] when nil. *)
Record Options : Type := {
  Threshold : Z; Timeout : Z; HalfOpenMaxRequests : Z; ProgressiveFactor : float64;
  MaxConcurrent : Z; WindowSize : Z; SuccessThreshold : Z; ForceBreak : bool;
  OnStateChange : option nat }.

Definition DefaultOptions : Options :=
  {| Threshold := 5; Timeout := 5 * Second; HalfOpenMaxRequests := 1; ProgressiveFactor := of_int 2;
     MaxConcurrent := 0; WindowSize := 10 * Second; SuccessThreshold := 2; ForceBreak := false;
     OnStateChange := None |}.

(** [started] collects the listener calls that [changeState] starts, in order:
    the listener and the two states. *)
Record CircuitBreaker : Type := {
  name : string; opts : Options; state : State; failures : Z; successes : Z; lastStateChange : Z;
  halfOpenAllowed : Z; halfOpenOriginal : Z; concurrent : Z; failures_window : list Z;
  listeners : list (option nat); lastFailure : Z; consecutiveFailures : Z;
  started : list (nat * State * State) }.

(** * Field updates *)

Definition set_state s t (cb : CircuitBreaker) : CircuitBreaker :=
  {| name := name cb; opts := opts cb; state := s; failures := failures cb; successes := successes cb;
     lastStateChange := t; halfOpenAllowed := halfOpenAllowed cb; halfOpenOriginal := halfOpenOriginal cb;
     concurrent := concurrent cb; failures_window := failures_window cb; listeners := listeners cb;
     lastFailure := lastFailure cb; consecutiveFailures := consecutiveFailures cb; started := started cb |}.

Definition set_failures f w (cb : CircuitBreaker) : CircuitBreaker :=
  {| name := name cb; opts := opts cb; state := state cb; failures := f; successes := successes cb;
     lastStateChange := lastStateChange cb; halfOpenAllowed := halfOpenAllowed cb;
     halfOpenOriginal := halfOpenOriginal cb; concurrent := concurrent cb; failures_window := w;
     listeners := listeners cb; lastFailure := lastFailure cb;
     consecutiveFailures := consecutiveFailures cb; started := started cb |}.

Definition set_consecutive n t (cb : CircuitBreaker) : CircuitBreaker :=
  {| name := name cb; opts := opts cb; state := state cb; failures := failures cb;
     successes := successes cb; lastStateChange := lastStateChange cb;
     halfOpenAllowed := halfOpenAllowed cb; halfOpenOriginal := halfOpenOriginal cb;
     concurrent := concurrent cb; failures_window := failures_window cb; listeners := listeners cb;
     lastFailure := t; consecutiveFailures := n; started := started cb |}.

Definition set_half s a (cb : CircuitBreaker) : CircuitBreaker :=
  {| name := name cb; opts := opts cb; state := state cb; failures := failures cb; successes := s;
     lastStateChange := lastStateChange cb; halfOpenAllowed := a; halfOpenOriginal := halfOpenOriginal cb;
     concurrent := concurrent cb; failures_window := failures_window cb; listeners := listeners cb;
     lastFailure := lastFailure cb; consecutiveFailures := consecutiveFailures cb; started := started cb |}.

Definition set_concurrent n (cb : CircuitBreaker) : CircuitBreaker :=
  {| name := name cb; opts := opts cb; state := state cb; failures := failures cb;
     successes := successes cb; lastStateChange := lastStateChange cb;
     halfOpenAllowed := halfOpenAllowed cb; halfOpenOriginal := halfOpenOriginal cb; concurrent := n;
     failures_window := failures_window cb; listeners := listeners cb; lastFailure := lastFailure cb;
     consecutiveFailures := consecutiveFailures cb; started := started cb |}.

Definition set_started l (cb : CircuitBreaker) : CircuitBreaker :=
  {| name := name cb; opts := opts cb; state := state cb; failures := failures cb;
     successes := successes cb; lastStateChange := lastStateChange cb;
     halfOpenAllowed := halfOpenAllowed cb; halfOpenOriginal := halfOpenOriginal cb;
     concurrent := concurrent cb; failures_window := failures_window cb; listeners := listeners cb;
     lastFailure := lastFailure cb; consecutiveFailures := consecutiveFailures cb; started := l |}.

(** * Operations *)

(** [lastFailure] starts as the zero [time.Time], which no clock value equals. *)
Definition New (nm : string) (o : Options) (now : Z) : CircuitBreaker :=
  {| name := nm; opts := o; state := StateClosed; failures := 0; successes := 0; lastStateChange := now;
     halfOpenAllowed := HalfOpenMaxRequests o; halfOpenOriginal := HalfOpenMaxRequests o;
     concurrent := 0; failures_window := []; listeners := [OnStateChange o]; lastFailure := 0;
     consecutiveFailures := 0; started := [] |}.

Definition AddListener (l : option nat) (cb : CircuitBreaker) : CircuitBreaker :=
  match l with
  | None => cb
  | Some _ =>
      {| name := name cb; opts := opts cb; state := state cb; failures := failures cb;
         successes := successes cb; lastStateChange := lastStateChange cb;
         halfOpenAllowed := halfOpenAllowed cb; halfOpenOriginal := halfOpenOriginal cb;
         concurrent := concurrent cb; failures_window := failures_window cb;
         listeners := listeners cb ++ [l]; lastFailure := lastFailure cb;
         consecutiveFailures := consecutiveFailures cb; started := started cb |}
  end.

Definition changeState (newState : State) (now : Z) (cb : CircuitBreaker) : CircuitBreaker :=
  let oldState := state cb in
  let cb := set_state newState now cb in
  let cb := match newState with
            | StateClosed => set_consecutive 0 (lastFailure cb) (set_failures 0 [] cb)
            | StateHalfOpen => set_half 0 (halfOpenOriginal cb) cb
            | _ => cb
            end in
  if decide (oldState = newState) then cb
  else set_started (started cb ++ omap (fun l => (fun i => (i, oldState, newState)) <$> l) (listeners cb)) cb.

Definition Allow (now : Z) (cb : CircuitBreaker) : result cb_error unit * CircuitBreaker :=
  let enter cb := (Ok tt, set_concurrent (u32 (concurrent cb + 1)) cb) in
  if (MaxConcurrent (opts cb) >? 0) && (concurrent cb >=? MaxConcurrent (opts cb))
  then (Err ErrTooManyConcurrent, cb)
  else match state cb with
       | StateClosed => enter cb
       | StateOpen =>
           if time_sub now (lastStateChange cb) >? Timeout (opts cb)
           then enter (changeState StateHalfOpen now cb)
           else (Err ErrOpenState, cb)
       | StateHalfOpen =>
           if halfOpenAllowed cb >? 0
           then enter (set_half (successes cb) (u32 (halfOpenAllowed cb - 1)) cb)
           else (Err ErrOpenState, cb)
       | StateUnknown _ => enter (changeState StateClosed now cb)
       end.

Definition leave (cb : CircuitBreaker) : CircuitBreaker :=
  if concurrent cb >? 0 then set_concurrent (u32 (concurrent cb - 1)) cb else cb.

Definition Success `{GoImpl} (now : Z) (cb : CircuitBreaker) : CircuitBreaker :=
  let cb := leave cb in
  let cb := set_consecutive 0 (lastFailure cb) cb in
  match state cb with
  | StateHalfOpen =>
      let cb := set_half (u32 (successes cb + 1)) (halfOpenAllowed cb) cb in
      if successes cb >=? SuccessThreshold (opts cb) then changeState StateClosed now cb
      else
        let newAllowed := to_u32 (fmul (of_int (halfOpenOriginal cb)) (ProgressiveFactor (opts cb))) in
        if newAllowed >? 0 then set_half (successes cb) (u32 (halfOpenAllowed cb + newAllowed)) cb else cb
  | _ => set_failures 0 [] cb
  end.

(** [t.After(cutoff)] for the entries of the window. *)
Definition in_window (now size : Z) (l : list Z) : list Z := filter (fun t => (now - size <? t) = true) l.

Definition Failure (now : Z) (cb : CircuitBreaker) : CircuitBreaker :=
  let cb := leave cb in
  let cb := set_consecutive (u32 (consecutiveFailures cb + 1)) now cb in
  let cb := if WindowSize (opts cb) >? 0 then
              let w := in_window now (WindowSize (opts cb)) (failures_window cb ++ [now]) in
              set_failures (u32 (Z.of_nat (length w))) w cb
            else set_failures (u32 (failures cb + 1)) (failures_window cb) cb in
  match state cb with
  | StateHalfOpen => changeState StateOpen now cb
  | StateClosed =>
      if (failures cb >=? Threshold (opts cb)) || (consecutiveFailures cb >=? Threshold (opts cb))
      then changeState StateOpen now cb else cb
  | _ => cb
  end.

Definition ForceOpen (now : Z) (cb : CircuitBreaker) : CircuitBreaker := changeState StateOpen now cb.
Definition ForceClosed (now : Z) (cb : CircuitBreaker) : CircuitBreaker := changeState StateClosed now cb.

Definition Reset (now : Z) (cb : CircuitBreaker) : CircuitBreaker :=
  let cb := changeState StateClosed now cb in
  let cb := set_failures 0 [] cb in
  let cb := set_half 0 (halfOpenOriginal cb) cb in
  let cb := set_concurrent 0 cb in
  set_consecutive 0 (lastFailure cb) cb.

Record Stats : Type := {
  s_State : State; s_Failures : Z; s_ConsecutiveFailures : Z; s_Successes : Z; s_CurrentRequests : Z;
  s_Since : Z; s_LastFailure : Z; s_HalfOpenAllowed : Z }.

Definition GetStats (now : Z) (cb : CircuitBreaker) : Stats :=
  {| s_State := state cb; s_Failures := failures cb; s_ConsecutiveFailures := consecutiveFailures cb;
     s_Successes := successes cb; s_CurrentRequests := concurrent cb;
     s_Since := time_sub now (lastStateChange cb); s_LastFailure := lastFailure cb;
     s_HalfOpenAllowed := halfOpenAllowed cb |}.

Definition InjectFailure := Failure.

Definition IsActive (cb : CircuitBreaker) : bool :=
  bool_decide (state cb = StateOpen) || bool_decide (state cb = StateHalfOpen).

Definition ApplyOptions (o : Options) (cb : CircuitBreaker) : CircuitBreaker :=
  {| name := name cb; opts := o; state := state cb; failures := failures cb; successes := successes cb;
     lastStateChange := lastStateChange cb; halfOpenAllowed := halfOpenAllowed cb;
     halfOpenOriginal := HalfOpenMaxRequests o; concurrent := concurrent cb;
     failures_window := failures_window cb;
     listeners := match OnStateChange o with None => listeners cb | l => listeners cb ++ [l] end;
     lastFailure := lastFailure cb; consecutiveFailures := consecutiveFailures cb; started := started cb |}.

(** * Runs *)

(** One method call; [OpAllow] is a request asking to pass. *)
Inductive op : Type := OpAllow | OpSuccess | OpFailure | OpForceOpen | OpForceClosed | OpReset.

(** The calls that requests make, as opposed to the operator's. *)
Definition request_op (o : op) : bool :=
  match o with OpAllow | OpSuccess | OpFailure => true | _ => false end.

Definition exec `{GoImpl} (now : Z) (o : op) (cb : CircuitBreaker)
  : option (result cb_error unit) * CircuitBreaker :=
  match o with
  | OpAllow => let '(r, cb') := Allow now cb in (Some r, cb')
  | OpSuccess => (None, Success now cb)
  | OpFailure => (None, Failure now cb)
  | OpForceOpen => (None, ForceOpen now cb)
  | OpForceClosed => (None, ForceClosed now cb)
  | OpReset => (None, Reset now cb)
  end.

(** A run of timed calls: the answers to the [Allow] calls and the final state. *)
Fixpoint run `{GoImpl} (ops : list (Z * op)) (cb : CircuitBreaker)
  : list (result cb_error unit) * CircuitBreaker :=
  match ops with
  | [] => ([], cb)
  | (t, o) :: ops => let '(r, cb1) := exec t o cb in
                     let '(rs, cb2) := run ops cb1 in
                     (match r with Some r => r :: rs | None => rs end, cb2)
  end.

(** The specification automaton: the state changes that requests may cause. *)
Inductive edge : State -> op -> State -> Prop :=
| edge_stay s o : edge s o s
| edge_trip : edge StateClosed OpFailure StateOpen
| edge_probe : edge StateOpen OpAllow StateHalfOpen
| edge_recover : edge StateHalfOpen OpSuccess StateClosed
| edge_relapse : edge StateHalfOpen OpFailure StateOpen.

(** States reached from a new breaker by any sequence of method calls. *)
Inductive reachable `{GoImpl} : CircuitBreaker -> Prop :=
| reach_new nm o t : reachable (New nm o t)
| reach_exec t o cb : reachable cb -> reachable (exec t o cb).2
| reach_listener l cb : reachable cb -> reachable (AddListener l cb).

(** ** The requests that a breaker let through

    A request is in flight from the [Allow] that lets it through to the [Success]
    or [Failure] that reports its end; the other calls are an operator's. *)
Module Traffic.

Inductive call : Type :=
| Request                    (* a request asks [Allow] *)
| Done (success : bool)      (* a request in flight ends *)
| Force (open : bool)
| Inject                     (* [InjectFailure] *)
| ResetAll
| Apply (o : Options)
| Listen (l : option nat).

(** The breaker and the number of requests in flight. *)
Record system : Type := { breaker : CircuitBreaker; in_flight : Z }.

(** One call, [None] for an end without a request in flight. *)
Definition step `{GoImpl} (now : Z) (c : call) (s : system) : option system :=
  let cb := breaker s in
  let n := in_flight s in
  match c with
  | Request => Some (match Allow now cb with
                     | (Ok _, cb) => {| breaker := cb; in_flight := n + 1 |}
                     | (Err _, cb) => {| breaker := cb; in_flight := n |}
                     end)
  | Done b => if n >? 0 then Some {| breaker := (if b then Success else Failure) now cb; in_flight := n - 1 |} else None
  | Force b => Some {| breaker := (if b then ForceOpen else ForceClosed) now cb; in_flight := n |}
  | Inject => Some {| breaker := InjectFailure now cb; in_flight := n |}
  | ResetAll => Some {| breaker := Reset now cb; in_flight := n |}
  | Apply o => Some {| breaker := ApplyOptions o cb; in_flight := n |}
  | Listen l => Some {| breaker := AddListener l cb; in_flight := n |}
  end.

Fixpoint run `{GoImpl} (cs : list (Z * call)) (s : system) : option system :=
  match cs with [] => Some s | (now, c) :: cs => s ← step now c s; run cs s end.

(** What a call can add to the requests in flight above the limit [m]: an injected
    failure is counted as the end of a request, [Reset] as the end of all. *)
Definition forgets (m : Z) (c : call) : Z := match c with Inject => 1 | ResetAll => m | _ => 0 end.
Definition slack (m : Z) (cs : list (Z * call)) : Z := sumZ ((fun c => forgets m c.2) <$> cs).

(** Options that a call sets keep the limit between 1 and [m]. *)
Definition limited (m : Z) (c : call) : Prop := match c with Apply o => 0 < MaxConcurrent o <= m | _ => True end.

End Traffic.

(** A breaker never holds a state outside the three named ones. *)
Definition known (s : State) : Prop := match s with StateUnknown _ => False | _ => True end.

(** * Theorems *)

Create Rewrite HintDb cb.

Section Facts.
Context `{GoImpl}.

(** The projections of [changeState], so that proofs need not unfold it. *)
Lemma changeState_state s t cb : state (changeState s t cb) = s.
Proof. unfold changeState. by destruct s; case_decide. Qed.

Lemma changeState_opts s t cb : opts (changeState s t cb) = opts cb.
Proof. unfold changeState. by destruct s; case_decide. Qed.

Lemma changeState_concurrent s t cb : concurrent (changeState s t cb) = concurrent cb.
Proof. unfold changeState. by destruct s; case_decide. Qed.

Lemma changeState_original s t cb : halfOpenOriginal (changeState s t cb) = halfOpenOriginal cb.
Proof. unfold changeState. by destruct s; case_decide. Qed.

Lemma changeState_half t cb :
  halfOpenAllowed (changeState StateHalfOpen t cb) = halfOpenOriginal cb /\
  successes (changeState StateHalfOpen t cb) = 0.
Proof. unfold changeState. by case_decide. Qed.

Lemma changeState_closed t cb :
  failures (changeState StateClosed t cb) = 0 /\ consecutiveFailures (changeState StateClosed t cb) = 0 /\
  failures_window (changeState StateClosed t cb) = [].
Proof. unfold changeState. by case_decide. Qed.

#[local] Hint Rewrite changeState_state changeState_opts changeState_concurrent changeState_original : cb.

Lemma leave_state cb : state (leave cb) = state cb.
Proof. unfold leave. by case_bool. Qed.

Lemma leave_opts cb : opts (leave cb) = opts cb.
Proof. unfold leave. by case_bool. Qed.

Lemma leave_since cb : lastStateChange (leave cb) = lastStateChange cb.
Proof. unfold leave. by case_bool. Qed.

(** Split a method body along the code's tests. *)
Ltac step_cases :=
  repeat (match goal with
          | |- context [match state ?cb with _ => _ end] => destruct (state cb) eqn:?
          | |- context [if ?b then _ else _] => destruct b eqn:?
          end; simpl; autorewrite with cb); simpl; try done.

Ltac cb_op := unfold Allow, Success, Failure, ForceOpen, ForceClosed, Reset; simpl;
  rewrite ?leave_state, ?leave_opts; simpl; autorewrite with cb; simpl.

Lemma exec_known t o cb : known (state cb) -> known (state (exec t o cb).2).
Proof.
  intros Hk. destruct o; simpl.
  - unfold Allow. destruct (state cb) eqn:E; step_cases; rewrite ?E; done.
  - cb_op. destruct (state cb) eqn:E; step_cases; rewrite ?leave_state, ?E; done.
  - cb_op. destruct (state cb) eqn:E; step_cases; rewrite ?leave_state, ?E; done.
  - by cb_op.
  - by cb_op.
  - by cb_op.
Qed.

Lemma reachable_known cb : reachable cb -> known (state cb).
Proof.
  induction 1 as [nm o t|t o cb _ IH|l cb _ IH]; [done|by apply exec_known|].
  by destruct l.
Qed.

(** C1: the breaker refines the three-state automaton: from every reachable state a
    request's call moves along an edge of it. In particular an open breaker never
    closes without a half-open probe and a closed one never becomes half-open. *)
Theorem refines_automaton (cb : CircuitBreaker) (t : Z) (o : op)
  (Hr : reachable cb) (Ho : request_op o = true) : edge (state cb) o (state (exec t o cb).2).
Proof.
  apply reachable_known in Hr. destruct o; try done; simpl.
  - unfold Allow. destruct (state cb) eqn:E; step_cases; rewrite ?E; try done; constructor.
  - cb_op. destruct (state cb) eqn:E; step_cases; rewrite ?leave_state, ?E; try done; constructor.
  - cb_op. destruct (state cb) eqn:E; step_cases; rewrite ?leave_state, ?E; try done; constructor.
Qed.

(** ** Open *)

Lemma open_step t o cb :
  state cb = StateOpen -> request_op o = true ->
  time_sub t (lastStateChange cb) <= Timeout (opts cb) ->
  state (exec t o cb).2 = StateOpen /\ lastStateChange (exec t o cb).2 = lastStateChange cb /\
  opts (exec t o cb).2 = opts cb /\ (forall r, (exec t o cb).1 = Some r -> is_ok r = false).
Proof.
  intros E Ho Ht. destruct o; try done; simpl.
  - unfold Allow. rewrite E. step_cases; bool_to_prop; try lia; repeat split; naive_solver.
  - unfold Success. simpl. rewrite leave_state, E. simpl. by rewrite leave_state, leave_opts, leave_since.
  - unfold Failure. destruct (_ >? 0); simpl; rewrite leave_state, E; simpl;
      by rewrite leave_state, leave_opts, leave_since.
Qed.

(** An open breaker blocks: as long as the timeout has not elapsed since it
    opened, every request is rejected and the breaker stays open, whatever calls
    that were already in flight report. *)
Theorem open_blocks (cb : CircuitBreaker) (ops : list (Z * op)) (Hopen : state cb = StateOpen)
  (Hops : Forall (fun p => request_op p.2 = true /\
                          time_sub p.1 (lastStateChange cb) <= Timeout (opts cb)) ops) :
  Forall (fun r => is_ok r = false) (run ops cb).1 /\ state (run ops cb).2 = StateOpen.
Proof.
  revert cb Hopen Hops. induction ops as [|[t o] ops IH]; intros cb Hopen Hops; [split; [constructor|done]|].
  apply Forall_cons in Hops as [[Ho Ht] Hops]. simpl in *.
  destruct (open_step t o cb Hopen Ho Ht) as (Es & El & Eo & Hr).
  destruct (exec t o cb) as [r cb1]. simpl in *.
  destruct (IH cb1 Es) as [HF Hs]; [by rewrite El, Eo|].
  destruct (run ops cb1) as [rs cb2]. simpl in *. split; [|done].
  destruct r; [constructor; auto|done].
Qed.

(** ** Half open *)

Lemma half_open_allow t cb :
  state cb = StateHalfOpen -> MaxConcurrent (opts cb) = 0 -> is_u32 (halfOpenAllowed cb) ->
  let '(r, cb') := Allow t cb in
  state cb' = StateHalfOpen /\ opts cb' = opts cb /\ is_u32 (halfOpenAllowed cb') /\
  (if halfOpenAllowed cb =? 0 then r = Err ErrOpenState /\ halfOpenAllowed cb' = 0
   else r = Ok tt /\ halfOpenAllowed cb' = halfOpenAllowed cb - 1).
Proof.
  intros E Hm Hu. unfold Allow. rewrite E, Hm. simpl. unfold is_u32 in *.
  destruct (Z.gtb_spec (halfOpenAllowed cb) 0), (Z.eqb_spec (halfOpenAllowed cb) 0); try lia; simpl.
  - rewrite u32_small by (unfold is_u32; lia). repeat split; auto; lia.
  - rewrite E. repeat split; auto; lia.
Qed.

Lemma half_open_run k t : forall cb,
  state cb = StateHalfOpen -> MaxConcurrent (opts cb) = 0 -> is_u32 (halfOpenAllowed cb) ->
  (run (replicate k (t, OpAllow)) cb).1 =
    replicate (Nat.min k (Z.to_nat (halfOpenAllowed cb))) (Ok tt) ++
    replicate (k - Z.to_nat (halfOpenAllowed cb)) (Err ErrOpenState).
Proof.
  induction k as [|k IH]; intros cb E Hm Hu; [done|].
  pose proof (half_open_allow t cb E Hm Hu) as Ha. simpl.
  destruct (Allow t cb) as [r cb1]. destruct Ha as (E1 & Eo & Hu1 & Hr).
  specialize (IH cb1 E1 ltac:(by rewrite Eo) Hu1).
  destruct (run (replicate k (t, OpAllow)) cb1) as [rs cb2]. simpl in *. rewrite IH. unfold is_u32 in *.
  destruct (Z.eqb_spec (halfOpenAllowed cb) 0) as [E0|E0]; destruct Hr as [-> Hr].
  - rewrite Hr, E0. simpl. by rewrite Nat.sub_0_r, Nat.min_0_r.
  - rewrite Hr. replace (Z.to_nat (halfOpenAllowed cb)) with (S (Z.to_nat (halfOpenAllowed cb - 1))) by lia.
    done.
Qed.

(** The probe budget: once the timeout of an open breaker has elapsed, of [k]
    requests that arrive before any of them reports back exactly the first
    [HalfOpenMaxRequests + 1] are admitted (the request that performs the
    transition is not charged to the budget) and the others are rejected. *)
Theorem half_open_budget (cb : CircuitBreaker) (t : Z) (k : nat)
  (Hopen : state cb = StateOpen) (Ht : time_sub t (lastStateChange cb) > Timeout (opts cb))
  (Hm : MaxConcurrent (opts cb) = 0) (Hu : is_u32 (halfOpenOriginal cb)) :
  let budget := S (Z.to_nat (halfOpenOriginal cb)) in
  (run (replicate k (t, OpAllow)) cb).1 =
    replicate (Nat.min k budget) (Ok tt) ++ replicate (k - budget) (Err ErrOpenState).
Proof.
  destruct k as [|k]; [done|]. simpl.
  assert (exists cb1, Allow t cb = (Ok tt, cb1) /\ state cb1 = StateHalfOpen /\ opts cb1 = opts cb /\
                      halfOpenAllowed cb1 = halfOpenOriginal cb) as (cb1 & -> & E1 & Eo & Eh).
  { unfold Allow. rewrite Hopen, Hm. simpl.
    destruct (Z.gtb_spec (time_sub t (lastStateChange cb)) (Timeout (opts cb))); [|lia].
    eexists. split; [done|]. simpl. autorewrite with cb.
    by rewrite (proj1 (changeState_half _ _)). }
  pose proof (half_open_run k t cb1 E1 ltac:(by rewrite Eo) ltac:(by rewrite Eh)) as Hk.
  destruct (run (replicate k (t, OpAllow)) cb1) as [rs cb2]. simpl in *. by rewrite Hk, Eh.
Qed.

(** ** Concurrency *)

(** The number of calls in flight only depends on [leave] in the two callbacks. *)
Lemma report_concurrent t cb :
  concurrent (Success t cb) = concurrent (leave cb) /\ opts (Success t cb) = opts cb /\
  concurrent (Failure t cb) = concurrent (leave cb) /\ opts (Failure t cb) = opts cb.
Proof. cb_op. step_cases; rewrite ?leave_opts; done. Qed.

Lemma exec_opts t o cb : opts (exec t o cb).2 = opts cb.
Proof.
  destruct (report_concurrent t cb) as (_ & Es & _ & Ef). destruct o; simpl; try done.
  - unfold Allow. step_cases.
  - unfold ForceOpen. by autorewrite with cb.
  - unfold ForceClosed. by autorewrite with cb.
  - unfold Reset. simpl. by autorewrite with cb.
Qed.

Lemma Allow_counts t cb : 0 <= concurrent cb -> 0 < MaxConcurrent (opts cb) < 2 ^ 32 ->
  match Allow t cb with
  | (Ok _, cb') => concurrent cb < MaxConcurrent (opts cb) /\ concurrent cb' = concurrent cb + 1
  | (Err _, cb') => concurrent cb' = concurrent cb
  end.
Proof.
  intros Hc Hm. unfold Allow.
  destruct (Z.gtb_spec (MaxConcurrent (opts cb)) 0); [|lia]. simpl. rewrite Z.geb_leb.
  destruct (Z.leb_spec (MaxConcurrent (opts cb)) (concurrent cb)); [done|].
  destruct (state cb); simpl; repeat case_bool; simpl; autorewrite with cb; try done;
    (split; [done|]); apply u32_small; unfold is_u32; lia.
Qed.

Lemma leave_counts cb : 0 <= concurrent cb < 2 ^ 32 -> concurrent (leave cb) = Z.max 0 (concurrent cb - 1).
Proof.
  intros Hc. unfold leave. destruct (Z.gtb_spec (concurrent cb) 0); simpl; [|lia].
  rewrite u32_small by (unfold is_u32; lia). lia.
Qed.

(** The counter is within the limits and at most [d] requests are not in it. *)
Definition counts (m d : Z) (s : Traffic.system) : Prop :=
  let cb := Traffic.breaker s in
  0 < MaxConcurrent (opts cb) <= m /\ 0 <= concurrent cb <= m /\
  concurrent cb <= Traffic.in_flight s <= concurrent cb + d.

Lemma step_counts m d t c s s' : m < 2 ^ 32 -> 0 <= d -> counts m d s -> Traffic.limited m c ->
  Traffic.step t c s = Some s' -> counts m (d + Traffic.forgets m c) s'.
Proof.
  intros Hm Hd (Ho & Hc & Hn) Hl Hs. unfold counts. destruct (report_concurrent t (Traffic.breaker s)) as (Es & Eso & Ef & Efo).
  pose proof (leave_counts (Traffic.breaker s) ltac:(lia)) as Hv.
  destruct c as [|b|b| | |o|l]; simpl in Hs, Hl; [| |simplify_eq; simpl..].
  - pose proof (Allow_counts t (Traffic.breaker s) ltac:(lia) ltac:(lia)) as Ha. pose proof (exec_opts t OpAllow (Traffic.breaker s)) as Hopt.
    simpl in Hopt. destruct (Allow t (Traffic.breaker s)) as [[] cb]; simplify_eq; simpl in *; rewrite Hopt; lia.
  - destruct (Z.gtb_spec (Traffic.in_flight s) 0); simplify_eq. simpl. destruct b; rewrite ?Es, ?Ef, ?Eso, ?Efo, Hv; lia.
  - destruct b; unfold ForceOpen, ForceClosed; autorewrite with cb; lia.
  - unfold InjectFailure. rewrite Ef, Efo, Hv. lia.
  - unfold Reset. simpl. autorewrite with cb. lia.
  - lia.
  - destruct l; simpl; lia.
Qed.

Lemma run_counts m cs : m < 2 ^ 32 -> Forall (fun c => Traffic.limited m c.2) cs ->
  forall d s s', 0 <= d -> counts m d s -> Traffic.run cs s = Some s' -> counts m (d + Traffic.slack m cs) s'.
Proof.
  intros Hm. unfold Traffic.slack. induction 1 as [|[t c] cs Hl _ IH]; intros d s s' Hd Hc Hr; simpl in Hr.
  - simplify_eq. simpl. by rewrite Z.add_0_r.
  - destruct (Traffic.step t c s) as [s1|] eqn:Hs; [|done]. pose proof (step_counts m d t c s s1 Hm Hd Hc Hl Hs) as Hc1.
    destruct Hc as ([] & _). apply (IH (d + Traffic.forgets m c)) in Hr; [|by destruct c; simpl; lia|done].
    by rewrite <- Z.add_assoc in Hr.
Qed.

(** C37: while the limit on concurrent requests stays between 1 and [m], the requests that the breaker let through and that have not reported back are at most [m], whatever calls are made, and one more for every injected failure and [m] more for every [Reset], which take running requests out of the count; without those two calls the breaker's counter is the number of requests in flight. *)
Theorem concurrency_bounded nm o t0 m cs s : 0 < MaxConcurrent o <= m -> m < 2 ^ 32 ->
  Forall (fun c => Traffic.limited m c.2) cs ->
  Traffic.run cs {| Traffic.breaker := New nm o t0; Traffic.in_flight := 0 |} = Some s ->
  0 <= Traffic.in_flight s <= m + Traffic.slack m cs /\
  concurrent (Traffic.breaker s) <= m /\
  (Forall (fun c => Traffic.forgets m c.2 = 0) cs -> Traffic.in_flight s = concurrent (Traffic.breaker s)).
Proof.
  intros Ho Hm Hl Hr. apply (run_counts m cs Hm Hl 0) in Hr as (_ & Hc & Hn); [|done|unfold counts; simpl; lia].
  split_and!; [lia..|]. intros Hf.
  assert (Traffic.slack m cs = 0) as H0.
  { clear -Hf. induction Hf as [|c cs Hc _ IH]; [done|].
    transitivity (Traffic.forgets m c.2 + Traffic.slack m cs); [done|]. by rewrite Hc. }
  lia.
Qed.

(** ** Recovery *)

Lemma success_half t cb :
  state cb = StateHalfOpen -> 0 <= successes cb -> successes cb + 1 < 2 ^ 32 ->
  opts (Success t cb) = opts cb /\
  if successes cb + 1 >=? SuccessThreshold (opts cb)
  then state (Success t cb) = StateClosed /\ failures (Success t cb) = 0 /\ consecutiveFailures (Success t cb) = 0
  else state (Success t cb) = StateHalfOpen /\ successes (Success t cb) = successes cb + 1.
Proof.
  intros E H0 H1. split; [by apply report_concurrent|].
  unfold Success. simpl. rewrite leave_state, E. simpl. rewrite leave_opts.
  assert (successes (leave cb) = successes cb) as -> by (unfold leave; by case_bool).
  rewrite u32_small by (unfold is_u32; lia).
  destruct (successes cb + 1 >=? SuccessThreshold (opts cb)) eqn:B.
  - rewrite changeState_state. by destruct (changeState_closed t
      (set_half (successes cb + 1) (halfOpenAllowed (leave cb)) (set_consecutive 0 (lastFailure (leave cb)) (leave cb))))
      as (-> & -> & _).
  - case_bool; simpl; by rewrite leave_state.
Qed.

Lemma successes_close ts : forall cb,
  state cb = StateHalfOpen -> 0 <= successes cb ->
  ts <> [] -> successes cb + Z.of_nat (length ts) = Z.max (successes cb + 1) (SuccessThreshold (opts cb)) ->
  SuccessThreshold (opts cb) < 2 ^ 32 -> successes cb + 1 < 2 ^ 32 ->
  state (run ((fun t => (t, OpSuccess)) <$> ts) cb).2 = StateClosed /\
  failures (run ((fun t => (t, OpSuccess)) <$> ts) cb).2 = 0.
Proof.
  induction ts as [|t ts IH]; intros cb E H0 Hne Hl Ht Hs; [done|]. simpl in *.
  destruct (success_half t cb E H0 Hs) as [Eo Hc].
  destruct (successes cb + 1 >=? SuccessThreshold (opts cb)) eqn:B; rewrite Z.geb_leb in B; bool_to_prop.
  - destruct ts; [|simpl in Hl; lia]. simpl. tauto.
  - destruct Hc as [E1 Hs1]. specialize (IH (Success t cb) E1). rewrite Eo, Hs1 in IH.
    destruct (run _ (Success t cb)) as [rs cb2]. simpl in *. apply IH; [lia| |lia|lia|lia].
    destruct ts; [simpl in Hl; lia|done].
Qed.

(** An open breaker recovers: once its timeout has elapsed a request is admitted
    as a probe, and after [SuccessThreshold] successes (at least one) with no
    failure in between the breaker is closed with its failure count reset. *)
Theorem recovers (cb : CircuitBreaker) (t0 : Z) (ts : list Z)
  (Hopen : state cb = StateOpen) (Ht : time_sub t0 (lastStateChange cb) > Timeout (opts cb))
  (Hm : MaxConcurrent (opts cb) = 0) (Hu : is_u32 (SuccessThreshold (opts cb)))
  (Hl : Z.of_nat (length ts) = Z.max 1 (SuccessThreshold (opts cb))) :
  let final := (run ((t0, OpAllow) :: ((fun t => (t, OpSuccess)) <$> ts)) cb) in
  final.1 = [Ok tt] /\ state final.2 = StateClosed /\ failures final.2 = 0.
Proof.
  cbv zeta. simpl. unfold Allow. rewrite Hopen, Hm. simpl.
  destruct (Z.gtb_spec (time_sub t0 (lastStateChange cb)) (Timeout (opts cb))); [|lia].
  match goal with |- context [run _ ?c] => set (cb1 := c) end.
  assert (successes cb1 = 0) as Es by apply (changeState_half t0 cb).
  assert (opts cb1 = opts cb) as Eo by apply changeState_opts.
  assert (state cb1 = StateHalfOpen) as E1 by apply changeState_state.
  unfold is_u32 in Hu.
  assert (ts <> []) as Hne by (intros ->; simpl in Hl; lia).
  destruct (successes_close ts cb1 E1) as [Hs Hf]; [rewrite Es; lia|done|rewrite Es, Eo; lia|rewrite Eo; lia|
    rewrite Es; lia|].
  assert (forall l c, (run ((fun t => (t, OpSuccess)) <$> l) c).1 = []) as Hnil.
  { induction l as [|t l IH]; intros c; [done|]. simpl. specialize (IH (Success t c)).
    by destruct (run _ (Success t c)). }
  specialize (Hnil ts cb1). destruct (run _ cb1) as [rs cb2]. simpl in *. by subst rs.
Qed.

(** ** Tripping *)

Definition failing (j : Z) (cb : CircuitBreaker) : Prop :=
  state cb = StateClosed /\ consecutiveFailures cb = j /\
  0 <= failures cb <= j /\ Z.of_nat (length (failures_window cb)) <= j.

Lemma failure_step t j cb :
  failing j cb -> 0 <= j -> j + 1 < 2 ^ 32 ->
  opts (Failure t cb) = opts cb /\
  (j + 1 < Threshold (opts cb) -> failing (j + 1) (Failure t cb)) /\
  (Threshold (opts cb) <= j + 1 -> state (Failure t cb) = StateOpen).
Proof.
  intros (E & Hc & Hf & Hw) H0 H1. split; [by apply report_concurrent|].
  assert (consecutiveFailures (leave cb) = j /\ failures (leave cb) = failures cb /\
          failures_window (leave cb) = failures_window cb) as (Ec & Ef & Ew).
  { unfold leave. by case_bool. }
  unfold Failure, failing. simpl. rewrite leave_opts, Ec, Ef, Ew.
  rewrite (u32_small (j + 1)) by (unfold is_u32; lia).
  pose proof (length_filter (fun x => (t - WindowSize (opts cb) <? x) = true) (failures_window cb ++ [t])) as Hlen.
  rewrite length_app in Hlen. simpl in Hlen. unfold in_window.
  destruct (WindowSize (opts cb) >? 0); simpl; rewrite leave_state, E, leave_opts; simpl;
    rewrite u32_small by (unfold is_u32; lia).
  all: match goal with |- context [if (?a >=? ?t) || (?b >=? ?t) then _ else _] =>
         rewrite (Z.geb_leb a t), (Z.geb_leb b t);
         destruct (Z.leb_spec t a), (Z.leb_spec t b) end; simpl;
    rewrite ?changeState_state, ?leave_state; repeat split; auto; lia.
Qed.

Lemma failures_run ts : forall j cb,
  failing j cb -> 0 <= j -> Threshold (opts cb) < 2 ^ 32 -> 
  (j + Z.of_nat (length ts) < Threshold (opts cb) ->
     failing (j + Z.of_nat (length ts)) (run ((fun t => (t, OpFailure)) <$> ts) cb).2) /\
  (ts <> [] -> j + Z.of_nat (length ts) = Threshold (opts cb) ->
     state (run ((fun t => (t, OpFailure)) <$> ts) cb).2 = StateOpen).
Proof.
  induction ts as [|t ts IH]; intros j cb Hj H0 Ht.
  { split; [|done]. intros _. simpl. by rewrite Z.add_0_r. }
  simpl.
  specialize (IH (j + 1) (Failure t cb)).
  destruct (Z.le_gt_cases (Threshold (opts cb)) (j + 1)) as [Hle|Hlt].
  - split; [lia|]. intros _ Heq. destruct ts; [|simpl in Heq; lia]. simpl.
    destruct (failure_step t j cb Hj H0) as (_ & _ & H2); [lia|]. auto.
  - destruct (failure_step t j cb Hj H0) as (Eo & H1 & _); [lia|].
    rewrite Eo in IH. destruct IH as [I1 I2]; [auto; lia|lia|lia|].
    destruct (run _ (Failure t cb)) as [rs cb2]. simpl in *.
    rewrite <- Z.add_assoc, Z.add_1_l, <- Nat2Z.inj_succ in I1, I2. split; [auto|].
    intros _ Heq. apply I2; [|done]. destruct ts; [simpl in Heq; lia|done].
Qed.

(** A new breaker trips exactly at its threshold: after fewer than [Threshold]
    consecutive failures it is closed, and the failure number [Threshold] opens
    it, whatever the times of the failures and the window. *)
Theorem trips_at_threshold (nm : string) (o : Options) (t0 : Z) (ts : list Z)
  (Hu : Threshold o < 2 ^ 32) (Hne : ts <> []) (Hl : Z.of_nat (length ts) <= Threshold o) :
  state (run ((fun t => (t, OpFailure)) <$> ts) (New nm o t0)).2 =
  if Z.of_nat (length ts) =? Threshold o then StateOpen else StateClosed.
Proof.
  assert (failing 0 (New nm o t0)) as H0 by (repeat split; simpl; lia).
  destruct (failures_run ts 0 (New nm o t0) H0) as [H1 H2]; [lia|done|].
  destruct (Z.eqb_spec (Z.of_nat (length ts)) (Threshold o)).
  - apply H2; [done|]. simpl. lia.
  - apply H1. simpl. lia.
Qed.

End Facts.

(** * Witnesses *)

Definition fail_at (t : Z) (cb : CircuitBreaker) : CircuitBreaker := (@exec amd64 t OpFailure cb).2.

Definition tripped : CircuitBreaker :=
  fail_at 5 (fail_at 4 (fail_at 3 (fail_at 2 (fail_at 1 (New "svc" DefaultOptions 0))))).

Lemma fail_at_reachable t cb : @reachable amd64 cb -> @reachable amd64 (fail_at t cb).
Proof. apply reach_exec. Qed.

Lemma tripped_open : state tripped = StateOpen.
Proof. vm_compute. reflexivity. Qed.

Lemma tripped_reachable : @reachable amd64 tripped.
Proof. unfold tripped. do 5 apply fail_at_reachable. apply reach_new. Qed.

Lemma refines_automaton_witness :
  request_op OpAllow = true /\ edge StateOpen OpAllow (state (@exec amd64 (6 * Second) OpAllow tripped).2).
Proof.
  split; [reflexivity|]. rewrite <- tripped_open.
  exact (@refines_automaton amd64 tripped (6 * Second) OpAllow tripped_reachable eq_refl).
Defined.

Lemma open_blocks_witness :
  state (@run amd64 [(6, OpAllow); (7, OpSuccess); (8, OpAllow)] tripped).2 = StateOpen.
Proof.
  apply (@open_blocks amd64 tripped [(6, OpAllow); (7, OpSuccess); (8, OpAllow)]); [vm_compute; reflexivity|].
  repeat constructor; vm_compute; congruence.
Defined.

Lemma half_open_budget_witness :
  (@run amd64 (replicate 3 (6 * Second, OpAllow)) tripped).1 = [Ok tt; Ok tt; Err ErrOpenState].
Proof.
  apply (@half_open_budget amd64 tripped (6 * Second) 3); try (vm_compute; reflexivity).
  vm_compute. split; congruence.
Defined.

(** Two requests at most, and one after a change of the options. *)
Definition pair_limit (n : Z) : Options :=
  {| Threshold := 5; Timeout := Second; HalfOpenMaxRequests := 1; ProgressiveFactor := of_int 2;
     MaxConcurrent := n; WindowSize := 0; SuccessThreshold := 2; ForceBreak := false; OnStateChange := None |}.

Definition traffic (cs : list Traffic.call) : option Traffic.system :=
  @Traffic.run amd64 ((fun c => (1, c)) <$> cs) {| Traffic.breaker := New "svc" (pair_limit 2) 0; Traffic.in_flight := 0 |}.

Definition busy : list Traffic.call :=
  [Traffic.Request; Traffic.Request; Traffic.Request; Traffic.Done false; Traffic.Apply (pair_limit 1); Traffic.Request].

Lemma concurrency_bounded_witness :
  exists s, traffic busy = Some s /\ 0 <= Traffic.in_flight s <= 2 /\ Traffic.in_flight s = concurrent (Traffic.breaker s).
Proof.
  destruct (traffic busy) as [s|] eqn:Hs; [|vm_compute in Hs; discriminate Hs]. exists s. split; [done|].
  destruct (@concurrency_bounded amd64 "svc" (pair_limit 2) 0 2 ((fun c => (1, c)) <$> busy) s) as (Hn & _ & He).
  - vm_compute. split; congruence.
  - reflexivity.
  - repeat constructor; vm_compute; congruence.
  - exact Hs.
  - split; [exact Hn|apply He; by repeat constructor].
Defined.

(** [Reset] while the limit is reached: twice as many run. *)
Example reset_forgets_requests :
  Traffic.in_flight <$> traffic [Traffic.Request; Traffic.Request; Traffic.ResetAll; Traffic.Request; Traffic.Request] = Some 4.
Proof. vm_compute. reflexivity. Qed.

(** An injected failure frees a place that is not free. *)
Example injected_failure_frees_place :
  Traffic.in_flight <$> traffic [Traffic.Request; Traffic.Request; Traffic.Inject; Traffic.Request] = Some 3.
Proof. vm_compute. reflexivity. Qed.

Lemma recovers_witness :
  state (@run amd64 [(6 * Second, OpAllow); (6 * Second + 1, OpSuccess); (6 * Second + 2, OpSuccess)] tripped).2
  = StateClosed.
Proof.
  apply (@recovers amd64 tripped (6 * Second) [6 * Second + 1; 6 * Second + 2]); try (vm_compute; reflexivity).
  vm_compute. split; congruence.
Defined.

Lemma trips_at_threshold_witness :
  state (@run amd64 ((fun t => (t, OpFailure)) <$> [1; 9; 20]) (New "svc" DefaultOptions 0)).2 = StateClosed.
Proof.
  rewrite (@trips_at_threshold amd64); [vm_compute; reflexivity|vm_compute; reflexivity|discriminate|vm_compute; discriminate].
Defined.
