(* ===== verification/AdaptiveBreaker.v ===== *)
(** The adaptive circuit breaker [src/internal/circuitbreaker/adaptive_breaker.go]:
    the breaker of CircuitBreaker.v with metrics, error patterns, a response time
    window and the parameter adjustment of the background goroutine. *)
From S2P Require Import Prelude Float64 CircuitBreaker.
From S2P Require Errs.

(** * Data *)

Record AdaptiveOptions : Type := {
  BaseOptions : Options; MinThreshold : Z; MaxThreshold : Z; MinTimeout : Z; MaxTimeout : Z;
  AdaptInterval : Z; DecreaseThresholdRate : float64; IncreaseThresholdRate : float64;
  ResponseTimeImpact : float64; EnableErrorPatternAnalysis : bool }.

Definition DefaultAdaptiveOptions : AdaptiveOptions :=
  {| BaseOptions := DefaultOptions; MinThreshold := 3; MaxThreshold := 50; MinTimeout := 1 * Second;
     MaxTimeout := 30 * Second; AdaptInterval := 10 * Second; DecreaseThresholdRate := lit 9 10;
     IncreaseThresholdRate := lit 12 10; ResponseTimeImpact := lit 3 10;
     EnableErrorPatternAnalysis := true |}.

Record ErrorPattern : Type := {
  Category : string; ECode : string; ECount : Z; EFirstSeen : Z; ELastSeen : Z;
  SuggestedStrategy : Errs.ErrorRecoveryStrategy }.

Record AdaptiveMetrics : Type := {
  CurrentState : State; CurrentThreshold : Z; CurrentTimeout : Z; ConsecutiveSuccesses : Z;
  ConsecutiveFailures : Z; FailureRate : float64; RequestCount5m : Z; FailureCount5m : Z;
  AverageResponseTime : Z; ErrorPatterns : list ErrorPattern; LastAdaptTime : Z;
  TotalRequests : Z; TotalFailures : Z; HalfOpenAllowed : Z }.

Record AdaptiveCircuitBreaker : Type := {
  base : CircuitBreaker; aopts : AdaptiveOptions; responseTimeSamples : list Z; sampleIndex : Z;
  errorPatterns : gmap string ErrorPattern; metrics : AdaptiveMetrics }.

Definition set_base b (a : AdaptiveCircuitBreaker) : AdaptiveCircuitBreaker :=
  {| base := b; aopts := aopts a; responseTimeSamples := responseTimeSamples a;
     sampleIndex := sampleIndex a; errorPatterns := errorPatterns a; metrics := metrics a |}.

Definition set_metrics m (a : AdaptiveCircuitBreaker) : AdaptiveCircuitBreaker :=
  {| base := base a; aopts := aopts a; responseTimeSamples := responseTimeSamples a;
     sampleIndex := sampleIndex a; errorPatterns := errorPatterns a; metrics := m |}.

Definition set_patterns p (a : AdaptiveCircuitBreaker) : AdaptiveCircuitBreaker :=
  {| base := base a; aopts := aopts a; responseTimeSamples := responseTimeSamples a;
     sampleIndex := sampleIndex a; errorPatterns := p; metrics := metrics a |}.

Definition set_samples l i (a : AdaptiveCircuitBreaker) : AdaptiveCircuitBreaker :=
  {| base := base a; aopts := aopts a; responseTimeSamples := l; sampleIndex := i;
     errorPatterns := errorPatterns a; metrics := metrics a |}.

(** [NewAdaptiveCircuitBreaker]; [own] names the listener it registers. *)
Definition NewAdaptive (nm : string) (o : AdaptiveOptions) (own : nat) (now : Z) : AdaptiveCircuitBreaker :=
  {| base := AddListener (Some own) (New nm (BaseOptions o) now); aopts := o;
     responseTimeSamples := replicate 100 0; sampleIndex := 0; errorPatterns := ∅;
     metrics := {| CurrentState := StateClosed; CurrentThreshold := Threshold (BaseOptions o);
                   CurrentTimeout := Timeout (BaseOptions o); ConsecutiveSuccesses := 0;
                   ConsecutiveFailures := 0; FailureRate := of_int 0; RequestCount5m := 0;
                   FailureCount5m := 0; AverageResponseTime := 0; ErrorPatterns := [];
                   LastAdaptTime := now; TotalRequests := 0; TotalFailures := 0; HalfOpenAllowed := 0 |} |}.

(** * Operations *)

Definition AAllow (now : Z) (a : AdaptiveCircuitBreaker) : result cb_error unit * AdaptiveCircuitBreaker :=
  let m := metrics a in
  let m' := {| CurrentState := CurrentState m; CurrentThreshold := CurrentThreshold m;
               CurrentTimeout := CurrentTimeout m; ConsecutiveSuccesses := ConsecutiveSuccesses m;
               ConsecutiveFailures := ConsecutiveFailures m; FailureRate := FailureRate m;
               RequestCount5m := u32 (RequestCount5m m + 1); FailureCount5m := FailureCount5m m;
               AverageResponseTime := AverageResponseTime m; ErrorPatterns := ErrorPatterns m;
               LastAdaptTime := LastAdaptTime m; TotalRequests := u64 (TotalRequests m + 1);
               TotalFailures := TotalFailures m; HalfOpenAllowed := HalfOpenAllowed m |} in
  let '(r, b) := Allow now (base a) in (r, set_base b (set_metrics m' a)).

Definition set_average (t : Z) (m : AdaptiveMetrics) : AdaptiveMetrics :=
  {| CurrentState := CurrentState m; CurrentThreshold := CurrentThreshold m;
     CurrentTimeout := CurrentTimeout m; ConsecutiveSuccesses := ConsecutiveSuccesses m;
     ConsecutiveFailures := ConsecutiveFailures m; FailureRate := FailureRate m;
     RequestCount5m := RequestCount5m m; FailureCount5m := FailureCount5m m; AverageResponseTime := t;
     ErrorPatterns := ErrorPatterns m; LastAdaptTime := LastAdaptTime m;
     TotalRequests := TotalRequests m; TotalFailures := TotalFailures m; HalfOpenAllowed := HalfOpenAllowed m |}.

(** The mean of the positive samples, in wrapping [int64] arithmetic: [None] when
    there is none. *)
Definition mean_positive (l : list Z) : option Z :=
  let pos := filter (fun d => (d >? 0) = true) l in
  if (length pos =? 0)%nat then None
  else Some (i64 (Z.quot (foldl (fun t d => i64 (t + d)) 0 pos) (Z.of_nat (length pos)))).

(** [recordResponseTime]: write the ring buffer, advance the index, refresh the
    average. The index panics outside the buffer. *)
Definition recordResponseTime (d : Z) (a : AdaptiveCircuitBreaker) : outcome AdaptiveCircuitBreaker :=
  let n := Z.of_nat (length (responseTimeSamples a)) in
  if (sampleIndex a <? 0) || (n <=? sampleIndex a) then Panics
  else
    let l := <[Z.to_nat (sampleIndex a) := d]> (responseTimeSamples a) in
    let a := set_samples l (Z.rem (sampleIndex a + 1) n) a in
    Returns (match mean_positive l with
             | Some t => set_metrics (set_average t (metrics a)) a
             | None => a
             end).

Definition ASuccess `{GoImpl} (now took : Z) (a : AdaptiveCircuitBreaker) : outcome AdaptiveCircuitBreaker :=
  match recordResponseTime took (set_base (Success now (base a)) a) with
  | Panics => Panics
  | Returns a =>
      let m := metrics a in
      Returns (set_metrics
        {| CurrentState := CurrentState m; CurrentThreshold := CurrentThreshold m;
           CurrentTimeout := CurrentTimeout m; ConsecutiveSuccesses := u32 (ConsecutiveSuccesses m + 1);
           ConsecutiveFailures := 0; FailureRate := FailureRate m; RequestCount5m := RequestCount5m m;
           FailureCount5m := FailureCount5m m; AverageResponseTime := AverageResponseTime m;
           ErrorPatterns := ErrorPatterns m; LastAdaptTime := LastAdaptTime m;
           TotalRequests := TotalRequests m; TotalFailures := TotalFailures m;
           HalfOpenAllowed := halfOpenAllowed (base a) |} a)
  end.

Definition AFailure (now : Z) (a : AdaptiveCircuitBreaker) : AdaptiveCircuitBreaker :=
  let m := metrics a in
  let f5 := u32 (FailureCount5m m + 1) in
  set_metrics
    {| CurrentState := CurrentState m; CurrentThreshold := CurrentThreshold m;
       CurrentTimeout := CurrentTimeout m; ConsecutiveSuccesses := 0;
       ConsecutiveFailures := u32 (ConsecutiveFailures m + 1);
       FailureRate := fdiv (of_int f5) (of_int (RequestCount5m m)); RequestCount5m := RequestCount5m m;
       FailureCount5m := f5; AverageResponseTime := AverageResponseTime m;
       ErrorPatterns := ErrorPatterns m; LastAdaptTime := LastAdaptTime m;
       TotalRequests := TotalRequests m; TotalFailures := u64 (TotalFailures m + 1);
       HalfOpenAllowed := HalfOpenAllowed m |}
    (set_base (Failure now (base a)) a).

Definition error_key (e : Errs.enhancedError) : string := Errs.category e +:+ ":" +:+ Errs.code e.

Definition RecordEnhancedFailure (now : Z) (err : option Errs.enhancedError) (a : AdaptiveCircuitBreaker)
  : AdaptiveCircuitBreaker :=
  let a := AFailure now a in
  match err with
  | None => a
  | Some e =>
      if negb (EnableErrorPatternAnalysis (aopts a)) then a
      else
        let p := match errorPatterns a !! error_key e with
                 | Some p => {| Category := Category p; ECode := ECode p; ECount := i64 (ECount p + 1);
                                EFirstSeen := EFirstSeen p; ELastSeen := now;
                                SuggestedStrategy := Errs.recoveryStrategy e |}
                 | None => {| Category := Errs.category e; ECode := Errs.code e; ECount := 1;
                              EFirstSeen := now; ELastSeen := now;
                              SuggestedStrategy := Errs.recoveryStrategy e |}
                 end in
        set_patterns (<[error_key e := p]> (errorPatterns a)) a
  end.

(** The error of a request: one of the breaker's own sentinels (a request may run
    another breaker) or any other error. *)
Definition request_error : Type := cb_error + Errs.error.

Section Execute.
Context `{GoImpl} {V : Type} (nil : V).

(** What the wrapped request answers, and the three clock readings of [Execute]:
    at [Allow], when the result is recorded, and the durations measured. *)
Record call : Type := { answer : V * option request_error; at_allow : Z; at_report : Z; took : Z; took_success : Z }.

(** [Execute]: the value and error returned, whether the request ran, and the
    breaker. *)
Definition Execute (fallback : option (V -> V * option request_error)) (c : call)
    (a : AdaptiveCircuitBreaker) : outcome ((V * option request_error) * bool * AdaptiveCircuitBreaker) :=
  let '(r, a) := AAllow (at_allow c) a in
  match r with
  | Err e => Returns (match fallback with Some f => f nil | None => (nil, Some (inl e)) end, false, a)
  | Ok _ =>
      match recordResponseTime (took c) a with
      | Panics => Panics
      | Returns a =>
          match answer c with
          | (v, Some err) =>
              let a := match err with
                       | inr (Errs.Enhanced e) => RecordEnhancedFailure (at_report c) (Some e) a
                       | _ => AFailure (at_report c) a
                       end in
              Returns (match fallback with
                       | Some f => match err with inl ErrOpenState => (v, Some err) | _ => f v end
                       | None => (v, Some err)
                       end, true, a)
          | (v, None) =>
              match ASuccess (at_report c) (took_success c) a with
              | Panics => Panics
              | Returns a => Returns ((v, None), true, a)
              end
          end
      end
  end.
End Execute.

(** [adjustParameters]. The new threshold and timeout go to the adaptive options
    and to the metrics. *)
Definition adjustParameters `{GoImpl} (now : Z) (a : AdaptiveCircuitBreaker) : AdaptiveCircuitBreaker :=
  let m := metrics a in
  let o := aopts a in
  if decide (state (base a) = StateClosed) then
    let t1 :=
      if fgt (FailureRate m) (lit 1 10)
      then to_u32 (fmul (of_int (CurrentThreshold m)) (IncreaseThresholdRate o))
      else if flt (FailureRate m) (lit 1 100)
      then to_u32 (fmul (of_int (CurrentThreshold m)) (DecreaseThresholdRate o))
      else CurrentThreshold m in
    let baseline := 100 * Millisecond in
    let d1 :=
      if AverageResponseTime m >? 2 * baseline then i64 (Z.quot (i64 (CurrentTimeout m * 11)) 10)
      else if AverageResponseTime m <? Z.quot baseline 2 then i64 (Z.quot (i64 (CurrentTimeout m * 9)) 10)
      else CurrentTimeout m in
    let newThreshold := clampZ (MinThreshold o) (MaxThreshold o) t1 in
    let newTimeout := clampZ (MinTimeout o) (MaxTimeout o) d1 in
    if (newThreshold =? CurrentThreshold m) && (newTimeout =? CurrentTimeout m) then a
    else
      let b := BaseOptions o in
      let b' := {| Threshold := newThreshold; Timeout := newTimeout;
                   HalfOpenMaxRequests := HalfOpenMaxRequests b; ProgressiveFactor := ProgressiveFactor b;
                   MaxConcurrent := MaxConcurrent b; WindowSize := WindowSize b;
                   SuccessThreshold := SuccessThreshold b; ForceBreak := ForceBreak b;
                   OnStateChange := OnStateChange b |} in
      {| base := base a;
         aopts := {| BaseOptions := b'; MinThreshold := MinThreshold o; MaxThreshold := MaxThreshold o;
                     MinTimeout := MinTimeout o; MaxTimeout := MaxTimeout o;
                     AdaptInterval := AdaptInterval o; DecreaseThresholdRate := DecreaseThresholdRate o;
                     IncreaseThresholdRate := IncreaseThresholdRate o;
                     ResponseTimeImpact := ResponseTimeImpact o;
                     EnableErrorPatternAnalysis := EnableErrorPatternAnalysis o |};
         responseTimeSamples := responseTimeSamples a; sampleIndex := sampleIndex a;
         errorPatterns := errorPatterns a;
         metrics := {| CurrentState := CurrentState m; CurrentThreshold := newThreshold;
                       CurrentTimeout := newTimeout; ConsecutiveSuccesses := ConsecutiveSuccesses m;
                       ConsecutiveFailures := ConsecutiveFailures m; FailureRate := FailureRate m;
                       RequestCount5m := RequestCount5m m; FailureCount5m := FailureCount5m m;
                       AverageResponseTime := AverageResponseTime m; ErrorPatterns := ErrorPatterns m;
                       LastAdaptTime := now; TotalRequests := TotalRequests m;
                       TotalFailures := TotalFailures m; HalfOpenAllowed := HalfOpenAllowed m |} |}
  else a.

(** The patterns go to the metrics, in the order of the map's range. *)
Definition analyzeErrorPatterns (range : gmap string ErrorPattern -> list ErrorPattern) (a : AdaptiveCircuitBreaker) : AdaptiveCircuitBreaker :=
  let m := metrics a in
  set_metrics
    {| CurrentState := CurrentState m; CurrentThreshold := CurrentThreshold m; CurrentTimeout := CurrentTimeout m;
       ConsecutiveSuccesses := ConsecutiveSuccesses m; ConsecutiveFailures := ConsecutiveFailures m;
       FailureRate := FailureRate m; RequestCount5m := RequestCount5m m; FailureCount5m := FailureCount5m m;
       AverageResponseTime := AverageResponseTime m; ErrorPatterns := range (errorPatterns a);
       LastAdaptTime := LastAdaptTime m; TotalRequests := TotalRequests m;
       TotalFailures := TotalFailures m; HalfOpenAllowed := HalfOpenAllowed m |} a.

Definition set_CurrentState (to : State) (a : AdaptiveCircuitBreaker) : AdaptiveCircuitBreaker :=
  let m := metrics a in
  set_metrics
    {| CurrentState := to; CurrentThreshold := CurrentThreshold m; CurrentTimeout := CurrentTimeout m;
       ConsecutiveSuccesses := ConsecutiveSuccesses m; ConsecutiveFailures := ConsecutiveFailures m;
       FailureRate := FailureRate m; RequestCount5m := RequestCount5m m; FailureCount5m := FailureCount5m m;
       AverageResponseTime := AverageResponseTime m; ErrorPatterns := ErrorPatterns m;
       LastAdaptTime := LastAdaptTime m; TotalRequests := TotalRequests m;
       TotalFailures := TotalFailures m; HalfOpenAllowed := HalfOpenAllowed m |} a.

(** The listener that the constructor registers: the new state goes to the metrics,
    and on opening the patterns are copied. *)
Definition on_state_change (range : gmap string ErrorPattern -> list ErrorPattern) (to : State)
    (a : AdaptiveCircuitBreaker) : AdaptiveCircuitBreaker :=
  let a := set_CurrentState to a in
  if decide (to = StateOpen) then if EnableErrorPatternAnalysis (aopts a) then analyzeErrorPatterns range a else a else a.

(** The five-minute tick of the background goroutine. *)
Definition reset_5m (a : AdaptiveCircuitBreaker) : AdaptiveCircuitBreaker :=
  let m := metrics a in
  set_metrics
    {| CurrentState := CurrentState m; CurrentThreshold := CurrentThreshold m;
       CurrentTimeout := CurrentTimeout m; ConsecutiveSuccesses := ConsecutiveSuccesses m;
       ConsecutiveFailures := ConsecutiveFailures m; FailureRate := FailureRate m; RequestCount5m := 0;
       FailureCount5m := 0; AverageResponseTime := AverageResponseTime m; ErrorPatterns := ErrorPatterns m;
       LastAdaptTime := LastAdaptTime m; TotalRequests := TotalRequests m;
       TotalFailures := TotalFailures m; HalfOpenAllowed := HalfOpenAllowed m |} a.

Definition AReset (now : Z) (a : AdaptiveCircuitBreaker) : AdaptiveCircuitBreaker :=
  let m := metrics a in
  {| base := Reset now (base a); aopts := aopts a;
     responseTimeSamples := (fun _ => 0) <$> responseTimeSamples a; sampleIndex := 0; errorPatterns := ∅;
     metrics := {| CurrentState := StateClosed; CurrentThreshold := CurrentThreshold m;
                   CurrentTimeout := CurrentTimeout m; ConsecutiveSuccesses := 0; ConsecutiveFailures := 0;
                   FailureRate := FailureRate m; RequestCount5m := RequestCount5m m;
                   FailureCount5m := FailureCount5m m; AverageResponseTime := AverageResponseTime m;
                   ErrorPatterns := ErrorPatterns m; LastAdaptTime := LastAdaptTime m;
                   TotalRequests := TotalRequests m; TotalFailures := TotalFailures m;
                   HalfOpenAllowed := HalfOpenAllowed m |} |}.

(** * Theorems *)

(** The ring buffer: it has elements and the index is inside it. *)
Definition ring_ok (a : AdaptiveCircuitBreaker) : Prop :=
  0 <= sampleIndex a < Z.of_nat (length (responseTimeSamples a)).

Lemma recordResponseTime_ok d a : ring_ok a ->
  exists a', recordResponseTime d a = Returns a' /\ ring_ok a' /\ base a' = base a.
Proof.
  unfold ring_ok, recordResponseTime. intros Hr.
  destruct (Z.ltb_spec (sampleIndex a) 0); [lia|].
  destruct (Z.leb_spec (Z.of_nat (length (responseTimeSamples a))) (sampleIndex a)); [lia|]. simpl.
  eexists. split; [done|].
  destruct (mean_positive _); simpl; rewrite length_insert; (split; [|done]);
    rewrite Z.rem_mod_nonneg by lia; apply Z.mod_pos_bound; lia.
Qed.

Section Facts.
Context `{GoImpl} {V : Type} (nil : V).

Lemma Allow_enters now cb :
  is_u32 (concurrent cb) -> concurrent cb + 1 < 2 ^ 32 ->
  let '(r, cb') := Allow now cb in
  match r with Ok _ => concurrent cb' = concurrent cb + 1 | Err _ => cb' = cb end.
Proof.
  intros Hu Hlt. unfold Allow. unfold is_u32 in Hu.
  repeat case_match; simplify_eq/=; rewrite ?changeState_concurrent; try done;
    apply u32_small; unfold is_u32; lia.
Qed.

Lemma leave_concurrent cb n : concurrent cb = n + 1 -> is_u32 n -> concurrent (leave cb) = n.
Proof.
  intros E Hn. unfold leave, is_u32 in *. rewrite E. destruct (Z.gtb_spec (n + 1) 0); [|lia].
  simpl. rewrite u32_small; [lia|]. unfold is_u32. lia.
Qed.

(** [Execute] brackets every call: it never panics, the request runs exactly when
    the breaker admits it, a rejected call leaves the breaker as it was, and after
    an admitted one, successful or not, the number of requests in flight is what
    it was before. *)
Theorem Execute_balanced (fb : option (V -> V * option request_error)) (c : call) (a : AdaptiveCircuitBreaker)
  (Hring : ring_ok a) (Hu : is_u32 (concurrent (base a))) (Hlt : concurrent (base a) + 1 < 2 ^ 32) :
  exists ret ran a', Execute nil fb c a = Returns (ret, ran, a') /\ ring_ok a' /\
    ran = is_ok (Allow (at_allow c) (base a)).1 /\
    concurrent (base a') = concurrent (base a) /\ (ran = false -> base a' = base a).
Proof.
  unfold Execute, AAllow.
  pose proof (Allow_enters (at_allow c) (base a) Hu Hlt) as Ha.
  destruct (Allow (at_allow c) (base a)) as [[[]|e] cb]; simpl in *.
  2: { subst cb. eauto 10. }
  match goal with |- context [recordResponseTime _ ?x] => set (a1 := x) end.
  destruct (recordResponseTime_ok (took c) a1 Hring) as (a2 & -> & Hr2 & E2). simpl in E2.
  destruct (answer c) as [v [err|]].
  - do 3 eexists. split; [done|]. destruct (report_concurrent (at_report c) (base a2)) as (_ & _ & Ef & _).
    assert (concurrent (leave (base a2)) = concurrent (base a)) as El by (apply leave_concurrent; by rewrite ?E2).
    rewrite E2 in Ef, El.
    destruct err as [|[]]; simpl; unfold ring_ok in *; try (by rewrite E2, Ef, El).
    unfold RecordEnhancedFailure. case_bool; simpl; by rewrite E2, Ef, El.
  - unfold ASuccess. set (a3 := set_base _ a2).
    destruct (recordResponseTime_ok (took_success c) a3 Hr2) as (a4 & -> & Hr4 & E4).
    do 3 eexists. split; [done|]. simpl. rewrite E4. simpl.
    destruct (report_concurrent (at_report c) (base a2)) as (Es & _). rewrite Es.
    split; [exact Hr4|]. split; [done|]. split; [|done]. apply leave_concurrent; by rewrite ?E2.
Qed.

(** The adjustment keeps the reported parameters in their configured ranges and
    changes nothing while the breaker is open or half-open; it never reaches the
    breaker that decides on requests. *)
Theorem adjustParameters_bounds (now : Z) (a : AdaptiveCircuitBreaker)
  (Ht : MinThreshold (aopts a) <= MaxThreshold (aopts a)) (Hd : MinTimeout (aopts a) <= MaxTimeout (aopts a)) :
  let a' := adjustParameters now a in
  base a' = base a /\
  if decide (state (base a) = StateClosed) then
    MinThreshold (aopts a) <= CurrentThreshold (metrics a') <= MaxThreshold (aopts a) /\
    MinTimeout (aopts a) <= CurrentTimeout (metrics a') <= MaxTimeout (aopts a)
  else a' = a.
Proof.
  cbv zeta. unfold adjustParameters. case_decide; [|done].
  match goal with |- context [clampZ (MinThreshold _) _ ?x] =>
    pose proof (clampZ_bounds (MinThreshold (aopts a)) (MaxThreshold (aopts a)) x Ht) as B1 end.
  match goal with |- context [clampZ (MinTimeout _) _ ?x] =>
    pose proof (clampZ_bounds (MinTimeout (aopts a)) (MaxTimeout (aopts a)) x Hd) as B2 end.
  case_bool; simpl; [|done]. bool_to_prop. split; [done|]. lia.
Qed.

End Facts.

Definition fresh : AdaptiveCircuitBreaker := NewAdaptive "svc" DefaultAdaptiveOptions 0 0.

Lemma Execute_balanced_witness :
  let c := {| answer := (7%nat, None); at_allow := 1; at_report := 2; took := 5; took_success := 1 |} in
  exists ret ran a', @Execute amd64 nat 0%nat None c fresh = Returns (ret, ran, a') /\
    concurrent (base a') = concurrent (base fresh).
Proof.
  intros c.
  destruct (@Execute_balanced amd64 nat 0%nat None c fresh) as (r & n & a' & E & _ & _ & Hc & _);
    [vm_compute; split; congruence|vm_compute; split; congruence|vm_compute; reflexivity|].
  exists r, n, a'. split; [exact E|exact Hc].
Defined.

Lemma adjustParameters_bounds_witness :
  let a' := @adjustParameters amd64 5 fresh in
  3 <= CurrentThreshold (metrics a') <= 50.
Proof.
  intros a'.
  pose proof (@adjustParameters_bounds amd64 5 fresh ltac:(vm_compute; discriminate) ltac:(vm_compute; discriminate))
    as [_ T].
  exact (proj1 T).
Defined.

(** The adapted parameters are not applied: with every request failing the reported
    threshold rises from 5 to 6, and the breaker still trips at the fifth failure. *)
Lemma adaptation_not_applied :
  let a := AFailure 1 (AAllow 1 fresh).2 in
  let a' := @adjustParameters amd64 2 a in
  CurrentThreshold (metrics a') = 6 /\ Threshold (opts (base a')) = 5 /\
  state (base (AFailure 6 (AFailure 5 (AFailure 4 (AFailure 3 a'))))) = StateOpen.
Proof. vm_compute. repeat split; reflexivity. Qed.
