(* ===== verification/RateLimit.v ===== *)
(** The rate limiters of [src/ratelimit]: fixed window, sliding window, token
    bucket, leaky bucket, their Redis versions and the adaptive limiter.

    An interceptor's answer is a [verdict]: the handler runs (with the context
    marked as limited or not) or an error is returned. *)
From S2P Require Import Prelude Float64.

(** * Rejection strategies *)

Inductive limit_error : Type := ErrLimitExceeded | ErrContext | ErrRedis.

Inductive verdict : Type :=
| Handle (limited : bool)
| Reject (e : limit_error).

Inductive rejectStrategy : Type := defaultRejectStrategy | markFailedStrategy.

(** [onReject(ctx, req, info, handler)] *)
Definition on_reject (s : rejectStrategy) : verdict :=
  match s with defaultRejectStrategy => Reject ErrLimitExceeded | markFailedStrategy => Handle true end.

Definition admitted (v : verdict) : bool := match v with Handle false => true | _ => false end.

(** * Fixed window *)
Module FixWindow.

Record FixWindowLimiter : Type := {
  timestamp : Z; interval : Z; rate : Z; cnt : Z; onReject : rejectStrategy }.

Definition NewFixWindowLimiter (intv r now : Z) : FixWindowLimiter :=
  {| timestamp := now; interval := intv; rate := r; cnt := 0; onReject := defaultRejectStrategy |}.

Definition FixWindowMarkFailed (l : FixWindowLimiter) : FixWindowLimiter :=
  {| timestamp := timestamp l; interval := interval l; rate := rate l; cnt := cnt l;
     onReject := markFailedStrategy |}.

Definition set_window (t c : Z) (l : FixWindowLimiter) : FixWindowLimiter :=
  {| timestamp := t; interval := interval l; rate := rate l; cnt := c; onReject := onReject l |}.

(** [LimitUnary] when no other request runs between its atomic operations. *)
Definition LimitUnary (current : Z) (l : FixWindowLimiter) : verdict * FixWindowLimiter :=
  let l := if i64 (current - timestamp l) >=? interval l then set_window current 0 l else l in
  let c := i64 (cnt l + 1) in
  let l := set_window (timestamp l) c l in
  (if c >? rate l then on_reject (onReject l) else Handle false, l).

Fixpoint run (times : list Z) (l : FixWindowLimiter) : list verdict * FixWindowLimiter :=
  match times with
  | [] => ([], l)
  | t :: ts => let '(v, l1) := LimitUnary t l in let '(vs, l2) := run ts l1 in (v :: vs, l2)
  end.

(** ** The atomic steps of one request, for interleavings

    A request holds the clock value it read; its program counter is the next
    atomic operation: load the timestamp, compare-and-swap it, store the zero
    count, add one to the count. *)
Inductive pc : Type :=
| AtLoad | AtCAS (seen : Z) | AtStore | AtAdd | Finished (v : verdict).

Record thread : Type := { current : Z; at_pc : pc }.

(** The step of the thread with the given index; a finished thread does not move. *)
Definition thread_step (th : thread) (l : FixWindowLimiter) : thread * FixWindowLimiter :=
  let go p := {| current := current th; at_pc := p |} in
  match at_pc th with
  | AtLoad =>
      (go (if i64 (current th - timestamp l) >=? interval l then AtCAS (timestamp l) else AtAdd), l)
  | AtCAS seen =>
      if timestamp l =? seen then (go AtStore, set_window (current th) (cnt l) l) else (go AtAdd, l)
  | AtStore => (go AtAdd, set_window (timestamp l) 0 l)
  | AtAdd =>
      let c := i64 (cnt l + 1) in
      (go (Finished (if c >? rate l then on_reject (onReject l) else Handle false)),
       set_window (timestamp l) c l)
  | Finished _ => (th, l)
  end.

Definition step_at (i : nat) (s : list thread * FixWindowLimiter) : list thread * FixWindowLimiter :=
  match s.1 !! i with
  | Some th => let '(th', l') := thread_step th s.2 in (<[i := th']> s.1, l')
  | None => s
  end.

(** A schedule is the sequence of threads that move. *)
Definition schedule (moves : list nat) (s : list thread * FixWindowLimiter) : list thread * FixWindowLimiter :=
  foldl (fun s i => step_at i s) s moves.

(** Requests that were let through. *)
Definition served (ths : list thread) : nat :=
  length (filter (fun th => match at_pc th with Finished v => admitted v | _ => false end = true) ths).

End FixWindow.

(** * Sliding window *)
Module SlideWindow.

Record SlideWindowLimiter : Type := {
  queue : list Z; interval : Z; rate : Z; onReject : rejectStrategy }.

Definition NewSlideWindowLimiter (intv r : Z) : SlideWindowLimiter :=
  {| queue := []; interval := intv; rate := r; onReject := defaultRejectStrategy |}.

Definition SlideWindowMarkFailed (l : SlideWindowLimiter) : SlideWindowLimiter :=
  {| queue := queue l; interval := interval l; rate := rate l; onReject := markFailedStrategy |}.

(** [LimitUnary] from the moment at which it has the mutex: [now] is the clock that it
    read before it asked for it. *)
Definition LimitUnary (now : Z) (l : SlideWindowLimiter) : verdict * SlideWindowLimiter :=
  let boundary := i64 (now - interval l) in
  let q := filter (fun t => (t <? boundary) = false) (queue l) in
  if Z.of_nat (length q) <? rate l
  then (Handle false, {| queue := q ++ [now]; interval := interval l; rate := rate l; onReject := onReject l |})
  else (on_reject (onReject l), {| queue := q; interval := interval l; rate := rate l; onReject := onReject l |}).

Fixpoint run (times : list Z) (l : SlideWindowLimiter) : list verdict * SlideWindowLimiter :=
  match times with
  | [] => ([], l)
  | t :: ts => let '(v, l1) := LimitUnary t l in let '(vs, l2) := run ts l1 in (v :: vs, l2)
  end.

(** The times of the requests that a run admitted. *)
Definition admitted_times (times : list Z) (vs : list verdict) : list Z :=
  fst <$> filter (fun p : Z * verdict => admitted p.2 = true) (zip times vs).

(** ** Requests at the same time

    A request reads the clock, waits for the mutex, decides, and runs its handler before
    it gives the mutex back. [reads] are the waiting requests with the times they have
    read; [log] are the times of the admitted ones, in the order of their decisions. *)
Record system : Type := { limiter : SlideWindowLimiter; clock : Z; reads : gmap nat Z; holder : option nat; log : list Z }.

Definition start (l : SlideWindowLimiter) (now : Z) : system :=
  {| limiter := l; clock := now; reads := ∅; holder := None; log := [] |}.

Inductive event : Type := Elapse (d : Z) | Arrive (i : nat) | Enter (i : nat) | Leave.

(** [delay]: the longest that a request waits for the mutex. *)
Definition step (delay : Z) (e : event) (s : system) : option system :=
  match e with
  | Elapse d =>
      if 0 <=? d then Some {| limiter := limiter s; clock := clock s + d; reads := reads s; holder := holder s; log := log s |} else None
  | Arrive i =>
      match reads s !! i with
      | Some _ => None
      | None => Some {| limiter := limiter s; clock := clock s; reads := <[i := clock s]> (reads s); holder := holder s; log := log s |}
      end
  | Enter i =>
      match holder s, reads s !! i with
      | None, Some now =>
          if clock s - now <=? delay then
            let '(v, l) := LimitUnary now (limiter s) in
            Some {| limiter := l; clock := clock s; reads := delete i (reads s);
                    holder := match v with Handle _ => Some i | Reject _ => None end;
                    log := if admitted v then log s ++ [now] else log s |}
          else None
      | _, _ => None
      end
  | Leave =>
      match holder s with
      | Some _ => Some {| limiter := limiter s; clock := clock s; reads := reads s; holder := None; log := log s |}
      | None => None
      end
  end.

Fixpoint run_events (delay : Z) (es : list event) (s : system) : option system :=
  match es with [] => Some s | e :: es => s' ← step delay e s; run_events delay es s' end.

End SlideWindow.

(** * Token bucket *)
Module TokenBucket.

Record TokenBucket : Type := { rate : float64; bucketSize : float64; tokens : float64; lastRefill : Z }.

Definition NewTokenBucket (r size : float64) (now : Z) : TokenBucket :=
  {| rate := r; bucketSize := size; tokens := size; lastRefill := now |}.

Definition refill (now : Z) (tb : TokenBucket) : TokenBucket :=
  let elapsed := Seconds (time_sub now (lastRefill tb)) in
  let t := fadd (tokens tb) (fmul elapsed (rate tb)) in
  {| rate := rate tb; bucketSize := bucketSize tb;
     tokens := if fgt t (bucketSize tb) then bucketSize tb else t; lastRefill := now |}.

Definition Allow (now : Z) (tb : TokenBucket) : bool * TokenBucket :=
  let tb := refill now tb in
  if fge (tokens tb) (of_int 1)
  then (true, {| rate := rate tb; bucketSize := bucketSize tb; tokens := fsub (tokens tb) (of_int 1);
                 lastRefill := lastRefill tb |})
  else (false, tb).

Definition UpdateRate (now : Z) (newRate : float64) (tb : TokenBucket) : TokenBucket :=
  let tb := refill now tb in
  {| rate := newRate; bucketSize := bucketSize tb; tokens := tokens tb; lastRefill := lastRefill tb |}.

(** Any sequence of calls on a bucket: [None] is an [Allow], [Some r] an
    [UpdateRate]; the answers of the [Allow] calls. *)
Fixpoint run (calls : list (Z * option float64)) (tb : TokenBucket) : list bool * TokenBucket :=
  match calls with
  | [] => ([], tb)
  | (t, None) :: cs => let '(b, tb1) := Allow t tb in let '(bs, tb2) := run cs tb1 in (b :: bs, tb2)
  | (t, Some r) :: cs => run cs (UpdateRate t r tb)
  end.

(** ** The channel-based limiter

    [tokens] is a buffered channel of empty structs: its state is the number of
    buffered elements. [closer] is the field [close]: the open channel, or the nil
    that [Close] leaves after closing the channel. *)
Record TokenBucketLimiter : Type := {
  buffered : nat; capacity : nat; closer : option unit; producing : bool; onReject : rejectStrategy }.

Definition NewTokenBucketLimiter (cap : nat) : TokenBucketLimiter :=
  {| buffered := 0; capacity := cap; closer := Some tt; producing := true; onReject := defaultRejectStrategy |}.

Definition set_buffered (n : nat) (l : TokenBucketLimiter) : TokenBucketLimiter :=
  {| buffered := n; capacity := capacity l; closer := closer l; producing := producing l;
     onReject := onReject l |}.

Definition TokenBucketMarkFailed (l : TokenBucketLimiter) : TokenBucketLimiter :=
  {| buffered := buffered l; capacity := capacity l; closer := closer l; producing := producing l;
     onReject := markFailedStrategy |}.

(** The producer goroutine: a tick is a non-blocking send; once the channel is
    closed it may take the case that ends it. *)
Definition tick (l : TokenBucketLimiter) : TokenBucketLimiter :=
  if producing l && (buffered l <? capacity l)%nat then set_buffered (S (buffered l)) l else l.

Definition producer_exit (l : TokenBucketLimiter) : TokenBucketLimiter :=
  match closer l with
  | None => {| buffered := buffered l; capacity := capacity l; closer := closer l; producing := false;
               onReject := onReject l |}
  | Some _ => l
  end.

(** [Close]: closes the channel and forgets it. *)
Definition Close (l : TokenBucketLimiter) : TokenBucketLimiter :=
  match closer l with
  | Some _ => {| buffered := buffered l; capacity := capacity l; closer := None; producing := producing l;
                 onReject := onReject l |}
  | None => l
  end.

(** The [select] of a request: the cases that can fire in state [l]. [captured]
    is the value [l.close] had when the request evaluated its cases; the channel
    it names is closed when the field has become nil, and a nil channel never
    delivers. *)
Inductive limit_case (ctx_done : bool) (captured : option unit) (l : TokenBucketLimiter) :
  verdict -> TokenBucketLimiter -> Prop :=
| case_token n : buffered l = S n -> limit_case ctx_done captured l (Handle false) (set_buffered n l)
| case_ctx : ctx_done = true -> limit_case ctx_done captured l (on_reject (onReject l)) l
| case_close u : captured = Some u -> closer l = None ->
    limit_case ctx_done captured l (Reject ErrLimitExceeded) l.

(** The steps of a limiter other than requests, and with them. *)
Inductive step (l : TokenBucketLimiter) : TokenBucketLimiter -> Prop :=
| step_tick : step l (tick l)
| step_exit : step l (producer_exit l)
| step_close : step l (Close l)
| step_limit d c v l' : limit_case d c l v l' -> step l l'.

Definition reachable (cap : nat) : TokenBucketLimiter -> Prop := rtc step (NewTokenBucketLimiter cap).

End TokenBucket.

(** * Leaky bucket *)
Module LeakyBucket.

(** A [time.Ticker]'s channel holds at most one tick. *)
Record LeakyBucketLimiter : Type := { pending : bool; stopped : bool; onReject : rejectStrategy }.

Definition NewLeakyBucketLimiter : LeakyBucketLimiter :=
  {| pending := false; stopped := false; onReject := defaultRejectStrategy |}.

Definition tick (l : LeakyBucketLimiter) : LeakyBucketLimiter :=
  if stopped l then l else {| pending := true; stopped := stopped l; onReject := onReject l |}.

Definition Close (l : LeakyBucketLimiter) : LeakyBucketLimiter :=
  {| pending := pending l; stopped := true; onReject := onReject l |}.

Inductive limit_case (ctx_done : bool) (l : LeakyBucketLimiter) : verdict -> LeakyBucketLimiter -> Prop :=
| case_ctx : ctx_done = true -> limit_case ctx_done l (on_reject (onReject l)) l
| case_tick : pending l = true ->
    limit_case ctx_done l (Handle false) {| pending := false; stopped := stopped l; onReject := onReject l |}.

End LeakyBucket.

(** * Redis windows *)
Module RedisWindow.

(** The commands of the embedded scripts and the scripts, as functions of the
    replies they read: [GET key], and [ZCOUNT] after the old entries are removed. *)
Inductive command : Type := SetPX (value expiry : Z) | Incr | ZAdd (score : Z) | PExpire (ms : Z).

Inductive script : Type := lua_fix_window | lua_slide_window.

Definition fix_window (val : option Z) (expiration limit : Z) : bool * list command :=
  match val with
  | None => if limit <? 1 then (true, []) else (false, [SetPX 1 expiration])
  | Some v => if v <? limit then (false, [Incr]) else (true, [])
  end.

Definition slide_window (count window threshold now : Z) : bool * list command :=
  if count >=? threshold then (true, []) else (false, [ZAdd now; PExpire window]).

(** The [go:embed] directives of the two limiters. *)
Definition luaFixWindow : script := lua_fix_window.
Definition luaSlideWindow : script := lua_fix_window.

(** [LimitUnary]: [limit] is the reply of [Eval], an error on a Redis failure. *)
Definition LimitUnary (s : rejectStrategy) (limit : option bool) : verdict :=
  match limit with
  | None => Reject ErrRedis
  | Some true => on_reject s
  | Some false => Handle false
  end.

End RedisWindow.

(** * Adaptive limiter *)
Module Adaptive.

Record AdaptiveLimiterOptions : Type := {
  InitialRate : float64; MinRate : float64; MaxRate : float64; HighLoadThreshold : float64;
  LowLoadThreshold : float64; DecreaseFactorOnHeavyLoad : float64; IncreaseFactorOnLightLoad : float64;
  ResponseTimeThreshold : Z; ResponseTimeSampleSize : Z; SamplingInterval : Z; RejectOnOverload : bool;
  WindowSize : Z }.

Definition DefaultAdaptiveLimiterOptions : AdaptiveLimiterOptions :=
  {| InitialRate := of_int 100; MinRate := of_int 10; MaxRate := of_int 1000;
     HighLoadThreshold := lit 75 100; LowLoadThreshold := lit 50 100;
     DecreaseFactorOnHeavyLoad := lit 9 10; IncreaseFactorOnLightLoad := lit 11 10;
     ResponseTimeThreshold := 100 * Millisecond; ResponseTimeSampleSize := 100;
     SamplingInterval := 5 * Second; RejectOnOverload := true; WindowSize := 500 |}.

Record LimiterStats : Type := { AllowedRequests : Z; RejectedRequests : Z; CurrentRate : float64 }.

Record AdaptiveLimiter : Type := {
  opts : AdaptiveLimiterOptions; currentRate : float64; tokenBucket : TokenBucket.TokenBucket;
  responseTimes : list Z; responseTimeIndex : Z; consecutiveRejects : Z; stats : LimiterStats;
  stopCh_closed : bool }.

(** The sizes that the constructor corrects. *)
Definition with_defaults (o : AdaptiveLimiterOptions) : AdaptiveLimiterOptions :=
  {| InitialRate := InitialRate o; MinRate := MinRate o; MaxRate := MaxRate o;
     HighLoadThreshold := HighLoadThreshold o; LowLoadThreshold := LowLoadThreshold o;
     DecreaseFactorOnHeavyLoad := DecreaseFactorOnHeavyLoad o;
     IncreaseFactorOnLightLoad := IncreaseFactorOnLightLoad o;
     ResponseTimeThreshold := ResponseTimeThreshold o;
     ResponseTimeSampleSize := if ResponseTimeSampleSize o <=? 0 then 100 else ResponseTimeSampleSize o;
     SamplingInterval := SamplingInterval o; RejectOnOverload := RejectOnOverload o;
     WindowSize := if WindowSize o <=? 0 then 500 else WindowSize o |}.

Definition NewAdaptiveLimiter (opts0 : AdaptiveLimiterOptions) (now : Z) : AdaptiveLimiter :=
  let o := with_defaults opts0 in
  {| opts := o; currentRate := InitialRate o;
     tokenBucket := TokenBucket.NewTokenBucket (InitialRate o) (fdiv (InitialRate o) (of_int 10)) now;
     responseTimes := replicate (Z.to_nat (ResponseTimeSampleSize o)) 0; responseTimeIndex := 0; consecutiveRejects := 0;
     stats := {| AllowedRequests := 0; RejectedRequests := 0; CurrentRate := InitialRate o |};
     stopCh_closed := false |}.

Definition Allow (now : Z) (l : AdaptiveLimiter) : bool * AdaptiveLimiter :=
  let '(allowed, tb) := TokenBucket.Allow now (tokenBucket l) in
  let st := stats l in
  (allowed,
   {| opts := opts l; currentRate := currentRate l; tokenBucket := tb; responseTimes := responseTimes l;
      responseTimeIndex := responseTimeIndex l;
      consecutiveRejects := if allowed then consecutiveRejects l else i32 (consecutiveRejects l + 1);
      stats := if allowed
               then {| AllowedRequests := u64 (AllowedRequests st + 1);
                       RejectedRequests := RejectedRequests st; CurrentRate := currentRate l |}
               else {| AllowedRequests := AllowedRequests st;
                       RejectedRequests := u64 (RejectedRequests st + 1); CurrentRate := CurrentRate st |};
      stopCh_closed := stopCh_closed l |}).

(** [AllowWithContext]: [ctx_done] tells whether the context ends within the second
    that a waiting request sleeps; [later] is the clock after it. The derived
    context that carries the start time is a local variable of the method. *)
Definition AllowWithContext (now later : Z) (ctx_done : bool) (l : AdaptiveLimiter)
  : option limit_error * AdaptiveLimiter :=
  let '(ok, l) := Allow now l in
  if ok then (None, l)
  else if RejectOnOverload (opts l) then (Some ErrLimitExceeded, l)
  else if ctx_done then (Some ErrContext, l)
  else let '(ok, l) := Allow later l in (if ok then None else Some ErrLimitExceeded, l).

(** [RecordMetrics]; [start] is the start time found in the caller's context. *)
Definition RecordMetrics (now : Z) (start : option Z) (l : AdaptiveLimiter) : outcome AdaptiveLimiter :=
  match start with
  | None => Returns l
  | Some s =>
      let n := Z.of_nat (length (responseTimes l)) in
      if (responseTimeIndex l <? 0) || (n <=? responseTimeIndex l) then Panics
      else Returns
        {| opts := opts l; currentRate := currentRate l; tokenBucket := tokenBucket l;
           responseTimes := <[Z.to_nat (responseTimeIndex l) := time_sub now s]> (responseTimes l);
           responseTimeIndex := Z.rem (responseTimeIndex l + 1) n;
           consecutiveRejects := consecutiveRejects l; stats := stats l;
           stopCh_closed := stopCh_closed l |}
  end.

Definition getCPUUsage : float64 := lit 5 10.

Definition average (l : list Z) : Z :=
  let pos := filter (fun t => (t >? 0) = true) l in
  if (length pos =? 0)%nat then 0
  else i64 (Z.quot (foldl (fun t d => i64 (t + d)) 0 pos) (Z.of_nat (length pos))).

(** The rate that [adjustRate] computes. *)
Definition next_rate (o : AdaptiveLimiterOptions) (rate : float64) (avg : Z) : float64 :=
  let r1 := if fgt getCPUUsage (HighLoadThreshold o) then fmul rate (DecreaseFactorOnHeavyLoad o)
            else if flt getCPUUsage (LowLoadThreshold o) && (avg <? ResponseTimeThreshold o)
            then fmul rate (IncreaseFactorOnLightLoad o) else rate in
  let r2 := if avg >? ResponseTimeThreshold o then fmul r1 (lit 95 100) else r1 in
  clamp (MinRate o) (MaxRate o) r2.

Definition adjustRate (now : Z) (l : AdaptiveLimiter) : AdaptiveLimiter :=
  let r := next_rate (opts l) (currentRate l) (average (responseTimes l)) in
  {| opts := opts l; currentRate := r; tokenBucket := TokenBucket.UpdateRate now r (tokenBucket l);
     responseTimes := responseTimes l; responseTimeIndex := responseTimeIndex l; consecutiveRejects := 0;
     stats := stats l; stopCh_closed := stopCh_closed l |}.

Definition GetStats (l : AdaptiveLimiter) : LimiterStats :=
  {| AllowedRequests := AllowedRequests (stats l); RejectedRequests := RejectedRequests (stats l);
     CurrentRate := currentRate l |}.

(** [Close]: a second call closes a closed channel. *)
Definition Close (l : AdaptiveLimiter) : outcome AdaptiveLimiter :=
  if stopCh_closed l then Panics else Returns
    {| opts := opts l; currentRate := currentRate l; tokenBucket := tokenBucket l;
       responseTimes := responseTimes l; responseTimeIndex := responseTimeIndex l;
       consecutiveRejects := consecutiveRejects l; stats := stats l; stopCh_closed := true |}.

(** What a server does with a limiter: requests go through [AllowWithContext] and
    record their metrics with the context they came with, which no one but the
    limiter could have given a start time; the control goroutine ticks. *)
Inductive reachable (o : AdaptiveLimiterOptions) : AdaptiveLimiter -> Prop :=
| reach_new now : reachable o (NewAdaptiveLimiter o now)
| reach_allow l now later d : reachable o l -> reachable o (AllowWithContext now later d l).2
| reach_metrics l now l' : reachable o l -> RecordMetrics now None l = Returns l' -> reachable o l'
| reach_tick l now : reachable o l -> stopCh_closed l = false -> reachable o (adjustRate now l)
| reach_close l l' : reachable o l -> Close l = Returns l' -> reachable o l'.

End Adaptive.

(** * Theorems: fixed window *)
Module FixWindowFacts.
Import FixWindow.

(** Requests that arrive within the current window. *)
Lemma same_window_run ts : forall l,
  Forall (fun t => i64 (t - timestamp l) < interval l) ts -> onReject l = defaultRejectStrategy ->
  0 <= cnt l -> cnt l + Z.of_nat (length ts) < 2 ^ 63 ->
  (run ts l).1 = replicate (Nat.min (length ts) (Z.to_nat (rate l - cnt l))) (Handle false) ++
                 replicate (length ts - Z.to_nat (rate l - cnt l)) (Reject ErrLimitExceeded).
Proof.
  induction ts as [|t ts IH]; intros l HF Hr H0 Hlt; [done|].
  apply Forall_cons in HF as [Ht HF]. simpl length in Hlt.
  assert (LimitUnary t l = (if cnt l + 1 >? rate l then Reject ErrLimitExceeded else Handle false,
                            set_window (timestamp l) (cnt l + 1) l)) as E.
  { unfold LimitUnary. rewrite Z.geb_leb. destruct (Z.leb_spec (interval l) (i64 (t - timestamp l))); [lia|].
    rewrite i64_small by (unfold is_i64; lia). simpl. by rewrite Hr. }
  cbn [run]. rewrite E. specialize (IH (set_window (timestamp l) (cnt l + 1) l)). simpl in IH.
  destruct (run ts (set_window (timestamp l) (cnt l + 1) l)) as [vs l2]. simpl in *.
  rewrite IH by (try done; lia). destruct (Z.gtb_spec (cnt l + 1) (rate l)).
  - replace (Z.to_nat (rate l - (cnt l + 1))) with 0%nat by lia.
    replace (Z.to_nat (rate l - cnt l)) with 0%nat by lia. by rewrite Nat.min_0_r, !Nat.sub_0_r.
  - replace (Z.to_nat (rate l - cnt l)) with (S (Z.to_nat (rate l - (cnt l + 1)))) by lia. done.
Qed.

(** Within one window the limiter admits exactly the first [rate] requests and
    rejects the others, when requests do not overlap: the request that finds the
    window expired opens the new one and counts as its first. *)
Theorem window_admits_rate (l : FixWindowLimiter) (t : Z) (ts : list Z)
  (Hexp : interval l <= i64 (t - timestamp l)) (Hin : Forall (fun u => i64 (u - t) < interval l) ts)
  (Hrej : onReject l = defaultRejectStrategy) (Hlen : Z.of_nat (length ts) + 1 < 2 ^ 63) :
  (run (t :: ts) l).1 =
    replicate (Nat.min (S (length ts)) (Z.to_nat (rate l))) (Handle false) ++
    replicate (S (length ts) - Z.to_nat (rate l)) (Reject ErrLimitExceeded).
Proof.
  assert (LimitUnary t l = (if 1 >? rate l then Reject ErrLimitExceeded else Handle false, set_window t 1 l)) as E.
  { unfold LimitUnary. rewrite Z.geb_leb. destruct (Z.leb_spec (interval l) (i64 (t - timestamp l))); [|lia].
    simpl. by rewrite Hrej. }
  cbn [run]. rewrite E.
  pose proof (same_window_run ts (set_window t 1 l) Hin Hrej ltac:(simpl; lia) ltac:(simpl; lia)) as H.
  destruct (run ts (set_window t 1 l)) as [vs l2]. simpl in *. rewrite H.
  destruct (Z.gtb_spec 1 (rate l)).
  - replace (Z.to_nat (rate l - 1)) with 0%nat by lia. replace (Z.to_nat (rate l)) with 0%nat by lia.
    by rewrite Nat.min_0_r, !Nat.sub_0_r.
  - replace (Z.to_nat (rate l)) with (S (Z.to_nat (rate l - 1))) by lia. done.
Qed.

Lemma window_admits_rate_witness :
  (run [100; 101; 102] (NewFixWindowLimiter 50 2 0)).1 = [Handle false; Handle false; Reject ErrLimitExceeded].
Proof.
  apply (window_admits_rate (NewFixWindowLimiter 50 2 0) 100 [101; 102]);
    [vm_compute; discriminate|repeat constructor|reflexivity|reflexivity].
Defined.

(** Overlapping requests break the limit: with a rate of 1 per window, two
    requests that arrive when the window has expired are both let through by a
    schedule of their atomic operations, since the reset of the count is a store
    separate from the compare-and-swap of the window. *)
Lemma window_reset_race :
  exists moves, forall th l, th = {| current := 100; at_pc := AtLoad |} -> l = NewFixWindowLimiter 50 1 0 ->
    served (schedule moves ([th; th], l)).1 = 2%nat /\ timestamp (schedule moves ([th; th], l)).2 = 100.
Proof. exists [0; 0; 1; 1; 0; 0]%nat. intros ? ? -> ->. by vm_compute. Qed.

End FixWindowFacts.

(** * Theorems: sliding window *)
Module SlideWindowFacts.
Import SlideWindow.

(** The abstract limiter: it remembers every request it ever admitted, and admits
    one when fewer than [r] of them lie in the interval that ends with it. *)
Definition recent (b : Z) (l : list Z) : list Z := filter (fun t => (t <? b) = false) l.

Fixpoint spec_run (I r : Z) (log : list Z) (times : list Z) : list verdict :=
  match times with
  | [] => []
  | t :: ts =>
      if Z.of_nat (length (recent (t - I) log)) <? r
      then Handle false :: spec_run I r (log ++ [t]) ts
      else Reject ErrLimitExceeded :: spec_run I r log ts
  end.

Lemma recent_recent a b l : a <= b -> recent b (recent a l) = recent b l.
Proof.
  intros H. unfold recent. rewrite list_filter_filter. apply list_filter_iff. intros t.
  rewrite !Z.ltb_ge. lia.
Qed.

(** The queue holds what the log has within reach of the last request. *)
Lemma run_spec times : forall last l log,
  Sorted Z.le (last :: times) -> Forall (fun t => 0 <= t < 2 ^ 63) times -> 0 <= interval l < 2 ^ 63 ->
  onReject l = defaultRejectStrategy ->
  recent (last - interval l) (queue l) = recent (last - interval l) log ->
  (run times l).1 = spec_run (interval l) (rate l) log times.
Proof.
  induction times as [|t ts IH]; intros last l log HS HF HI Hr HQ; [done|].
  apply Sorted_inv in HS as [HS Hhd]. apply HdRel_inv in Hhd. apply Forall_cons in HF as [Ht HF].
  assert (recent (t - interval l) (queue l) = recent (t - interval l) log) as HQt.
  { rewrite <- (recent_recent (last - interval l) _ (queue l)) by lia.
    rewrite HQ. apply recent_recent. lia. }
  cbn [run spec_run]. unfold LimitUnary.
  rewrite i64_small by (unfold is_i64; lia). fold (recent (t - interval l) (queue l)). rewrite HQt.
  case_bool.
  - specialize (IH t {| queue := recent (t - interval l) log ++ [t]; interval := interval l; rate := rate l;
                       onReject := onReject l |} (log ++ [t])). simpl in IH.
    destruct (run ts _) as [vs l2] eqn:E. simpl in *. rewrite IH; try done.
    unfold recent. rewrite !filter_app. f_equal. by apply recent_recent.
  - specialize (IH t {| queue := recent (t - interval l) log; interval := interval l; rate := rate l;
                       onReject := onReject l |} log). simpl in IH.
    destruct (run ts _) as [vs l2] eqn:E. simpl in *. rewrite Hr. f_equal. apply IH; try done.
    by apply recent_recent.
Qed.

(** Requests of a list in the closed window that starts at [a]. *)
Definition in_window (a I : Z) (l : list Z) : nat := length (filter (fun t => (a <=? t) && (t <=? a + I) = true) l).

Lemma in_window_app a I l1 l2 : in_window a I (l1 ++ l2) = (in_window a I l1 + in_window a I l2)%nat.
Proof. unfold in_window. by rewrite filter_app, length_app. Qed.

Lemma in_window_recent a b I l : b <= a -> (in_window a I l <= length (recent b l))%nat.
Proof.
  intros H. unfold in_window, recent. induction l as [|t l IH]; [done|].
  rewrite !filter_cons. repeat case_decide; simpl; lia.
Qed.

(** What holds while requests wait at most [delay] for the mutex: the queue has the
    admitted times that can still matter, and the windows are kept. *)
Record sound (I r delay : Z) (s : system) : Prop := {
  sound_interval : interval (limiter s) = I;
  sound_clock : 0 <= clock s;
  sound_rate : rate (limiter s) = r;
  sound_reads : map_Forall (fun _ now => 0 <= now <= clock s) (reads s);
  sound_queue : recent (clock s - I) (queue (limiter s)) = recent (clock s - I) (log s);
  sound_log : forall a, Z.of_nat (in_window a (I - delay) (log s)) <= r }.

Lemma admit_sound I r delay now c q l a : c - now <= delay -> now <= c ->
  recent (c - I) q = recent (c - I) l -> Z.of_nat (length (recent (now - I) q)) < r ->
  Z.of_nat (in_window a (I - delay) l) <= r -> Z.of_nat (in_window a (I - delay) (l ++ [now])) <= r.
Proof.
  intros Hd Hn Hq Hlen Hl. rewrite in_window_app. unfold in_window at 2. rewrite filter_cons. case_decide as Hin; simpl; [|by rewrite Nat.add_0_r].
  bool_to_prop. pose proof (in_window_recent a (c - I) (I - delay) l ltac:(lia)) as Hle. rewrite <- Hq, <- (recent_recent (now - I)) in Hle by lia.
  pose proof (length_filter (fun t => (t <? c - I) = false) (recent (now - I) q)). unfold recent in *. lia.
Qed.

Lemma slide_step_sound I r delay e s s' : 0 <= I < 2 ^ 63 -> clock s < 2 ^ 63 -> sound I r delay s -> step delay e s = Some s' -> sound I r delay s'.
Proof.
  intros HI Hc [Hi H0 Hr Hreads Hq Hl] Hst. destruct e as [d|i|i|]; cbn [step] in Hst.
  - case_bool; [|done]. bool_to_prop. injection Hst as <-. split; simpl; try done.
    + lia.
    + intros i now Hn. specialize (Hreads i now Hn). simpl in Hreads. lia.
    + rewrite <- (recent_recent (clock s - I) _ (queue _)), Hq, recent_recent by lia. done.
  - destruct (reads s !! i) eqn:E; [done|]. injection Hst as <-. split; simpl; try done.
    by apply map_Forall_insert_2.
  - destruct (holder s); [done|]. destruct (reads s !! i) as [now|] eqn:E; [|done]. case_bool; [|done]. bool_to_prop.
    pose proof (Hreads i now E) as Hn. simpl in Hn. unfold LimitUnary in Hst. rewrite Hi, Hr, i64_small in Hst by (unfold is_i64; lia).
    fold (recent (now - I) (queue (limiter s))) in Hst.
    assert (Hd : map_Forall (fun _ now => 0 <= now <= clock s) (delete i (reads s))) by (by apply map_Forall_delete).
    assert (Hq' : recent (clock s - I) (recent (now - I) (queue (limiter s))) = recent (clock s - I) (log s)) by (rewrite recent_recent by lia; done).
    case_bool; injection Hst as <-; bool_to_prop.
    + split; simpl; try done; [|intros a; apply (admit_sound _ _ _ now (clock s) (queue (limiter s))); done || lia]. unfold recent in *. by rewrite !filter_app, Hq'.
    + destruct (onReject (limiter s)); split; simpl; done.
  - destruct (holder s); [|done]. injection Hst as <-. by split.
Qed.

Lemma clock_grows delay es : forall s s', run_events delay es s = Some s' -> clock s <= clock s'.
Proof.
  induction es as [|e es IH]; intros s s' Hr; [injection Hr as <-; lia|]. cbn [run_events] in Hr.
  destruct (step delay e s) as [s1|] eqn:E; [|done]. specialize (IH s1 s' Hr). assert (clock s <= clock s1); [|lia].
  destruct e; cbn [step] in E; repeat case_match; simplify_eq/=; bool_to_prop; lia.
Qed.

Lemma run_events_sound I r delay es : forall s s', 0 <= I < 2 ^ 63 -> clock s' < 2 ^ 63 -> sound I r delay s ->
  run_events delay es s = Some s' -> sound I r delay s'.
Proof.
  induction es as [|e es IH]; intros s s' HI Hc Hs Hr; [by injection Hr as <-|]. pose proof (clock_grows _ _ _ _ Hr). cbn [run_events] in Hr.
  destruct (step delay e s) as [s1|] eqn:E; [|done]. cbn [mbind option_bind] in Hr.
  eapply IH; [done|done| |done]. eapply slide_step_sound; [done| |done|done]. lia.
Qed.

(** C18: however requests that read the clock, wait for the mutex, decide and run their handlers under it interleave with the passing of time: when no request waits longer than [delay] between its look at the clock and its decision, no closed window that is shorter than the limiter's interval by [delay] contains the times of more than [rate] admitted requests. *)
Theorem window_never_exceeded (I r delay now : Z) (es : list event) (s : system) (a : Z)
  (HI : 0 <= I < 2 ^ 63) (Hr : 0 <= r) (Hnow : 0 <= now) (Hclock : clock s < 2 ^ 63)
  (Hrun : run_events delay es (start (NewSlideWindowLimiter I r) now) = Some s) :
  Z.of_nat (in_window a (I - delay) (log s)) <= r.
Proof. apply (run_events_sound I r delay es (start (NewSlideWindowLimiter I r) now) s); [done|done|by split|done]. Qed.

(** Three requests, one of which waits ten for the mutex. *)
Abbreviation one_waits := [Arrive 0; Elapse 10; Arrive 1; Enter 0; Leave; Enter 1; Leave; Elapse 45; Arrive 2; Enter 2; Leave].

Lemma window_never_exceeded_witness : exists s, run_events 10 one_waits (start (NewSlideWindowLimiter 50 2) 100) = Some s /\
  Z.of_nat (in_window 100 40 (log s)) <= 2.
Proof.
  eexists. split; [vm_compute; reflexivity|].
  eapply (window_never_exceeded 50 2 10 100 one_waits); [split; [discriminate|reflexivity]|discriminate|discriminate| |vm_compute; reflexivity].
  reflexivity.
Defined.

(** The delay matters, because a late request has an early time: with a rate of two,
    three requests are admitted within one interval. *)
Example late_request_exceeds : exists s,
  run_events 61 [Elapse 90; Arrive 0; Elapse 9; Arrive 1; Enter 1; Leave; Elapse 1; Arrive 2; Enter 2; Leave;
                 Elapse 51; Arrive 3; Enter 3; Leave; Enter 0; Leave] (start (NewSlideWindowLimiter 50 2) 0) = Some s /\
  log s = [99; 100; 151; 90] /\ in_window 90 50 (log s) = 3%nat.
Proof. eexists. split; [vm_compute; reflexivity|done]. Qed.

(** When requests decide in the order in which they looked at the clock, the limiter with
    its pruned queue gives the answers of the limiter that keeps the whole history: a request is admitted exactly when fewer than [rate]
    earlier admitted requests lie within [interval] before it. *)
Theorem queue_refines_history (I r : Z) (times : list Z)
  (Hmono : Sorted Z.le times) (Hclock : Forall (fun t => 0 <= t < 2 ^ 63) times) (HI : 0 <= I < 2 ^ 63) :
  (run times (NewSlideWindowLimiter I r)).1 = spec_run I r [] times.
Proof.
  rewrite (run_spec times 0 _ []); simpl; try done.
  constructor; [done|]. destruct Hclock; constructor; lia.
Qed.

Lemma queue_refines_history_witness :
  (run [100; 110; 120; 151] (NewSlideWindowLimiter 50 2)).1 = spec_run 50 2 [] [100; 110; 120; 151].
Proof.
  apply (queue_refines_history 50 2 [100; 110; 120; 151]);
    [repeat constructor; discriminate|repeat constructor; discriminate|split; [discriminate|reflexivity]].
Defined.

End SlideWindowFacts.

(** * Theorems: token buckets *)
Module TokenBucketFacts.
Import TokenBucket.

(** After a refill the bucket never offers a token it has no room for. *)
Lemma small_bucket_Allow now tb :
  flt (bucketSize tb) (of_int 1) = true -> (Allow now tb).1 = false /\ bucketSize (Allow now tb).2 = bucketSize tb.
Proof.
  intros Hs. unfold Allow.
  assert (fge (tokens (refill now tb)) (of_int 1) = false) as ->; [|done].
  unfold refill. cbn [tokens]. set (t := fadd _ _).
  destruct (fgt t (bucketSize tb)) eqn:E.
  - by apply flt_fle_false.
  - unfold fge. destruct (fle (of_int 1) t) eqn:E1; [|done].
    pose proof (flt_fle_trans _ _ _ Hs E1) as H. unfold fgt in E. fold (flt (bucketSize tb) t) in E. congruence.
Qed.

(** A bucket smaller than one token never lets a request through, however long
    it fills, at whatever rate and with whatever changes of the rate. *)
Theorem small_bucket_rejects (calls : list (Z * option float64)) (tb : TokenBucket)
  (Hsize : flt (bucketSize tb) (of_int 1) = true) :
  Forall (fun b => b = false) (run calls tb).1.
Proof.
  revert tb Hsize. induction calls as [|[t [r|]] cs IH]; intros tb Hs; [constructor| |].
  - simpl. by apply IH.
  - cbn [run]. destruct (small_bucket_Allow t tb Hs) as [H1 H2].
    destruct (Allow t tb) as [b tb1]. simpl in *. specialize (IH tb1).
    destruct (run cs tb1) as [bs tb2]. simpl in *. constructor; [done|]. apply IH. by rewrite H2.
Qed.

Lemma small_bucket_rejects_witness :
  Forall (fun b => b = false)
    (run [(Hour, None); (2 * Hour, Some (of_int 900)); (3 * Hour, None)]
       (NewTokenBucket (of_int 9) (fdiv (of_int 9) (of_int 10)) 0)).1.
Proof. apply small_bucket_rejects. vm_compute. reflexivity. Defined.

Lemma step_capacity l l' :
  step l l' -> (buffered l <= capacity l)%nat -> (buffered l' <= capacity l')%nat /\ capacity l' = capacity l.
Proof.
  destruct 1 as [| | |d c v l' Hc]; intros H.
  - unfold tick. case_bool; [|done]. simpl. bool_to_prop.
    destruct (Nat.ltb_spec (buffered l) (capacity l)); [lia|done].
  - unfold producer_exit. by destruct (closer l).
  - unfold Close. by destruct (closer l).
  - destruct Hc; simpl; try done. lia.
Qed.

(** The states after [Close]: they never leave the closed state, and the producer
    can only stop. *)
Lemma step_closed l l' : step l l' -> closer l = None -> closer l' = None.
Proof.
  destruct 1 as [| | |d c v l' Hc]; intros H; unfold tick, producer_exit, Close; rewrite ?H; try done.
  - by case_bool.
  - by destruct Hc.
Qed.

Lemma step_stopped l l' :
  step l l' -> closer l = None -> producing l = false -> producing l' = false /\ (buffered l' <= buffered l)%nat.
Proof.
  destruct 1 as [| | |d c v l' Hc]; intros H Hp; unfold tick, producer_exit, Close; rewrite ?H, ?Hp; try done.
  destruct Hc; simpl; [split; [done|lia]|done|done].
Qed.

(** Every reachable state respects the capacity. *)
Lemma steps_capacity l l' :
  rtc step l l' -> (buffered l <= capacity l)%nat -> (buffered l' <= capacity l')%nat /\ capacity l' = capacity l.
Proof.
  induction 1 as [|l1 l2 l3 Hs _ IH]; intros H; [done|].
  destruct (step_capacity _ _ Hs H) as [H1 H2]. destruct (IH H1). split; [done|congruence].
Qed.

Lemma reachable_capacity cap l : reachable cap l -> (buffered l <= cap)%nat /\ capacity l = cap.
Proof. intros H. destruct (steps_capacity _ _ H) as [H1 H2]; simpl in *; [lia|]. by rewrite H2 in H1. Qed.

(** The channel limiter never holds more tokens than its capacity; once it is
    closed and its producer has ended it never gains a token again, and a request
    that arrives when no token is left is answered only when its own context ends:
    the case meant to refuse it waits on a nil channel. *)
Theorem closed_limiter_blocks (cap : nat) (l : TokenBucketLimiter) (Hreach : reachable cap l) :
  (buffered l <= cap)%nat /\
  (closer l = None -> producing l = false -> buffered l = 0%nat ->
   forall l', rtc step l l' ->
     buffered l' = 0%nat /\ (forall v l'', ~ limit_case false (closer l') l' v l'')).
Proof.
  split; [apply (reachable_capacity _ _ Hreach)|]. intros Hclosed Hstopped Hempty l' Hlater.
  assert (closer l' = None /\ producing l' = false /\ buffered l' = 0%nat) as (Hc & Hp & Hb).
  { clear Hreach. induction Hlater as [|l1 l2 l3 Hs _ IH]; [done|].
    destruct (step_stopped _ _ Hs Hclosed Hstopped). apply IH; [by eapply step_closed|done|lia]. }
  split; [done|]. intros v l'' HC. rewrite Hc in HC. inversion HC; simplify_eq; congruence.
Qed.

Definition closed_example : TokenBucketLimiter := producer_exit (Close (NewTokenBucketLimiter 3)).

Lemma closed_limiter_blocks_witness :
  closer closed_example = None /\ producing closed_example = false /\ buffered closed_example = 0%nat /\
  (buffered closed_example <= 3)%nat /\
  (closer closed_example = None -> producing closed_example = false -> buffered closed_example = 0%nat ->
   forall l', rtc step closed_example l' ->
     buffered l' = 0%nat /\ (forall v l'', ~ limit_case false (closer l') l' v l'')).
Proof.
  split; [reflexivity|]. split; [reflexivity|]. split; [reflexivity|].
  apply (closed_limiter_blocks 3 closed_example).
  eapply rtc_l; [apply step_close|]. eapply rtc_l; [apply step_exit|]. apply rtc_refl.
Defined.

End TokenBucketFacts.

(** * Theorems: adaptive limiter *)
Module AdaptiveFacts.
Import Adaptive.

Lemma reachable_opts o l : reachable o l -> opts l = with_defaults o.
Proof.
  induction 1 as [|l now later d _ IH|l now l' _ IH H|l now _ IH _|l l' _ IH H]; try done.
  - unfold AllowWithContext, Allow. destruct (TokenBucket.Allow now (tokenBucket l)) as [b tb].
    destruct b; [done|]. simpl. repeat case_bool; try done.
    all: by destruct (TokenBucket.Allow later tb) as [[|] ?].
  - by simplify_eq/=.
  - unfold Close in H. by case_bool; simplify_eq/=.
Qed.

Lemma AllowWithContext_rate now later d l :
  currentRate (AllowWithContext now later d l).2 = currentRate l /\
  responseTimes (AllowWithContext now later d l).2 = responseTimes l.
Proof.
  unfold AllowWithContext, Allow. destruct (TokenBucket.Allow now (tokenBucket l)) as [[|] tb]; [done|].
  simpl. repeat case_bool; try done. all: by destruct (TokenBucket.Allow later tb) as [[|] ?].
Qed.

(** Whatever the load and the sequence of calls, the adaptive limiter's rate
    stays between the configured minimum and maximum. *)
Theorem rate_in_bounds (o : AdaptiveLimiterOptions) (l : AdaptiveLimiter)
  (Hmin : fle (MinRate o) (InitialRate o) = true) (Hmax : fle (InitialRate o) (MaxRate o) = true)
  (Hreach : reachable o l) :
  flt (currentRate l) (MinRate o) = false /\ fgt (currentRate l) (MaxRate o) = false.
Proof.
  induction Hreach as [|l now later d _ IH|l now l' _ IH H|l now Hr IH _|l l' _ IH H].
  - simpl. split; [|unfold fgt]; by apply fle_not_gt.
  - by rewrite (proj1 (AllowWithContext_rate now later d l)).
  - by simplify_eq/=.
  - simpl. unfold next_rate. rewrite (reachable_opts _ _ Hr). simpl. apply clamp_inside.
    by eapply fle_trans.
  - unfold Close in H. by case_bool; simplify_eq/=.
Qed.

Lemma rate_in_bounds_witness :
  flt (currentRate (adjustRate 7 (NewAdaptiveLimiter DefaultAdaptiveLimiterOptions 0))) (of_int 10) = false /\
  fgt (currentRate (adjustRate 7 (NewAdaptiveLimiter DefaultAdaptiveLimiterOptions 0))) (of_int 1000) = false.
Proof.
  apply (rate_in_bounds DefaultAdaptiveLimiterOptions
           (adjustRate 7 (NewAdaptiveLimiter DefaultAdaptiveLimiterOptions 0))); [reflexivity|reflexivity|].
  apply reach_tick; [apply reach_new|reflexivity].
Defined.

Lemma average_zeros n : average (replicate n 0) = 0.
Proof.
  unfold average. assert (filter (fun t => (t >? 0) = true) (replicate n 0) = []) as ->; [|done].
  induction n as [|n IH]; [done|]. cbn [replicate]. rewrite filter_cons. by case_decide.
Qed.

(** With the default options the limiter never adapts: the CPU usage is the
    constant 0.5, and no response time is ever recorded, because the context that
    carries the start of a request never leaves [AllowWithContext]. *)
Lemma default_never_adapts l :
  reachable DefaultAdaptiveLimiterOptions l -> currentRate l = of_int 100 /\ responseTimes l = replicate 100 0.
Proof.
  induction 1 as [|l now later d _ IH|l now l' _ IH H|l now Hr [IH1 IH2] _|l l' _ IH H]; try done.
  - destruct (AllowWithContext_rate now later d l) as [-> ->]. done.
  - by simplify_eq/=.
  - simpl. rewrite (reachable_opts _ _ Hr), IH1, IH2, average_zeros. split; [|done]. vm_compute. reflexivity.
  - unfold Close in H. by case_bool; simplify_eq/=.
Qed.

(** [RecordMetrics] keeps the index inside the samples. *)
Lemma RecordMetrics_index now start l :
  0 <= responseTimeIndex l < Z.of_nat (length (responseTimes l)) ->
  exists l', RecordMetrics now start l = Returns l' /\
    0 <= responseTimeIndex l' < Z.of_nat (length (responseTimes l')).
Proof.
  intros H. unfold RecordMetrics. destruct start as [s|]; [|by exists l].
  case_bool; [bool_to_prop; destruct Heqb; bool_to_prop; lia|].
  eexists. split; [done|]. simpl. rewrite length_insert. apply Z.rem_bound_pos; lia.
Qed.

End AdaptiveFacts.
