(* ===== verification/Retry.v ===== *)
(** Retries: the retry budget and the client interceptors of
    [src/internal/retry/retry.go], and the backoff strategies and retriers of
    [src/internal/retry/backoff.go].

    What the program does not determine is an oracle: the answer of the called
    function at each attempt, the clock, the end of a context, and the numbers
    that the random generators draw. *)
From S2P Require Import Prelude Float64.

(** Errors, as far as the retry code looks at them: the two context errors, any
    other error, and an error that wraps another. *)
Inductive error : Type :=
| Canceled
| DeadlineExceeded
| Other (id : N)
| Wrapped (inner : error).

#[export] Instance error_eq_dec : EqDecision error.
Proof. solve_decision. Defined.

(** [errors.Is(err, target)] for a target that wraps nothing. *)
Fixpoint errors_is (err target : error) : bool :=
  bool_decide (err = target) || match err with Wrapped e => errors_is e target | _ => false end.

(** * The budget *)
Module Budget.

Record Budget : Type := {
  MaxConcurrentRetries : Z; currentRetries : Z; MaxRetryRatio : float64;
  totalRequests : Z; retriedRequests : Z }.

Definition DefaultBudget : Budget :=
  {| MaxConcurrentRetries := 100; currentRetries := 0; MaxRetryRatio := lit 1 10;
     totalRequests := 0; retriedRequests := 0 |}.

Definition CanRetry (b : Budget) : bool :=
  if currentRetries b >=? MaxConcurrentRetries b then false
  else if (totalRequests b >? 0) && fge (fdiv (of_int (retriedRequests b)) (of_int (totalRequests b))) (MaxRetryRatio b)
  then false else true.

Definition RegisterRequest (b : Budget) : Budget :=
  {| MaxConcurrentRetries := MaxConcurrentRetries b; currentRetries := currentRetries b;
     MaxRetryRatio := MaxRetryRatio b; totalRequests := i64 (totalRequests b + 1);
     retriedRequests := retriedRequests b |}.

Definition RegisterRetry (b : Budget) : Budget :=
  {| MaxConcurrentRetries := MaxConcurrentRetries b; currentRetries := i32 (currentRetries b + 1);
     MaxRetryRatio := MaxRetryRatio b; totalRequests := totalRequests b;
     retriedRequests := i64 (retriedRequests b + 1) |}.

Definition ReleaseRetry (b : Budget) : Budget :=
  {| MaxConcurrentRetries := MaxConcurrentRetries b; currentRetries := i32 (currentRetries b - 1);
     MaxRetryRatio := MaxRetryRatio b; totalRequests := totalRequests b;
     retriedRequests := retriedRequests b |}.

End Budget.

(** * The client interceptors *)
Module Interceptor.
Import Budget.

Inductive Strategy : Type := FixedDelay | ExponentialBackoff | RandomizedBackoff.

(** [RetryableCodes] holds gRPC status codes. *)
Record Policy : Type := {
  Enabled : bool; MaxAttempts : Z; BaseDelay : Z; MaxDelay : Z; strategy : Strategy;
  JitterFactor : float64; RetryableCodes : list Z; TimeoutFactor : float64; MaxTimeout : Z }.

(** Unavailable, ResourceExhausted, Aborted and Internal. *)
Definition DefaultPolicy : Policy :=
  {| Enabled := true; MaxAttempts := 3; BaseDelay := 100 * Millisecond; MaxDelay := 5 * Second;
     strategy := ExponentialBackoff; JitterFactor := lit 2 10; RetryableCodes := [14; 8; 10; 13];
     TimeoutFactor := lit 15 10; MaxTimeout := 30 * Second |}.

Section Interceptor.
Context `{GoImpl}.
(** [status.FromError] of the gRPC library: the status code of an error that has one. *)
Variable FromError : error -> option Z.

Definition isRetryable (p : Policy) (err : error) : bool :=
  match FromError err with
  | None => false
  | Some c => existsb (Z.eqb c) (RetryableCodes p)
  end.

(** [calculateDelay(attempt)]; [rnd] is the number drawn by [r.rand.Float64()]. *)
Definition calculateDelay (p : Policy) (rnd : float64) (attempt : Z) : Z :=
  let exponential := to_i64 (fmul (of_int (BaseDelay p)) (pow (of_int 2) (attempt - 1))) in
  let delay :=
    match strategy p with
    | FixedDelay => BaseDelay p
    | ExponentialBackoff => exponential
    | RandomizedBackoff =>
        i64 (exponential + to_i64 (fmul (fmul rnd (JitterFactor p)) (of_int exponential)))
    end in
  if delay >? MaxDelay p then MaxDelay p else delay.

(** What the environment decides at each attempt: the error of the call ([None] on
    success), whether the context ends while the attempt waits and with which
    error, the clock after the wait, the random number. *)
Record env : Type := {
  invoke : Z -> option error; ctx_done : Z -> option error; clock : Z -> Z; random : Z -> float64 }.

(** [context.WithTimeout(ctx, timeout)] at time [now]: the deadline of the derived
    context is not later than that of its parent. *)
Definition WithTimeout (deadline now timeout : Z) : Z := Z.min deadline (now + timeout).

(** The context of a retry. *)
Definition retry_deadline (p : Policy) (now : Z) (deadline : option Z) : option Z :=
  match deadline with
  | None => None
  | Some d =>
      if d >? now then
        let timeout := to_i64 (fmul (of_int (time_sub d now)) (TimeoutFactor p)) in
        Some (WithTimeout d now (if timeout >? MaxTimeout p then MaxTimeout p else timeout))
      else Some d
  end.

(** The result of an interceptor: the error it returns, the budget when it
    returns, and the deadlines of the contexts that the calls were given. *)
Definition run_result : Type := option error * Budget * list (option Z).

(** The deferred releases of the retries. *)
Definition release_all (n : nat) (b : Budget) : Budget := Nat.iter n ReleaseRetry b.

(** The loop of [UnaryClientInterceptor]: [held] counts the deferred releases,
    [calls] the calls made so far. [None] is running out of fuel. The stream
    interceptor keeps the caller's context ([scale := false]). *)
Fixpoint attempts (fuel : nat) (scale : bool) (p : Policy) (e : env) (attempt : Z) (deadline : option Z)
    (b : Budget) (held : nat) (lastErr : option error) (calls : list (option Z)) : option run_result :=
  match fuel with
  | O => None
  | S fuel =>
      if attempt >? MaxAttempts p then Some (lastErr, release_all held b, calls)
      else
        let call deadline b held :=
          let calls := calls ++ [deadline] in
          match invoke e attempt with
          | None => Some (None, release_all held b, calls)
          | Some err =>
              if negb (isRetryable p err) || (attempt =? MaxAttempts p)
              then Some (Some err, release_all held b, calls)
              else attempts fuel scale p e (u64 (attempt + 1)) deadline b held (Some err) calls
          end in
        if attempt >? 0 then
          if negb (CanRetry b) then Some (lastErr, release_all held b, calls)
          else match ctx_done e attempt with
               | Some err => Some (Some err, release_all held b, calls)
               | None =>
                   call (if scale then retry_deadline p (clock e attempt) deadline else deadline)
                        (RegisterRetry b) (S held)
               end
        else call deadline b held
  end.

(** Enough fuel for every attempt the policy allows. *)
Definition fuel_for (p : Policy) : nat := S (Z.to_nat (MaxAttempts p)).

Definition UnaryClientInterceptor (p : Policy) (e : env) (deadline : option Z) (b : Budget) : option run_result :=
  if negb (Enabled p) then Some (invoke e 0, b, [deadline])
  else attempts (fuel_for p) true p e 0 deadline (RegisterRequest b) 0 None [].

Definition StreamClientInterceptor (p : Policy) (e : env) (deadline : option Z) (b : Budget) : option run_result :=
  if negb (Enabled p) then Some (invoke e 0, b, [deadline])
  else attempts (fuel_for p) false p e 0 deadline (RegisterRequest b) 0 None [].

End Interceptor.
End Interceptor.

(** * Backoff strategies *)
Module Backoff.

(** The interface [BackoffStrategy]: a strategy has a state, and [NextBackoff] may
    change it. *)
Class BackoffStrategy (S : Type) : Type := {
  NextBackoff : Z -> S -> Z * S;
  Reset : Z -> S -> S
}.

Section Strategies.
Context `{GoImpl}.

Record ExponentialBackoffStrategy : Type := {
  initialBackoff : Z; maxBackoff : Z; factor : float64 }.

Definition NewExponentialBackoffStrategy (initial max : Z) (f : float64) : ExponentialBackoffStrategy :=
  {| initialBackoff := initial; maxBackoff := max; factor := if fle f (of_int 1) then of_int 2 else f |}.

(** Above the maximum, the maximum, before the conversion to a duration. *)
Definition exponential_backoff (s : ExponentialBackoffStrategy) (attempt : Z) : Z :=
  let backoff := fmul (of_int (initialBackoff s)) (pow (factor s) attempt) in
  to_i64 (if fgt backoff (of_int (maxBackoff s)) then of_int (maxBackoff s) else backoff).

#[export] Instance exponential_strategy : BackoffStrategy ExponentialBackoffStrategy := {
  NextBackoff attempt s := (exponential_backoff s attempt, s);
  Reset _ s := s
}.

(** [rng] is the stream of numbers that the generator draws. *)
Record JitteredBackoffStrategy (B : Type) : Type := {
  base : B; jitterFactor : float64; rng : nat -> float64 }.
Arguments base {B} j.
Arguments jitterFactor {B} j.
Arguments rng {B} j _.

Definition NewJitteredBackoffStrategy {B} (b : B) (jitter : float64) (seed : nat -> float64) : JitteredBackoffStrategy B :=
  let j := if flt jitter (of_int 0) then of_int 0 else jitter in
  {| base := b; jitterFactor := if fgt j (of_int 1) then of_int 1 else j; rng := seed |}.

Definition jittered_backoff {B} `{BackoffStrategy B} (attempt : Z) (s : JitteredBackoffStrategy B)
  : Z * JitteredBackoffStrategy B :=
  let '(baseBackoff, b) := NextBackoff attempt (base s) in
  let jitter := fmul (fmul (of_int baseBackoff) (jitterFactor s)) (rng s 0) in
  (i64 (baseBackoff + to_i64 jitter),
   {| base := b; jitterFactor := jitterFactor s; rng := fun n => rng s (S n) |}).

(** [Reset] seeds a new generator from the clock: [seeded now]. *)
#[export] Instance jittered_strategy {B} `{BackoffStrategy B} (seeded : Z -> nat -> float64)
  : BackoffStrategy (JitteredBackoffStrategy B) := {
  NextBackoff attempt s := jittered_backoff attempt s;
  Reset now s := {| base := Reset now (base s); jitterFactor := jitterFactor s; rng := seeded now |}
}.

Record AdaptiveBackoffStrategy : Type := {
  initialBackoffA : Z; maxBackoffA : Z; avgLatency : Z; smoothingFactor : float64;
  successCount : Z; failureCount : Z; lastSuccess : Z }.

Definition NewAdaptiveBackoffStrategy (now initial max : Z) (smoothing : float64) : AdaptiveBackoffStrategy :=
  let s := if flt smoothing (of_int 0) then of_int 0 else smoothing in
  {| initialBackoffA := initial; maxBackoffA := max; avgLatency := initial;
     smoothingFactor := if fgt s (of_int 1) then of_int 1 else s;
     successCount := 0; failureCount := 0; lastSuccess := now |}.

Definition adaptive_backoff (s : AdaptiveBackoffStrategy) (attempt : Z) : Z :=
  let failureFactor := fdiv (fmin (of_int (failureCount s)) (of_int 10)) (of_int 10) in
  let adaptiveBackoff := fmul (of_int (avgLatency s)) (fadd (of_int 1) failureFactor) in
  let b := fmul adaptiveBackoff (pow (of_int 2) attempt) in
  let b := if flt b (of_int (initialBackoffA s)) then of_int (initialBackoffA s) else b in
  to_i64 (if fgt b (of_int (maxBackoffA s)) then of_int (maxBackoffA s) else b).

#[export] Instance adaptive_strategy : BackoffStrategy AdaptiveBackoffStrategy := {
  NextBackoff attempt s := (adaptive_backoff s attempt, s);
  Reset now s := {| initialBackoffA := initialBackoffA s; maxBackoffA := maxBackoffA s;
                    avgLatency := initialBackoffA s; smoothingFactor := smoothingFactor s;
                    successCount := 0; failureCount := 0; lastSuccess := now |}
}.

Definition RecordSuccess (now latency : Z) (s : AdaptiveBackoffStrategy) : AdaptiveBackoffStrategy :=
  {| initialBackoffA := initialBackoffA s; maxBackoffA := maxBackoffA s;
     avgLatency :=
       if avgLatency s =? 0 then latency
       else to_i64 (fadd (fmul (of_int (avgLatency s)) (fsub (of_int 1) (smoothingFactor s)))
                         (fmul (of_int latency) (smoothingFactor s)));
     smoothingFactor := smoothingFactor s; successCount := i64 (successCount s + 1); failureCount := 0;
     lastSuccess := now |}.

Definition RecordFailure (s : AdaptiveBackoffStrategy) : AdaptiveBackoffStrategy :=
  let a := to_i64 (fmul (of_int (avgLatency s)) (lit 11 10)) in
  {| initialBackoffA := initialBackoffA s; maxBackoffA := maxBackoffA s;
     avgLatency := if a >? maxBackoffA s then maxBackoffA s else a;
     smoothingFactor := smoothingFactor s; successCount := 0; failureCount := i64 (failureCount s + 1);
     lastSuccess := lastSuccess s |}.

End Strategies.
Arguments base {B} j.
Arguments jitterFactor {B} j.
Arguments rng {B} j _.
End Backoff.

(** * Retriers *)
Module Retrier.
Import Backoff.

(** [retryCondition] and [maxAttempts] of a [Retrier]; its strategy is the state
    of type [S] that its operations thread. *)
Record Retrier : Type := { maxAttempts : Z; retryCondition : error -> bool }.

Definition defaultRetryCondition (err : error) : bool := true.

Definition IsRetryableError (err : error) : bool :=
  if errors_is err Canceled || errors_is err DeadlineExceeded then false else true.

Definition NewRetrier : Retrier := {| maxAttempts := 3; retryCondition := defaultRetryCondition |}.
Definition WithMaxAttempts (n : Z) (r : Retrier) : Retrier :=
  {| maxAttempts := n; retryCondition := retryCondition r |}.
Definition WithRetryCondition (c : error -> bool) (r : Retrier) : Retrier :=
  {| maxAttempts := maxAttempts r; retryCondition := c |}.

Section Run.
Context {S : Type} `{BackoffStrategy S}.

(** A run's result: the error returned, the state of the strategy, the number of
    calls of the function, and the waits in their order. *)
Record report : Type := { err : option error; state : S; called : nat; waits : list Z }.

(** [fn k s]: the answer of the [k]-th call; a wrapped function may update the
    strategy that the retrier shares. [ctx_err k] is [ctx.Err()] before the
    [k]-th call and [cut k] the end of the context during the wait after it. *)
Variable fn : nat -> S -> option error * S.
Variable ctx_err : nat -> option error.
Variable cut : nat -> option error.

Fixpoint DoWithContext_loop (fuel : nat) (r : Retrier) (attempt : Z) (k : nat) (s : S) (ws : list Z) : option report :=
  match fuel with
  | O => None
  | Datatypes.S fuel =>
      match ctx_err k with
      | Some e => Some {| err := Some e; state := s; called := k; waits := ws |}
      | None =>
          let '(answer, s) := fn k s in
          let stop := {| err := answer; state := s; called := Datatypes.S k; waits := ws |} in
          match answer with
          | None => Some stop
          | Some e =>
              if negb (retryCondition r e) then Some stop
              else if i64 (attempt + 1) >=? maxAttempts r then Some stop
              else
                let '(backoff, s) := NextBackoff (i64 (attempt + 1)) s in
                match cut k with
                | Some e => Some {| err := Some e; state := s; called := Datatypes.S k; waits := ws ++ [backoff] |}
                | None => DoWithContext_loop fuel r (i64 (attempt + 1)) (Datatypes.S k) s (ws ++ [backoff])
                end
          end
      end
  end.

Definition fuel_of (r : Retrier) : nat := Datatypes.S (Z.to_nat (maxAttempts r)).

Definition DoWithContext (r : Retrier) (s : S) : option report := DoWithContext_loop (fuel_of r) r 0 0 s [].

End Run.

(** [Do]: no context, so nothing ends a run from outside. *)
Definition Do {S : Type} `{BackoffStrategy S} (fn : nat -> S -> option error * S) (r : Retrier) (s : S)
  : option report :=
  DoWithContext fn (fun _ => None) (fun _ => None) r s.

(** [ListenableRetrier.Do]: the run of [Do] with the calls of its two listeners;
    [before k e] and [after k e] are the events it produces, [None] a nil listener. *)
Inductive event : Type :=
| Before (attempt : Z) (e : option error)
| After (attempt : Z) (e : error).

Fixpoint Listenable_loop {S : Type} `{BackoffStrategy S} (fn : nat -> option error) (before after : bool)
    (fuel : nat) (r : Retrier) (attempt : Z) (k : nat) (last : option error) (s : S) (es : list event)
  : option (option error * S * list event) :=
  match fuel with
  | O => None
  | Datatypes.S fuel =>
      let es := if (attempt >? 0) && before then es ++ [Before attempt last] else es in
      match fn k with
      | None => Some (None, s, es)
      | Some e =>
          let es := if after then es ++ [After attempt e] else es in
          if negb (retryCondition r e) then Some (Some e, s, es)
          else if i64 (attempt + 1) >=? maxAttempts r then Some (Some e, s, es)
          else let '(_, s) := NextBackoff (i64 (attempt + 1)) s in
               Listenable_loop fn before after fuel r (i64 (attempt + 1)) (Datatypes.S k) (Some e) s es
      end
  end.

Definition ListenableDo {S : Type} `{BackoffStrategy S} (fn : nat -> option error) (before after : bool)
    (r : Retrier) (s : S) : option (option error * S * list event) :=
  Listenable_loop fn before after (fuel_of r) r 0 0 None s [].

(** [RetryWithAdaptiveBackoff]: the wrapped function records each outcome in the
    strategy that computes the waits; [lat k] is the latency of the [k]-th call and
    [now k] the clock after it. *)
Definition RetryWithAdaptiveBackoff `{GoImpl} (fn : nat -> option error) (lat now : nat -> Z)
    (ctx_err cut : nat -> option error) (start maxAttempts : Z) : option report :=
  let strategy := NewAdaptiveBackoffStrategy start (100 * Millisecond) (10 * Second) (lit 3 10) in
  let r := WithRetryCondition IsRetryableError (WithMaxAttempts maxAttempts NewRetrier) in
  let wrapped k s :=
    match fn k with
    | None => (None, RecordSuccess (now k) (lat k) s)
    | Some e => (Some e, if IsRetryableError e then RecordFailure s else s)
    end in
  DoWithContext wrapped ctx_err cut r strategy.

End Retrier.

(** * Theorems: interceptors *)
Module InterceptorFacts.
Import Budget Interceptor.

Lemma release_all_fields n b :
  currentRetries (release_all n b) = match n with O => currentRetries b | _ => i32 (currentRetries b - Z.of_nat n) end /\
  totalRequests (release_all n b) = totalRequests b /\ retriedRequests (release_all n b) = retriedRequests b.
Proof.
  induction n as [|n (IH1 & IH2 & IH3)]; [done|]. change (release_all (S n) b) with (ReleaseRetry (release_all n b)).
  simpl. rewrite IH1, IH2, IH3. split; [|done]. destruct n; [done|].
  rewrite <- Z.add_opp_r, i32_add_l. f_equal. lia.
Qed.

Section Facts.
Context `{GoImpl}.
Variable FromError : error -> option Z.
Variables (p : Policy) (e : env).

(** What a finished run gives: at most [MaxAttempts + 1] calls, an answer that is
    nil exactly when the last call succeeded, and a budget with one more request,
    one more retry for each further call, and every concurrent slot given back. *)
Definition balanced (b : Budget) (r : run_result) : Prop :=
  let '(err, b', calls) := r in
  1 <= Z.of_nat (length calls) <= MaxAttempts p + 1 /\
  (err = None <-> invoke e (Z.of_nat (length calls) - 1) = None) /\
  currentRetries b' = currentRetries b /\
  totalRequests b' = i64 (totalRequests b + 1) /\
  retriedRequests b' = i64 (retriedRequests b + (Z.of_nat (length calls) - 1)).

(** Releasing what is held ends a call with the counters balanced. *)
Lemma release_balanced b0 b n err calls :
  is_i32 (currentRetries b0) -> 1 <= Z.of_nat (length calls) <= MaxAttempts p + 1 ->
  (err = None <-> invoke e (Z.of_nat (length calls) - 1) = None) ->
  currentRetries b = i32 (currentRetries b0 + Z.of_nat n) -> totalRequests b = i64 (totalRequests b0 + 1) ->
  retriedRequests b = i64 (retriedRequests b0 + (Z.of_nat (length calls) - 1)) -> balanced b0 (err, release_all n b, calls).
Proof.
  intros Hi Hlen Herr E1 E2 E3. unfold balanced. destruct (release_all_fields n b) as (F1 & F2 & F3). rewrite F1, F2, F3, E1, E2, E3.
  split_and!; try done; try lia. destruct n as [|n]; [rewrite Z.add_0_r; by apply i32_small|].
  rewrite <- Z.add_opp_r, i32_add_l. rewrite <- (i32_small _ Hi) at 2. f_equal. lia.
Qed.

Lemma attempts_balanced fuel scale b0 : forall a dl b held last calls,
  MaxAttempts p < 2 ^ 64 -> 0 <= a <= MaxAttempts p -> MaxAttempts p - a < Z.of_nat fuel ->
  is_i32 (currentRetries b0) -> is_i64 (retriedRequests b0) ->
  Z.of_nat (length calls) = a -> held = Nat.pred (length calls) ->
  (0 < a -> exists er, last = Some er /\ invoke e (a - 1) = Some er) ->
  currentRetries b = i32 (currentRetries b0 + Z.of_nat held) ->
  totalRequests b = i64 (totalRequests b0 + 1) ->
  retriedRequests b = i64 (retriedRequests b0 + Z.of_nat held) ->
  exists r, attempts FromError fuel scale p e a dl b held last calls = Some r /\ balanced b0 r.
Proof.
  induction fuel as [|fuel IH]; intros a dl b held last calls HM Ha Hf Hi Hr Hlen Hheld Hlast H1 H2 H3; [lia|].
  assert (forall er, 0 < a -> er = last \/ (exists x, er = Some x) ->
            balanced b0 (er, release_all held b, calls)) as Hearly.
  { intros er Ha0 Her. destruct (Hlast Ha0) as (x & -> & Hx). apply release_balanced; try done; try lia.
    - rewrite Hlen, Hx. by destruct Her as [->|[? ->]].
    - rewrite H3. do 2 f_equal. lia. }
  cbn [attempts]. rewrite Z.gtb_ltb. destruct (Z.ltb_spec (MaxAttempts p) a); [lia|].
  assert (forall d b h, currentRetries b = i32 (currentRetries b0 + Z.of_nat h) ->
            totalRequests b = i64 (totalRequests b0 + 1) -> h = length calls ->
            retriedRequests b = i64 (retriedRequests b0 + Z.of_nat h) -> exists r,
            match invoke e a with
            | None => Some (None, release_all h b, calls ++ [d])
            | Some err =>
                if negb (isRetryable FromError p err) || (a =? MaxAttempts p)
                then Some (Some err, release_all h b, calls ++ [d])
                else attempts FromError fuel scale p e (u64 (a + 1)) d b h (Some err) (calls ++ [d])
            end = Some r /\ balanced b0 r) as Hcall.
  { intros d b' h G1 G2 G3 G4.
    assert (forall er, er = invoke e a -> balanced b0 (er, release_all h b', calls ++ [d])) as Hend.
    { intros er ->. apply release_balanced; rewrite ?length_app; simpl; try done; try lia.
      - by replace (Z.of_nat (length calls + 1) - 1) with a by lia.
      - rewrite G4. do 2 f_equal. lia. }
    destruct (invoke e a) as [err|] eqn:E; [|eauto].
    destruct (negb _ || _) eqn:E1; [eauto|]. bool_to_prop.
    assert (u64 (a + 1) = a + 1) as -> by (unfold u64; apply Z.mod_small; lia).
    apply IH; rewrite ?length_app; simpl; try done; try lia.
    intros _. exists err. by replace (a + 1 - 1) with a by lia. }
  rewrite Z.gtb_ltb. destruct (Z.ltb_spec 0 a) as [Ha0|Ha0].
  - destruct (CanRetry b); [|eexists; split; [done|]; apply Hearly; auto]. cbn [negb].
    destruct (ctx_done e a) as [er|]; [eexists; split; [done|]; apply Hearly; eauto|].
    apply Hcall; simpl; try done; rewrite ?H1, ?H3, ?Hheld.
    + rewrite i32_add_l. f_equal. lia.
    + lia.
    + rewrite i64_add_l. f_equal. lia.
  - apply Hcall; try done; lia.
Qed.

(** Retries never see a later deadline. *)
Lemma retry_deadline_le now d : exists d', retry_deadline p now (Some d) = Some d' /\ d' <= d.
Proof. unfold retry_deadline, WithTimeout. case_bool; eexists; split; try done; lia. Qed.

Lemma attempts_deadline fuel scale : forall a d b held last calls r top,
  attempts FromError fuel scale p e a (Some d) b held last calls = Some r -> d <= top ->
  Forall (fun c => exists d', c = Some d' /\ d' <= top) calls ->
  Forall (fun c => exists d', c = Some d' /\ d' <= top) r.2.
Proof.
  induction fuel as [|fuel IH]; intros a d b held last calls r top Hr Hd Hc; [done|].
  cbn [attempts] in Hr. case_bool; [by simplify_eq|].
  assert (forall d' b h, d' <= top ->
            match invoke e a with
            | None => Some (None, release_all h b, calls ++ [Some d'])
            | Some err =>
                if negb (isRetryable FromError p err) || (a =? MaxAttempts p)
                then Some (Some err, release_all h b, calls ++ [Some d'])
                else attempts FromError fuel scale p e (u64 (a + 1)) (Some d') b h (Some err) (calls ++ [Some d'])
            end = Some r -> Forall (fun c => exists d', c = Some d' /\ d' <= top) r.2) as Hcall.
  { intros d' b' h Hd' HH.
    assert (Forall (fun c => exists d', c = Some d' /\ d' <= top) (calls ++ [Some d'])) as Hc'
      by (apply Forall_app; eauto).
    destruct (invoke e a); [case_bool|]; [by simplify_eq| |by simplify_eq]. by eapply IH. }
  case_bool; [|by eapply Hcall].
  case_bool; [by simplify_eq|]. destruct (ctx_done e a); [by simplify_eq|].
  destruct scale; [|by eapply Hcall].
  destruct (retry_deadline_le (clock e a) d) as (d' & E & Hle). rewrite E in Hr. eapply Hcall; [|done]. lia.
Qed.
End Facts.

(** C16: a call through the retrying interceptor always ends, after between one and
    [MaxAttempts + 1] invocations; it returns nil exactly when the last invocation
    succeeded; the budget gains one request and one retry per further invocation,
    and every concurrent-retry slot taken is given back whatever path is taken. *)
Theorem interceptor_balances_budget `{GoImpl} (FromError : error -> option Z) (p : Policy) (e : env)
  (dl : option Z) (b : Budget)
  (Hen : Enabled p = true) (Hmax : 0 <= MaxAttempts p < 2 ^ 64)
  (Hcur : is_i32 (currentRetries b)) (Hret : is_i64 (retriedRequests b)) :
  (exists r, UnaryClientInterceptor FromError p e dl b = Some r /\ balanced p e b r) /\
  (exists r, StreamClientInterceptor FromError p e dl b = Some r /\ balanced p e b r).
Proof.
  unfold UnaryClientInterceptor, StreamClientInterceptor. rewrite Hen.
  split; apply attempts_balanced; simpl; try done; try (unfold fuel_for; lia);
    rewrite Z.add_0_r; by rewrite ?i32_small, ?i64_small.
Qed.

(** An environment where every call fails with the code Unavailable. *)
Definition failing_env : env :=
  {| invoke := fun _ => Some (Other 14); ctx_done := fun _ => None; clock := fun k => k; random := fun _ => of_int 0 |}.

Definition codes_of (err : error) : option Z := match err with Other n => Some (Z.of_N n) | _ => None end.

Lemma interceptor_balances_budget_witness :
  (exists r, @UnaryClientInterceptor amd64 codes_of DefaultPolicy failing_env (Some 1000) DefaultBudget = Some r /\
     balanced DefaultPolicy failing_env DefaultBudget r) /\
  (exists r, @StreamClientInterceptor amd64 codes_of DefaultPolicy failing_env (Some 1000) DefaultBudget = Some r /\
     balanced DefaultPolicy failing_env DefaultBudget r).
Proof.
  apply (@interceptor_balances_budget amd64 codes_of DefaultPolicy failing_env (Some 1000) DefaultBudget);
    [reflexivity|split; [discriminate|reflexivity]|split; [discriminate|reflexivity]|split; [discriminate|reflexivity]].
Defined.

(** The timeout factor never gives a retry more time: whatever the factor, no
    invocation gets a deadline later than the caller's, since the derived context
    inherits the deadline of its parent. *)
Theorem retry_deadline_never_extended `{GoImpl} (FromError : error -> option Z) (p : Policy) (e : env)
  (d : Z) (b : Budget) (r : run_result)
  (Hrun : UnaryClientInterceptor FromError p e (Some d) b = Some r) :
  Forall (fun c => exists d', c = Some d' /\ d' <= d) r.2.
Proof.
  unfold UnaryClientInterceptor in Hrun. case_bool.
  - simplify_eq/=. constructor; [|done]. exists d. split; [done|lia].
  - by eapply attempts_deadline.
Qed.

Lemma retry_deadline_never_extended_witness :
  Forall (fun c => exists d', c = Some d' /\ d' <= 1000) [Some 1000; Some 1000].
Proof.
  apply (@retry_deadline_never_extended amd64 codes_of DefaultPolicy failing_env 1000 DefaultBudget
           (Some (Other 14), {| MaxConcurrentRetries := 100; currentRetries := 0; MaxRetryRatio := lit 1 10;
                               totalRequests := 1; retriedRequests := 1 |}, [Some 1000; Some 1000])).
  vm_compute. reflexivity.
Defined.

(** The exponential delay of a late attempt overflows: the product no longer fits
    a duration, the conversion gives a negative one on amd64, and the retry does
    not wait at all. *)
Lemma exponential_delay_overflows :
  @calculateDelay amd64 DefaultPolicy (of_int 0) 38 = - 2 ^ 63 /\
  @calculateDelay amd64 DefaultPolicy (of_int 0) 37 = 5 * Second.
Proof. by vm_compute. Qed.

Lemma calculateDelay_le_max `{GoImpl} p rnd a : calculateDelay p rnd a <= MaxDelay p.
Proof. unfold calculateDelay. case_bool; [lia|]. rewrite Z.gtb_ltb in Heqb. bool_to_prop. lia. Qed.

End InterceptorFacts.

(** * Theorems: backoff *)
Module BackoffFacts.
Import Backoff.

(** The exponential strategy never waits longer than its maximum, nor a
    negative time, at any attempt: the limit is applied before the conversion to a
    duration, so that not even an infinite product escapes it. *)
Theorem exponential_backoff_bounds `{GoImpl} (initial max attempt : Z) (f : float64)
  (Hinit : 0 < initial < 2 ^ 53) (Hmax : 0 <= max < 2 ^ 53) (Hf : fgt f (of_int 1) = true)
  (Hpow : is_nan (pow f attempt) = false) :
  0 <= exponential_backoff (NewExponentialBackoffStrategy initial max f) attempt <= max.
Proof.
  unfold exponential_backoff, NewExponentialBackoffStrategy. cbn [initialBackoff maxBackoff factor].
  rewrite (flt_fle_false (of_int 1) f Hf).
  assert (nonneg f = true) as Hn.
  { unfold fgt in Hf. by destruct f as [[]|[]| |[] m e]. }
  set (x := fmul _ _). assert (nonneg x = true) as Hx.
  { apply fmul_nonneg; [apply of_int_nonneg; lia|by apply pow_nonneg]. }
  destruct (fgt x (of_int max)) eqn:E.
  - rewrite to_i64_of_int by done. lia.
  - apply to_i64_le; [done|apply fmul_mant|done|].
    destruct initial as [|m|m]; [lia| |lia]. unfold x in *. rewrite of_int_pos in * by lia.
    apply flt_total; [by destruct max as [|q|q]; [|rewrite of_int_pos by lia|lia]|by apply fmul_finite_not_nan|done].
Qed.

Lemma exponential_backoff_bounds_witness :
  0 <= @exponential_backoff amd64
         (NewExponentialBackoffStrategy (100 * Millisecond) (10 * Second) (of_int 2)) 5000 <= 10 * Second.
Proof.
  apply (@exponential_backoff_bounds amd64 (100 * Millisecond) (10 * Second) 5000 (of_int 2));
    [split; reflexivity|split; [discriminate|reflexivity]|reflexivity|vm_compute; reflexivity].
Defined.

(** A failure never raises the average latency above the maximum. *)
Lemma RecordFailure_le_max `{GoImpl} s : avgLatency (RecordFailure s) <= maxBackoffA s.
Proof. simpl. case_bool; [lia|]. rewrite Z.gtb_ltb in Heqb. bool_to_prop. lia. Qed.

End BackoffFacts.

(** * Theorems: retriers *)
Module RetrierFacts.
Import Backoff Retrier.

(** What a finished run reports, for the answers [f] of the calls: every call but
    the last failed with an error worth a retry and its wait was not cut; the run
    ended before a call or during a wait because the context ended, or after a
    call that succeeded, or failed for good, or was the last one allowed. *)
Record run_ok {S : Type} (f : nat -> option error) (ctx_err cut : nat -> option error) (r : Retrier)
    (rep : @report S) : Prop := {
  calls_bounded : Z.of_nat (called rep) <= Z.max 1 (maxAttempts r);
  retried : forall j, (Datatypes.S j < called rep)%nat -> exists e, f j = Some e /\ retryCondition r e = true;
  alive : forall j, (j < called rep)%nat -> ctx_err j = None;
  uncut : forall j, (Datatypes.S j < called rep)%nat -> cut j = None;
  ended :
    (exists e, ctx_err (called rep) = Some e /\ err rep = Some e) \/
    (exists n e, called rep = Datatypes.S n /\ cut n = Some e /\ err rep = Some e) \/
    (exists n, called rep = Datatypes.S n /\ err rep = f n /\
       (f n = None \/ (exists e, f n = Some e /\ retryCondition r e = false) \/ maxAttempts r <= Z.of_nat (Datatypes.S n))) }.

Lemma loop_ok {S : Type} `{BackoffStrategy S} fn f ctx_err cut r : is_i64 (maxAttempts r) ->
  (forall k (s : S), (fn k s).1 = f k) ->
  forall fuel k s ws, maxAttempts r - Z.of_nat k < Z.of_nat fuel -> fuel <> 0%nat ->
  (k = 0%nat \/ Z.of_nat k < maxAttempts r) ->
  (forall j, (j < k)%nat -> ctx_err j = None /\ cut j = None /\ exists e, f j = Some e /\ retryCondition r e = true) ->
  exists rep, DoWithContext_loop fn ctx_err cut fuel r (Z.of_nat k) k s ws = Some rep /\ run_ok f ctx_err cut r rep.
Proof.
  intros Hmax Hf. induction fuel as [|fuel IH]; intros k s ws Hfuel Hne Hk Hpast; [done|].
  cbn [DoWithContext_loop].
  assert (forall j, (j < k)%nat -> ctx_err j = None) as P1 by (intros; by apply Hpast).
  assert (forall j, (j < k)%nat -> cut j = None) as P2 by (intros; by apply Hpast).
  assert (forall j, (j < k)%nat -> exists e, f j = Some e /\ retryCondition r e = true) as P3
    by (intros; by apply Hpast).
  destruct (ctx_err k) as [e|] eqn:Ectx.
  { eexists. split; [done|]. constructor; simpl; eauto with lia; intros; (apply P3 || apply P2); lia. }
  assert (forall j, (j < Datatypes.S k)%nat -> ctx_err j = None) as P1'.
  { intros j Hj. destruct (decide (j = k)) as [->|]; [done|]. apply P1. lia. }
  pose proof (Hf k s) as Hfk. destruct (fn k s) as [answer s1]. simpl in Hfk. subst answer.
  assert (forall s2 (ws2 : list Z), (f k = None \/ (exists e, f k = Some e /\ retryCondition r e = false) \/
            maxAttempts r <= Z.of_nat (Datatypes.S k)) ->
          run_ok (S := S) f ctx_err cut r {| err := f k; state := s2; called := Datatypes.S k; waits := ws2 |}) as Hstop.
  { intros s2 ws2 HH. constructor; simpl; eauto 10 with lia; intros; (apply P3 || apply P2); lia. }
  destruct (f k) as [e|] eqn:Efk; [|eauto].
  destruct (retryCondition r e) eqn:Er; cbn [negb]; [|eauto 10].
  assert (i64 (Z.of_nat k + 1) = Z.of_nat (Datatypes.S k)) as ->.
  { rewrite i64_small; [lia|]. unfold is_i64 in *. lia. }
  rewrite Z.geb_leb. destruct (Z.leb_spec (maxAttempts r) (Z.of_nat (Datatypes.S k))) as [Hle|Hlt]; [eauto 10|].
  destruct (NextBackoff _ s1) as [b s2]. destruct (cut k) as [e'|] eqn:Ecut.
  { eexists. split; [done|]. constructor; simpl; eauto 10 with lia; intros; (apply P3 || apply P2); lia. }
  apply IH; try lia. intros j Hj. destruct (decide (j = k)) as [->|]; [eauto|]. apply Hpast. lia.
Qed.

(** A retried operation always ends, for any strategy and any answers of the
    function: it is called at most [max 1 maxAttempts] times, is retried only after
    an error that the condition accepts, stops at the first success, at the first
    other error or at the end of the context, and reports exactly that. *)
Theorem DoWithContext_complete {S : Type} `{BackoffStrategy S} (fn : nat -> S -> option error * S)
  (f ctx_err cut : nat -> option error) (r : Retrier) (s : S)
  (Hmax : is_i64 (maxAttempts r)) (Hfn : forall k s, (fn k s).1 = f k) :
  exists rep, DoWithContext fn ctx_err cut r s = Some rep /\ run_ok f ctx_err cut r rep.
Proof. apply (loop_ok fn f ctx_err cut r Hmax Hfn (fuel_of r) 0); unfold fuel_of; lia. Qed.

Lemma DoWithContext_complete_witness :
  exists rep, @DoWithContext _ (@exponential_strategy amd64)
    (fun k s => (if (k =? 2)%nat then None else Some (Other 7), s)) (fun _ => None) (fun _ => None) NewRetrier
    (NewExponentialBackoffStrategy (100 * Millisecond) (10 * Second) (of_int 2)) = Some rep /\
    run_ok (fun k => if (k =? 2)%nat then None else Some (Other 7)) (fun _ => None) (fun _ => None) NewRetrier rep.
Proof.
  apply (@DoWithContext_complete _ (@exponential_strategy amd64)).
  - split; [discriminate|reflexivity].
  - intros k s. reflexivity.
Defined.

(** The same for the adaptive retry function: its wrapper passes the answers on. *)
Lemma RetryWithAdaptiveBackoff_complete `{GoImpl} f lat now ctx_err cut start n : is_i64 n ->
  exists rep, RetryWithAdaptiveBackoff f lat now ctx_err cut start n = Some rep /\
    run_ok f ctx_err cut (WithRetryCondition IsRetryableError (WithMaxAttempts n NewRetrier)) rep.
Proof.
  intros Hn. unfold RetryWithAdaptiveBackoff. apply (loop_ok _ f _ _
    (WithRetryCondition IsRetryableError (WithMaxAttempts n NewRetrier)) Hn) with (k := 0%nat);
    unfold fuel_of; simpl; try done; try lia.
  intros k s. by destruct (f k).
Qed.

(** The listener's run answers like [Do] on the same function, and calls its
    listeners in order. *)
Lemma Listenable_same {S : Type} `{BackoffStrategy S} (fn : nat -> option error) before after r fuel :
  forall a k s ws es last,
  (fun rep => (err rep, state rep)) <$>
     DoWithContext_loop (fun k s => (fn k, s)) (fun _ => None) (fun _ => None) fuel r a k s ws =
  (fun rep => rep.1) <$> Listenable_loop fn before after fuel r a k last s es.
Proof.
  induction fuel as [|fuel IH]; intros a k s ws es last; [done|]. cbn [DoWithContext_loop Listenable_loop].
  destruct (fn k) as [e|]; [|done]. destruct (retryCondition r e); [|done]. cbn [negb].
  case_bool; [done|]. destruct (NextBackoff _ s) as [b s2]. apply IH.
Qed.

End RetrierFacts.
