(* ===== verification/ConnPool.v ===== *)
(** The connection pool of [src/internal/connpool]: the base pool ([pool.go]) and
    the adaptive pool around it ([adaptive_pool.go]).

    Connections are shared objects: a store maps the address of a [PoolConn] to its
    contents, the pool's idle list and its clients hold addresses. A function of
    the code that runs under the pool's mutex is one operation here; [Get], which
    leaves the mutex to call the factory or to wait, is one operation per critical
    section. *)
From S2P Require Import Prelude Float64.

(** * The base pool *)
Module Pool.

Record Options : Type := {
  MaxIdle : Z; MaxActive : Z; IdleTimeout : Z; WaitTimeout : Z; Wait : bool }.

(** [gone] tells that the underlying [grpc.ClientConn] was closed. *)
Record PoolConn : Type := { lastUsed : Z; closed : bool; gone : bool }.

Record connPool : Type := {
  opts : Options; idle : list nat; active : Z; waitCount : Z; pool_closed : bool;
  conns : list PoolConn }.

Definition NewPool (o : Options) : connPool :=
  {| opts := o; idle := []; active := 0; waitCount := 0; pool_closed := false; conns := [] |}.

(** Updates of single fields. *)
Definition set_idle (l : list nat) (p : connPool) : connPool :=
  {| opts := opts p; idle := l; active := active p; waitCount := waitCount p;
     pool_closed := pool_closed p; conns := conns p |}.
Definition add_active (d : Z) (p : connPool) : connPool :=
  {| opts := opts p; idle := idle p; active := i64 (active p + d); waitCount := waitCount p;
     pool_closed := pool_closed p; conns := conns p |}.
Definition add_waiting (d : Z) (p : connPool) : connPool :=
  {| opts := opts p; idle := idle p; active := active p; waitCount := i64 (waitCount p + d);
     pool_closed := pool_closed p; conns := conns p |}.
Definition set_conns (c : list PoolConn) (p : connPool) : connPool :=
  {| opts := opts p; idle := idle p; active := active p; waitCount := waitCount p;
     pool_closed := pool_closed p; conns := c |}.
Definition set_MaxActive (n : Z) (p : connPool) : connPool :=
  {| opts := {| MaxIdle := MaxIdle (opts p); MaxActive := n; IdleTimeout := IdleTimeout (opts p);
                WaitTimeout := WaitTimeout (opts p); Wait := Wait (opts p) |};
     idle := idle p; active := active p; waitCount := waitCount p;
     pool_closed := pool_closed p; conns := conns p |}.

(** [conn.ClientConn.Close()]. *)
Definition close_client (id : nat) (p : connPool) : connPool :=
  set_conns (alter (fun c => {| lastUsed := lastUsed c; closed := closed c; gone := true |}) id (conns p)) p.

Definition close_clients (ids : list nat) (p : connPool) : connPool := foldr close_client p ids.

Definition last_used (p : connPool) (id : nat) : Z := default 0 (lastUsed <$> conns p !! id).

(** [getIdleConn]: takes the last idle connection; an expired one is closed, and
    the caller gets none even if others are idle. *)
Definition getIdleConn (now : Z) (p : connPool) : option nat * connPool :=
  match last (idle p) with
  | None => (None, p)
  | Some id =>
      let p := set_idle (take (length (idle p) - 1) (idle p)) p in
      if (IdleTimeout (opts p) >? 0) && (last_used p id + IdleTimeout (opts p) <? now)
      then (None, close_client id p)
      else (Some id, p)
  end.

(** How the first critical section of [Get] ends: with a connection, with the
    factory to call, with an error, or with the wait. *)
Inductive get_error : Type := ErrPoolClosed | ErrTimeout | ErrExhausted | ErrContext | ErrFactory | ErrFailed.

Inductive got : Type :=
| GotConn (id : nat)
| CallFactory
| GetErr (e : get_error)
| MustWait.

Definition may_create (p : connPool) : bool := (MaxActive (opts p) =? 0) || (active p <? MaxActive (opts p)).

Definition Get_first (now : Z) (p : connPool) : got * connPool :=
  if pool_closed p then (GetErr ErrPoolClosed, p)
  else match getIdleConn now p with
       | (Some id, p) => (GotConn id, add_active 1 p)
       | (None, p) =>
           if may_create p then (CallFactory, add_active 1 p)
           else if negb (Wait (opts p)) then (GetErr ErrExhausted, p)
           else (MustWait, add_waiting 1 p)
       end.

(** The factory's answer: [ok] a new connection, or an error. *)
Definition Get_factory (now : Z) (ok : bool) (p : connPool) : got * connPool :=
  if ok then
    (GotConn (length (conns p)),
     set_conns (conns p ++ [{| lastUsed := now; closed := false; gone := false |}]) p)
  else (GetErr ErrFactory, add_active (-1) p).

(** The second critical section of a [Get] that waited. *)
Inductive wait_end : Type := Signalled | TimedOut | ContextDone.

Definition Get_waited (now : Z) (w : wait_end) (p : connPool) : got * connPool :=
  let p := add_waiting (-1) p in
  match w with
  | TimedOut => (GetErr ErrTimeout, p)
  | ContextDone => (GetErr ErrContext, p)
  | Signalled =>
      if pool_closed p then (GetErr ErrPoolClosed, p)
      else match getIdleConn now p with
           | (Some id, p) => (GotConn id, add_active 1 p)
           | (None, p) =>
               if may_create p then (CallFactory, add_active 1 p) else (GetErr ErrFailed, p)
           end
  end.

Definition Put (now : Z) (id : nat) (p : connPool) : connPool :=
  if pool_closed p then close_client id p
  else
    let p := add_active (-1) p in
    let p := set_conns (alter (fun c => {| lastUsed := now; closed := false; gone := gone c |}) id (conns p)) p in
    if waitCount p >? 0 then p
    else if (MaxIdle (opts p) >? 0) && (Z.of_nat (length (idle p)) <? MaxIdle (opts p))
    then set_idle (idle p ++ [id]) p
    else close_client id p.

(** [PoolConn.Close]: the flag is set, then [Put] runs. *)
Definition Close_conn (now : Z) (id : nat) (p : connPool) : connPool :=
  match conns p !! id with
  | None => p
  | Some c =>
      if closed c then p
      else Put now id (set_conns (<[id := {| lastUsed := lastUsed c; closed := true; gone := gone c |}]> (conns p)) p)
  end.

Definition Close (p : connPool) : connPool :=
  if pool_closed p then p
  else
    let p := close_clients (idle p) p in
    {| opts := opts p; idle := []; active := active p; waitCount := waitCount p;
       pool_closed := true; conns := conns p |}.

Record Status : Type := { ActiveCount : Z; IdleCount : Z; WaitCount : Z; StatusMaxActive : Z }.

Definition get_Status (p : connPool) : Status :=
  {| ActiveCount := active p; IdleCount := Z.of_nat (length (idle p)); WaitCount := waitCount p;
     StatusMaxActive := MaxActive (opts p) |}.

(** A tick of [cleaner]. *)
Definition fresh (now : Z) (p : connPool) (id : nat) : bool := last_used p id >? now - IdleTimeout (opts p).

Definition clean (now : Z) (p : connPool) : connPool :=
  if pool_closed p then p
  else if IdleTimeout (opts p) >? 0 then
    let old := filter (fun id => fresh now p id = false) (idle p) in
    set_idle (filter (fun id => fresh now p id = true) (idle p)) (close_clients old p)
  else p.

(** ** A pool and its clients

    [held] are the connections that clients have and have not yet closed, and
    [creating] counts the requests that are inside the factory. *)
Record system : Type := { pool : connPool; held : list nat; creating : nat }.

Definition receive (r : got * connPool) (s : system) : system :=
  match r with
  | (GotConn id, p) => {| pool := p; held := id :: held s; creating := creating s |}
  | (CallFactory, p) => {| pool := p; held := held s; creating := S (creating s) |}
  | (_, p) => {| pool := p; held := held s; creating := creating s |}
  end.

Inductive step (s : system) : system -> Prop :=
| step_get now : step s (receive (Get_first now (pool s)) s)
| step_factory now ok n : creating s = S n ->
    step s (receive (Get_factory now ok (pool s)) {| pool := pool s; held := held s; creating := n |})
| step_close_conn now id l1 l2 : held s = l1 ++ id :: l2 ->
    step s {| pool := Close_conn now id (pool s); held := l1 ++ l2; creating := creating s |}
| step_clean now : step s {| pool := clean now (pool s); held := held s; creating := creating s |}
| step_close : step s {| pool := Close (pool s); held := held s; creating := creating s |}.

Definition start (o : Options) : system := {| pool := NewPool o; held := []; creating := 0 |}.

(** The connections whose [grpc.ClientConn] is open. *)
Definition is_open (p : connPool) (id : nat) : bool :=
  match conns p !! id with Some c => negb (gone c) | None => false end.

Definition open_conns (p : connPool) : list nat := filter (fun id => is_open p id = true) (seq 0 (length (conns p))).

End Pool.

(** * The wait of [Get]

    A [Get] that must wait starts a goroutine that calls [p.cond.Wait()] and then
    leaves the critical section itself. [Wait] registers the goroutine, unlocks the
    mutex, sleeps, and locks the mutex again when it is signalled; unlocking a
    mutex that is not locked ends the process. Other operations of the pool are
    lock-unlock pairs. *)
Module Waiting.

Inductive getter : Type := Releasing | Selecting.
Inductive waiter : Type := Starting | Asleep | Woken | Holding.

(** [inside]: the other operations that are between their lock and their unlock. *)
Record threads : Type := { locked : bool; get_pc : getter; wait_pc : waiter; inside : nat }.

Inductive process : Type := Running (t : threads) | Fatal.

(** The point where [Get] has started the goroutine. *)
Definition entered_wait : process :=
  Running {| locked := true; get_pc := Releasing; wait_pc := Starting; inside := 0 |}.

(** [mu.Unlock()] by a thread that then continues as [t]. *)
Definition unlock (t : threads) : process :=
  if locked t
  then Running {| locked := false; get_pc := get_pc t; wait_pc := wait_pc t; inside := inside t |}
  else Fatal.

Definition with_pcs (t : threads) (g : getter) (w : waiter) (n : nat) : threads :=
  {| locked := locked t; get_pc := g; wait_pc := w; inside := n |}.

Inductive step : process -> process -> Prop :=
| get_unlocks t : get_pc t = Releasing ->
    step (Running t) (unlock (with_pcs t Selecting (wait_pc t) (inside t)))
| cond_wait t : wait_pc t = Starting ->
    step (Running t) (unlock (with_pcs t (get_pc t) Asleep (inside t)))
| signal t : wait_pc t = Asleep ->
    step (Running t) (Running (with_pcs t (get_pc t) Woken (inside t)))
| relock t : wait_pc t = Woken -> locked t = false ->
    step (Running t) (Running {| locked := true; get_pc := get_pc t; wait_pc := Holding; inside := inside t |})
| other_lock t : locked t = false ->
    step (Running t) (Running {| locked := true; get_pc := get_pc t; wait_pc := wait_pc t; inside := S (inside t) |})
| other_unlock t n : inside t = S n ->
    step (Running t) (unlock (with_pcs t (get_pc t) (wait_pc t) n)).

End Waiting.

(** * The adaptive pool *)
Module AdaptivePool.
Import Pool.

Record AdaptiveOptions : Type := {
  BaseOptions : Options; HealthCheckInterval : Z; HealthCheckTimeout : Z; EnableAdaptive : bool;
  LoadCheckInterval : Z; HighLoadThreshold : float64; LowLoadThreshold : float64;
  ScaleUpFactor : float64; ScaleDownFactor : float64; MinConnections : Z; MaxConnections : Z;
  ScaleCooldownPeriod : Z }.

Definition DefaultAdaptiveOptions : AdaptiveOptions :=
  {| BaseOptions := {| MaxIdle := 5; MaxActive := 10; IdleTimeout := 60 * Second; WaitTimeout := 3 * Second;
                       Wait := true |};
     HealthCheckInterval := 30 * Second; HealthCheckTimeout := 5 * Second; EnableAdaptive := true;
     LoadCheckInterval := 60 * Second; HighLoadThreshold := lit 8 10; LowLoadThreshold := lit 3 10;
     ScaleUpFactor := lit 15 10; ScaleDownFactor := lit 8 10; MinConnections := 5; MaxConnections := 100;
     ScaleCooldownPeriod := 3 * Minute |}.

Record AdaptivePool : Type := {
  basePool : connPool; aopts : AdaptiveOptions; successRequests : Z; failedRequests : Z; timeouts : Z;
  healthFailures : Z; scaleUpEvents : Z; scaleDownEvents : Z; lastScaleTime : Z; stopped : bool }.

Definition NewAdaptivePool (o : AdaptiveOptions) (now : Z) : AdaptivePool :=
  {| basePool := NewPool (BaseOptions o); aopts := o; successRequests := 0; failedRequests := 0; timeouts := 0;
     healthFailures := 0; scaleUpEvents := 0; scaleDownEvents := 0; lastScaleTime := now; stopped := false |}.

Definition with_base (p : connPool) (ap : AdaptivePool) : AdaptivePool :=
  {| basePool := p; aopts := aopts ap; successRequests := successRequests ap; failedRequests := failedRequests ap;
     timeouts := timeouts ap; healthFailures := healthFailures ap; scaleUpEvents := scaleUpEvents ap;
     scaleDownEvents := scaleDownEvents ap; lastScaleTime := lastScaleTime ap; stopped := stopped ap |}.

(** [Get]: the counters, once the base pool has answered. *)
Definition count_Get (r : got) (ap : AdaptivePool) : AdaptivePool :=
  match r with
  | GotConn _ =>
      {| basePool := basePool ap; aopts := aopts ap; successRequests := u64 (successRequests ap + 1);
         failedRequests := failedRequests ap; timeouts := timeouts ap; healthFailures := healthFailures ap;
         scaleUpEvents := scaleUpEvents ap; scaleDownEvents := scaleDownEvents ap;
         lastScaleTime := lastScaleTime ap; stopped := stopped ap |}
  | GetErr e =>
      {| basePool := basePool ap; aopts := aopts ap; successRequests := successRequests ap;
         failedRequests := u64 (failedRequests ap + 1);
         timeouts := match e with ErrTimeout => u64 (timeouts ap + 1) | _ => timeouts ap end;
         healthFailures := healthFailures ap; scaleUpEvents := scaleUpEvents ap;
         scaleDownEvents := scaleDownEvents ap; lastScaleTime := lastScaleTime ap; stopped := stopped ap |}
  | _ => ap
  end.

(** [Close]: a second call closes a closed channel. *)
Definition ClosePool (ap : AdaptivePool) : outcome AdaptivePool :=
  if stopped ap then Panics
  else Returns
    {| basePool := Close (basePool ap); aopts := aopts ap; successRequests := successRequests ap;
       failedRequests := failedRequests ap; timeouts := timeouts ap; healthFailures := healthFailures ap;
       scaleUpEvents := scaleUpEvents ap; scaleDownEvents := scaleDownEvents ap;
       lastScaleTime := lastScaleTime ap; stopped := true |}.

(** Connectivity states of the gRPC library, and what it answers about a
    connection: its state, whether the state changes within the timeout, and the
    state after the change. *)
Inductive connectivity : Type := ConnIdle | Connecting | Ready | TransientFailure | Shutdown.
Record grpc_state : Type := { GetState : nat -> connectivity; changed : nat -> bool; GetState2 : nat -> connectivity }.

Definition good_state (c : connectivity) : bool := match c with Ready | ConnIdle => true | _ => false end.

Definition healthy (g : grpc_state) (id : nat) : bool :=
  match GetState g id with
  | Ready | ConnIdle => true
  | TransientFailure | Shutdown => false
  | _ => changed g id && good_state (GetState2 g id)
  end.

Definition checkHealth_pool (g : grpc_state) (p : connPool) : connPool :=
  let bad := filter (fun id => healthy g id = false) (idle p) in
  let p := close_clients bad p in
  if (length bad =? 0)%nat then p else set_idle (filter (fun id => healthy g id = true) (idle p)) p.

Definition checkHealth (g : grpc_state) (ap : AdaptivePool) : AdaptivePool :=
  let bad := filter (fun id => healthy g id = false) (idle (basePool ap)) in
  {| basePool := checkHealth_pool g (basePool ap); aopts := aopts ap; successRequests := successRequests ap;
     failedRequests := failedRequests ap; timeouts := timeouts ap;
     healthFailures := u64 (healthFailures ap + Z.of_nat (length bad)); scaleUpEvents := scaleUpEvents ap;
     scaleDownEvents := scaleDownEvents ap; lastScaleTime := lastScaleTime ap; stopped := stopped ap |}.

Section Scaling.
Context `{GoImpl}.

Definition loadFactor (p : connPool) : float64 :=
  if MaxActive (opts p) >? 0 then fdiv (of_int (active p)) (of_int (MaxActive (opts p))) else of_int 0.

(** The new limit, and whether it is larger; [None] leaves the pool as it is. *)
Definition new_limit (o : AdaptiveOptions) (p : connPool) : option (Z * bool) :=
  let current := MaxActive (opts p) in
  if fge (loadFactor p) (HighLoadThreshold o) then
    let n := to_i64 (fmul (of_int current) (ScaleUpFactor o)) in
    let n := if n >? MaxConnections o then MaxConnections o else n in
    if n >? current then Some (n, true) else None
  else if fle (loadFactor p) (LowLoadThreshold o) && (waitCount p =? 0) then
    let n := to_i64 (fmul (of_int current) (ScaleDownFactor o)) in
    let n := if n <? MinConnections o then MinConnections o else n in
    if n <? current then Some (n, false) else None
  else None.

(** The first half of [checkAndAdjustPool]: outside the cooling period, a look at the
    base pool's status. *)
Definition measure (now : Z) (ap : AdaptivePool) : option (Z * bool) :=
  if time_sub now (lastScaleTime ap) <? ScaleCooldownPeriod (aopts ap) then None else new_limit (aopts ap) (basePool ap).

(** The second half, under the base pool's mutex again. *)
Definition scale (now n : Z) (up : bool) (ap : AdaptivePool) : AdaptivePool :=
  {| basePool := set_MaxActive n (basePool ap); aopts := aopts ap;
     successRequests := successRequests ap; failedRequests := failedRequests ap;
     timeouts := timeouts ap; healthFailures := healthFailures ap;
     scaleUpEvents := if up then u32 (scaleUpEvents ap + 1) else scaleUpEvents ap;
     scaleDownEvents := if up then scaleDownEvents ap else u32 (scaleDownEvents ap + 1);
     lastScaleTime := now; stopped := stopped ap |}.

(** Both, when no client comes between them. *)
Definition checkAndAdjustPool (now : Z) (ap : AdaptivePool) : AdaptivePool :=
  match measure now ap with Some (n, up) => scale now n up ap | None => ap end.

(** An adaptive pool and its clients: [held] and [creating] as for the base pool;
    [measured] is the limit that the monitor is about to set. *)
Record asystem : Type := { apool : AdaptivePool; aheld : list nat; acreating : nat; measured : option (Z * bool) }.

Definition base_of (s : asystem) : system :=
  {| pool := basePool (apool s); held := aheld s; creating := acreating s |}.

(** [r] is the answer that the step of the base pool gave to a [Get], if any. *)
Inductive astep (s : asystem) : asystem -> Prop :=
| astep_base b r : Pool.step (base_of s) b ->
    astep s {| apool := count_Get r (with_base (pool b) (apool s)); aheld := held b; acreating := creating b; measured := measured s |}
| astep_health g :
    astep s {| apool := checkHealth g (apool s); aheld := aheld s; acreating := acreating s; measured := measured s |}
| astep_measure now : measured s = None ->
    astep s {| apool := apool s; aheld := aheld s; acreating := acreating s; measured := measure now (apool s) |}
| astep_scale now n up : measured s = Some (n, up) ->
    astep s {| apool := scale now n up (apool s); aheld := aheld s; acreating := acreating s; measured := None |}
| astep_close ap : ClosePool (apool s) = Returns ap ->
    astep s {| apool := ap; aheld := aheld s; acreating := acreating s; measured := measured s |}.

Definition astart (o : AdaptiveOptions) (now : Z) : asystem :=
  {| apool := NewAdaptivePool o now; aheld := []; acreating := 0; measured := None |}.

End Scaling.

(** ** [Preconnect]

    Its calls of [Get] one after another, with no other client; [ok] is the
    factory's answer to each. A [Get] that must wait is not followed further. *)
Fixpoint preconnect_gets (count : nat) (now : nat -> Z) (ok : nat -> bool) (p : connPool) (ids : list nat)
  : option get_error * connPool * list nat :=
  match count with
  | O => (None, p, ids)
  | S n =>
      match Get_first (now count) p with
      | (GotConn id, p) => preconnect_gets n now ok p (ids ++ [id])
      | (CallFactory, p) =>
          match Get_factory (now count) (ok count) p with
          | (GotConn id, p) => preconnect_gets n now ok p (ids ++ [id])
          | (GetErr e, p) => (Some e, p, ids)
          | (_, p) => (None, p, ids)
          end
      | (GetErr e, p) => (Some e, p, ids)
      | (MustWait, p) => (None, p, ids)
      end
  end.

Definition Preconnect (count : nat) (now : nat -> Z) (ok : nat -> bool) (end_time : Z) (p : connPool)
  : option get_error * connPool :=
  let '(e, p, ids) := preconnect_gets count now ok p [] in
  (e, foldl (fun p id => Put end_time id p) p ids).

End AdaptivePool.

(** * Theorems: the base pool *)
Module PoolFacts.
Import Pool.

Definition flag (p : connPool) (id : nat) : bool := match conns p !! id with Some c => closed c | None => true end.

Definition owned (s : system) : list nat := idle (pool s) ++ held s.

(** What holds of a pool that does not wait and whose clients close each
    connection they get exactly once. *)
Record inv (N : Z) (s : system) : Prop := {
  inv_opts : 0 < MaxActive (opts (pool s)) <= N /\ Wait (opts (pool s)) = false;
  inv_wait : waitCount (pool s) = 0;
  inv_nodup : NoDup (owned s);
  inv_open : forall id, is_open (pool s) id = true <-> id ∈ owned s;
  inv_flag : forall id, id ∈ owned s -> flag (pool s) id = false;
  inv_bound : Z.of_nat (length (owned s) + creating s) <= N;
  inv_active : pool_closed (pool s) = false -> active (pool s) = Z.of_nat (length (held s) + creating s) }.

(** ** What the operations do to the connections *)

Lemma is_open_ext p q id : conns p = conns q -> is_open p id = is_open q id.
Proof. unfold is_open. by intros ->. Qed.

Lemma flag_ext p q id : conns p = conns q -> flag p id = flag q id.
Proof. unfold flag. by intros ->. Qed.

Lemma is_open_close_client i p id :
  is_open (close_client i p) id = is_open p id && bool_decide (id <> i).
Proof.
  unfold is_open, close_client. simpl. destruct (decide (i = id)) as [->|Hne].
  - rewrite list_lookup_alter_eq. rewrite bool_decide_eq_false_2 by auto.
    destruct (conns p !! id); simpl; by rewrite ?andb_false_r.
  - rewrite list_lookup_alter_ne by done. by rewrite bool_decide_eq_true_2, andb_true_r by auto.
Qed.

Lemma flag_close_client i p id : flag (close_client i p) id = flag p id.
Proof.
  unfold flag, close_client. simpl. destruct (decide (i = id)) as [->|Hne].
  - rewrite list_lookup_alter_eq. by destruct (conns p !! id).
  - by rewrite list_lookup_alter_ne.
Qed.

Lemma close_clients_spec l p :
  (forall id, is_open (close_clients l p) id = is_open p id && bool_decide (id ∉ l)) /\
  (forall id, flag (close_clients l p) id = flag p id) /\
  opts (close_clients l p) = opts p /\ idle (close_clients l p) = idle p /\ active (close_clients l p) = active p /\
  waitCount (close_clients l p) = waitCount p /\ pool_closed (close_clients l p) = pool_closed p.
Proof.
  induction l as [|i l (IH1 & IH2 & IH3 & IH4 & IH5 & IH6 & IH7)]; simpl.
  { split_and!; try done. intros id. by rewrite andb_true_r. }
  split_and!; try done; intros id; [|by rewrite flag_close_client].
  rewrite is_open_close_client, IH1, <- andb_assoc. f_equal.
  rewrite <- bool_decide_and. apply bool_decide_ext. set_solver.
Qed.

Lemma getIdleConn_spec now p :
  match getIdleConn now p with
  | (Some id, p') => exists l, idle p = l ++ [id] /\ p' = set_idle l p
  | (None, p') => (idle p = [] /\ p' = p) \/
      (exists l id, idle p = l ++ [id] /\ p' = close_client id (set_idle l p))
  end.
Proof.
  unfold getIdleConn. destruct (last (idle p)) as [id|] eqn:E; [|left; by apply last_None in E].
  apply last_Some in E as [l E]. rewrite E, length_app, take_app_length' by (simpl; lia).
  case_bool; eauto.
Qed.

(** ** Preservation *)

Ltac owned_solver := unfold owned in *; simpl in *; set_solver.

Lemma receive_opened N s now id p' :
  inv N s -> getIdleConn now (pool s) = (Some id, p') -> pool_closed (pool s) = false -> N < 2 ^ 62 ->
  inv N {| pool := add_active 1 p'; held := id :: held s; creating := creating s |}.
Proof.
  intros HI Hg Hc Hm. pose proof (getIdleConn_spec now (pool s)) as HG. rewrite Hg in HG.
  destruct HG as (l & El & ->). destruct HI as [H1 H2 H3 H4 H5 H6 H7]. unfold owned in *. rewrite El in *.
  rewrite !length_app in H6. simpl in *.
  constructor; unfold owned; simpl; try done.
  - by rewrite <- (app_assoc l [id]) in H3.
  - intros x. rewrite (is_open_ext _ (pool s)), H4 by done. set_solver.
  - intros x Hx. rewrite (flag_ext _ (pool s)) by done. apply H5. set_solver.
  - rewrite length_app. simpl. lia.
  - intros _. rewrite H7 by done. rewrite i64_small; unfold is_i64; lia.
Qed.

Lemma receive_creating N s now p' :
  inv N s -> getIdleConn now (pool s) = (None, p') -> pool_closed (pool s) = false ->
  N < 2 ^ 62 ->
  (may_create p' = true -> inv N {| pool := add_active 1 p'; held := held s; creating := S (creating s) |}) /\
  inv N {| pool := p'; held := held s; creating := creating s |}.
Proof.
  intros HI Hg Hc Hm. pose proof (getIdleConn_spec now (pool s)) as HG. rewrite Hg in HG.
  destruct HI as [H1 H2 H3 H4 H5 H6 H7]. specialize (H7 Hc). destruct HG as [[El ->]|(l & id & El & ->)].
  - split; [|by constructor]. intros Hmay. unfold may_create in Hmay.
    apply orb_true_iff in Hmay as [Hz|Hlt]; bool_to_prop; [lia|].
    unfold owned in *. rewrite El in *. simpl in *.
    constructor; unfold owned; simpl; try done; rewrite ?El; simpl; try done; try lia.
    intros _. rewrite H7. rewrite i64_small; unfold is_i64; lia.
  - unfold owned in *. rewrite El, !length_app in *. simpl in *.
    assert (forall x, is_open (close_client id (set_idle l (pool s))) x = true <-> x ∈ l ++ held s) as Hop.
    { intros x. rewrite is_open_close_client, andb_true_iff, bool_decide_eq_true.
      rewrite (is_open_ext _ (pool s)), H4 by done.
      rewrite <- (app_assoc l [id]) in H3. apply NoDup_app in H3 as (_ & Hd & HH).
      apply NoDup_cons in HH as [HH _]. set_solver. }
    assert (NoDup (l ++ held s)) as Hnd.
    { rewrite <- (app_assoc l [id]) in H3. apply NoDup_app in H3 as (Ha & Hd & HH).
      apply NoDup_cons in HH as [_ HH]. apply NoDup_app. split_and!; try done. set_solver. }
    assert (forall x, x ∈ l ++ held s -> flag (close_client id (set_idle l (pool s))) x = false) as Hfl.
    { intros x Hx. rewrite flag_close_client, (flag_ext _ (pool s)) by done. apply H5. set_solver. }
    split; [intros Hmay|]; constructor; unfold owned; simpl; try done; rewrite ?length_app; try lia.
    intros _. rewrite H7, i64_small; unfold is_i64; lia.
Qed.

Lemma factory_inv N s now ok n :
  N < 2 ^ 62 -> inv N s -> creating s = S n ->
  inv N (receive (Get_factory now ok (pool s)) {| pool := pool s; held := held s; creating := n |}).
Proof.
  intros Hm [H1 H2 H3 H4 H5 H6 H7] Hn. unfold owned in *. rewrite Hn, length_app in H6. rewrite Hn in H7. destruct ok; simpl.
  - set (new := length (conns (pool s))).
    assert (new ∉ idle (pool s) ++ held s) as Hnew.
    { intros Hin%H4. unfold is_open in Hin. by rewrite (lookup_ge_None_2 _ new) in Hin. }
    assert (forall x, x <> new -> (conns (pool s) ++ [{| lastUsed := now; closed := false; gone := false |}]) !! x =
                                   conns (pool s) !! x) as Hlk.
    { intros x Hx. destruct (decide (x < new)%nat); [by rewrite lookup_app_l|].
      rewrite !lookup_ge_None_2; rewrite ?length_app; simpl; unfold new in *; lia || done. }
    assert ((conns (pool s) ++ [{| lastUsed := now; closed := false; gone := false |}]) !! new =
            Some {| lastUsed := now; closed := false; gone := false |}) as Hlk'.
    { apply list_lookup_middle. done. }
    constructor; unfold owned; simpl; try done.
    + rewrite <- Permutation_middle. by constructor.
    + intros x. unfold is_open. simpl. destruct (decide (x = new)) as [->|Hx].
      * rewrite Hlk'. set_solver.
      * rewrite Hlk by done. fold (is_open (pool s) x). rewrite H4. set_solver.
    + intros x Hx. unfold flag. simpl. destruct (decide (x = new)) as [->|Hne]; [by rewrite Hlk'|].
      rewrite Hlk by done. apply H5. set_solver.
    + rewrite length_app. simpl. lia.
    + intros Hc. rewrite H7 by done. lia.
  - constructor; unfold owned; simpl; try done; [rewrite length_app; lia|].
    intros Hc. rewrite H7, i64_small; unfold is_i64; rewrite ?length_app in *; lia || done.
Qed.

Lemma close_inv N s : inv N s ->
  inv N {| pool := Close (pool s); held := held s; creating := creating s |}.
Proof.
  intros HI. unfold Close. destruct (pool_closed (pool s)) eqn:Hc; [by destruct s|].
  destruct HI as [H1 H2 H3 H4 H5 H6 H7]. unfold owned in *.
  destruct (close_clients_spec (idle (pool s)) (pool s)) as (E1 & E2 & E3 & E4 & E5 & E6 & E7).
  apply NoDup_app in H3 as (Ha & Hd & Hb).
  constructor; unfold owned; simpl; try done; try congruence.
  - intros x. rewrite (is_open_ext _ (close_clients (idle (pool s)) (pool s))), E1 by done.
    rewrite andb_true_iff, bool_decide_eq_true, H4. set_solver.
  - intros x Hx. rewrite (flag_ext _ (close_clients (idle (pool s)) (pool s))), E2 by done. apply H5. set_solver.
  - rewrite length_app in H6. lia.
Qed.

(** Closing the idle connections that fail a test and keeping the others. *)
Lemma sift_inv N s (keep : nat -> bool) : inv N s ->
  inv N {| pool := set_idle (filter (fun id => keep id = true) (idle (pool s)))
                     (close_clients (filter (fun id => keep id = false) (idle (pool s))) (pool s));
           held := held s; creating := creating s |}.
Proof.
  intros [H1 H2 H3 H4 H5 H6 H7]. unfold owned in *.
  set (old := filter (fun id => keep id = false) (idle (pool s))).
  set (kept := filter (fun id => keep id = true) (idle (pool s))).
  destruct (close_clients_spec old (pool s)) as (E1 & E2 & E3 & E4 & E5 & E6 & E7).
  apply NoDup_app in H3 as (Ha & Hd & Hb).
  assert (forall x, x ∈ kept <-> keep x = true /\ x ∈ idle (pool s)) as Kx
    by (intros x; unfold kept; by rewrite list_elem_of_filter).
  assert (forall x, x ∈ old <-> keep x = false /\ x ∈ idle (pool s)) as Ox
    by (intros x; unfold old; by rewrite list_elem_of_filter).
  constructor; unfold owned; simpl; try done; try congruence.
  - apply NoDup_app. split_and!; [by apply NoDup_filter| |done]. intros x [_ Hx]%Kx. by apply Hd.
  - intros x. rewrite (is_open_ext _ (close_clients old (pool s))), E1 by done.
    rewrite andb_true_iff, bool_decide_eq_true, H4, !elem_of_app, Kx, Ox.
    specialize (Hd x). destruct (keep x); naive_solver.
  - intros x Hx. rewrite (flag_ext _ (close_clients old (pool s))), E2 by done. apply H5.
    rewrite elem_of_app in *. rewrite Kx in Hx. naive_solver.
  - pose proof (length_filter (fun id => keep id = true) (idle (pool s))).
    rewrite length_app in *. fold kept in H. lia.
  - rewrite E5, E7. done.
Qed.

Lemma clean_inv N s now : inv N s ->
  inv N {| pool := clean now (pool s); held := held s; creating := creating s |}.
Proof.
  intros HI. unfold clean. destruct (pool_closed (pool s)) eqn:Hc; [by destruct s|].
  case_bool; [|by destruct s]. apply (sift_inv N s (fresh now (pool s)) HI).
Qed.

(** A returned connection leaves its owner: it is closed, or it becomes idle. *)
Lemma NoDup_middle {A} (a l1 l2 : list A) x :
  NoDup (a ++ l1 ++ (x :: l2)) <-> x ∉ a ++ l1 ++ l2 /\ NoDup (a ++ l1 ++ l2).
Proof. rewrite !app_assoc, <- Permutation_middle. apply NoDup_cons. Qed.

Lemma flag_set now b p id x c : conns p !! id = Some c ->
  flag (set_conns (<[id := {| lastUsed := now; closed := b; gone := gone c |}]> (conns p)) p) x =
    (if decide (x = id) then b else flag p x) /\
  is_open (set_conns (<[id := {| lastUsed := now; closed := b; gone := gone c |}]> (conns p)) p) x = is_open p x.
Proof.
  intros Hc. unfold flag, is_open. simpl. case_decide as E.
  - subst. rewrite list_lookup_insert_eq by (by eapply lookup_lt_Some). by rewrite Hc.
  - by rewrite list_lookup_insert_ne.
Qed.

(** [PoolConn.Close] of an open handle is [Put] on it, except for its dates. *)
Lemma Close_conn_spec now id p : flag p id = false -> waitCount p = 0 -> pool_closed p = false ->
  exists q, (forall x, flag q x = (if decide (x = id) then false else flag p x)) /\
    (forall x, is_open q x = is_open p x) /\ opts q = opts p /\ idle q = idle p /\ waitCount q = 0 /\
    pool_closed q = false /\ active q = i64 (active p - 1) /\
    Close_conn now id p = (if (MaxIdle (opts q) >? 0) && (Z.of_nat (length (idle q)) <? MaxIdle (opts q))
                           then set_idle (idle q ++ [id]) q else close_client id q).
Proof.
  intros Hf Hw Hc. unfold flag in Hf. destruct (conns p !! id) as [c|] eqn:E; [|done].
  pose proof (lookup_lt_Some _ _ _ E) as Hlt.
  exists (set_conns (<[id := {| lastUsed := now; closed := false; gone := gone c |}]> (conns p)) (add_active (-1) p)).
  split_and!; try done.
  - intros x. rewrite (flag_ext _ (set_conns (<[id := {| lastUsed := now; closed := false; gone := gone c |}]> (conns p)) p))
      by done. apply (flag_set now false p id x c E).
  - intros x. rewrite (is_open_ext _ (set_conns (<[id := {| lastUsed := now; closed := false; gone := gone c |}]> (conns p)) p))
      by done. apply (flag_set now false p id x c E).
  - unfold Close_conn. rewrite E, Hf. unfold Put. simpl. rewrite Hc. simpl. rewrite Hw. simpl.
    by rewrite alter_insert_same.
Qed.

Lemma close_conn_inv N s now id l1 l2 : N < 2 ^ 62 -> inv N s -> held s = l1 ++ id :: l2 ->
  inv N {| pool := Close_conn now id (pool s); held := l1 ++ l2; creating := creating s |}.
Proof.
  intros Hm [H1 H2 H3 H4 H5 H6 H7] Hh. unfold owned in *. rewrite Hh in *.
  apply NoDup_middle in H3 as [Hni Hnd].
  assert (flag (pool s) id = false) as Hfl by (apply H5; set_solver).
  assert (forall x, x ∈ idle (pool s) ++ l1 ++ id :: l2 <-> x = id \/ x ∈ idle (pool s) ++ l1 ++ l2) as Hmem
    by set_solver.
  assert (forall x, x ∈ idle (pool s) ++ l1 ++ l2 -> x <> id) as Hne by set_solver.
  rewrite !length_app in H6. simpl in H6.
  destruct (pool_closed (pool s)) eqn:Hc.
  - unfold flag in Hfl. destruct (conns (pool s) !! id) as [c|] eqn:E; [|done].
    unfold Close_conn. rewrite E, Hfl. unfold Put. simpl. rewrite Hc.
    constructor; unfold owned; simpl; try done; try congruence.
    + intros x. rewrite is_open_close_client, andb_true_iff, bool_decide_eq_true.
      rewrite (proj2 (flag_set _ _ _ _ _ _ E)), H4, Hmem. naive_solver.
    + intros x Hx. rewrite flag_close_client, (proj1 (flag_set _ _ _ _ _ _ E)).
      rewrite decide_False by auto. apply H5, Hmem. auto.
    + rewrite !length_app. lia.
  - destruct (Close_conn_spec now id (pool s) Hfl H2 Hc) as (q & Q1 & Q2 & Q3 & Q4 & Q5 & Q6 & Q7 & ->).
    specialize (H7 eq_refl). rewrite length_app in H7. simpl in H7.
    case_bool; constructor; unfold owned; simpl; rewrite ?Q4; try done; try congruence.
    + rewrite <- app_assoc. simpl. rewrite <- Permutation_middle. by constructor.
    + intros x. rewrite (is_open_ext _ q), Q2, H4, Hmem by done. set_solver.
    + intros x Hx. rewrite (flag_ext _ q), Q1 by done. case_decide; [done|]. apply H5, Hmem. set_solver.
    + rewrite !length_app. simpl. lia.
    + intros _. rewrite Q7, H7, i64_small, length_app; unfold is_i64; lia.
    + intros x. rewrite is_open_close_client, Q2, andb_true_iff, bool_decide_eq_true, H4, Hmem. naive_solver.
    + intros x Hx. rewrite flag_close_client, Q1. case_decide; [done|]. apply H5, Hmem. auto.
    + rewrite !length_app. lia.
    + intros _. rewrite Q7, H7, i64_small, length_app; unfold is_i64; lia.
Qed.

Lemma step_inv N s s' :
  N < 2 ^ 62 -> inv N s -> step s s' -> inv N s'.
Proof.
  intros Hm HI Hs. destruct Hs as [now|now ok n Hn|now id l1 l2 Hh|now|].
  - unfold Get_first. destruct (pool_closed (pool s)) eqn:Hc; [by destruct s|].
    destruct (getIdleConn now (pool s)) as [[id|] p'] eqn:Hg; simpl.
    + by eapply receive_opened.
    + pose proof (receive_creating N s now p' HI Hg Hc Hm) as [A B].
      destruct (may_create p') eqn:Hmay; [by apply A|].
      destruct (inv_opts _ _ B) as [_ Hw]. simpl in Hw. rewrite Hw. done.
  - by apply factory_inv.
  - by apply close_conn_inv.
  - by apply clean_inv.
  - by apply close_inv.
Qed.

Lemma steps_inv N s s' : N < 2 ^ 62 -> rtc step s s' -> inv N s -> inv N s'.
Proof. intros Hm. induction 1 as [|s1 s2 s3 Hs _ IH]; [done|]. intros HI. apply IH. by eapply step_inv. Qed.

Lemma start_inv o N : 0 < MaxActive o <= N -> Wait o = false -> inv N (start o).
Proof. intros HN Hw. constructor; simpl; try done; try lia; [constructor|set_solver|set_solver]. Qed.

(** The open connections are the idle and the held ones. *)
Lemma inv_open_conns N s : inv N s -> open_conns (pool s) ≡ₚ idle (pool s) ++ held s.
Proof.
  intros [H1 H2 H3 H4 H5 H6 H7].
  apply NoDup_Permutation; [apply NoDup_filter, NoDup_seq|done|].
  intros x. unfold open_conns. rewrite list_elem_of_filter, H4, elem_of_seq. split; [by intros []|].
  intros Hx. split; [done|]. apply H4 in Hx. unfold is_open in Hx.
  destruct (conns (pool s) !! x) eqn:E; [|done]. apply lookup_lt_Some in E. lia.
Qed.

(** C5: connection safety. Whatever the clients of a pool that does not wait do, as
    long as each closes the connections it got once: at most [MaxActive]
    connections are open; no connection is held twice or held and idle; a held
    connection is open unless the pool was closed; and until then the active count
    is the number of connections in use or being created. *)
Theorem pool_safe (o : Options) (s : system)
  (Hmax : 0 < MaxActive o < 2 ^ 62) (Hwait : Wait o = false) (Hreach : rtc step (start o) s) :
  Z.of_nat (length (open_conns (pool s))) <= MaxActive o /\
  NoDup (idle (pool s) ++ held s) /\
  (forall id, id ∈ idle (pool s) ++ held s -> is_open (pool s) id = true) /\
  (pool_closed (pool s) = false -> active (pool s) = Z.of_nat (length (held s) + creating s)).
Proof.
  assert (inv (MaxActive o) s) as HI by (eapply steps_inv; [|done|apply start_inv]; done || lia).
  rewrite (inv_open_conns _ _ HI). destruct HI as [H1 H2 H3 H4 H5 H6 H7]. unfold owned in *.
  split_and!; try done; [lia|by intros id ?%H4].
Qed.

Definition two_conns : Options :=
  {| MaxIdle := 1; MaxActive := 2; IdleTimeout := 60; WaitTimeout := 0; Wait := false |}.

(** Two requests create connections, both give them back, and one is reused. *)
Definition example_run : system :=
  let s := start two_conns in
  let s := receive (Get_first 1 (pool s)) s in
  let s := receive (Get_factory 2 true (pool s)) {| pool := pool s; held := held s; creating := 0 |} in
  let s := receive (Get_first 3 (pool s)) s in
  let s := receive (Get_factory 4 true (pool s)) {| pool := pool s; held := held s; creating := 0 |} in
  {| pool := Close_conn 5 1 (pool s); held := [0%nat]; creating := 0 |}.

Lemma pool_safe_witness :
  Z.of_nat (length (open_conns (pool example_run))) <= 2 /\
  NoDup (idle (pool example_run) ++ held example_run) /\
  (forall id, id ∈ idle (pool example_run) ++ held example_run -> is_open (pool example_run) id = true) /\
  (pool_closed (pool example_run) = false ->
   active (pool example_run) = Z.of_nat (length (held example_run) + creating example_run)).
Proof.
  apply (pool_safe two_conns example_run); [split; reflexivity|reflexivity|].
  eapply rtc_l; [apply (step_get _ 1)|]. eapply rtc_l; [apply (step_factory _ 2 true 0); reflexivity|].
  eapply rtc_l; [apply (step_get _ 3)|]. eapply rtc_l; [apply (step_factory _ 4 true 0); reflexivity|].
  eapply rtc_l; [apply (step_close_conn _ 5 1%nat [] [0%nat]); reflexivity|]. apply rtc_refl.
Defined.

(** The [closed] flag does not stop a second [Close] of the same handle, since
    [Put] clears it: the connection becomes idle twice, the next two clients share
    it, and the active count is wrong by one. *)
Lemma double_close_shares :
  exists p p1 p2 p3 p4,
    Get_factory 1 true (Get_first 1 (NewPool {| MaxIdle := 5; MaxActive := 10; IdleTimeout := 0;
                                               WaitTimeout := 0; Wait := false |})).2 = (GotConn 0, p) /\
    p1 = Close_conn 2 0 p /\ p2 = Close_conn 3 0 p1 /\
    Get_first 4 p2 = (GotConn 0, p3) /\ Get_first 5 p3 = (GotConn 0, p4) /\ active p4 = 1.
Proof. repeat eexists. Qed.

(** A [Put] that finds waiting requests signals one of them, and the connection is
    neither kept idle nor closed: it stays open with no owner. *)
Lemma put_with_waiters_leaks now id p :
  pool_closed p = false -> 0 < waitCount p ->
  idle (Put now id p) = idle p /\ is_open (Put now id p) id = is_open p id.
Proof.
  intros Hc Hw. unfold Put. rewrite Hc. simpl. rewrite Z.gtb_ltb. destruct (Z.ltb_spec 0 (waitCount p)); [|lia].
  split; [done|]. unfold is_open. simpl. rewrite list_lookup_alter_eq. by destruct (conns p !! id).
Qed.

End PoolFacts.

(** * Theorems: the wait *)
Module WaitingFacts.
Import Waiting.

(** Threads that will unlock the mutex, and the one that will never do. *)
Definition unlocks_due (t : threads) : nat :=
  (match get_pc t with Releasing => 1 | _ => 0 end + match wait_pc t with Starting => 1 | _ => 0 end + inside t)%nat.

Definition excess (p : process) : Prop :=
  match p with
  | Fatal => True
  | Running t => (unlocks_due t + match wait_pc t with Holding => 1 | _ => 0 end)%nat =
                 S (if locked t then 1 else 0)
  end.

Lemma step_excess p q : step p q -> excess p -> excess q.
Proof.
  destruct 1 as [t E|t E|t E|t E E2|t E|t n E]; destruct t as [[|] [|] [| | |] m]; simpl in *; simplify_eq;
    unfold unlocks_due, unlock; simpl; try done; lia.
Qed.

Lemma steps_excess p q : rtc step p q -> excess p -> excess q.
Proof. induction 1 as [|p1 p2 p3 Hs _ IH]; [done|]. intros. apply IH. by eapply step_excess. Qed.

(** A request that waits for a connection destroys the pool's mutex. In every
    reachable state in which the request has left its critical section and its
    goroutine sleeps, either the process has died of unlocking an unlocked mutex,
    or other operations are inside critical sections without the protection of the
    mutex: one of them while it is unlocked, two while it is locked. In particular
    the process does not survive unless another operation holds the mutex at that
    very moment. *)
Theorem waiting_corrupts_mutex (t : threads) (Hreach : rtc step entered_wait (Running t))
  (Hget : get_pc t = Selecting) (Hwait : wait_pc t = Asleep) :
  inside t = (if locked t then 2 else 1)%nat.
Proof.
  pose proof (steps_excess _ _ Hreach eq_refl) as H. simpl in H. unfold unlocks_due in H.
  rewrite Hget, Hwait in H. destruct (locked t); lia.
Qed.

Definition two_inside : threads := {| locked := true; get_pc := Selecting; wait_pc := Asleep; inside := 2 |}.

(** Another operation locks after the first unlock, and a third after the second. *)
Lemma waiting_corrupts_mutex_witness : inside two_inside = (if locked two_inside then 2 else 1)%nat.
Proof.
  apply (waiting_corrupts_mutex two_inside); [|reflexivity|reflexivity].
  eapply rtc_l; [apply get_unlocks; reflexivity|]. eapply rtc_l; [apply other_lock; reflexivity|].
  eapply rtc_l; [apply cond_wait; reflexivity|]. eapply rtc_l; [apply other_lock; reflexivity|]. apply rtc_refl.
Defined.

(** When no other operation is at work, nothing but the death of the process is
    left to such a request. *)
Lemma waiting_alone_is_fatal t :
  rtc step entered_wait (Running t) -> get_pc t = Selecting -> wait_pc t = Asleep -> inside t <> 0%nat.
Proof.
  intros Hr Hg Hw. pose proof (steps_excess _ _ Hr eq_refl) as H. simpl in H. unfold unlocks_due in H.
  rewrite Hg, Hw in H. destruct (locked t); lia.
Qed.

End WaitingFacts.

(** * Theorems: the adaptive pool *)
Module AdaptivePoolFacts.
Import Pool PoolFacts AdaptivePool.

Section Facts.
Context `{GoImpl}.

Lemma new_limit_bounds o p n up : new_limit o p = Some (n, up) ->
  if up then MaxActive (opts p) < n <= MaxConnections o else MinConnections o <= n < MaxActive (opts p).
Proof.
  unfold new_limit. set (a := to_i64 _). set (b := to_i64 _). rewrite !Z.gtb_ltb.
  intros E. repeat case_bool; simplify_eq; bool_to_prop; lia.
Qed.

Lemma checkHealth_inv N g s : inv N s ->
  inv N {| pool := checkHealth_pool g (pool s); held := held s; creating := creating s |}.
Proof.
  intros HI. unfold checkHealth_pool. case_bool; [|].
  - destruct (filter _ _) eqn:E; [|done]. by destruct s.
  - destruct (close_clients_spec (filter (fun id => healthy g id = false) (idle (pool s))) (pool s))
      as (_ & _ & _ & -> & _). apply (sift_inv N s (healthy g) HI).
Qed.

(** The configured options never change; the limit stays between the smaller and
    the larger of its first value and the configured bounds. *)
Definition ainv (o : AdaptiveOptions) (N : Z) (s : asystem) : Prop :=
  inv N (base_of s) /\ aopts (apool s) = o /\
  Z.min (MinConnections o) (MaxActive (BaseOptions o)) <= MaxActive (opts (basePool (apool s))) /\
  forall n up, measured s = Some (n, up) -> Z.min (MinConnections o) (MaxActive (BaseOptions o)) <= n <= N.

Lemma count_Get_fields r ap : basePool (count_Get r ap) = basePool ap /\ aopts (count_Get r ap) = aopts ap.
Proof. by destruct r. Qed.

Lemma base_step_MaxActive s b : Pool.step s b -> MaxActive (opts (pool b)) = MaxActive (opts (pool s)).
Proof.
  assert (forall now p, opts (getIdleConn now p).2 = opts p) as Hg.
  { intros. unfold getIdleConn. destruct (last (idle p)); [|done]. by case_bool. }
  assert (forall now id p, opts (Put now id p) = opts p) as Hp.
  { intros. unfold Put. repeat case_bool; done. }
  destruct 1; simpl.
  - unfold Get_first. case_bool; [done|]. specialize (Hg now (pool s)).
    destruct (getIdleConn now (pool s)) as [[id|] p]; simpl in *; [by rewrite Hg|].
    repeat case_bool; simpl; by rewrite Hg.
  - by destruct ok.
  - unfold Close_conn. destruct (_ !! _); [|done]. case_bool; [done|]. by rewrite Hp.
  - unfold clean. case_bool; [done|]. case_bool; [|done].
    destruct (close_clients_spec (filter (fun id => fresh now (pool s) id = false) (idle (pool s))) (pool s))
      as (_ & _ & E & _). simpl. by rewrite E.
  - unfold Close. case_bool; [done|].
    destruct (close_clients_spec (idle (pool s)) (pool s)) as (_ & _ & E & _). simpl. by rewrite E.
Qed.

Lemma set_MaxActive_inv N n s : inv N s -> 0 < n <= N ->
  inv N {| pool := set_MaxActive n (pool s); held := held s; creating := creating s |}.
Proof. intros [H1 H2 H3 H4 H5 H6 H7] Hn. destruct H1. by constructor. Qed.

Lemma astep_inv o N s s' : MaxConnections o <= N < 2 ^ 62 -> 0 < MinConnections o ->
  0 < MaxActive (BaseOptions o) -> ainv o N s -> astep s s' -> ainv o N s'.
Proof.
  intros HN Hmin Hmax (HI & Ho & Hlo & Hme) Hs. pose proof (inv_opts _ _ HI) as [Hb0 _]. simpl in Hb0.
  destruct Hs as [b r Hb|g|now Hn|now n up Hn|ap Hc]; unfold ainv, base_of in *; simpl.
  - destruct (count_Get_fields r (with_base (pool b) (apool s))) as [-> ->]. simpl.
    pose proof (base_step_MaxActive _ _ Hb) as E. simpl in E. rewrite E. split_and!; try done.
    apply (step_inv N) in Hb; [by destruct b|lia|done].
  - split_and!; try done; [by apply (checkHealth_inv N g) in HI|].
    unfold checkHealth_pool. case_bool; simpl;
      by destruct (close_clients_spec (filter (fun id => healthy g id = false) (idle (basePool (apool s))))
        (basePool (apool s))) as (_ & _ & -> & _).
  - split_and!; try done. intros n up. unfold measure. rewrite Ho. case_bool; [done|]. intros E%new_limit_bounds. destruct up; lia.
  - specialize (Hme n up Hn). split_and!; try done; [|lia]. apply (set_MaxActive_inv N n) in HI; [done|lia].
  - unfold ClosePool in Hc. case_bool; simplify_eq/=. split_and!; try done; [by apply (close_inv N) in HI|].
    unfold Close. case_bool; [done|].
    destruct (close_clients_spec (idle (basePool (apool s))) (basePool (apool s))) as (_ & _ & E & _). simpl. by rewrite E.
Qed.

Lemma asteps_inv o N s s' : MaxConnections o <= N < 2 ^ 62 -> 0 < MinConnections o ->
  0 < MaxActive (BaseOptions o) -> rtc astep s s' -> ainv o N s -> ainv o N s'.
Proof.
  intros HN Hmin Hmax. induction 1 as [|s1 s2 s3 Hs _ IH]; [done|]. intros HI. apply IH. by eapply astep_inv.
Qed.

End Facts.


Definition small_adaptive : AdaptiveOptions :=
  {| BaseOptions := two_conns; HealthCheckInterval := 0; HealthCheckTimeout := 0; EnableAdaptive := true;
     LoadCheckInterval := 1; HighLoadThreshold := lit 8 10; LowLoadThreshold := lit 3 10;
     ScaleUpFactor := lit 15 10; ScaleDownFactor := lit 8 10; MinConnections := 1; MaxConnections := 3;
     ScaleCooldownPeriod := 5 |}.


End AdaptivePoolFacts.
