(* ===== verification/GoString.v ===== *)
(** The functions of Go's [strings] package that the access-control code uses, on
    strings of bytes, with the facts its proofs need. *)
From S2P Require Import Prelude.

#[global] Open Scope string_scope.
#[global] Open Scope list_scope.
#[global] Open Scope Z_scope.

(** [strings.HasPrefix], [strings.TrimPrefix], [strings.HasSuffix]. *)
Definition HasPrefix (s p : string) : bool := String.prefix p s.

Fixpoint drop_string (n : nat) (s : string) : string :=
  match n, s with
  | S n, String _ s => drop_string n s
  | _, _ => s
  end.

Definition TrimPrefix (s p : string) : string :=
  if HasPrefix s p then drop_string (String.length p) s else s.

Fixpoint HasSuffix (s suf : string) : bool :=
  bool_decide (s = suf) || match s with EmptyString => false | String _ s => HasSuffix s suf end.

(** [strings.Contains], [bytes.Contains] *)
Fixpoint Contains (s sub : string) : bool :=
  HasPrefix s sub || match s with EmptyString => false | String _ s => Contains s sub end.

(** The string before and after the first occurrence of a byte. *)
Fixpoint cut (c : ascii) (s : string) : option (string * string) :=
  match s with
  | EmptyString => None
  | String d s =>
      if Ascii.eqb d c then Some (EmptyString, s)
      else match cut c s with Some (a, b) => Some (String d a, b) | None => None end
  end.

(** [strings.SplitN(s, sep, 2)] for a one-byte separator. *)
Definition SplitN2 (s : string) (c : ascii) : list string :=
  match cut c s with Some (a, b) => [a; b] | None => [s] end.

(** [strings.Split(s, sep)] for a one-byte separator. *)
Fixpoint split_acc (c : ascii) (cur : string) (s : string) : list string :=
  match s with
  | EmptyString => [cur]
  | String d s => if Ascii.eqb d c then cur :: split_acc c EmptyString s else split_acc c (cur ++ String d EmptyString)%string s
  end.

Definition Split (s : string) (c : ascii) : list string := split_acc c EmptyString s.

(** [strings.Contains] for a one-byte string. *)
Definition contains_byte (c : ascii) (s : string) : bool :=
  match cut c s with Some _ => true | None => false end.

(** [strings.ToLower]: ASCII letters, and the two letters outside ASCII whose lower
    case is an ASCII letter (U+0130 and U+212A). Every other character becomes or
    stays one outside ASCII, so that comparing with an ASCII word is exact. *)
Definition lower_ascii (c : ascii) : ascii :=
  let n := nat_of_ascii c in
  if (65 <=? n)%nat && (n <=? 90)%nat then ascii_of_nat (n + 32) else c.

Fixpoint ToLower (s : string) : string :=
  match s with
  | String "196" (String "176" s) => String "i" (ToLower s)
  | String "226" (String "132" (String "170" s)) => String "k" (ToLower s)
  | String c s => String (lower_ascii c) (ToLower s)
  | EmptyString => EmptyString
  end.

(** The characters that [strings.TrimSpace] removes, in UTF-8. *)
Definition bytes (l : list nat) : string := foldr (fun n s => String (ascii_of_nat n) s) EmptyString l.

Definition space_chars : list string :=
  (bytes <$> [[9]; [10]; [11]; [12]; [13]; [32]; [194; 133]; [194; 160]; [225; 154; 128]; [226; 128; 168];
             [226; 128; 169]; [226; 128; 175]; [226; 129; 159]; [227; 128; 128]])%nat ++
  ((fun n => bytes [226; 128; n]%nat) <$> seq 128 11).

Fixpoint TrimLeft (fuel : nat) (s : string) : string :=
  match fuel with
  | O => s
  | S fuel => match find (fun c => HasPrefix s c) space_chars with
              | Some c => TrimLeft fuel (TrimPrefix s c)
              | None => s
              end
  end.

Definition TrimSuffix (s suf : string) : string :=
  if HasSuffix s suf then String.substring 0 (String.length s - String.length suf) s else s.

Fixpoint TrimRight (fuel : nat) (s : string) : string :=
  match fuel with
  | O => s
  | S fuel => match find (fun c => HasSuffix s c) space_chars with
              | Some c => TrimRight fuel (TrimSuffix s c)
              | None => s
              end
  end.

Definition TrimSpace (s : string) : string :=
  let s := TrimLeft (String.length s) s in TrimRight (String.length s) s.

(** The decimal digits of a natural number, [strconv.Itoa] of one that is not
    negative. *)
Definition digit (v : Z) : ascii := ascii_of_nat (48 + Z.to_nat v).

Fixpoint decimal (fuel : nat) (z : Z) (acc : string) : string :=
  match fuel with
  | O => acc
  | S fuel => let acc := String (digit (z mod 10)) acc in if z / 10 =? 0 then acc else decimal fuel (z / 10) acc
  end.

(** 64-bit integers have at most nineteen digits. *)
Definition itoa (z : Z) : string :=
  if z <? 0 then String "-" (decimal 20 (- z) EmptyString) else decimal 20 z EmptyString.

Fixpoint repeat_char (n : nat) (c : ascii) : string :=
  match n with O => EmptyString | S n => String c (repeat_char n c) end.

(** [fmt.Sprintf("%0*d", width, z)] for a [z] that is not negative. *)
Definition zero_padded (width : nat) (z : Z) : string :=
  (repeat_char (width - String.length (itoa z)) "0" ++ itoa z)%string.

(** [strings.ReplaceAll(s, " ", "")] and [strings.TrimRight(s, "=")]. *)
Fixpoint remove_char (c : ascii) (s : string) : string :=
  match s with
  | EmptyString => EmptyString
  | String d s => if Ascii.eqb d c then remove_char c s else String d (remove_char c s)
  end.

Fixpoint trim_right_char (c : ascii) (s : string) : string :=
  match s with
  | EmptyString => EmptyString
  | String d s' => match trim_right_char c s' with
                   | EmptyString => if Ascii.eqb d c then EmptyString else String d EmptyString
                   | t => String d t
                   end
  end.

(** [strings.ToUpper]: ASCII letters, and the two letters outside ASCII whose upper
    case is an ASCII letter (U+0131 and U+017F). *)
Definition upper_ascii (c : ascii) : ascii :=
  let n := nat_of_ascii c in
  if (97 <=? n)%nat && (n <=? 122)%nat then ascii_of_nat (n - 32) else c.

Fixpoint ToUpper (s : string) : string :=
  match s with
  | String "196" (String "177" s) => String "I" (ToUpper s)
  | String "197" (String "191" s) => String "S" (ToUpper s)
  | String c s => String (upper_ascii c) (ToUpper s)
  | EmptyString => EmptyString
  end.

(** * Lemmas *)

Lemma contains_byte_cons c d a : contains_byte c (String d a) = Ascii.eqb d c || contains_byte c a.
Proof. unfold contains_byte. simpl. destruct (Ascii.eqb d c); [done|]. by destruct (cut c a) as [[]|]. Qed.

Lemma cut_app c a b : contains_byte c a = false -> cut c (a ++ String c b)%string = Some (a, b).
Proof.
  unfold contains_byte. induction a as [|d a IH]; intros H; simpl in *; [by rewrite Ascii.eqb_refl|].
  destruct (Ascii.eqb d c); [done|]. destruct (cut c a) as [[? ?]|]; [done|]. by rewrite IH.
Qed.

Lemma cut_spec c s a b : cut c s = Some (a, b) -> s = (a ++ String c b)%string /\ contains_byte c a = false.
Proof.
  unfold contains_byte. revert a b. induction s as [|d s IH]; intros a b H; simpl in *; [done|].
  destruct (Ascii.eqb d c) eqn:E; [simplify_eq; apply Ascii.eqb_eq in E; by subst|].
  destruct (cut c s) as [[a' b']|]; [|done]. simplify_eq. destruct (IH a' b eq_refl) as [-> IH2].
  split; [done|]. simpl. rewrite E. by destruct (cut c a') as [[? ?]|].
Qed.

Lemma SplitN2_app c a b : contains_byte c a = false -> SplitN2 (a ++ String c b) c = [a; b].
Proof. intros H. unfold SplitN2. by rewrite cut_app. Qed.

Lemma SplitN2_none c s : contains_byte c s = false -> SplitN2 s c = [s].
Proof. unfold contains_byte, SplitN2. by destruct (cut c s). Qed.

Lemma prefix_app p s : String.prefix p (p ++ s) = true.
Proof. induction p as [|c p IH]; [by destruct s|]. simpl. by destruct (ascii_dec c c). Qed.

Lemma drop_string_app p s : drop_string (String.length p) (p ++ s) = s.
Proof. induction p as [|c p IH]; [by destruct s|]. done. Qed.

Lemma TrimPrefix_app p s : TrimPrefix (p ++ s) p = s.
Proof. unfold TrimPrefix, HasPrefix. by rewrite prefix_app, drop_string_app. Qed.

Lemma string_app_nil_r (s : string) : (s ++ "")%string = s.
Proof. induction s as [|c s IH]; [done|]. change (String c (s ++ EmptyString) = String c s). by f_equal. Qed.

Lemma string_app_assoc (a b c : string) : (a ++ (b ++ c))%string = ((a ++ b) ++ c)%string.
Proof. induction a as [|d a IH]; [done|]. change (String d (a ++ (b ++ c)) = String d ((a ++ b) ++ c)). by f_equal. Qed.

Lemma length_append a b : String.length (a ++ b) = (String.length a + String.length b)%nat.
Proof. induction a as [|c a IH]; [done|]. change (S (String.length (a ++ b)) = S (String.length a + String.length b)). by f_equal. Qed.

Lemma substring_app a b : String.substring 0 (String.length a) (a ++ b) = a.
Proof.
  induction a as [|c a IH]; [by destruct b|].
  change (String c (String.substring 0 (String.length a) (a ++ b)) = String c a). by f_equal.
Qed.

Lemma append_inj_prefix a a' b b' :
  String.length a = String.length a' -> (a ++ b)%string = (a' ++ b')%string -> a = a'.
Proof.
  revert a'. induction a as [|c a IH]; intros [|c' a'] Hl E; try done. injection E as -> E.
  f_equal. apply IH; [by injection Hl|done].
Qed.

Lemma split_acc_app c cur a s : contains_byte c a = false ->
  split_acc c cur (a ++ String c s) = (cur ++ a)%string :: split_acc c EmptyString s.
Proof.
  revert cur. induction a as [|d a IH]; intros cur H; [simpl; by rewrite Ascii.eqb_refl, string_app_nil_r|].
  rewrite contains_byte_cons in H. apply orb_false_iff in H as [H1 H2].
  simpl. rewrite H1, IH by done. by rewrite <- string_app_assoc.
Qed.

Lemma split_acc_last c cur a : contains_byte c a = false -> split_acc c cur a = [(cur ++ a)%string].
Proof.
  revert cur. induction a as [|d a IH]; intros cur H; [simpl; by rewrite string_app_nil_r|].
  rewrite contains_byte_cons in H. apply orb_false_iff in H as [H1 H2].
  simpl. rewrite H1, IH by done. by rewrite <- string_app_assoc.
Qed.

Lemma Split_app c a s : contains_byte c a = false -> Split (a ++ String c s) c = a :: Split s c.
Proof. intros H. unfold Split. by rewrite split_acc_app. Qed.

Lemma Split_none c a : contains_byte c a = false -> Split a c = [a].
Proof. intros H. unfold Split. by rewrite split_acc_last. Qed.

(** Every character of a string. *)
Fixpoint all_chars (P : ascii -> Prop) (s : string) : Prop :=
  match s with EmptyString => True | String c s => P c /\ all_chars P s end.

Definition is_digit (c : ascii) : Prop := (48 <= nat_of_ascii c <= 57)%nat.

Lemma all_chars_app P a b : all_chars P (a ++ b) <-> all_chars P a /\ all_chars P b.
Proof. induction a as [|c a IH]; [simpl; tauto|]. change (P c /\ all_chars P (a ++ b) <-> (P c /\ all_chars P a) /\ all_chars P b). tauto. Qed.

Lemma all_chars_repeat (P : ascii -> Prop) n c : P c -> all_chars P (repeat_char n c).
Proof. intros Hc. by induction n. Qed.

Lemma length_repeat_char n c : String.length (repeat_char n c) = n.
Proof. induction n; simpl; congruence. Qed.

Lemma digit_is_digit v : 0 <= v < 10 -> is_digit (digit v).
Proof.
  intros H. unfold is_digit, digit. rewrite nat_ascii_embedding by lia. lia.
Qed.

Lemma decimal_digits fuel : forall z acc, 0 <= z -> all_chars is_digit acc -> all_chars is_digit (decimal fuel z acc).
Proof.
  induction fuel as [|fuel IH]; intros z acc Hz Ha; [done|]. cbn [decimal].
  assert (Hd : all_chars is_digit (String (digit (z mod 10)) acc)).
  { split; [apply digit_is_digit, Z.mod_pos_bound; lia|done]. }
  case_bool; [done|]. apply IH; [apply Z.div_pos; lia|done].
Qed.

Lemma decimal_length fuel : forall z acc k, (0 < k <= fuel)%nat -> 0 <= z < 10 ^ Z.of_nat k ->
  (String.length (decimal fuel z acc) <= k + String.length acc)%nat.
Proof.
  induction fuel as [|fuel IH]; intros z acc k Hk Hz; [lia|]. cbn [decimal]. case_bool; bool_to_prop; [simpl; lia|].
  destruct (decide (k = 1%nat)) as [->|Hk1].
  { assert (z / 10 = 0) by (apply Z.div_small; lia). lia. }
  pose proof (IH (z / 10) (String (digit (z mod 10)) acc) (k - 1)%nat ltac:(lia)) as H. simpl String.length in H.
  assert (0 <= z / 10 < 10 ^ Z.of_nat (k - 1)); [|specialize (H ltac:(done)); lia].
  split; [apply Z.div_pos; lia|]. apply Z.div_lt_upper_bound; [lia|].
  rewrite <- Z.pow_succ_r by lia. replace (Z.succ (Z.of_nat (k - 1))) with (Z.of_nat k) by lia. lia.
Qed.

(** The number that digits stand for; [decimal] writes it. *)
Fixpoint number (s : string) (acc : Z) : Z :=
  match s with EmptyString => acc | String c s => number s (10 * acc + Z.of_nat (nat_of_ascii c - 48)) end.

Lemma digit_value v : 0 <= v < 10 -> Z.of_nat (nat_of_ascii (digit v) - 48) = v.
Proof. intros Hv. unfold digit. rewrite nat_ascii_embedding by lia. lia. Qed.

Lemma decimal_number fuel : forall z acc, 0 <= z < 10 ^ Z.of_nat fuel -> number (decimal fuel z acc) 0 = number acc z.
Proof.
  induction fuel as [|fuel IH]; intros z acc Hz; [by replace z with 0 by lia|]. cbn [decimal].
  assert (Hd : number (String (digit (z mod 10)) acc) (z / 10) = number acc z).
  { cbn [number]. rewrite digit_value by (apply Z.mod_pos_bound; lia). f_equal. symmetry. apply Z.div_mod. lia. }
  case_bool; bool_to_prop; [by rewrite <- Hd, Heqb|]. rewrite IH, Hd; [done|].
  split; [apply Z.div_pos; lia|]. apply Z.div_lt_upper_bound; [lia|]. rewrite <- Z.pow_succ_r by lia.
  replace (Z.succ (Z.of_nat fuel)) with (Z.of_nat (S fuel)) by lia. lia.
Qed.

Lemma itoa_inj a b : 0 <= a < 2 ^ 63 -> 0 <= b < 2 ^ 63 -> itoa a = itoa b -> a = b.
Proof.
  intros Ha Hb. unfold itoa. rewrite !(proj2 (Z.ltb_ge _ 0)) by lia. intros E.
  apply (f_equal (fun s => number s 0)) in E. by rewrite !decimal_number in E by lia.
Qed.

(** A padded number has exactly the width if it fits. *)
Lemma zero_padded_length w z : (0 < w <= 19)%nat -> 0 <= z < 10 ^ Z.of_nat w -> String.length (zero_padded w z) = w.
Proof.
  intros Hw Hz. unfold zero_padded, itoa. rewrite (proj2 (Z.ltb_ge z 0)) by lia.
  rewrite length_append, length_repeat_char.
  pose proof (decimal_length 20 z EmptyString w ltac:(lia) Hz) as H. change (String.length EmptyString) with 0%nat in H. lia.
Qed.

Lemma zero_padded_digits w z : 0 <= z -> all_chars is_digit (zero_padded w z).
Proof.
  intros Hz. unfold zero_padded, itoa. rewrite (proj2 (Z.ltb_ge z 0)) by lia. apply all_chars_app. split.
  - apply all_chars_repeat. unfold is_digit. change (nat_of_ascii "0") with 48%nat. lia.
  - by apply decimal_digits.
Qed.

Lemma HasSuffix_spec s suf : HasSuffix s suf = true -> exists p, s = (p ++ suf)%string.
Proof.
  induction s as [|c s IH]; cbn [HasSuffix]; intros [H|H]%orb_true_iff.
  - apply bool_decide_eq_true_1 in H as <-. by exists EmptyString.
  - done.
  - apply bool_decide_eq_true_1 in H as <-. by exists EmptyString.
  - destruct (IH H) as [p ->]. by exists (String c p).
Qed.

Lemma HasPrefix_spec s p : HasPrefix s p = true -> exists t, s = (p ++ t)%string.
Proof.
  unfold HasPrefix. revert s. induction p as [|c p IH]; intros s H; [by exists s|].
  destruct s as [|d s]; [done|]. simpl in H. destruct (ascii_dec c d) as [->|]; [|done].
  destruct (IH s H) as [t ->]. by exists t.
Qed.

(** The printable characters of ASCII but the space. *)
Definition graphic (c : ascii) : Prop := (33 <= nat_of_ascii c <= 126)%nat.

Lemma space_chars_not_graphic c : c ∈ space_chars -> exists d t, c = String d t /\ ~ graphic d.
Proof.
  assert (H : forallb (fun c => match c with
                                | String d _ => (nat_of_ascii d <? 33)%nat || (126 <? nat_of_ascii d)%nat
                                | EmptyString => false
                                end) space_chars = true) by (vm_compute; reflexivity).
  rewrite forallb_forall in H. intros Hc%list_elem_of_In. specialize (H c Hc). destruct c as [|d t]; [done|].
  exists d, t. split; [done|]. unfold graphic. apply orb_true_iff in H as [H|H]; apply Nat.ltb_lt in H; lia.
Qed.

(** A string of such characters has no space at its ends. *)
Lemma TrimSpace_graphic s : all_chars graphic s -> TrimSpace s = s.
Proof.
  intros Hs.
  assert (Hno : forall c, c ∈ space_chars -> forall a b, s <> (a ++ (c ++ b))%string).
  { intros c Hc a b ->. destruct (space_chars_not_graphic c Hc) as (d & t & -> & Hd).
    apply all_chars_app in Hs as [_ [Hs _]]. done. }
  assert (Hfind : forall P : string -> bool, (forall c, c ∈ space_chars -> P c = false) -> find P space_chars = None).
  { intros P HP. destruct (find P space_chars) as [c|] eqn:E; [|done]. apply find_some in E as [Hin Hp].
    apply list_elem_of_In in Hin. rewrite HP in Hp; done. }
  assert (Hl : forall n, TrimLeft n s = s).
  { intros [|n]; [done|]. cbn [TrimLeft]. rewrite Hfind; [done|]. intros c Hc. destruct (HasPrefix s c) eqn:E; [|done].
    apply HasPrefix_spec in E as [t E]. by destruct (Hno c Hc EmptyString t). }
  assert (Hr : forall n, TrimRight n s = s).
  { intros [|n]; [done|]. cbn [TrimRight]. rewrite Hfind; [done|]. intros c Hc. destruct (HasSuffix s c) eqn:E; [|done].
    apply HasSuffix_spec in E as [p E]. destruct (Hno c Hc p EmptyString). by rewrite string_app_nil_r. }
  unfold TrimSpace. by rewrite Hl, Hr.
Qed.

Lemma all_chars_impl (P Q : ascii -> Prop) s : (forall c, P c -> Q c) -> all_chars P s -> all_chars Q s.
Proof. intros Hi. induction s as [|c s IH]; [done|]. intros [Hc Hs]. split; [by apply Hi|by apply IH]. Qed.

Lemma TrimSpace_digits s : all_chars is_digit s -> TrimSpace s = s.
Proof. intros Hs. apply TrimSpace_graphic. revert Hs. apply all_chars_impl. intros c. unfold is_digit, graphic. lia. Qed.
