(* ===== verification/Rbac.v ===== *)
(** The role-based authorizer of [src/auth/authorization/rbac.go].

    Roles are shared objects: the authorizer maps a name to the address of a role,
    and whoever created or looked up a role may change it. *)
From S2P Require Import Prelude GoString.

(** * Data *)

Inductive rbac_error : Type :=
| ErrPermissionDenied | ErrRoleNotFound | ErrInvalidPermission | ErrNoMetadata | ErrNoCredentials.

Abbreviation Permission := string.
Abbreviation Resource := string.

Definition PermissionCreate : Permission := "create".
Definition PermissionRead : Permission := "read".
Definition PermissionUpdate : Permission := "update".
Definition PermissionDelete : Permission := "delete".
Definition PermissionAdmin : Permission := "admin".

Definition all_permissions : list Permission :=
  [PermissionCreate; PermissionRead; PermissionUpdate; PermissionDelete; PermissionAdmin].

(** [ParsePermission]: the switch tries the cases in their order. *)
Definition ParsePermission (s : string) : result rbac_error Permission :=
  match find (fun p => bool_decide (ToLower s = p)) all_permissions with
  | Some p => Ok p
  | None => Err ErrInvalidPermission
  end.

Record Role : Type := { Name : string; Description : string; Permissions : gmap string (list Permission) }.

Definition NewRole (name description : string) : Role :=
  {| Name := name; Description := description; Permissions := ∅ |}.

Definition set_Permissions (m : gmap string (list Permission)) (r : Role) : Role :=
  {| Name := Name r; Description := Description r; Permissions := m |}.

(** [r.HasPermission(resource, permission)] *)
Definition HasPermission (r : Role) (resource : Resource) (permission : Permission) : bool :=
  match Permissions r !! resource with
  | None => false
  | Some ps =>
      if existsb (fun p => bool_decide (p = PermissionAdmin)) ps then true
      else existsb (fun p => bool_decide (p = permission)) ps
  end.

Definition AddPermission (resource : Resource) (permission : Permission) (r : Role) : Role :=
  let ps := default [] (Permissions r !! resource) in
  if existsb (fun p => bool_decide (p = permission)) ps then r
  else set_Permissions (<[resource := ps ++ [permission]]> (Permissions r)) r.

Definition HasResource (r : Role) (resource : Resource) : bool :=
  match Permissions r !! "*" with
  | Some _ => true
  | None => match Permissions r !! resource with Some _ => true | None => false end
  end.

Definition RemovePermission (resource : Resource) (permission : Permission) (r : Role) : Role :=
  match Permissions r !! resource with
  | None => r
  | Some ps =>
      let ps := filter (fun p => p <> permission) ps in
      if (length ps =? 0)%nat then set_Permissions (delete resource (Permissions r)) r
      else set_Permissions (<[resource := ps]> (Permissions r)) r
  end.

(** * The authorizer *)

Record RBACAuthorizer : Type := {
  roles : gmap string nat; permissions : gmap string (list Permission); heap : gmap nat Role }.

Definition NewRBACAuthorizer : RBACAuthorizer := {| roles := ∅; permissions := ∅; heap := ∅ |}.

Definition set_roles (m : gmap string nat) (a : RBACAuthorizer) : RBACAuthorizer :=
  {| roles := m; permissions := permissions a; heap := heap a |}.
Definition set_method_permissions (m : gmap string (list Permission)) (a : RBACAuthorizer) : RBACAuthorizer :=
  {| roles := roles a; permissions := m; heap := heap a |}.

(** A caller's [role := NewRole(...)], and its later changes through the pointer. *)
Definition alloc (addr : nat) (r : Role) (a : RBACAuthorizer) : RBACAuthorizer :=
  {| roles := roles a; permissions := permissions a; heap := <[addr := r]> (heap a) |}.
Definition update (addr : nat) (f : Role -> Role) (a : RBACAuthorizer) : RBACAuthorizer :=
  {| roles := roles a; permissions := permissions a; heap := alter f addr (heap a) |}.

(** [AddRole(role)] for the role at an address. *)
Definition AddRole (addr : nat) (a : RBACAuthorizer) : RBACAuthorizer :=
  match heap a !! addr with
  | Some r => set_roles (<[Name r := addr]> (roles a)) a
  | None => a
  end.

Definition RemoveRole (name : string) (a : RBACAuthorizer) : RBACAuthorizer :=
  set_roles (delete name (roles a)) a.

Definition GetRole (name : string) (a : RBACAuthorizer) : result rbac_error nat :=
  match roles a !! name with Some addr => Ok addr | None => Err ErrRoleNotFound end.

Definition GetAllRoles (a : RBACAuthorizer) : list nat := snd <$> map_to_list (roles a).

(** [fmt.Sprintf("%s:%s", resource, permission)] *)
Definition perm_string (resource : Resource) (permission : Permission) : Permission :=
  (resource ++ String ":" permission)%string.

Definition append_permission (key : string) (p : Permission) (a : RBACAuthorizer) : RBACAuthorizer :=
  set_method_permissions (<[key := default [] (permissions a !! key) ++ [p]]> (permissions a)) a.

Definition MapMethodToPermission (method : string) (resource : Resource) (permission : Permission)
  (a : RBACAuthorizer) : RBACAuthorizer := append_permission method (perm_string resource permission) a.

(** [MapServiceToResource] appends the resource alone, without a permission. *)
Definition servicePattern (service : string) : string := ("/" ++ service ++ "/")%string.

Definition MapServiceToResource (service : string) (resource : Resource) (a : RBACAuthorizer) : RBACAuthorizer :=
  append_permission (servicePattern service) resource a.

Definition CreatePermission (resource : Resource) (permission : Permission) : Permission :=
  perm_string resource permission.

Definition ParseResourcePermission (perm : Permission) : result rbac_error (Resource * Permission) :=
  match SplitN2 perm ":" with
  | [r; p] => match ParsePermission p with Ok p => Ok (r, p) | Err e => Err e end
  | _ => Err ErrInvalidPermission
  end.

(** [getPermissionsForMethod]: [order] is the order in which the range statement
    visits the map. *)
Definition service_matches (method : string) (kv : string * list Permission) : bool :=
  HasSuffix kv.1 "/" && HasPrefix method kv.1.

Definition getPermissionsForMethod (order : list (string * list Permission)) (method : string) (a : RBACAuthorizer)
  : list Permission :=
  match permissions a !! method with
  | Some ps => ps
  | None => match find (service_matches method) order with Some (_, ps) => ps | None => [] end
  end.

(** [getRoleFromContext]: [md] is what the incoming metadata holds for the key
    [role], [None] without metadata. *)
Definition getRoleFromContext (md : option (list string)) (a : RBACAuthorizer) : result rbac_error nat :=
  match md with
  | None => Err ErrNoMetadata
  | Some [] => Err ErrNoCredentials
  | Some (name :: _) => GetRole name a
  end.

Definition role_has (a : RBACAuthorizer) (addr : nat) (resource : Resource) (permission : Permission) : bool :=
  match heap a !! addr with Some r => HasPermission r resource permission | None => false end.

(** The loop over the required permissions. *)
Definition grants (a : RBACAuthorizer) (addr : nat) (perm : Permission) : bool :=
  match ParseResourcePermission perm with
  | Err _ => false
  | Ok (resource, permission) => role_has a addr resource permission
  end.

(** The two interceptors: [Ok] runs the handler. *)
Definition intercept (order : list (string * list Permission)) (md : option (list string)) (method : string)
  (a : RBACAuthorizer) : result rbac_error unit :=
  match getRoleFromContext md a with
  | Err e => Err e
  | Ok addr =>
      let required := getPermissionsForMethod order method a in
      if (length required =? 0)%nat then Ok tt
      else if existsb (grants a addr) required then Ok tt else Err ErrPermissionDenied
  end.

Definition AuthorizeByRole (name : string) (resource : Resource) (permission : Permission) (a : RBACAuthorizer)
  : result rbac_error unit :=
  match GetRole name a with
  | Err e => Err e
  | Ok addr => if role_has a addr resource permission then Ok tt else Err ErrPermissionDenied
  end.

Definition AuthorizationMiddleware (resource : Resource) (permission : Permission) (md : option (list string))
  (a : RBACAuthorizer) : result rbac_error unit :=
  match getRoleFromContext md a with
  | Err e => Err e
  | Ok addr => if role_has a addr resource permission then Ok tt else Err ErrPermissionDenied
  end.

(** [SetupDefaultRoles]: three new roles, at the addresses given. *)
Definition adminRole : Role :=
  {| Name := "admin"; Description := "admin"; Permissions := {["*" := [PermissionAdmin]]} |}.
Definition readOnlyRole : Role :=
  {| Name := "readonly"; Description := "readonly"; Permissions := {["*" := [PermissionRead]]} |}.
Definition userRole : Role :=
  {| Name := "user"; Description := "user";
     Permissions := {["user" := [PermissionRead; PermissionUpdate];
                      "data" := [PermissionCreate; PermissionRead; PermissionUpdate; PermissionDelete]]} |}.

Definition SetupDefaultRoles (n1 n2 n3 : nat) (a : RBACAuthorizer) : RBACAuthorizer :=
  let a := AddRole n1 (alloc n1 adminRole a) in
  let a := AddRole n2 (alloc n2 readOnlyRole a) in
  AddRole n3 (alloc n3 userRole a).

(** * Theorems: permissions *)

Lemma existsb_eq (p : string) l : existsb (fun q => bool_decide (q = p)) l = true <-> p ∈ l.
Proof.
  rewrite existsb_exists. split.
  - intros (x & Hx & E). apply bool_decide_eq_true in E. subst. by apply list_elem_of_In.
  - intros H. exists p. rewrite bool_decide_eq_true. split; [by apply list_elem_of_In|done].
Qed.

(** The permissions that a role lists for a resource. *)
Definition perms (r : Role) (res : Resource) : list Permission := default [] (Permissions r !! res).

Lemma HasPermission_iff r res p :
  HasPermission r res p = true <-> p ∈ perms r res \/ PermissionAdmin ∈ perms r res.
Proof.
  unfold HasPermission, perms. destruct (Permissions r !! res) as [ps|]; simpl; [|set_solver].
  destruct (existsb _ _) eqn:E.
  - apply existsb_eq in E. naive_solver.
  - rewrite existsb_eq. split; [eauto|]. intros [H|H]; [done|]. apply existsb_eq in H. congruence.
Qed.

Lemma perms_insert res ps r res' :
  perms (set_Permissions (<[res := ps]> (Permissions r)) r) res' = if decide (res' = res) then ps else perms r res'.
Proof.
  unfold perms. simpl. case_decide; [subst; by rewrite lookup_insert_eq|by rewrite lookup_insert_ne].
Qed.

Lemma AddPermission_perms res p r res' q :
  q ∈ perms (AddPermission res p r) res' <-> q ∈ perms r res' \/ (res' = res /\ q = p).
Proof.
  unfold AddPermission. fold (perms r res). destruct (existsb _ _) eqn:E.
  - apply existsb_eq in E. naive_solver.
  - rewrite perms_insert. case_decide; [subst|naive_solver]. rewrite elem_of_app, list_elem_of_singleton. naive_solver.
Qed.

Lemma RemovePermission_perms res p r res' q :
  q ∈ perms (RemovePermission res p r) res' <-> q ∈ perms r res' /\ ~ (res' = res /\ q = p).
Proof.
  unfold RemovePermission. destruct (Permissions r !! res) as [ps|] eqn:E.
  - assert (perms r res = ps) as Eps by (unfold perms; by rewrite E).
    assert (forall x, x ∈ filter (fun p0 => p0 <> p) ps <-> x <> p /\ x ∈ ps) as Hf
      by (intros x; by rewrite list_elem_of_filter).
    destruct (length _ =? 0)%nat eqn:El.
    + apply Nat.eqb_eq, length_zero_iff_nil in El.
      unfold perms at 1. simpl. destruct (decide (res' = res)) as [->|Hne].
      * rewrite lookup_delete_eq. simpl. rewrite Eps. specialize (Hf q). rewrite El in Hf. set_solver.
      * rewrite lookup_delete_ne by done. unfold perms. naive_solver.
    + rewrite perms_insert. case_decide; [subst res'; rewrite Hf, Eps; naive_solver|naive_solver].
  - split; [|by intros []]. intros H. split; [done|]. intros [-> ->]. unfold perms in H. rewrite E in H. set_solver.
Qed.

(** Editing a role changes its rights exactly as asked: an added permission is
    granted on its resource and nothing else is (unless it is the administrator
    permission, which grants all on that resource); a removed one is no longer
    listed, so that it is granted only by an administrator permission that
    remains, and every other right is kept. *)
Theorem role_edits (r : Role) (res res' : Resource) (p p' : Permission) :
  (HasPermission (AddPermission res p r) res' p' = true <->
     HasPermission r res' p' = true \/ (res' = res /\ (p' = p \/ p = PermissionAdmin))) /\
  (HasPermission (RemovePermission res p r) res' p' = true <->
     (p' ∈ perms r res' /\ ~ (res' = res /\ p' = p)) \/
     (PermissionAdmin ∈ perms r res' /\ ~ (res' = res /\ p = PermissionAdmin))).
Proof. rewrite !HasPermission_iff, !AddPermission_perms, !RemovePermission_perms. naive_solver. Qed.

(** * Theorems: parsing *)

Lemma ParsePermission_known p : p ∈ all_permissions -> ParsePermission p = Ok p.
Proof. unfold all_permissions. rewrite !elem_of_cons. intros H. destruct_or?; subst; try done. set_solver. Qed.

(** [ParseResourcePermission] inverts [CreatePermission]: for a resource without
    a colon and a known permission the pair comes back; the permission that comes
    back from any parse is one of the known ones. *)
Theorem permission_roundtrip (res : Resource) (p : Permission)
  (Hres : contains_byte ":" res = false) (Hp : p ∈ all_permissions) :
  ParseResourcePermission (CreatePermission res p) = Ok (res, p) /\
  (forall s r q, ParseResourcePermission s = Ok (r, q) -> q ∈ all_permissions /\ contains_byte ":" r = false).
Proof.
  split.
  - unfold ParseResourcePermission, CreatePermission, perm_string. rewrite SplitN2_app by done.
    by rewrite ParsePermission_known.
  - intros s r q. unfold ParseResourcePermission, SplitN2, ParsePermission.
    destruct (cut ":" s) as [[a b]|] eqn:E; [|done]. destruct (find _ _) as [p'|] eqn:Ef; [|done].
    intros. simplify_eq. apply find_some in Ef as [Hin _]. apply cut_spec in E as [_ Hc].
    split; [by apply list_elem_of_In|done].
Qed.

Lemma permission_roundtrip_witness :
  ParseResourcePermission (CreatePermission "orders" "read") = Ok ("orders", "read") /\
  (forall s r q, ParseResourcePermission s = Ok (r, q) -> q ∈ all_permissions /\ contains_byte ":" r = false).
Proof.
  apply (permission_roundtrip "orders" "read"); [reflexivity|].
  apply list_elem_of_In. right. left. reflexivity.
Defined.

(** * Theorems: decisions *)

(** C36: an interceptor lets a request through exactly when the role that its
    metadata names is registered and either nothing is required for the method or
    the role grants, on the resource of some well-formed requirement, the
    permission it asks for; a request without metadata, without a role or with an
    unknown one is refused. *)
Theorem intercept_iff (order : list (string * list Permission)) (md : option (list string)) (method : string)
  (a : RBACAuthorizer) :
  intercept order md method a = Ok tt <->
  exists name rest addr, md = Some (name :: rest) /\ roles a !! name = Some addr /\
    (getPermissionsForMethod order method a = [] \/
     exists perm res p r, perm ∈ getPermissionsForMethod order method a /\
       ParseResourcePermission perm = Ok (res, p) /\ heap a !! addr = Some r /\
       (p ∈ perms r res \/ PermissionAdmin ∈ perms r res)).
Proof.
  unfold intercept, getRoleFromContext, GetRole. destruct md as [[|name rest]|]; try (split; [done|naive_solver]).
  destruct (roles a !! name) as [addr|] eqn:Er; [|split; [done|naive_solver]].
  set (req := getPermissionsForMethod order method a).
  assert (existsb (grants a addr) req = true <-> exists perm res p r, perm ∈ req /\
            ParseResourcePermission perm = Ok (res, p) /\ heap a !! addr = Some r /\
            (p ∈ perms r res \/ PermissionAdmin ∈ perms r res)) as Hg.
  { rewrite existsb_exists. unfold grants, role_has. split.
    - intros (perm & Hin & Hp). destruct (ParseResourcePermission perm) as [[res p]|] eqn:E; [|done].
      destruct (heap a !! addr) as [r|]; [|done]. apply HasPermission_iff in Hp.
      exists perm, res, p, r. by rewrite list_elem_of_In.
    - intros (perm & res & p & r & Hin & E & -> & Hp). exists perm. rewrite E, HasPermission_iff.
      by rewrite <- list_elem_of_In. }
  destruct (length req =? 0)%nat eqn:El.
  - apply Nat.eqb_eq, length_zero_iff_nil in El. split; [|done]. intros _. exists name, rest, addr. auto.
  - destruct (existsb (grants a addr) req).
    + split; [|done]. intros _. exists name, rest, addr. split_and!; try done. right. by apply Hg.
    + split; [done|]. intros (n & rs & ad & ? & ? & [E|H]); simplify_eq; [by rewrite E in El|].
      by apply Hg in H.
Qed.

(** A method mapped to one permission is guarded by it, end to end. *)
Lemma mapped_method_guarded order name rest addr r method res p a :
  permissions a !! method = None -> contains_byte ":" res = false -> p ∈ all_permissions ->
  roles a !! name = Some addr -> heap a !! addr = Some r ->
  intercept order (Some (name :: rest)) method (MapMethodToPermission method res p a) =
    if HasPermission r res p then Ok tt else Err ErrPermissionDenied.
Proof.
  intros Hm Hres Hp Hr Hh. unfold intercept, getRoleFromContext, GetRole, getPermissionsForMethod.
  simpl. rewrite Hr, lookup_insert_eq, Hm. simpl. rewrite orb_false_r. unfold grants, role_has. simpl.
  unfold ParseResourcePermission, perm_string. rewrite SplitN2_app, ParsePermission_known by done.
  by rewrite Hh.
Qed.

Lemma append_ne p m : m <> EmptyString -> p <> (p ++ m)%string.
Proof. intros Hm. induction p as [|c p IH]; [by destruct m|]. intros E. by injection E. Qed.

Lemma HasSuffix_app p s : HasSuffix (p ++ s) s = true.
Proof.
  induction p as [|c p IH].
  - change (HasSuffix s s = true). destruct s; cbn [HasSuffix]; by rewrite bool_decide_eq_true_2.
  - change (bool_decide (String c (p ++ s) = s) || HasSuffix (p ++ s) s = true). by rewrite IH, orb_true_r.
Qed.

Lemma servicePattern_suffix service : HasSuffix (servicePattern service) "/" = true.
Proof. unfold servicePattern. rewrite string_app_assoc. apply HasSuffix_app. Qed.

(** A service mapped to a resource with [MapServiceToResource] is closed to
    everyone: what is stored is the resource without a permission, which never
    parses, so that every method of the service that has no entry of its own is
    refused for every role, administrators included. *)
Theorem service_mapping_denies (order : list (string * list Permission)) (service m : string) (res : Resource)
  (a : RBACAuthorizer) (name : string) (rest : list string) (addr : nat)
  (Hfresh : permissions a = ∅) (Hres : contains_byte ":" res = false)
  (Hrole : roles a !! name = Some addr)
  (Hm : m <> "")
  (Horder : order ≡ₚ map_to_list (permissions (MapServiceToResource service res a))) :
  intercept order (Some (name :: rest)) (servicePattern service ++ m)%string (MapServiceToResource service res a) =
    Err ErrPermissionDenied.
Proof.
  unfold MapServiceToResource, append_permission in Horder. simpl in Horder.
  rewrite Hfresh, lookup_empty, insert_empty, map_to_list_singleton in Horder. simpl in Horder.
  symmetry in Horder. apply Permutation_length_1_inv in Horder as ->.
  unfold intercept, getRoleFromContext, GetRole, getPermissionsForMethod, MapServiceToResource, append_permission.
  simpl. rewrite Hrole, Hfresh, insert_empty, lookup_singleton_ne by by apply append_ne.
  unfold service_matches, HasPrefix. cbn [fst snd find]. rewrite prefix_app, servicePattern_suffix. simpl.
  unfold grants, ParseResourcePermission. by rewrite SplitN2_none.
Qed.

Definition one_role : RBACAuthorizer := AddRole 0 (alloc 0 adminRole NewRBACAuthorizer).

Lemma service_mapping_denies_witness :
  intercept [("/shop/", ["orders"])] (Some ["admin"]) (servicePattern "shop" ++ "List")%string
    (MapServiceToResource "shop" "orders" one_role) = Err ErrPermissionDenied.
Proof.
  apply (service_mapping_denies [("/shop/", ["orders"])] "shop" "List" "orders" one_role "admin" [] 0%nat);
    [reflexivity|reflexivity|vm_compute; reflexivity|discriminate|vm_compute; reflexivity].
Defined.

(** The administrator role of [SetupDefaultRoles] is not the "administrator with
    all permissions" of its description: its right is listed under the resource
    [*], which [HasPermission] does not treat as a wildcard, so that it is refused
    on every other resource; [HasResource] does treat it as one. *)
Lemma default_admin_denied res p :
  res <> "*" -> HasPermission adminRole res p = false /\ HasResource adminRole res = true.
Proof.
  intros H. unfold HasPermission, HasResource. simpl. rewrite lookup_singleton_ne by done.
  by rewrite lookup_singleton_eq.
Qed.
