(* ===== verification/Auth.v ===== *)
(** Authentication and authorization of requests: the data and interfaces of
    [src/auth/auth.go], the role-based authorizer of [src/auth/authorizer.go], the
    token extractors of [src/auth/extractor.go] and the interceptor of
    [src/auth/interceptor.go]. *)
From S2P Require Import Prelude GoString.

(** * Data and interfaces ([auth.go]) *)

Inductive auth_error : Type :=
| ErrInvalidCredentials | ErrInvalidToken | ErrTokenExpired | ErrPermissionDenied | ErrUserNotFound
| ErrAuthServiceUnavailable | ErrTokenRevoked | ErrNoTokenFound | ErrBadPrefix | ErrRoleNotFound
| ErrNilUser | ErrOther.

#[export] Instance auth_error_eq_dec : EqDecision auth_error.
Proof. solve_decision. Defined.

Record Credential : Type := { CUsername : string; Password : string; Extra : gmap string string }.

Record User : Type := {
  ID : string; Username : string; Roles : list string; Permissions : list string;
  Metadata : gmap string string }.

Record TokenInfo : Type := {
  AccessToken : string; RefreshToken : string; ExpiresAt : Z; TokenType : string; Scope : string }.

(** A request's context, as far as the authentication reads it: the values of its
    incoming metadata, [None] when it has none. *)
Definition context : Type := option (string -> list string).

Class TokenExtractor (X : Type) : Type := { Extract : X -> context -> result auth_error string }.

(** The random strings that a call draws; [None] is a failure of the generator. *)
Definition entropy : Type := nat -> option string.

(** A token manager has a state, reads the clock and draws random strings. *)
Class TokenManager (M : Type) : Type := {
  GenerateToken : entropy -> Z -> User -> Z -> M -> result auth_error TokenInfo * M;
  ValidateToken : Z -> string -> M -> result auth_error User * M;
  RefreshToken_m : entropy -> Z -> string -> M -> result auth_error TokenInfo * M;
  RevokeToken : Z -> string -> M -> result auth_error unit * M }.

Class Authorizer (A : Type) : Type := {
  CheckPermission : A -> option User -> string -> string -> result auth_error bool }.

(** * The role-based authorizer ([authorizer.go]) *)
Module RBAC.

Record RBACAuthorizer : Type := {
  rolePermissions : gmap string (gset string);
  resourceActionPermissions : gmap string (gmap string string) }.

Definition NewRBACAuthorizer : RBACAuthorizer :=
  {| rolePermissions := ∅; resourceActionPermissions := ∅ |}.

Definition set_roles (m : gmap string (gset string)) (a : RBACAuthorizer) : RBACAuthorizer :=
  {| rolePermissions := m; resourceActionPermissions := resourceActionPermissions a |}.

Definition AddRole (role : string) (permissions : list string) (a : RBACAuthorizer) : RBACAuthorizer :=
  set_roles (<[role := list_to_set permissions]> (rolePermissions a)) a.

Definition RemoveRole (role : string) (a : RBACAuthorizer) : RBACAuthorizer :=
  set_roles (delete role (rolePermissions a)) a.

Definition AddPermissionToRole (role permission : string) (a : RBACAuthorizer) : result auth_error RBACAuthorizer :=
  match rolePermissions a !! role with
  | None => Err ErrRoleNotFound
  | Some perms => Ok (set_roles (<[role := {[permission]} ∪ perms]> (rolePermissions a)) a)
  end.

Definition RemovePermissionFromRole (role permission : string) (a : RBACAuthorizer) : result auth_error RBACAuthorizer :=
  match rolePermissions a !! role with
  | None => Err ErrRoleNotFound
  | Some perms => Ok (set_roles (<[role := perms ∖ {[permission]}]> (rolePermissions a)) a)
  end.

Definition MapResourceAction (resource action permission : string) (a : RBACAuthorizer) : RBACAuthorizer :=
  let actionMap := default ∅ (resourceActionPermissions a !! resource) in
  {| rolePermissions := rolePermissions a;
     resourceActionPermissions := <[resource := <[action := permission]> actionMap]> (resourceActionPermissions a) |}.

Definition getPermissionForResourceAction (resource action : string) (a : RBACAuthorizer) : string :=
  let standard := (resource ++ ":" ++ action)%string in
  match resourceActionPermissions a !! resource with
  | None => standard
  | Some actionMap => default standard (actionMap !! action)
  end.

Definition check (a : RBACAuthorizer) (user : option User) (resource action : string) : result auth_error bool :=
  match user with
  | None => Err ErrNilUser
  | Some u =>
      let permission := getPermissionForResourceAction resource action a in
      if existsb (fun p => bool_decide (p = permission) || bool_decide (p = "*")) (Permissions u) then Ok true
      else Ok (existsb (fun role =>
                 match rolePermissions a !! role with
                 | None => false
                 | Some perms => bool_decide (permission ∈ perms) || bool_decide ("*" ∈ perms)
                 end) (Roles u))
  end.

#[global] Instance rbac_authorizer : Authorizer RBACAuthorizer := { CheckPermission := check }.

End RBAC.

(** * Token extractors ([extractor.go]) *)
Module Extractor.

Record MetadataTokenExtractor : Type := { key : string; prefix : string }.

Definition NewMetadataTokenExtractor (key prefix : string) : MetadataTokenExtractor :=
  {| key := if bool_decide (key = "") then "authorization" else key; prefix := prefix |}.

Definition extract_metadata (e : MetadataTokenExtractor) (ctx : context) : result auth_error string :=
  match ctx with
  | None => Err ErrNoTokenFound
  | Some md =>
      match md (key e) with
      | [] => Err ErrNoTokenFound
      | token :: _ =>
          if negb (bool_decide (prefix e = "")) && negb (HasPrefix token (prefix e)) then Err ErrBadPrefix
          else
            let token := if bool_decide (prefix e = "") then token else TrimPrefix token (prefix e) in
            let token := TrimSpace token in
            if bool_decide (token = "") then Err ErrNoTokenFound else Ok token
      end
  end.

#[global] Instance metadata_extractor : TokenExtractor MetadataTokenExtractor := { Extract := extract_metadata }.

Record ConstantTokenExtractor : Type := { const_token : string }.

#[global] Instance constant_extractor : TokenExtractor ConstantTokenExtractor := {
  Extract e _ := if bool_decide (const_token e = "") then Err ErrNoTokenFound else Ok (const_token e) }.

(** An extractor of any kind, as the interface value the composite holds. *)
Definition any_extractor : Type := context -> result auth_error string.

Record CompositeTokenExtractor : Type := { extractors : list any_extractor }.

Fixpoint extract_first (es : list any_extractor) (ctx : context) (lastErr : option auth_error) : result auth_error string :=
  match es with
  | [] => Err (default ErrNoTokenFound lastErr)
  | e :: es => match e ctx with Ok t => Ok t | Err err => extract_first es ctx (Some err) end
  end.

#[global] Instance composite_extractor : TokenExtractor CompositeTokenExtractor := {
  Extract e ctx := extract_first (extractors e) ctx None }.

End Extractor.

(** * The interceptor ([interceptor.go]) *)
Module Interceptor.

Record ResourceAction : Type := { Resource : string; Action : string }.

(** How a request ends: the handler runs, with the user in its context if the
    method is not public, or an error status is returned. *)
Inductive decision : Type :=
| Handled (user : option User)
| Unauthenticated (e : auth_error)
| Denied (e : auth_error).

Section Interceptor.
Context {X M A : Type} `{TokenExtractor X} `{TokenManager M} `{Authorizer A}.

(** The authorizer may be nil. *)
Record AuthInterceptor : Type := {
  tokenExtractor : X; authorizer : option A; publicMethods : gset string;
  methodResourceMap : gmap string ResourceAction }.

Definition NewAuthInterceptor (x : X) (a : option A) : AuthInterceptor :=
  {| tokenExtractor := x; authorizer := a; publicMethods := ∅; methodResourceMap := ∅ |}.

Definition AddPublicMethod (m : string) (i : AuthInterceptor) : AuthInterceptor :=
  {| tokenExtractor := tokenExtractor i; authorizer := authorizer i;
     publicMethods := {[m]} ∪ publicMethods i; methodResourceMap := methodResourceMap i |}.

Definition AddResourceMapping (m resource action : string) (i : AuthInterceptor) : AuthInterceptor :=
  {| tokenExtractor := tokenExtractor i; authorizer := authorizer i; publicMethods := publicMethods i;
     methodResourceMap := <[m := {| Resource := resource; Action := action |}]> (methodResourceMap i) |}.

Definition authenticate (i : AuthInterceptor) (now : Z) (ctx : context) (m : M) : result auth_error User * M :=
  match Extract (tokenExtractor i) ctx with
  | Err e => (Err e, m)
  | Ok token => ValidateToken now token m
  end.

(** The resource and the action of a method: the mapping, or the first two parts
    of the name between slashes. *)
Definition resource_action (i : AuthInterceptor) (fullMethodName : string) : option ResourceAction :=
  match methodResourceMap i !! fullMethodName with
  | Some ra => Some ra
  | None =>
      match Split fullMethodName "/" with
      | serviceName :: methodName :: _ => Some {| Resource := serviceName; Action := methodName |}
      | _ => None
      end
  end.

Definition authorize (i : AuthInterceptor) (user : User) (fullMethodName : string) : result auth_error unit :=
  match resource_action i fullMethodName with
  | None => Err ErrPermissionDenied
  | Some ra =>
      match authorizer i with
      | None => Ok tt
      | Some a =>
          match CheckPermission a (Some user) (Resource ra) (Action ra) with
          | Err e => Err e
          | Ok true => Ok tt
          | Ok false => Err ErrPermissionDenied
          end
      end
  end.

(** [UnaryServerInterceptor] and [StreamServerInterceptor]. *)
Definition intercept (i : AuthInterceptor) (now : Z) (ctx : context) (method : string) (m : M) : decision * M :=
  if bool_decide (method ∈ publicMethods i) then (Handled None, m)
  else match authenticate i now ctx m with
       | (Err e, m) => (Unauthenticated e, m)
       | (Ok user, m) =>
           match authorize i user method with
           | Err e => (Denied e, m)
           | Ok _ => (Handled (Some user), m)
           end
       end.

End Interceptor.
End Interceptor.

(** * Theorems: the role-based authorizer *)
Module RBACFacts.
Import RBAC.

(** The permissions that a user has, directly or through a role. *)
Definition has (a : RBACAuthorizer) (u : User) (p : string) : Prop :=
  p ∈ Permissions u \/ exists role perms, role ∈ Roles u /\ rolePermissions a !! role = Some perms /\ p ∈ perms.

(** A check answers yes exactly when the user has, directly or through one of
    the known roles, the permission mapped to the resource and action (by default
    [resource:action]) or the wildcard; it fails only for a missing user. *)
Theorem check_iff (a : RBACAuthorizer) (u : User) (resource action : string) :
  check a None resource action = Err ErrNilUser /\
  exists b, check a (Some u) resource action = Ok b /\
    (b = true <-> has a u (getPermissionForResourceAction resource action a) \/ has a u "*").
Proof.
  split; [done|]. unfold check. set (p := getPermissionForResourceAction resource action a).
  assert (existsb (fun q => bool_decide (q = p) || bool_decide (q = "*")) (Permissions u) = true <->
          p ∈ Permissions u \/ "*" ∈ Permissions u) as H1.
  { rewrite existsb_exists. setoid_rewrite <- list_elem_of_In. setoid_rewrite orb_true_iff.
    setoid_rewrite bool_decide_eq_true. naive_solver. }
  set (f := fun role : string => match rolePermissions a !! role with
                        | None => false
                        | Some perms => bool_decide (p ∈ perms) || bool_decide ("*" ∈ perms) end).
  assert (existsb f (Roles u) = true <->
          exists role perms, role ∈ Roles u /\ rolePermissions a !! role = Some perms /\ (p ∈ perms \/ "*" ∈ perms)) as H2.
  { rewrite existsb_exists. setoid_rewrite <- list_elem_of_In. unfold f. split.
    - intros (role & Hin & E). destruct (rolePermissions a !! role) as [perms|] eqn:Er; [|done].
      rewrite orb_true_iff, !bool_decide_eq_true in E. eauto 10.
    - intros (role & perms & Hin & E & Hp). exists role. rewrite E, orb_true_iff, !bool_decide_eq_true. done. }
  unfold has. destruct (existsb _ (Permissions u)) eqn:E.
  - exists true. split; [done|]. split; [|done]. intros _. destruct (proj1 H1 eq_refl); auto.
  - exists (existsb f (Roles u)). split; [done|]. rewrite H2.
    assert (~ (p ∈ Permissions u \/ "*" ∈ Permissions u)) by (rewrite <- H1; done). naive_solver.
Qed.

(** Taking a permission from a role takes it from its holders. *)
Lemma RemovePermission_effect role p a a' u :
  RemovePermissionFromRole role p a = Ok a' -> Roles u = [role] -> p ∉ Permissions u -> ~ has a' u p.
Proof.
  unfold RemovePermissionFromRole, has. destruct (rolePermissions a !! role) as [perms|]; [|done].
  intros [= <-] Hr Hp [H|(r & ps & Hin & E & H)]; [done|]. rewrite Hr in Hin.
  apply list_elem_of_singleton in Hin as ->. simpl in E. rewrite lookup_insert_eq in E. simplify_eq. set_solver.
Qed.

End RBACFacts.

(** * Theorems: the interceptor *)
Module InterceptorFacts.
Import Interceptor.

Section Facts.
Context {X M A : Type} `{TokenExtractor X} `{TokenManager M} `{Authorizer A}.

Lemma authorize_iff (i : @AuthInterceptor X A) u method :
  authorize i u method = Ok tt <->
  exists ra, resource_action i method = Some ra /\
    (authorizer i = None \/ exists a, authorizer i = Some a /\
       CheckPermission a (Some u) (Resource ra) (Action ra) = Ok true).
Proof.
  unfold authorize. destruct (resource_action i method) as [ra|]; [|split; [done|by intros (? & ? & _)]].
  destruct (authorizer i) as [a|]; [|split; [eauto|done]].
  destruct (CheckPermission a (Some u) (Resource ra) (Action ra)) as [[]|] eqn:E; split; intros HH; try done; eauto 6.
  all: destruct HH as (? & ? & [?|(? & ? & ?)]); simplify_eq; congruence.
Qed.
End Facts.

(** C6: no request reaches a handler without its checks: the handler of a method
    that is not public runs exactly when the extractor finds a token, the manager
    accepts it for a user, and the authorizer, if there is one, grants that user
    the method's resource and action; the handler then sees that user. A public
    method runs without a user. *)
Theorem intercept_sound {X M A : Type} `{TokenExtractor X} `{TokenManager M} `{Authorizer A}
  (i : @AuthInterceptor X A) (now : Z) (ctx : context) (method : string) (m : M) (u : option User) :
  (intercept i now ctx method m).1 = Handled u <->
  (method ∈ publicMethods i /\ u = None) \/
  (method ∉ publicMethods i /\ exists token user ra, u = Some user /\
     Extract (tokenExtractor i) ctx = Ok token /\ (ValidateToken now token m).1 = Ok user /\
     resource_action i method = Some ra /\
     (authorizer i = None \/ exists a, authorizer i = Some a /\
        CheckPermission a (Some user) (Resource ra) (Action ra) = Ok true)).
Proof.
  unfold intercept, authenticate. case_bool_decide as Hp; simpl.
  { split; [intros [= <-]; auto|]. by intros [[_ ->]|[? _]]. }
  destruct (Extract (tokenExtractor i) ctx) as [token|e] eqn:Ex; simpl;
    [|split; [done|]; intros [[? _]|(_ & t & us & r & _ & E & _)]; done].
  destruct (ValidateToken now token m) as [[user|e] m'] eqn:Ev; simpl;
    [|split; [done|]; intros [[? _]|(_ & t & us & r & _ & E & E' & _)]; simplify_eq; [done|by rewrite Ev in E']].
  pose proof (authorize_iff i user method) as Ha.
  destruct (authorize i user method) as [[]|e] eqn:Ea; simpl.
  - destruct Ha as [Ha _]. destruct (Ha eq_refl) as (ra & Hra & HA). split.
    + intros [= <-]. right. split; [done|]. exists token, user, ra. by rewrite Ev.
    + intros [[? _]|(_ & t & us & r & -> & ? & Ev' & _)]; [done|]. simplify_eq. rewrite Ev in Ev'. by simplify_eq/=.
  - split; [done|]. intros [[? _]|(_ & t & us & r & -> & ? & Ev' & Hr & HA)]; [done|]. simplify_eq.
    rewrite Ev in Ev'. simplify_eq/=. destruct Ha as [_ Ha]. exfalso.
    by discriminate Ha; exists r.
Qed.

(** Without a mapping, methods of one service cannot be told apart: a gRPC
    method name starts with a slash, so that the "service" of the default is the
    empty string and the "method" is the service; whatever the authorizer, two
    methods of a service get the same decision. *)
Theorem default_mapping_ignores_method {X M A : Type} `{TokenExtractor X} `{TokenManager M} `{Authorizer A}
  (i : @AuthInterceptor X A) (now : Z) (ctx : context) (service m1 m2 : string) (m : M)
  (Hs : contains_byte "/" service = false)
  (Hmap1 : methodResourceMap i !! ("/" ++ service ++ "/" ++ m1)%string = None)
  (Hmap2 : methodResourceMap i !! ("/" ++ service ++ "/" ++ m2)%string = None)
  (Hpub1 : ("/" ++ service ++ "/" ++ m1)%string ∉ publicMethods i)
  (Hpub2 : ("/" ++ service ++ "/" ++ m2)%string ∉ publicMethods i) :
  resource_action i ("/" ++ service ++ "/" ++ m1)%string = Some {| Resource := ""; Action := service |} /\
  intercept i now ctx ("/" ++ service ++ "/" ++ m1)%string m = intercept i now ctx ("/" ++ service ++ "/" ++ m2)%string m.
Proof.
  assert (forall mm, methodResourceMap i !! ("/" ++ service ++ "/" ++ mm)%string = None ->
            resource_action i ("/" ++ service ++ "/" ++ mm)%string = Some {| Resource := ""; Action := service |}) as Hra.
  { intros mm Hmm. unfold resource_action. rewrite Hmm.
    change ("/" ++ service ++ "/" ++ mm)%string with ("" ++ String "/" (service ++ String "/" mm))%string.
    rewrite !Split_app by done. done. }
  split; [by apply Hra|]. unfold intercept. rewrite !bool_decide_eq_false_2 by done.
  destruct (authenticate i now ctx m) as [[user|e] m']; [|done].
  unfold authorize. by rewrite !Hra.
Qed.

(** A manager that accepts every token for one user. *)
Definition anyone : User := {| ID := "1"; Username := "u"; Roles := []; Permissions := [":shop.Cart"]; Metadata := ∅ |}.

#[export] Instance accept_all : TokenManager unit := {
  GenerateToken _ _ _ _ s := (Err ErrOther, s);
  ValidateToken _ _ s := (Ok anyone, s);
  RefreshToken_m _ _ _ s := (Err ErrOther, s);
  RevokeToken _ _ s := (Ok tt, s) }.

Definition plain_interceptor : AuthInterceptor :=
  NewAuthInterceptor {| Extractor.const_token := "t" |} (Some RBAC.NewRBACAuthorizer).

Lemma default_mapping_ignores_method_witness :
  resource_action plain_interceptor "/shop.Cart/View" = Some {| Resource := ""; Action := "shop.Cart" |} /\
  intercept plain_interceptor 0 None "/shop.Cart/View" tt = intercept plain_interceptor 0 None "/shop.Cart/Delete" tt.
Proof.
  apply (default_mapping_ignores_method plain_interceptor 0 None "shop.Cart" "View" "Delete" tt);
    [reflexivity|reflexivity|reflexivity|apply not_elem_of_empty|apply not_elem_of_empty].
Defined.

End InterceptorFacts.

(** * Theorems: extractors *)
Module ExtractorFacts.
Import Extractor.

(** The composite gives the token of the first extractor that finds one, and the
    error of the last one when none does. *)
Lemma extract_first_spec es ctx last :
  match extract_first es ctx last with
  | Ok t => exists l e r, es = l ++ e :: r /\ e ctx = Ok t /\ Forall (fun e => exists err, e ctx = Err err) l
  | Err err => Forall (fun e => exists er, e ctx = Err er) es /\
      err = default ErrNoTokenFound (match reverse es with
                                     | [] => last
                                     | e :: _ => match e ctx with Err er => Some er | Ok _ => None end
                                     end)
  end.
Proof.
  revert last. induction es as [|e es IH]; intros last; [done|]. simpl. destruct (e ctx) as [t|er] eqn:E.
  - exists [], e, es. split_and!; [done|done|constructor].
  - specialize (IH (Some er)). destruct (extract_first es ctx (Some er)) as [t|err].
    + destruct IH as (l & e' & r & -> & E' & HF). exists (e :: l), e', r. split_and!; try done. constructor; eauto.
    + destruct IH as [HF ->]. split; [constructor; eauto|]. rewrite reverse_cons.
      destruct (reverse es) as [|x xs] eqn:Er; simpl; [by rewrite E|done].
Qed.

Lemma extract_metadata_nonempty e ctx t : extract_metadata e ctx = Ok t -> t <> "".
Proof.
  unfold extract_metadata. destruct ctx as [md|]; [|done]. destruct (md (key e)) as [|v vs]; [done|].
  case_bool; [done|]. cbv zeta. generalize (TrimSpace (if bool_decide (prefix e = "") then v else TrimPrefix v (prefix e))).
  intros tok. destruct (bool_decide (tok = "")) eqn:E; intros [= <-]. by apply bool_decide_eq_false in E.
Qed.

End ExtractorFacts.
