(* ===== verification/Token.v ===== *)
(** Tokens: the encryptors of [src/auth/token/encryptor.go], the in-memory store
    and blacklist of [store.go] and [blacklist.go], the manager of [token.go] and
    the service of [service.go].

    The store and the blacklist are interfaces, as in the code: the manager's
    theorems are proved against their laws, which the in-memory implementations
    satisfy. *)
From S2P Require Import Prelude GoString Auth.

(** * Claims and their encoding *)

Record TokenClaims : Type := {
  UserID : string; CUsername : string; CRoles : list string; CPermissions : list string;
  CMetadata : gmap string string; TokenID : string; IssuedAt : Z; CExpiresAt : Z; Issuer : string }.

(** [encoding/json] on claims and [base64.RawURLEncoding]. JSON gives back claims
    whose strings are valid UTF-8; the base64 alphabet has no dot. *)
Class Codec : Type := {
  marshal : TokenClaims -> option string;
  unmarshal : string -> option TokenClaims;
  b64 : string -> string;
  unb64 : string -> option string;
  representable : TokenClaims -> Prop;
  marshal_unmarshal c : representable c -> exists p, marshal c = Some p /\ unmarshal p = Some c;
  unb64_b64 s : unb64 (b64 s) = Some s;
  b64_no_dot s : contains_byte "." (b64 s) = false }.

(** * Encryptors *)
Module Encryptor.

(** [Encrypt] and [Verify] may draw nonces. *)
Class Encryptor (E : Type) : Type := {
  Encrypt : E -> (nat -> string) -> string -> option string;
  Verify : E -> (nat -> string) -> string -> string -> bool }.

(** What the manager needs: a signature that [Encrypt] made verifies. *)
Class EncryptorLaws (E : Type) `{Encryptor E} : Prop := {
  verify_encrypt e n n' d s : Encrypt e n d = Some s -> Verify e n' d s = true }.

Section Hmac.
(** HMAC-SHA256 of the Go library, as a function of the key and the data. *)
Variable hmac_sha256 : string -> string -> string.

Record HmacEncryptor : Type := { hkey : string }.

Definition NewHmacEncryptor (key : string) : option HmacEncryptor :=
  if bool_decide (key = "") then None else Some {| hkey := key |}.

#[global] Instance hmac_encryptor : Encryptor HmacEncryptor := {
  Encrypt e _ data := Some (hmac_sha256 (hkey e) data);
  Verify e _ data signature := bool_decide (hmac_sha256 (hkey e) data = signature) }.

#[global] Instance hmac_laws : EncryptorLaws HmacEncryptor.
Proof. constructor. intros e n n' d s [= <-]. simpl. by apply bool_decide_eq_true. Qed.
End Hmac.

Section Aes.
(** AES-GCM of the Go library: [seal key nonce data] and its inverse; the nonce has
    twelve bytes. *)
Variable seal : string -> string -> string -> string.
Variable open : string -> string -> string -> option string.
Hypothesis open_seal : forall k n d, open k n (seal k n d) = Some d.

Definition NonceSize : nat := 12.

Record AesEncryptor : Type := { akey : string }.

Definition NewAesEncryptor (key : string) : option AesEncryptor :=
  let n := String.length key in
  if negb (n =? 16)%nat && negb (n =? 24)%nat && negb (n =? 32)%nat then None else Some {| akey := key |}.

#[global] Instance aes_encryptor : Encryptor AesEncryptor := {
  Encrypt e nonces data := Some (nonces 0%nat ++ seal (akey e) (nonces 0%nat) data)%string;
  Verify e _ data signature :=
    if (String.length signature <? NonceSize)%nat then false
    else match open (akey e) (String.substring 0 NonceSize signature) (drop_string NonceSize signature) with
         | None => false
         | Some plaintext => bool_decide (plaintext = data)
         end }.

(** What AES-GCM encrypted it verifies, when its nonces have the right size. *)
Lemma aes_verify_encrypt e n n' d s :
  String.length (n 0%nat) = NonceSize -> Encrypt e n d = Some s -> Verify e n' d s = true.
Proof.
  intros Hn [= <-]. cbn [Verify aes_encryptor]. rewrite <- Hn, length_append, drop_string_app, substring_app, open_seal.
  destruct (Nat.ltb_spec (String.length (n 0%nat) + String.length (seal (akey e) (n 0%nat) d)) (String.length (n 0%nat))); [lia|].
  by apply bool_decide_eq_true.
Qed.
End Aes.

(** A composite holds encryptors of any kind; the [i]-th one draws its own nonces. *)
Record any_encryptor : Type := {
  any_encrypt : (nat -> string) -> string -> option string;
  any_verify : (nat -> string) -> string -> string -> bool }.

Definition pack {E : Type} `{Encryptor E} (e : E) : any_encryptor :=
  {| any_encrypt := Encrypt e; any_verify := Verify e |}.

Record CompositeEncryptor : Type := { encryptors : list any_encryptor }.

Fixpoint encrypt_all (es : list any_encryptor) (nonces : nat -> string) (data : string) : option string :=
  match es with
  | [] => Some data
  | e :: es =>
      match any_encrypt e nonces data with
      | None => None
      | Some data => encrypt_all es (fun n => nonces (S n)) data
      end
  end.

(** The loop that collects the differing bits finds none exactly for equal bytes. *)
Definition composite_verify (e : CompositeEncryptor) (nonces : nat -> string) (data signature : string) : bool :=
  match encryptors e with
  | [e] => any_verify e nonces data signature
  | es =>
      match encrypt_all es nonces data with
      | None => false
      | Some expected => bool_decide (expected = signature)
      end
  end.

#[global] Instance composite_encryptor : Encryptor CompositeEncryptor := {
  Encrypt e := encrypt_all (encryptors e);
  Verify := composite_verify }.

End Encryptor.

(** * Stores and blacklists *)
Module Store.

Record TokenData : Type := {
  DAccessToken : string; DRefreshToken : string; DUserID : string; DExpiresAt : Z; DTokenID : string;
  Revoked : bool; CreatedAt : Z }.

(** Every call may change the store's own state, also one that fails. *)
Class TokenStore (S : Type) : Type := {
  StoreToken : Z -> TokenData -> S -> result auth_error unit * S;
  GetToken : Z -> string -> S -> result auth_error TokenData * S;
  GetTokenByRefresh : Z -> string -> S -> result auth_error TokenData * S;
  RevokeStored : Z -> string -> S -> result auth_error unit * S;
  IsTokenValid : Z -> string -> S -> result auth_error bool * S;
  CleanupExpiredTokens : Z -> S -> result auth_error unit * S;
  GetUserByID : Z -> string -> S -> result auth_error User * S }.

Class TokenBlacklist (B : Type) : Type := {
  AddToBlacklist : Z -> string -> Z -> B -> result auth_error unit * B;
  IsBlacklisted : Z -> string -> B -> result auth_error bool * B;
  RemoveFromBlacklist : Z -> string -> B -> result auth_error unit * B;
  CleanupExpired : Z -> B -> result auth_error unit * B }.

(** What every store promises to the manager, also one whose calls may fail: a
    revoked token is dead, whatever happens except storing the same identifier
    again, and a dead one is not valid. *)
Class TokenStoreLaws (S : Type) `{TokenStore S} : Type := {
  dead : string -> S -> Prop;
  dead_invalid now id s : dead id s -> (IsTokenValid now id s).1 <> Ok true;
  revoke_dead now id s : (RevokeStored now id s).1 = Ok tt -> dead id (RevokeStored now id s).2;
  dead_revoke now id id' s : dead id s -> dead id (RevokeStored now id' s).2;
  dead_store now id d s : dead id s -> DTokenID d <> id -> dead id (StoreToken now d s).2;
  dead_cleanup now id s : dead id s -> dead id (CleanupExpiredTokens now s).2;
  dead_refresh now id r s : dead id s -> dead id (GetTokenByRefresh now r s).2;
  dead_valid now id id' s : dead id s -> dead id (IsTokenValid now id' s).2;
  dead_user now id u s : dead id s -> dead id (GetUserByID now u s).2 }.

(** What a store whose calls do not fail promises in addition: a token just stored
    is valid until the end of its last second, or until [slack] before that. *)
Class TokenStoreLive (S : Type) `{TokenStore S} : Type := {
  slack : Z;
  slack_nonneg : 0 <= slack;
  store_valid now now' d s s' :
    StoreToken now d s = (Ok tt, s') -> Revoked d = false -> DExpiresAt d * Second - now < 2 ^ 63 ->
    now <= now' -> now' + slack < (DExpiresAt d + 1) * Second ->
    (IsTokenValid now' (DTokenID d) s').1 = Ok true }.

(** ** In memory *)

Record InMemoryTokenStore : Type := {
  tokens : gmap string TokenData; refreshTokens : gmap string string; users : gmap string User }.

Definition NewInMemoryTokenStore : InMemoryTokenStore := {| tokens := ∅; refreshTokens := ∅; users := ∅ |}.

Definition set_created (now : Z) (d : TokenData) : TokenData :=
  {| DAccessToken := DAccessToken d; DRefreshToken := DRefreshToken d; DUserID := DUserID d;
     DExpiresAt := DExpiresAt d; DTokenID := DTokenID d; Revoked := Revoked d;
     CreatedAt := if CreatedAt d =? 0 then unix now else CreatedAt d |}.

Definition set_revoked (d : TokenData) : TokenData :=
  {| DAccessToken := DAccessToken d; DRefreshToken := DRefreshToken d; DUserID := DUserID d;
     DExpiresAt := DExpiresAt d; DTokenID := DTokenID d; Revoked := true; CreatedAt := CreatedAt d |}.

Definition drop_refresh (d : TokenData) (m : gmap string string) : gmap string string :=
  if bool_decide (DRefreshToken d = "") then m else delete (DRefreshToken d) m.

Definition store_token (now : Z) (d : TokenData) (s : InMemoryTokenStore) : InMemoryTokenStore :=
  {| tokens := <[DTokenID d := set_created now d]> (tokens s);
     refreshTokens := if bool_decide (DRefreshToken d = "") then refreshTokens s
                      else <[DRefreshToken d := DTokenID d]> (refreshTokens s);
     users := users s |}.

Definition get_by_refresh (r : string) (s : InMemoryTokenStore) : result auth_error TokenData :=
  match refreshTokens s !! r with
  | None => Err ErrOther
  | Some id => match tokens s !! id with None => Err ErrOther | Some d => Ok d end
  end.

Definition revoke_stored (id : string) (s : InMemoryTokenStore) : result auth_error unit * InMemoryTokenStore :=
  match tokens s !! id with
  | None => (Err ErrOther, s)
  | Some d => (Ok tt, {| tokens := <[id := set_revoked d]> (tokens s);
                         refreshTokens := drop_refresh d (refreshTokens s); users := users s |})
  end.

Definition is_token_valid (now : Z) (id : string) (s : InMemoryTokenStore) : bool :=
  match tokens s !! id with
  | None => false
  | Some d => if Revoked d then false else if DExpiresAt d <? unix now then false else true
  end.

(** The cleanup visits the tokens in the map's order, which does not matter: it
    deletes what is expired or revoked. *)
Definition stale (now : Z) (d : TokenData) : bool := (DExpiresAt d <? unix now) || Revoked d.

Definition cleanup_tokens (now : Z) (s : InMemoryTokenStore) : InMemoryTokenStore :=
  {| tokens := filter (fun kv => stale now kv.2 = false) (tokens s);
     refreshTokens := map_fold (fun _ d m => if stale now d then drop_refresh d m else m) (refreshTokens s) (tokens s);
     users := users s |}.

Definition StoreUser (u : User) (s : InMemoryTokenStore) : InMemoryTokenStore :=
  {| tokens := tokens s; refreshTokens := refreshTokens s; users := <[ID u := u]> (users s) |}.

#[global] Instance in_memory_store : TokenStore InMemoryTokenStore := {
  StoreToken now d s := (Ok tt, store_token now d s);
  GetToken _ id s := (match tokens s !! id with Some d => Ok d | None => Err ErrOther end, s);
  GetTokenByRefresh _ r s := (get_by_refresh r s, s);
  RevokeStored _ := revoke_stored;
  IsTokenValid now id s := (Ok (is_token_valid now id s), s);
  CleanupExpiredTokens now s := (Ok tt, cleanup_tokens now s);
  GetUserByID _ id s := (match users s !! id with Some u => Ok u | None => Err ErrUserNotFound end, s) }.

Record InMemoryBlacklist : Type := { blacklist : gmap string Z }.

Definition NewInMemoryBlacklist : InMemoryBlacklist := {| blacklist := ∅ |}.

Definition is_blacklisted (now : Z) (id : string) (b : InMemoryBlacklist) : bool * InMemoryBlacklist :=
  match blacklist b !! id with
  | None => (false, b)
  | Some expiryTime =>
      if expiryTime <? unix now then (false, {| blacklist := delete id (blacklist b) |}) else (true, b)
  end.

#[global] Instance in_memory_blacklist : TokenBlacklist InMemoryBlacklist := {
  AddToBlacklist now id expiration b := (Ok tt, {| blacklist := <[id := unix (now + expiration)]> (blacklist b) |});
  IsBlacklisted now id b := let '(r, b) := is_blacklisted now id b in (Ok r, b);
  RemoveFromBlacklist _ id b := (Ok tt, {| blacklist := delete id (blacklist b) |});
  CleanupExpired now b := (Ok tt, {| blacklist := filter (fun kv => unix now <= kv.2) (blacklist b) |}) }.

End Store.

(** * The manager *)
Module Manager.
Import Encryptor Store.

Section Manager.
Context `{Codec} {E S B : Type} `{Encryptor E} `{TokenStore S} `{TokenBlacklist B}.

Record CustomTokenManager : Type := {
  signingKey : string; defaultDuration : Z; issuer : string; encryptor : E; tokenStore : S; blacklist : B }.

(** [NewCustomTokenManager], once the absent parts of the configuration have been
    replaced by the in-memory ones. *)
Definition NewCustomTokenManager (key : string) (d : Z) (iss : string) (e : E) (s : S) (b : B) : option CustomTokenManager :=
  if bool_decide (key = "") then None
  else Some {| signingKey := key; defaultDuration := if d <=? 0 then Hour else d; issuer := iss;
               encryptor := e; tokenStore := s; blacklist := b |}.

Definition with_store (s : S) (m : CustomTokenManager) : CustomTokenManager :=
  {| signingKey := signingKey m; defaultDuration := defaultDuration m; issuer := issuer m;
     encryptor := encryptor m; tokenStore := s; blacklist := blacklist m |}.
Definition with_blacklist (b : B) (m : CustomTokenManager) : CustomTokenManager :=
  {| signingKey := signingKey m; defaultDuration := defaultDuration m; issuer := issuer m;
     encryptor := encryptor m; tokenStore := tokenStore m; blacklist := b |}.

(** The claims of a new token. *)
Definition claims_for (m : CustomTokenManager) (tokenID : string) (now expiresAt : Z) (user : User) : TokenClaims :=
  {| UserID := ID user; CUsername := Username user; CRoles := Roles user; CPermissions := Permissions user;
     CMetadata := Metadata user; TokenID := tokenID; IssuedAt := unix now; CExpiresAt := unix expiresAt;
     Issuer := issuer m |}.

Definition user_of (c : TokenClaims) : User :=
  {| ID := UserID c; Username := CUsername c; Roles := CRoles c; Permissions := CPermissions c;
     Metadata := CMetadata c |}.

(** [rnd 0] is the token's identifier, [rnd 1] the refresh token; [nonces] is what
    the encryptor draws. *)
Definition Generate (rnd : entropy) (nonces : nat -> string) (now : Z) (user : User) (duration : Z)
    (m : CustomTokenManager) : result auth_error TokenInfo * CustomTokenManager :=
  let duration := if duration <=? 0 then defaultDuration m else duration in
  match rnd 0%nat with
  | None => (Err ErrOther, m)
  | Some tokenID =>
      let expiresAt := now + duration in
      match marshal (claims_for m tokenID now expiresAt user) with
      | None => (Err ErrOther, m)
      | Some payload =>
          match Encrypt (encryptor m) nonces payload with
          | None => (Err ErrOther, m)
          | Some signature =>
              let token := (b64 payload ++ "." ++ b64 signature)%string in
              match rnd 1%nat with
              | None => (Err ErrOther, m)
              | Some refresh =>
                  match StoreToken now {| DAccessToken := token; DRefreshToken := refresh; DUserID := ID user;
                                          DExpiresAt := unix expiresAt; DTokenID := tokenID; Revoked := false;
                                          CreatedAt := 0 |} (tokenStore m) with
                  | (Err e, s) => (Err e, with_store s m)
                  | (Ok _, s) =>
                      (Ok {| AccessToken := token; RefreshToken := refresh; ExpiresAt := expiresAt;
                             TokenType := "Bearer"; Scope := "" |}, with_store s m)
                  end
              end
          end
      end
  end.

(** The payload and the signature of a token string. *)
Definition parse (tokenString : string) : option (string * string) :=
  match Split tokenString "." with
  | [a; b] => match unb64 a, unb64 b with Some p, Some s => Some (p, s) | _, _ => None end
  | _ => None
  end.

Definition Validate (nonces : nat -> string) (now : Z) (tokenString : string) (m : CustomTokenManager)
  : result auth_error User * CustomTokenManager :=
  if bool_decide (tokenString = "") then (Err ErrInvalidToken, m)
  else match parse tokenString with
       | None => (Err ErrInvalidToken, m)
       | Some (payload, signature) =>
           if negb (Verify (encryptor m) nonces payload signature) then (Err ErrInvalidToken, m)
           else match unmarshal payload with
                | None => (Err ErrInvalidToken, m)
                | Some claims =>
                    if CExpiresAt claims <? unix now then (Err ErrTokenExpired, m)
                    else match IsBlacklisted now (TokenID claims) (blacklist m) with
                         | (Err e, b) => (Err e, with_blacklist b m)
                         | (Ok true, b) => (Err ErrTokenRevoked, with_blacklist b m)
                         | (Ok false, b) =>
                             let m := with_blacklist b m in
                             match IsTokenValid now (TokenID claims) (tokenStore m) with
                             | (Err e, s) => (Err e, with_store s m)
                             | (Ok false, s) => (Err ErrTokenRevoked, with_store s m)
                             | (Ok true, s) => (Ok (user_of claims), with_store s m)
                             end
                         end
                end
       end.

(** [RefreshToken]; [now] is the clock when it checks, [later] when it generates. *)
Definition Refresh (rnd : entropy) (nonces : nat -> string) (now later : Z) (refreshToken : string)
    (m : CustomTokenManager) : result auth_error TokenInfo * CustomTokenManager :=
  if bool_decide (refreshToken = "") then (Err ErrInvalidToken, m)
  else match GetTokenByRefresh now refreshToken (tokenStore m) with
       | (Err e, s) => (Err e, with_store s m)
       | (Ok d, s) =>
           let m := with_store s m in
           if DExpiresAt d <? unix now then (Err ErrTokenExpired, m)
           else match IsBlacklisted now (DTokenID d) (blacklist m) with
                | (Err e, b) => (Err e, with_blacklist b m)
                | (Ok true, b) => (Err ErrTokenRevoked, with_blacklist b m)
                | (Ok false, b) =>
                    let m := with_blacklist b m in
                    match RevokeStored now (DTokenID d) (tokenStore m) with
                    | (Err e, s) => (Err e, with_store s m)
                    | (Ok _, s) =>
                        let m := with_store s m in
                        let timeUntilExpiry := i64 (i64 (DExpiresAt d - unix now) * Second) in
                        match AddToBlacklist now (DTokenID d) timeUntilExpiry (blacklist m) with
                        | (Err e, b) => (Err e, with_blacklist b m)
                        | (Ok _, b) =>
                            let m := with_blacklist b m in
                            match GetUserByID now (DUserID d) (tokenStore m) with
                            | (Err e, s) => (Err e, with_store s m)
                            | (Ok user, s) => Generate rnd nonces later user (defaultDuration m) (with_store s m)
                            end
                        end
                    end
                end
       end.

(** [RevokeToken]: the signature is not looked at. *)
Definition Revoke (now : Z) (tokenString : string) (m : CustomTokenManager)
  : result auth_error unit * CustomTokenManager :=
  match Split tokenString "." with
  | [a; _] =>
      match unb64 a with
      | None => (Err ErrInvalidToken, m)
      | Some payload =>
          match unmarshal payload with
          | None => (Err ErrInvalidToken, m)
          | Some claims =>
              match RevokeStored now (TokenID claims) (tokenStore m) with
              | (Err e, s) => (Err e, with_store s m)
              | (Ok _, s) =>
                  let m := with_store s m in
                  let t := i64 (i64 (CExpiresAt claims - unix now) * Second) in
                  let t := if t <=? 0 then Hour * 24 else t in
                  match AddToBlacklist now (TokenID claims) t (blacklist m) with
                  | (Err e, b) => (Err e, with_blacklist b m)
                  | (Ok _, b) => (Ok tt, with_blacklist b m)
                  end
              end
          end
      end
  | _ => (Err ErrInvalidToken, m)
  end.

Definition Cleanup (now : Z) (m : CustomTokenManager) : result auth_error unit * CustomTokenManager :=
  match CleanupExpiredTokens now (tokenStore m) with
  | (Err e, s) => (Err e, with_store s m)
  | (Ok _, s) =>
      let m := with_store s m in
      match CleanupExpired now (blacklist m) with
      | (Err e, b) => (Err e, with_blacklist b m)
      | (Ok _, b) => (Ok tt, with_blacklist b m)
      end
  end.

(** The manager as the interface [auth.TokenManager]; the encryptor's nonces are
    the strings after the first two that a call draws. *)
Definition nonces_of (rnd : entropy) : nat -> string := fun n => default "" (rnd (2 + n)%nat).

#[global] Instance custom_token_manager : TokenManager CustomTokenManager := {
  GenerateToken rnd := Generate rnd (nonces_of rnd);
  ValidateToken := Validate (fun _ => "");
  RefreshToken_m rnd now := Refresh rnd (nonces_of rnd) now now;
  RevokeToken := Revoke }.

(** Any later call, where no new token gets the identifier [id]. *)
Inductive later (id : string) (m : CustomTokenManager) : CustomTokenManager -> Prop :=
| later_generate rnd n now u d : rnd 0%nat <> Some id -> later id m (Generate rnd n now u d m).2
| later_validate n now t : later id m (Validate n now t m).2
| later_refresh rnd n now now' r : rnd 0%nat <> Some id -> later id m (Refresh rnd n now now' r m).2
| later_revoke now t : later id m (Revoke now t m).2
| later_cleanup now : later id m (Cleanup now m).2.

End Manager.
End Manager.

(** * The service *)
Module Service.

Record TokenServiceOptions : Type := {
  AccessTokenDuration : Z; RefreshTokenDuration : Z; EnableRefreshTokenRotation : bool;
  EnableTokenRevocation : bool; SType : string }.

Section Service.
Context `{Codec} {M X A : Type} `{TokenManager M} `{TokenExtractor X} `{Authorizer A}.

Record TokenService : Type := {
  tokenManager : M; authenticator : string -> string -> result auth_error User;
  authorizer : option A; extractor : X; options : TokenServiceOptions }.

Definition NewTokenService (m : M) (auth : string -> string -> result auth_error User) (x : X)
    (o : TokenServiceOptions) : TokenService :=
  {| tokenManager := m; authenticator := auth; authorizer := None; extractor := x;
     options := {| AccessTokenDuration := if AccessTokenDuration o <=? 0 then Hour else AccessTokenDuration o;
                   RefreshTokenDuration := if RefreshTokenDuration o <=? 0 then Hour * 24 * 7 else RefreshTokenDuration o;
                   EnableRefreshTokenRotation := EnableRefreshTokenRotation o;
                   EnableTokenRevocation := EnableTokenRevocation o;
                   SType := if bool_decide (SType o = "") then "Bearer" else SType o |} |}.

Definition set_manager (m : M) (s : TokenService) : TokenService :=
  {| tokenManager := m; authenticator := authenticator s; authorizer := authorizer s; extractor := extractor s;
     options := options s |}.

Definition SetAuthorizer (a : A) (s : TokenService) : TokenService :=
  {| tokenManager := tokenManager s; authenticator := authenticator s; authorizer := Some a;
     extractor := extractor s; options := options s |}.

Definition Login (rnd : entropy) (now : Z) (username password : string) (s : TokenService)
  : result auth_error TokenInfo * TokenService :=
  match authenticator s username password with
  | Err e => (Err e, s)
  | Ok user =>
      let '(r, m) := GenerateToken rnd now user (AccessTokenDuration (options s)) (tokenManager s) in
      (r, set_manager m s)
  end.

Definition SRefresh (rnd : entropy) (now : Z) (refreshToken : string) (s : TokenService)
  : result auth_error TokenInfo * TokenService :=
  if bool_decide (refreshToken = "") then (Err ErrInvalidToken, s)
  else let '(r, m) := RefreshToken_m rnd now refreshToken (tokenManager s) in (r, set_manager m s).

Definition SValidate (now : Z) (ctx : context) (s : TokenService) : result auth_error User * TokenService :=
  match Extract (extractor s) ctx with
  | Err e => (Err e, s)
  | Ok token => let '(r, m) := ValidateToken now token (tokenManager s) in (r, set_manager m s)
  end.

Definition Logout (now : Z) (ctx : context) (s : TokenService) : result auth_error unit * TokenService :=
  if negb (EnableTokenRevocation (options s)) then (Ok tt, s)
  else match Extract (extractor s) ctx with
       | Err e => (Err e, s)
       | Ok token => let '(r, m) := RevokeToken now token (tokenManager s) in (r, set_manager m s)
       end.

Definition SCheckPermission (now : Z) (ctx : context) (resource action : string) (s : TokenService)
  : result auth_error unit * TokenService :=
  match authorizer s with
  | None => (Err ErrOther, s)
  | Some a =>
      match SValidate now ctx s with
      | (Err e, s) => (Err e, s)
      | (Ok user, s) =>
          (match CheckPermission a (Some user) resource action with
           | Err e => Err e
           | Ok true => Ok tt
           | Ok false => Err ErrPermissionDenied
           end, s)
      end
  end.

(** [GenerateAPIKey]: [key] is the random key (or a failure); the token generated
    for the key's user is dropped. *)
Definition GenerateAPIKey (rnd : entropy) (key : option string) (now : Z) (userID : string) (duration : Z)
    (s : TokenService) : result auth_error string * TokenService :=
  let user := {| ID := userID; Username := "api-key"; Roles := ["api"]; Permissions := []; Metadata := ∅ |} in
  let duration := if duration <=? 0 then AccessTokenDuration (options s) else duration in
  match key with
  | None => (Err ErrOther, s)
  | Some k =>
      let apiKey := b64 k in
      match GenerateToken rnd now user duration (tokenManager s) with
      | (Err e, m) => (Err e, set_manager m s)
      | (Ok _, m) => (Ok apiKey, set_manager m s)
      end
  end.

End Service.
End Service.

(** * Theorems: encryptors *)
Module EncryptorFacts.
Import Encryptor.

Lemma encrypt_all_app es e n d :
  encrypt_all (es ++ [e]) n d =
    match encrypt_all es n d with Some x => any_encrypt e (fun k => n (length es + k)%nat) x | None => None end.
Proof.
  revert n d. induction es as [|e1 es IH]; intros n d; simpl; [by destruct (any_encrypt e n d)|].
  destruct (any_encrypt e1 n d) as [x|]; [|done]. by rewrite IH.
Qed.

Lemma composite_verify_many es n d s : length es <> 1%nat ->
  composite_verify {| encryptors := es |} n d s =
    match encrypt_all es n d with None => false | Some x => bool_decide (x = s) end.
Proof. by destruct es as [|e [|e' es]]. Qed.

(** Encryptors that draw no nonces compose to one that verifies what it made. *)
Lemma composite_deterministic (es : list any_encryptor) n n' d s :
  length es <> 1%nat -> Forall (fun e => forall k k' x, any_encrypt e k x = any_encrypt e k' x) es ->
  encrypt_all es n d = Some s -> composite_verify {| encryptors := es |} n' d s = true.
Proof.
  intros Hl HF E. assert (encrypt_all es n' d = encrypt_all es n d) as E'.
  { clear -HF. revert n n' d. induction HF as [|e es He _ IH]; intros n n' d; [done|]. simpl.
    rewrite (He n' n d). destruct (any_encrypt e n d); [apply IH|done]. }
  rewrite composite_verify_many, E', E by done. by apply bool_decide_eq_true.
Qed.

(** A composite whose last encryptor is AES-GCM rejects its own signatures: the
    verification encrypts again, with a new nonce, and compares. *)
Lemma composite_aes_rejects seal open es k n n' d s :
  es <> [] -> String.length (n (length es)) = NonceSize -> String.length (n' (length es)) = NonceSize ->
  n (length es) <> n' (length es) ->
  encrypt_all (es ++ [@pack _ (aes_encryptor seal open) {| akey := k |}]) n d = Some s ->
  composite_verify {| encryptors := es ++ [@pack _ (aes_encryptor seal open) {| akey := k |}] |} n' d s = false.
Proof.
  intros Hes Hn Hn' Hne E. rewrite composite_verify_many
    by (rewrite length_app; destruct es; simpl; [done|lia]).
  rewrite encrypt_all_app in E |- *. destruct (encrypt_all es n d) as [x|]; [|done].
  destruct (encrypt_all es n' d) as [y|]; [|done]. simpl in *. rewrite Nat.add_0_r in *. injection E as <-.
  apply bool_decide_eq_false. intros Heq. apply Hne. symmetry. eapply append_inj_prefix, Heq. congruence.
Qed.

End EncryptorFacts.

(** * Theorems: the in-memory store *)
Module StoreFacts.
Import Store.

#[global, refine] Instance in_memory_laws : TokenStoreLaws InMemoryTokenStore := {
  dead id s := match tokens s !! id with None => True | Some d => Revoked d = true end }.
Proof.
  - intros now id s Hd. simpl in *. unfold is_token_valid. destruct (tokens s !! id) as [d|]; [by rewrite Hd|done].
  - intros now id s H. simpl in *. unfold revoke_stored in *. destruct (tokens s !! id); [|done]. simpl.
    by rewrite lookup_insert_eq.
  - intros now id id' s Hd. simpl in *. unfold revoke_stored. destruct (tokens s !! id') as [d'|]; [|done]. simpl.
    destruct (decide (id = id')) as [->|Hne]; [by rewrite lookup_insert_eq|by rewrite lookup_insert_ne].
  - intros now id d s Hd Hne. simpl. by rewrite lookup_insert_ne.
  - intros now id s Hd. simpl. rewrite map_lookup_filter. destruct (tokens s !! id) as [d|]; [|done].
    simpl in *. case_guard; [done|done].
  - done.
  - done.
  - done.
Defined.

#[global, refine] Instance in_memory_live : TokenStoreLive InMemoryTokenStore := { slack := 0 }.
Proof.
  - done.
  - intros now now' d s s' [= <-] Hr _ _ Hexp. simpl. unfold is_token_valid. simpl. rewrite lookup_insert_eq. simpl.
    rewrite Hr. apply unix_le_iff in Hexp. destruct (Z.ltb_spec (DExpiresAt d) (unix now')); [|done].
    rewrite Z.add_0_r in Hexp. lia.
Defined.

(** Cleaning up changes no answer: the tokens it removes were already invalid. *)
Lemma cleanup_keeps_answers now now' id s :
  unix now <= unix now' -> is_token_valid now' id (cleanup_tokens now s) = is_token_valid now' id s.
Proof.
  intros Ht. unfold is_token_valid, cleanup_tokens. simpl. rewrite map_lookup_filter.
  destruct (tokens s !! id) as [d|]; [|done]. simpl. case_guard as E; simpl; [done|].
  unfold stale in E. destruct (Revoked d); [done|]. rewrite orb_false_r in E.
  destruct (Z.ltb_spec (DExpiresAt d) (unix now)); [|done]. destruct (Z.ltb_spec (DExpiresAt d) (unix now')); [done|lia].
Qed.

End StoreFacts.

(** * Theorems: the manager *)
Module ManagerFacts.
Import Encryptor Store Manager.

Section Facts.
Context `{Codec} {E S B : Type} `{Encryptor E} `{TokenStore S} `{TokenBlacklist B}.

(** The identifier that a token string carries. *)
Definition carries (t id : string) : Prop :=
  exists payload signature c, parse t = Some (payload, signature) /\ unmarshal payload = Some c /\ TokenID c = id.

Lemma Validate_iff n now t (m : @CustomTokenManager E S B) u :
  (Validate n now t m).1 = Ok u <->
  t <> "" /\ exists payload signature c, parse t = Some (payload, signature) /\
    Verify (encryptor m) n payload signature = true /\ unmarshal payload = Some c /\
    unix now <= CExpiresAt c /\ (IsBlacklisted now (TokenID c) (blacklist m)).1 = Ok false /\
    (IsTokenValid now (TokenID c) (tokenStore m)).1 = Ok true /\ u = user_of c.
Proof.
  unfold Validate. case_bool_decide as Et; [split; [done|by intros []]|].
  destruct (parse t) as [[p sg]|]; [|split; [done|by intros (_ & ? & ? & ? & ? & _)]].
  destruct (Verify (encryptor m) n p sg) eqn:Ev; simpl;
    [|split; [done|]; intros (_ & ? & ? & ? & ? & ? & _); simplify_eq; congruence].
  destruct (unmarshal p) as [c|] eqn:Eu;
    [|split; [done|]; intros (_ & ? & ? & ? & ? & ? & ? & _); simplify_eq; congruence].
  assert (forall p' sg' c', Some (p, sg) = Some (p', sg') -> unmarshal p' = Some c' -> c' = c) as Hsame.
  { intros p' sg' c' [= <- <-] E'. congruence. }
  destruct (Z.ltb_spec (CExpiresAt c) (unix now)) as [Hlt|Hle].
  { split; [done|]. intros (_ & p' & sg' & c' & E1 & _ & E2 & E3 & _). rewrite (Hsame _ _ _ E1 E2) in E3. lia. }
  destruct (IsBlacklisted now (TokenID c) (blacklist m)) as [rb b] eqn:Eb.
  destruct (decide (rb = Ok false)) as [->|Hrb].
  - cbn [tokenStore with_blacklist]. destruct (IsTokenValid now (TokenID c) (tokenStore m)) as [[[|]|e] s] eqn:Es; simpl.
    + split.
      * intros [= <-]. split; [done|]. exists p, sg, c. by rewrite Eb, Es.
      * intros (_ & p' & sg' & c' & E1 & _ & E2 & _ & _ & _ & ->). by rewrite (Hsame _ _ _ E1 E2).
    + split; [done|]. intros (_ & p' & sg' & c' & E1 & _ & E2 & _ & _ & E3 & _).
      by rewrite (Hsame _ _ _ E1 E2), Es in E3.
    + split; [done|]. intros (_ & p' & sg' & c' & E1 & _ & E2 & _ & _ & E3 & _).
      by rewrite (Hsame _ _ _ E1 E2), Es in E3.
  - split; [by destruct rb as [[|]|]|]. intros (_ & p' & sg' & c' & E1 & _ & E2 & _ & E3 & _).
    rewrite (Hsame _ _ _ E1 E2), Eb in E3. done.
Qed.

Lemma parse_token p s : parse (b64 p ++ "." ++ b64 s)%string = Some (p, s).
Proof.
  unfold parse. change (b64 p ++ "." ++ b64 s)%string with (b64 p ++ String "." (b64 s))%string.
  rewrite Split_app, Split_none by apply b64_no_dot. by rewrite !unb64_b64.
Qed.

Lemma token_not_empty (a b : string) : (a ++ "." ++ b)%string <> "".
Proof. by destruct a. Qed.

Context `{!EncryptorLaws E} `{!TokenStoreLaws S}.

(** A dead identifier stays dead through every later call. *)
Lemma Generate_dead id rnd n now u d (m : @CustomTokenManager E S B) :
  rnd 0%nat <> Some id -> dead id (tokenStore m) -> dead id (tokenStore (Generate rnd n now u d m).2).
Proof.
  intros Hne Hd. unfold Generate. destruct (rnd 0%nat) as [tid|]; [|done].
  destruct (marshal _) as [p|]; [|done]. destruct (Encrypt _ _ p) as [s|]; [|done].
  destruct (rnd 1%nat) as [r|]; [|done].
  match goal with |- context [StoreToken now ?x _] => pose proof (dead_store now id x _ Hd) as Hs end.
  destruct (StoreToken _ _ _) as [[|] st]; apply Hs; simpl; congruence.
Qed.

Lemma Validate_dead id n now t (m : @CustomTokenManager E S B) :
  dead id (tokenStore m) -> dead id (tokenStore (Validate n now t m).2).
Proof.
  intros Hd. unfold Validate. case_bool_decide; [done|]. destruct (parse t) as [[p sg]|]; [|done].
  destruct (negb _); [done|]. destruct (unmarshal p) as [c|]; [|done]. destruct (_ <? _); [done|].
  destruct (IsBlacklisted _ _ _) as [[[|]|] b]; try done. simpl.
  pose proof (dead_valid now id (TokenID c) _ Hd) as Hv. by destruct (IsTokenValid _ _ _) as [[[|]|] s].
Qed.

Lemma Refresh_dead id rnd n now now' r (m : @CustomTokenManager E S B) :
  rnd 0%nat <> Some id -> dead id (tokenStore m) -> dead id (tokenStore (Refresh rnd n now now' r m).2).
Proof.
  intros Hne Hd. unfold Refresh. case_bool_decide; [done|]. pose proof (dead_refresh now id r _ Hd) as H1'.
  destruct (GetTokenByRefresh _ _ _) as [[d|] s]; [|done]. simpl in H1'. destruct (_ <? _); [done|].
  destruct (IsBlacklisted _ _ _) as [[[|]|] b]; try done. simpl.
  pose proof (dead_revoke now id (DTokenID d) _ H1') as H2'.
  destruct (RevokeStored _ _ _) as [[|] s2]; [|done]. simpl in *.
  destruct (AddToBlacklist _ _ _ _) as [[|] b']; [|done]. simpl.
  pose proof (dead_user now id (DUserID d) _ H2') as H3'.
  destruct (GetUserByID _ _ _) as [[|] s3]; [|done]. by apply Generate_dead.
Qed.

Lemma Revoke_keeps_dead id now t (m : @CustomTokenManager E S B) :
  dead id (tokenStore m) -> dead id (tokenStore (Revoke now t m).2).
Proof.
  intros Hd. unfold Revoke. destruct (Split t ".") as [|a [|b [|]]]; try done. destruct (unb64 a) as [p|]; [|done].
  destruct (unmarshal p) as [c|]; [|done]. pose proof (dead_revoke now id (TokenID c) _ Hd) as Hd'.
  destruct (RevokeStored _ _ _) as [[|] s]; [|done]. simpl in *. by destruct (AddToBlacklist _ _ _ _) as [[|] b'].
Qed.

Lemma later_dead id (m m' : @CustomTokenManager E S B) : later id m m' -> dead id (tokenStore m) -> dead id (tokenStore m').
Proof.
  intros Hl Hd. destruct Hl; [by apply Generate_dead|by apply Validate_dead|by apply Refresh_dead|by apply Revoke_keeps_dead|].
  unfold Cleanup. pose proof (dead_cleanup now id _ Hd) as Hd'. destruct (CleanupExpiredTokens _ _) as [[|] s]; [|done].
  simpl. by destruct (CleanupExpired _ _) as [[|] b].
Qed.

Lemma laters_dead id (m m' : @CustomTokenManager E S B) : rtc (later id) m m' -> dead id (tokenStore m) -> dead id (tokenStore m').
Proof. induction 1 as [|m1 m2 m3 Hl _ IH]; [done|]. intros Hd. apply IH. by eapply later_dead. Qed.

Lemma Revoke_dead now t (m m' : @CustomTokenManager E S B) id : carries t id -> Revoke now t m = (Ok tt, m') -> dead id (tokenStore m').
Proof.
  intros (p & sg & c & Hp & Hc & <-) HR. unfold Revoke, parse in *.
  destruct (Split t ".") as [|a [|b [|]]]; try done. destruct (unb64 a) as [p'|]; [|done].
  destruct (unb64 b); [|done]. simplify_eq. rewrite Hc in HR.
  pose proof (revoke_dead now (TokenID c) (tokenStore m)) as Hd.
  destruct (RevokeStored _ _ _) as [[[]|] s]; [|done]. simpl in *.
  destruct (AddToBlacklist _ _ _ _) as [[|] b']; simplify_eq. by apply Hd.
Qed.

End Facts.

(** C2: revocation is final: once a token has been revoked, no token that carries
    its identifier is accepted again, at any time and after any sequence of later
    calls (new tokens, refreshes, validations, other revocations, clean-ups of the
    store and of the blacklist, the expiry of its blacklist entry included), as
    long as no new token is given the same identifier. *)
Theorem revoked_forever `{Codec} {E S B : Type} `{Encryptor E} `{TokenBlacklist B} `{TokenStoreLaws S}
  (now : Z) (t id : string) (m m1 m2 : @CustomTokenManager E S B)
  (Hid : carries t id) (Hrevoke : Revoke now t m = (Ok tt, m1)) (Hlater : rtc (later id) m1 m2)
  (n : nat -> string) (now' : Z) (t' : string) (u : User) (Hid' : carries t' id) :
  (Validate n now' t' m2).1 <> Ok u.
Proof.
  rewrite Validate_iff. intros (_ & p & sg & c & Hp & _ & Hc & _ & _ & Hv & _).
  destruct Hid' as (p' & sg' & c' & Hp' & Hc' & Hid'). rewrite Hp in Hp'. simplify_eq.
  pose proof (laters_dead _ _ _ Hlater (Revoke_dead _ _ _ _ _ Hid Hrevoke)) as Hd.
  by apply (dead_invalid now' _ _ Hd).
Qed.

(** A token that the manager issues is accepted until its expiry (less the slack
    of the store) and gives back the user it was issued for, and only a token with a verified signature,
    readable claims, an expiry that has not passed, and an identifier that is
    valid in the store and not blacklisted is ever accepted. *)
Theorem issued_token_accepted `{Codec} {E S B : Type} `{EncryptorLaws E} `{TokenBlacklist B} `{TokenStoreLive S}
  (m m' : @CustomTokenManager E S B) (rnd : entropy) (n n' : nat -> string) (now now' d : Z) (u : User) (info : TokenInfo)
  (id : string)
  (Hrnd : rnd 0%nat = Some id)
  (Hrep : representable (claims_for m id now (now + (if d <=? 0 then defaultDuration m else d)) u))
  (Hgen : Generate rnd n now u d m = (Ok info, m'))
  (Hdur : (if d <=? 0 then defaultDuration m else d) < 2 ^ 63)
  (Hlater : now <= now') (Htime : now' + slack < (unix (ExpiresAt info) + 1) * Second)
  (Hblack : (IsBlacklisted now' id (blacklist m')).1 = Ok false) :
  (Validate n' now' (AccessToken info) m').1 = Ok u /\
  (forall t v, (Validate n' now' t m').1 = Ok v -> exists payload signature c,
     parse t = Some (payload, signature) /\ Verify (encryptor m') n' payload signature = true /\
     unmarshal payload = Some c /\ unix now' <= CExpiresAt c /\
     (IsBlacklisted now' (TokenID c) (blacklist m')).1 = Ok false /\
     (IsTokenValid now' (TokenID c) (tokenStore m')).1 = Ok true /\ v = user_of c).
Proof.
  split; [|intros t v [_ HV]%Validate_iff; exact HV].
  unfold Generate in Hgen. rewrite Hrnd in Hgen.
  set (exp := now + (if d <=? 0 then defaultDuration m else d)) in *.
  destruct (marshal_unmarshal _ Hrep) as (p & Hp & Hu). rewrite Hp in Hgen.
  destruct (Encrypt (encryptor m) n p) as [sg|] eqn:Ee; [|done]. destruct (rnd 1%nat) as [r|]; [|done].
  destruct (StoreToken _ _ _) as [[[]|] s] eqn:Es; [|done]. injection Hgen as <- <-. simpl in *.
  apply Validate_iff. split; [apply token_not_empty|]. exists p, sg, (claims_for m id now exp u).
  split_and!; try done; [apply parse_token|by eapply verify_encrypt| | |by destruct u].
  - apply unix_le_iff. simpl. pose proof slack_nonneg. lia.
  - pose proof (unix_mul exp). apply (store_valid now now' _ _ _ Es); simpl; try done. subst exp. lia.
Qed.

(** ** A concrete codec, for the witnesses: two letters for a byte, and one value
    of the claims. *)
Definition letter (n : nat) : ascii := ascii_of_nat (97 + n).

Fixpoint letters (s : string) : string :=
  match s with
  | EmptyString => EmptyString
  | String c s => let n := nat_of_ascii c in
      String (letter (n / 16)) (String (letter (n mod 16)) (letters s))
  end.

Fixpoint unletters (s : string) : option string :=
  match s with
  | EmptyString => Some EmptyString
  | String a (String b s) =>
      match unletters s with
      | None => None
      | Some r => Some (String (ascii_of_nat ((nat_of_ascii a - 97) * 16 + (nat_of_ascii b - 97))) r)
      end
  | _ => None
  end.

Definition alice : User := {| ID := "1"; Username := "alice"; Roles := []; Permissions := []; Metadata := ∅ |}.

Definition alice_claims : TokenClaims :=
  {| UserID := "1"; CUsername := "alice"; CRoles := []; CPermissions := []; CMetadata := ∅; TokenID := "id";
     IssuedAt := 0; CExpiresAt := 60; Issuer := "iss" |}.

#[refine] Definition one_codec : Codec := {|
  marshal _ := Some "claims"; unmarshal _ := Some alice_claims; b64 := letters; unb64 := unletters;
  representable c := c = alice_claims |}.
Proof.
  - intros c ->. by exists "claims".
  - induction s as [|c s IH]; [done|]. cbn [letters unletters]. rewrite IH. do 2 f_equal.
    destruct c as [[] [] [] [] [] [] [] []]; reflexivity.
  - induction s as [|c s IH]; [done|]. cbn [letters]. rewrite !contains_byte_cons, IH.
    destruct c as [[] [] [] [] [] [] [] []]; reflexivity.
Defined.

Definition plain_hmac : Encryptor HmacEncryptor := hmac_encryptor (fun k d => d).

Definition alice_manager : @CustomTokenManager HmacEncryptor InMemoryTokenStore InMemoryBlacklist :=
  {| signingKey := "k"; defaultDuration := Hour; issuer := "iss"; encryptor := {| hkey := "k" |};
     tokenStore := NewInMemoryTokenStore; blacklist := NewInMemoryBlacklist |}.

Definition two_ids : entropy := fun n => match n with 0%nat => Some "id" | 1%nat => Some "refresh" | _ => None end.

Definition issued : result auth_error TokenInfo * @CustomTokenManager HmacEncryptor InMemoryTokenStore InMemoryBlacklist :=
  @Generate one_codec _ _ _ plain_hmac _ two_ids (fun _ => "") 0 alice Minute alice_manager.

Definition issued_info : TokenInfo :=
  match issued.1 with Ok i => i | Err _ => {| AccessToken := ""; RefreshToken := ""; ExpiresAt := 0; TokenType := ""; Scope := "" |} end.

Lemma issued_token_accepted_witness :
  (@Validate one_codec _ _ _ plain_hmac _ _ (fun _ => "") Second (AccessToken issued_info) issued.2).1 = Ok alice /\
  (forall t v, (@Validate one_codec _ _ _ plain_hmac _ _ (fun _ => "") Second t issued.2).1 = Ok v ->
     exists payload signature c,
     @parse one_codec t = Some (payload, signature) /\
     @Verify _ plain_hmac (encryptor issued.2) (fun _ => "") payload signature = true /\
     @unmarshal one_codec payload = Some c /\ unix Second <= CExpiresAt c /\
     (IsBlacklisted Second (TokenID c) (Manager.blacklist issued.2)).1 = Ok false /\
     (IsTokenValid Second (TokenID c) (tokenStore issued.2)).1 = Ok true /\ v = user_of c).
Proof.
  apply (@issued_token_accepted one_codec _ _ _ plain_hmac (hmac_laws _) _ _ _ alice_manager issued.2 two_ids
           (fun _ => "") (fun _ => "") 0 Second Minute alice issued_info "id");
    [reflexivity|vm_compute; reflexivity|vm_compute; reflexivity|vm_compute; reflexivity|vm_compute; discriminate
    |vm_compute; reflexivity|vm_compute; reflexivity].
Defined.

Definition revoked : result auth_error unit * @CustomTokenManager HmacEncryptor InMemoryTokenStore InMemoryBlacklist :=
  @Revoke one_codec _ _ _ _ _ 1 (AccessToken issued_info) issued.2.

Lemma revoked_forever_witness :
  (@Validate one_codec _ _ _ plain_hmac _ _ (fun _ => "") 2 (AccessToken issued_info) (Cleanup 2 revoked.2).2).1 <> Ok alice.
Proof.
  apply (@revoked_forever one_codec _ _ _ plain_hmac _ _ _ 1 (AccessToken issued_info) "id" issued.2 revoked.2
           (Cleanup 2 revoked.2).2).
  - exists "claims", "claims", alice_claims. vm_compute. auto.
  - vm_compute. reflexivity.
  - eapply rtc_l; [apply later_cleanup|apply rtc_refl].
  - exists "claims", "claims", alice_claims. vm_compute. auto.
Defined.

End ManagerFacts.

(** * Facts behind the findings *)
Module Findings.
Import Encryptor Store Manager Service.

Section Facts.
Context `{Codec} {E S B : Type} `{Encryptor E} `{TokenStore S} `{TokenBlacklist B}.

(** Revoking does not authenticate: only the payload part of the string counts, so
    that whoever knows or guesses an identifier can revoke the token with a forged
    string of that identifier. *)
Lemma revoke_ignores_signature now payload s1 s2 (m : @CustomTokenManager E S B) :
  contains_byte "." s1 = false -> contains_byte "." s2 = false ->
  Revoke now (b64 payload ++ String "." s1)%string m = Revoke now (b64 payload ++ String "." s2)%string m.
Proof. intros H1' H2'. unfold Revoke. by rewrite !Split_app, !Split_none by (done || apply b64_no_dot). Qed.

(** An API key is no token: it has no dot, so that the manager rejects it always. *)
Lemma api_key_rejected n now key (m : @CustomTokenManager E S B) :
  (Validate n now (b64 key) m).1 = Err ErrInvalidToken.
Proof.
  unfold Validate, parse. case_bool_decide; [done|]. by rewrite Split_none by apply b64_no_dot.
Qed.
End Facts.

(** With the in-memory store, which nothing in the manager fills with users,
    refreshing ends the session: the old token is revoked and then the user is not
    found. *)
Lemma refresh_without_user_ends_session `{Codec} {E : Type} `{Encryptor E} rnd n now later r d
  (m : @CustomTokenManager E InMemoryTokenStore InMemoryBlacklist) :
  r <> "" -> get_by_refresh r (tokenStore m) = Ok d -> unix now <= DExpiresAt d ->
  tokens (tokenStore m) !! DTokenID d = Some d ->
  Store.blacklist (Manager.blacklist m) !! DTokenID d = None -> users (tokenStore m) !! DUserID d = None ->
  (Refresh rnd n now later r m).1 = Err ErrUserNotFound /\
  is_token_valid now (DTokenID d) (tokenStore (Refresh rnd n now later r m).2) = false.
Proof.
  intros Hr Hg He Ht Hb Hu. unfold Refresh. rewrite bool_decide_eq_false_2 by done. cbn [GetTokenByRefresh in_memory_store].
  rewrite Hg. destruct (Z.ltb_spec (DExpiresAt d) (unix now)); [lia|].
  simpl. unfold is_blacklisted. rewrite Hb. simpl. unfold revoke_stored. rewrite Ht. simpl. rewrite Hu. simpl.
  split; [done|]. unfold is_token_valid. simpl. by rewrite lookup_insert_eq.
Qed.

(** A refresh token lives no longer than its access token: once that has expired,
    refreshing fails, whatever the configured duration of refresh tokens. *)
Lemma refresh_after_expiry `{Codec} {E S B : Type} `{Encryptor E} `{TokenStore S} `{TokenBlacklist B}
  rnd n now later r d (m : @CustomTokenManager E S B) :
  r <> "" -> (GetTokenByRefresh now r (tokenStore m)).1 = Ok d -> DExpiresAt d < unix now ->
  (Refresh rnd n now later r m).1 = Err ErrTokenExpired.
Proof.
  intros Hr Hg He. unfold Refresh. rewrite bool_decide_eq_false_2 by done.
  destruct (GetTokenByRefresh now r (tokenStore m)) as [? s]. simpl in Hg. subst.
  destruct (Z.ltb_spec (DExpiresAt d) (unix now)); [done|lia].
Qed.

End Findings.
