(* ===== verification/Redis.v ===== *)
(** The Redis client of [src/auth/redis/]: the interface [Client], the documented
    behaviour of a Redis server behind it as laws, two clients that satisfy them
    (a perfect one and one whose calls fail on a schedule), and the wrapper
    [GoRedisClient]. *)
From S2P Require Import Prelude.

(** * The interface

    An error is its message, because the callers compare it with a string. Every
    call takes the time; the values that the code stores are strings. *)
Class Client (C : Type) : Type := {
  Get : Z -> string -> C -> result string string * C;
  Set_ : Z -> string -> string -> Z -> C -> result string unit * C;
  Del : Z -> list string -> C -> result string unit * C;
  Keys : Z -> string -> C -> result string (list string) * C;
  HSet : Z -> string -> string -> string -> C -> result string unit * C;
  HGet : Z -> string -> string -> C -> result string string * C;
  HGetAll : Z -> string -> C -> result string (gmap string string) * C;
  HDel : Z -> string -> list string -> C -> result string unit * C;
  Expire : Z -> string -> Z -> C -> result string unit * C;
  TTL : Z -> string -> C -> result string Z * C;
  CloseClient : C -> result string unit * C }.

(** The message of the error of a missing key, [redis.Nil]. *)
Definition Nil : string := "redis: nil".

(** * The documented behaviour

    A server keeps strings and hashes under keys, each with or without a deadline
    from which on it counts as missing. *)
Inductive rvalue : Type := RString (s : string) | RHash (h : gmap string string).

Record entry : Type := { value : rvalue; deadline : option Z }.

Abbreviation keyspace := (gmap string entry).

Definition alive (now : Z) (e : entry) : bool := match deadline e with None => true | Some t => now <? t end.

Definition find (now : Z) (k : string) (m : keyspace) : option entry :=
  match m !! k with Some e => if alive now e then Some e else None | None => None end.

Definition WrongType : string := "WRONGTYPE Operation against a key holding the wrong kind of value".

Definition doc_get (now : Z) (k : string) (m : keyspace) : result string string * keyspace :=
  (match find now k m with
   | None => Err Nil
   | Some {| value := RString s |} => Ok s
   | Some {| value := RHash _ |} => Err WrongType
   end, m).

(** A positive expiration is sent in whole milliseconds, at least one; -1 keeps the
    deadline of the key, any other one removes it. *)
Definition milliseconds (d : Z) : Z := Z.max 1 (d / Millisecond) * Millisecond.

Definition doc_set (now : Z) (k v : string) (expiration : Z) (m : keyspace) : result string unit * keyspace :=
  (Ok tt, <[k := {| value := RString v;
                    deadline := if 0 <? expiration then Some (now + milliseconds expiration)
                                else if expiration =? -1 then find now k m ≫= deadline else None |}]> m).

Definition doc_del (ks : list string) (m : keyspace) : result string unit * keyspace := (Ok tt, foldr delete m ks).

Definition doc_hset (now : Z) (k f v : string) (m : keyspace) : result string unit * keyspace :=
  match find now k m with
  | None => (Ok tt, <[k := {| value := RHash {[f := v]}; deadline := None |}]> m)
  | Some {| value := RHash h; deadline := d |} => (Ok tt, <[k := {| value := RHash (<[f := v]> h); deadline := d |}]> m)
  | Some {| value := RString _ |} => (Err WrongType, m)
  end.

Definition doc_hgetall (now : Z) (k : string) (m : keyspace) : result string (gmap string string) * keyspace :=
  (match find now k m with
   | None => Ok ∅
   | Some {| value := RHash h |} => Ok h
   | Some {| value := RString _ |} => Err WrongType
   end, m).

(** A hash without fields does not exist. *)
Definition doc_hdel (now : Z) (k : string) (fs : list string) (m : keyspace) : result string unit * keyspace :=
  match find now k m with
  | None => (Ok tt, m)
  | Some {| value := RHash h; deadline := d |} =>
      let h' := foldr delete h fs in
      (Ok tt, if bool_decide (h' = ∅) then delete k m else <[k := {| value := RHash h'; deadline := d |}]> m)
  | Some {| value := RString _ |} => (Err WrongType, m)
  end.

(** An expiration is sent in whole seconds, at least one if it is positive; one
    that is not positive deletes the key. *)
Definition seconds (d : Z) : Z := if (0 <? d) && (d <? Second) then Second else Z.quot d Second * Second.

Definition doc_expire (now : Z) (k : string) (expiration : Z) (m : keyspace) : result string unit * keyspace :=
  (Ok tt, match find now k m with
          | None => m
          | Some e => if seconds expiration <=? 0 then delete k m
                      else <[k := {| value := value e; deadline := Some (now + seconds expiration) |}]> m
          end).

(** What a call may answer: what the documentation says, or an error of the
    connection, after which the command may or may not have been executed. *)
Definition answers {A C : Type} (contents : C -> keyspace) (before : keyspace) (documented : result string A * keyspace)
    (got : result string A * C) : Prop :=
  (got.1 = documented.1 /\ contents got.2 = documented.2) \/
  (exists e, got.1 = Err e /\ e <> Nil /\ (contents got.2 = before \/ contents got.2 = documented.2)).

Definition exactly {A C : Type} (contents : C -> keyspace) (documented : result string A * keyspace)
    (got : result string A * C) : Prop :=
  got.1 = documented.1 /\ contents got.2 = documented.2.

(** The laws of the calls that the code makes. *)
Class ClientLaws (C : Type) `{Client C} : Type := {
  contents : C -> keyspace;
  get_law now k c : answers contents (contents c) (doc_get now k (contents c)) (Get now k c);
  set_law now k v d c : answers contents (contents c) (doc_set now k v d (contents c)) (Set_ now k v d c);
  del_law now ks c : answers contents (contents c) (doc_del ks (contents c)) (Del now ks c);
  hset_law now k f v c : answers contents (contents c) (doc_hset now k f v (contents c)) (HSet now k f v c);
  hgetall_law now k c : answers contents (contents c) (doc_hgetall now k (contents c)) (HGetAll now k c);
  hdel_law now k fs c : answers contents (contents c) (doc_hdel now k fs (contents c)) (HDel now k fs c);
  expire_law now k d c : answers contents (contents c) (doc_expire now k d (contents c)) (Expire now k d c) }.

(** A connection that never fails. *)
Class ClientReliable (C : Type) `{ClientLaws C} : Prop := {
  get_exact now k c : exactly contents (doc_get now k (contents c)) (Get now k c);
  set_exact now k v d c : exactly contents (doc_set now k v d (contents c)) (Set_ now k v d c);
  del_exact now ks c : exactly contents (doc_del ks (contents c)) (Del now ks c);
  hset_exact now k f v c : exactly contents (doc_hset now k f v (contents c)) (HSet now k f v c);
  hgetall_exact now k c : exactly contents (doc_hgetall now k (contents c)) (HGetAll now k c);
  hdel_exact now k fs c : exactly contents (doc_hdel now k fs (contents c)) (HDel now k fs c);
  expire_exact now k d c : exactly contents (doc_expire now k d (contents c)) (Expire now k d c) }.

(** * Facts about the keys that a call leaves alone *)

Lemma find_insert_ne now k k' e m : k <> k' -> find now k (<[k' := e]> m) = find now k m.
Proof. intros. unfold find. by rewrite lookup_insert_ne. Qed.

Lemma find_insert now k e m : find now k (<[k := e]> m) = if alive now e then Some e else None.
Proof. unfold find. by rewrite lookup_insert_eq. Qed.

Lemma find_None now k m : m !! k = None -> find now k m = None.
Proof. unfold find. by intros ->. Qed.

Lemma delete_all_ne {A} (k : string) ks (m : gmap string A) : k ∉ ks -> foldr delete m ks !! k = m !! k.
Proof.
  induction ks as [|k' ks IH]; intros Hk; [done|]. simpl. apply not_elem_of_cons in Hk as [Hne Hk].
  rewrite lookup_delete_ne by done. by apply IH.
Qed.

Lemma delete_all_eq {A} (k : string) ks (m : gmap string A) : k ∈ ks -> foldr delete m ks !! k = None.
Proof.
  induction ks as [|k' ks IH]; intros Hk; [by apply elem_of_nil in Hk|]. simpl.
  destruct (decide (k = k')) as [->|Hne]; [by rewrite lookup_delete_eq|]. rewrite lookup_delete_ne by done.
  apply elem_of_cons in Hk as [?|?]; [done|by apply IH].
Qed.

Lemma doc_set_ne now k v d m k' : k' <> k -> (doc_set now k v d m).2 !! k' = m !! k'.
Proof. intros. simpl. by rewrite lookup_insert_ne. Qed.

Lemma doc_del_ne ks m k' : k' ∉ ks -> (doc_del ks m).2 !! k' = m !! k'.
Proof. apply delete_all_ne. Qed.

Lemma doc_hset_ne now k f v m k' : k' <> k -> (doc_hset now k f v m).2 !! k' = m !! k'.
Proof.
  intros. unfold doc_hset. destruct (find now k m) as [[[s|h] d]|]; simpl; [done| |]; by rewrite lookup_insert_ne.
Qed.

Lemma doc_hdel_ne now k fs m k' : k' <> k -> (doc_hdel now k fs m).2 !! k' = m !! k'.
Proof.
  intros. unfold doc_hdel. destruct (find now k m) as [[[s|h] d]|]; simpl; [done| |done].
  case_bool_decide; [by rewrite lookup_delete_ne|by rewrite lookup_insert_ne].
Qed.

Lemma doc_expire_ne now k d m k' : k' <> k -> (doc_expire now k d m).2 !! k' = m !! k'.
Proof.
  intros. simpl. destruct (find now k m) as [e|]; [|done].
  destruct (_ <=? _); [by rewrite lookup_delete_ne|by rewrite lookup_insert_ne].
Qed.

Create HintDb redis.
#[export] Hint Resolve doc_set_ne doc_del_ne doc_hset_ne doc_hdel_ne doc_expire_ne : redis.

(** A call whose documentation leaves a key alone leaves it alone, also when it fails. *)
Lemma answers_frame {A C} (f : C -> keyspace) before (spec : result string A * keyspace) got k :
  answers f before spec got -> spec.2 !! k = before !! k -> f got.2 !! k = before !! k.
Proof. intros [[_ ->]|(e & _ & _ & [->| ->])] Hk; done. Qed.

Lemma exactly_answers {A C} (f : C -> keyspace) before (spec : result string A * keyspace) got :
  exactly f spec got -> answers f before spec got.
Proof. intros H. by left. Qed.

Section Frames.
Context `{ClientLaws C}.
Implicit Type c : C.

Lemma Get_contents now k c : contents (Get now k c).2 = contents c.
Proof. destruct (get_law now k c) as [[_ ->]|(e & _ & _ & [->| ->])]; done. Qed.

Lemma HGetAll_contents now k c : contents (HGetAll now k c).2 = contents c.
Proof. destruct (hgetall_law now k c) as [[_ ->]|(e & _ & _ & [->| ->])]; done. Qed.

Lemma Set_frame now k v d c k' : k' <> k -> contents (Set_ now k v d c).2 !! k' = contents c !! k'.
Proof. intros. eapply answers_frame; [apply set_law|auto with redis]. Qed.

Lemma Del_frame now ks c k' : k' ∉ ks -> contents (Del now ks c).2 !! k' = contents c !! k'.
Proof. intros. eapply answers_frame; [apply del_law|auto with redis]. Qed.

Lemma HSet_frame now k f v c k' : k' <> k -> contents (HSet now k f v c).2 !! k' = contents c !! k'.
Proof. intros. eapply answers_frame; [apply hset_law|auto with redis]. Qed.

Lemma HDel_frame now k fs c k' : k' <> k -> contents (HDel now k fs c).2 !! k' = contents c !! k'.
Proof. intros. eapply answers_frame; [apply hdel_law|auto with redis]. Qed.

Lemma Expire_frame now k d c k' : k' <> k -> contents (Expire now k d c).2 !! k' = contents c !! k'.
Proof. intros. eapply answers_frame; [apply expire_law|auto with redis]. Qed.

(** A deleted key is gone, and one that is gone stays so when keys are deleted. *)
Lemma Del_gone now ks c k : (Del now ks c).1 = Ok tt -> k ∈ ks -> contents (Del now ks c).2 !! k = None.
Proof.
  intros Hok Hk. destruct (del_law now ks c) as [[_ ->]|(e & He & _)]; [by apply delete_all_eq|congruence].
Qed.

Lemma Del_stays now ks c k : contents c !! k = None -> contents (Del now ks c).2 !! k = None.
Proof.
  intros Hk. destruct (decide (k ∈ ks)) as [Hin|Hin].
  - destruct (del_law now ks c) as [[_ ->]|(e & _ & _ & [->| ->])]; [by apply delete_all_eq|done|by apply delete_all_eq].
  - by rewrite Del_frame.
Qed.

(** A key that is not there is not read. *)
Lemma Get_missing now k c : find now k (contents c) = None -> exists e, (Get now k c).1 = Err e.
Proof.
  intros Hk. destruct (get_law now k c) as [[-> _]|(e & -> & _)]; [|by eauto]. unfold doc_get. rewrite Hk. by eexists.
Qed.

Lemma Get_Ok now k c s : (Get now k c).1 = Ok s -> exists e, find now k (contents c) = Some e /\ value e = RString s.
Proof.
  intros Hs. destruct (get_law now k c) as [[E _]|(e & E & _)]; rewrite Hs in E; [|done]. unfold doc_get in E.
  destruct (find now k (contents c)) as [[[s'|h] d]|]; simplify_eq/=. by eexists.
Qed.

End Frames.

(** * Two clients *)

(** A perfect connection to a server that does nothing else. The calls that the
    code never makes are refused. *)
#[global] Instance perfect_client : Client keyspace := {
  Get := doc_get; Set_ := doc_set; Del _ := doc_del; Keys _ _ m := (Err "unsupported", m);
  HSet := doc_hset; HGet _ _ _ m := (Err "unsupported", m); HGetAll := doc_hgetall; HDel := doc_hdel;
  Expire := doc_expire; TTL _ _ m := (Err "unsupported", m); CloseClient m := (Ok tt, m) }.

#[global, refine] Instance perfect_laws : ClientLaws keyspace := { contents m := m }.
Proof. all: intros; by left. Defined.

#[global] Instance perfect_reliable : ClientReliable keyspace.
Proof. by constructor. Qed.

(** A connection with a schedule: [Some true] executes the command and loses the
    answer, [Some false] loses the command, [None] works. *)
Record Flaky : Type := { schedule : list (option bool); server : keyspace }.

Definition Refused : string := "connection refused".

Definition flaky {A : Type} (call : keyspace -> result string A * keyspace) (c : Flaky) : result string A * Flaky :=
  let rest := {| schedule := tail (schedule c); server := server c |} in
  match head (schedule c) with
  | Some (Some executed) =>
      (Err Refused, if executed then {| schedule := tail (schedule c); server := (call (server c)).2 |} else rest)
  | _ => let '(r, m) := call (server c) in (r, {| schedule := tail (schedule c); server := m |})
  end.

#[global] Instance flaky_client : Client Flaky := {
  Get now k := flaky (doc_get now k); Set_ now k v d := flaky (doc_set now k v d); Del _ ks := flaky (doc_del ks);
  Keys _ _ := flaky (fun m => (Err "unsupported", m)); HSet now k f v := flaky (doc_hset now k f v);
  HGet _ _ _ := flaky (fun m => (Err "unsupported", m)); HGetAll now k := flaky (doc_hgetall now k);
  HDel now k fs := flaky (doc_hdel now k fs); Expire now k d := flaky (doc_expire now k d);
  TTL _ _ := flaky (fun m => (Err "unsupported", m)); CloseClient c := (Ok tt, c) }.

Lemma flaky_answers {A} (call : keyspace -> result string A * keyspace) c :
  answers server (server c) (call (server c)) (flaky call c).
Proof.
  unfold flaky. destruct (head (schedule c)) as [[[|]|]|].
  1, 2: right; exists Refused; split_and!; [done..|by (left + right)].
  all: left; by destruct (call (server c)).
Qed.

#[global, refine] Instance flaky_laws : ClientLaws Flaky := { contents := server }.
Proof. all: intros; apply flaky_answers. Defined.

(** * [GoRedisClient]: every method passes its arguments on *)

Record GoRedisClient (C : Type) : Type := { client : C }.
Arguments client {C} g.

Inductive redis_error : Type := ErrNilRedisClient | ErrRedisConnFailed.

(** [NewGoRedisClient], given a value with the methods that it asserts. *)
Definition NewGoRedisClient {C : Type} (c : option C) : result redis_error (GoRedisClient C) :=
  match c with None => Err ErrNilRedisClient | Some c => Ok {| client := c |} end.

Definition pass {C A : Type} (call : C -> A * C) (g : GoRedisClient C) : A * GoRedisClient C :=
  let '(r, c) := call (client g) in (r, {| client := c |}).

#[global] Instance go_redis_client {C} `{Client C} : Client (GoRedisClient C) := {
  Get now k := pass (Get now k); Set_ now k v d := pass (Set_ now k v d); Del now ks := pass (Del now ks);
  Keys now p := pass (Keys now p); HSet now k f v := pass (HSet now k f v); HGet now k f := pass (HGet now k f);
  HGetAll now k := pass (HGetAll now k); HDel now k fs := pass (HDel now k fs); Expire now k d := pass (Expire now k d);
  TTL now k := pass (TTL now k); CloseClient := pass CloseClient }.

Lemma pass_answers {C A} (f : C -> keyspace) (call : C -> result string A * C) before spec g :
  answers f before spec (call (client g)) -> answers (fun g => f (client g)) before spec (pass call g).
Proof. unfold pass. by destruct (call (client g)). Qed.

Lemma pass_exactly {C A} (f : C -> keyspace) (call : C -> result string A * C) spec g :
  exactly f spec (call (client g)) -> exactly (fun g => f (client g)) spec (pass call g).
Proof. unfold pass. by destruct (call (client g)). Qed.

#[global, refine] Instance go_redis_laws {C} `{ClientLaws C} : ClientLaws (GoRedisClient C) := {
  contents g := contents (client g) }.
Proof.
  - intros. apply (pass_answers contents), get_law.
  - intros. apply (pass_answers contents), set_law.
  - intros. apply (pass_answers contents), del_law.
  - intros. apply (pass_answers contents), hset_law.
  - intros. apply (pass_answers contents), hgetall_law.
  - intros. apply (pass_answers contents), hdel_law.
  - intros. apply (pass_answers contents), expire_law.
Defined.

#[global] Instance go_redis_reliable {C} `{ClientReliable C} : ClientReliable (GoRedisClient C).
Proof.
  constructor; intros ?; intros.
  - apply (pass_exactly contents (Get now k) _ c (get_exact now k (client c))).
  - apply (pass_exactly contents (Set_ now k v d) _ c (set_exact now k v d (client c))).
  - apply (pass_exactly contents (Del now ks) _ c (del_exact now ks (client c))).
  - apply (pass_exactly contents (HSet now k f v) _ c (hset_exact now k f v (client c))).
  - apply (pass_exactly contents (HGetAll now k) _ c (hgetall_exact now k (client c))).
  - apply (pass_exactly contents (HDel now k fs) _ c (hdel_exact now k fs (client c))).
  - apply (pass_exactly contents (Expire now k d) _ c (expire_exact now k d (client c))).
Qed.
