(* ===== verification/RedisStore.v ===== *)
(** Tokens in Redis: the store of [src/auth/token/redis_store.go] and the blacklist
    of [src/auth/token/blacklist.go], over any [Redis.Client].

    A client whose calls may fail is enough for the laws that the token manager
    relies on for revocation; a reliable one for those on acceptance. *)
From S2P Require Import Prelude GoString Auth Token Redis.
Import Store.

(** [encoding/json] on stored tokens and on users. The integers and booleans of a
    token are given back as they are, its strings when they are valid UTF-8. *)
Class StoreJson : Type := {
  token_json : TokenData -> option string;
  token_of_json : string -> option TokenData;
  user_json : User -> option string;
  user_of_json : string -> option User;
  json_user : User -> Prop;
  token_json_total d : is_Some (token_json d);
  token_json_numbers d s : token_json d = Some s -> exists d', token_of_json s = Some d' /\
    DExpiresAt d' = DExpiresAt d /\ Revoked d' = Revoked d /\ CreatedAt d' = CreatedAt d;
  user_json_roundtrip u : json_user u -> exists s, user_json u = Some s /\ user_of_json s = Some u }.

(** ** The cache of users *)

Class UserCache (U : Type) : Type := {
  GetUser : string -> U -> option User; SetUser : User -> U -> U; DelUser : string -> U -> U }.

Record SimpleUserCache : Type := { users : gmap string User }.

Definition NewSimpleUserCache : SimpleUserCache := {| users := ∅ |}.

#[global] Instance simple_user_cache : UserCache SimpleUserCache := {
  GetUser id c := users c !! id;
  SetUser u c := {| users := <[ID u := u]> (users c) |};
  DelUser id c := {| users := delete id (users c) |} }.

(** * The store *)
Section Store.
Context `{StoreJson} {C U : Type} `{Client C} `{UserCache U}.

Record RedisTokenStore : Type := {
  client : C; keyPrefix : string; expiration : Z; userCache : U; enableCache : bool }.

(** [NewRedisTokenStore]; [None] is a nil client. *)
Definition NewRedisTokenStore (c : option C) (prefix : string) (e : Z) (cache : U) (enable : bool) : option RedisTokenStore :=
  match c with
  | None => None
  | Some c => Some {| client := c; keyPrefix := if bool_decide (prefix = "") then "token:" else prefix;
                      expiration := if e <=? 0 then Hour * 24 * 7 else e; userCache := cache; enableCache := enable |}
  end.

Definition with_client (c : C) (s : RedisTokenStore) : RedisTokenStore :=
  {| client := c; keyPrefix := keyPrefix s; expiration := expiration s; userCache := userCache s; enableCache := enableCache s |}.
Definition with_cache (u : U) (s : RedisTokenStore) : RedisTokenStore :=
  {| client := client s; keyPrefix := keyPrefix s; expiration := expiration s; userCache := u; enableCache := enableCache s |}.

Definition id_key (s : RedisTokenStore) (id : string) : string := (keyPrefix s ++ "id:" ++ id)%string.
Definition refresh_key (s : RedisTokenStore) (r : string) : string := (keyPrefix s ++ "refresh:" ++ r)%string.
Definition user_key (s : RedisTokenStore) (u : string) : string := (keyPrefix s ++ "user:" ++ u)%string.
Definition user_data_key (s : RedisTokenStore) (u : string) : string := (keyPrefix s ++ "user_data:" ++ u)%string.

(** A call of the client from a method of the store. *)
Definition call {A : Type} (f : C -> result string A * C) (s : RedisTokenStore) : result string A * RedisTokenStore :=
  let '(r, c) := f (client s) in (r, with_client c s).

End Store.
Arguments RedisTokenStore C U : clear implicits.

Notation "'let!' x , s := m 'in' k" := (match m with (Ok x, s) => k | (Err _, s) => (Err ErrOther, s) end)
  (at level 10, x pattern, s name, m at level 100, k at level 200) : go_scope.
Open Scope go_scope.

Section Operations.
Context `{StoreJson} {C U : Type} `{Client C} `{UserCache U}.
Implicit Type s : RedisTokenStore C U.

Definition store_redis (now : Z) (d : TokenData) s : result auth_error unit * RedisTokenStore C U :=
  let token := set_created now d in
  match token_json token with
  | None => (Err ErrOther, s)
  | Some tokenJSON =>
      let exp := time_sub (DExpiresAt token * Second) now in
      let exp := if exp <=? 0 then expiration s else exp in
      let! _, s := call (Set_ now (id_key s (DTokenID token)) tokenJSON exp) s in
      let! _, s := (if bool_decide (DRefreshToken token = "") then (Ok tt, s)
                    else call (Set_ now (refresh_key s (DRefreshToken token)) (DTokenID token) exp) s) in
      let! _, s := call (HSet now (user_key s (DUserID token)) (DTokenID token) "1") s in
      let! _, s := call (Expire now (user_key s (DUserID token)) (expiration s)) s in
      (Ok tt, s)
  end.

Definition get_token (now : Z) (tokenID : string) s : result auth_error TokenData * RedisTokenStore C U :=
  let! tokenJSON, s := call (Get now (id_key s tokenID)) s in
  match token_of_json tokenJSON with None => (Err ErrOther, s) | Some token => (Ok token, s) end.

Definition get_token_by_refresh (now : Z) (refreshToken : string) s : result auth_error TokenData * RedisTokenStore C U :=
  let! tokenID, s := call (Get now (refresh_key s refreshToken)) s in get_token now tokenID s.

Definition revoke_redis (now : Z) (tokenID : string) s : result auth_error unit * RedisTokenStore C U :=
  match get_token now tokenID s with
  | (Err e, s) => (Err e, s)
  | (Ok token, s) =>
      let! _, s := call (Del now [id_key s tokenID]) s in
      let! _, s := (if bool_decide (DRefreshToken token = "") then (Ok tt, s)
                    else call (Del now [refresh_key s (DRefreshToken token)]) s) in
      let! _, s := call (HDel now (user_key s (DUserID token)) [tokenID]) s in
      (Ok tt, s)
  end.

Definition valid_redis (now : Z) (tokenID : string) s : result auth_error bool * RedisTokenStore C U :=
  match call (Get now (id_key s tokenID)) s with
  | (Err e, s) => (if bool_decide (e = Nil) then Ok false else Err ErrOther, s)
  | (Ok tokenJSON, s) =>
      match token_of_json tokenJSON with
      | None => (Err ErrOther, s)
      | Some token => (Ok (negb (DExpiresAt token <? unix now)), s)
      end
  end.

Definition get_user (now : Z) (userID : string) s : result auth_error User * RedisTokenStore C U :=
  match (if enableCache s then GetUser userID (userCache s) else None) with
  | Some user => (Ok user, s)
  | None =>
      let! userJSON, s := call (Get now (user_data_key s userID)) s in
      match user_of_json userJSON with
      | None => (Err ErrOther, s)
      | Some user => (Ok user, if enableCache s then with_cache (SetUser user (userCache s)) s else s)
      end
  end.

#[global] Instance redis_store : TokenStore (RedisTokenStore C U) := {
  StoreToken := store_redis; GetToken := get_token; GetTokenByRefresh := get_token_by_refresh;
  RevokeStored := revoke_redis; IsTokenValid := valid_redis; CleanupExpiredTokens _ s := (Ok tt, s);
  GetUserByID := get_user }.

Definition store_user (now : Z) (user : User) s : result auth_error unit * RedisTokenStore C U :=
  match user_json user with
  | None => (Err ErrOther, s)
  | Some userJSON =>
      let! _, s := call (Set_ now (user_data_key s (ID user)) userJSON (expiration s)) s in
      (Ok tt, if enableCache s then with_cache (SetUser user (userCache s)) s else s)
  end.

(** The loop of [DeleteUser] over the user's tokens. *)
Fixpoint delete_tokens (now : Z) (ids : list string) s : result auth_error unit * RedisTokenStore C U :=
  match ids with
  | [] => (Ok tt, s)
  | tokenID :: ids =>
      match get_token now tokenID s with
      | (Err _, s) => delete_tokens now ids s
      | (Ok token, s) =>
          let! _, s := call (Del now [id_key s tokenID]) s in
          let! _, s := (if bool_decide (DRefreshToken token = "") then (Ok tt, s)
                        else call (Del now [refresh_key s (DRefreshToken token)]) s) in
          delete_tokens now ids s
      end
  end.

(** [DeleteUser]; [range] is the order in which the map is visited. *)
Definition DeleteUser (range : gmap string string -> list string) (now : Z) (userID : string) s
  : result auth_error unit * RedisTokenStore C U :=
  let! tokens, s := call (HGetAll now (user_key s userID)) s in
  match delete_tokens now (range tokens) s with
  | (Err e, s) => (Err e, s)
  | (Ok _, s) =>
      let! _, s := call (Del now [user_key s userID]) s in
      let! _, s := call (Del now [user_data_key s userID]) s in
      (Ok tt, if enableCache s then with_cache (DelUser userID (userCache s)) s else s)
  end.

End Operations.

(** * The blacklist *)
Section Blacklist.
Context {C : Type} `{Client C}.

Record RedisBlacklist : Type := { bclient : C; bkeyPrefix : string }.

Definition NewRedisBlacklist (c : C) (prefix : string) : RedisBlacklist :=
  {| bclient := c; bkeyPrefix := if bool_decide (prefix = "") then "blacklist:" else prefix |}.

(** The key of an entry, and a call of the client. *)
Definition entry_key (b : RedisBlacklist) (id : string) : string := (bkeyPrefix b ++ id)%string.

Definition bcall {A : Type} (f : C -> result string A * C) (b : RedisBlacklist) : result string A * RedisBlacklist :=
  let '(r, c) := f (bclient b) in (r, {| bclient := c; bkeyPrefix := bkeyPrefix b |}).

Definition blacklisted_redis (now : Z) (tokenID : string) (b : RedisBlacklist) : result auth_error bool * RedisBlacklist :=
  match bcall (Get now (entry_key b tokenID)) b with
  | (Ok _, b) => (Ok true, b)
  | (Err e, b) => (if bool_decide (e = Nil) then Ok false else Err ErrOther, b)
  end.

#[global] Instance redis_blacklist : TokenBlacklist RedisBlacklist := {
  AddToBlacklist now id d b := let! _, b := bcall (Set_ now (entry_key b id) "1" d) b in (Ok tt, b);
  IsBlacklisted := blacklisted_redis;
  RemoveFromBlacklist now id b := let! _, b := bcall (Del now [entry_key b id]) b in (Ok tt, b);
  CleanupExpired _ b := (Ok tt, b) }.

End Blacklist.
Arguments RedisBlacklist C : clear implicits.

(** * Facts *)

Lemma key_inj (p a b : string) : (p ++ a)%string = (p ++ b)%string -> a = b.
Proof. induction p as [|c p IH]; simpl; [done|]. intros [= ?]. by apply IH. Qed.

Section Facts.
Context `{StoreJson} {C U : Type} `{ClientLaws C} `{UserCache U}.
Implicit Type s : RedisTokenStore C U.

(** The key [k] of a store with the prefix [p] is bound to [o]. *)
Definition holds (p k : string) (o : option entry) s : Prop := keyPrefix s = p /\ contents (client s) !! k = o.

Lemma let_keeps {A B} (P : RedisTokenStore C U -> Prop) (m : result string A * RedisTokenStore C U)
  (f : A -> RedisTokenStore C U -> result auth_error B * RedisTokenStore C U) :
  P m.2 -> (forall a s, P s -> P (f a s).2) -> P (let! x, s := m in f x s).2.
Proof. destruct m as [[a|e] s]; simpl; auto. Qed.

Lemma call_holds {A} (f : C -> result string A * C) p k o s :
  holds p k o s -> contents (f (client s)).2 !! k = contents (client s) !! k -> holds p k o (call f s).2.
Proof. intros [Hp Hk] Hf. unfold call, holds in *. destruct (f (client s)) as [r c]. simpl in *. by rewrite Hf. Qed.

Lemma set_holds p k o now k' v d s : k <> k' -> holds p k o s -> holds p k o (call (Set_ now k' v d) s).2.
Proof. intros. apply call_holds; [done|]. by apply Set_frame. Qed.

Lemma get_holds p k o now k' s : holds p k o s -> holds p k o (call (Get now k') s).2.
Proof. intros. apply call_holds; [done|]. by rewrite Get_contents. Qed.

Lemma hgetall_holds p k o now k' s : holds p k o s -> holds p k o (call (HGetAll now k') s).2.
Proof. intros. apply call_holds; [done|]. by rewrite HGetAll_contents. Qed.

Lemma del_holds p k o now k' s : k <> k' -> holds p k o s -> holds p k o (call (Del now [k']) s).2.
Proof. intros. apply call_holds; [done|]. apply Del_frame. by rewrite list_elem_of_singleton. Qed.

Lemma del_holds_none p k now k' s : holds p k None s -> holds p k None (call (Del now [k']) s).2.
Proof. intros [Hp Hk]. apply call_holds; [done|]. rewrite Hk. by apply Del_stays. Qed.

Lemma hset_holds p k o now k' f v s : k <> k' -> holds p k o s -> holds p k o (call (HSet now k' f v) s).2.
Proof. intros. apply call_holds; [done|]. by apply HSet_frame. Qed.

Lemma hdel_holds p k o now k' fs s : k <> k' -> holds p k o s -> holds p k o (call (HDel now k' fs) s).2.
Proof. intros. apply call_holds; [done|]. by apply HDel_frame. Qed.

Lemma expire_holds p k o now k' d s : k <> k' -> holds p k o s -> holds p k o (call (Expire now k' d) s).2.
Proof. intros. apply call_holds; [done|]. by apply Expire_frame. Qed.

(** A token's key under the prefix [p] is none of the other keys. *)
Definition idk (p id : string) : string := (p ++ "id:" ++ id)%string.

Lemma idk_id p k o s id id' : holds p k o s -> id <> id' -> idk p id <> id_key s id'.
Proof. unfold idk, id_key. intros [-> _] Hne E%key_inj. by injection E. Qed.

Lemma idk_refresh p k o s id r : holds p k o s -> idk p id <> refresh_key s r.
Proof. unfold idk, refresh_key. by intros [-> _] E%key_inj. Qed.

Lemma idk_user p k o s id u : holds p k o s -> idk p id <> user_key s u.
Proof. unfold idk, user_key. by intros [-> _] E%key_inj. Qed.

Lemma idk_user_data p k o s id u : holds p k o s -> idk p id <> user_data_key s u.
Proof. unfold idk, user_data_key. by intros [-> _] E%key_inj. Qed.

End Facts.

#[export] Hint Resolve set_holds get_holds hgetall_holds del_holds del_holds_none hset_holds hdel_holds expire_holds : redis.
#[export] Hint Resolve idk_id idk_refresh idk_user idk_user_data : redis.

(** Walk through the calls of a method, keeping [holds]. *)
Ltac keep :=
  repeat first [assumption | apply let_keeps; [|intros ? ? ?] | case_bool_decide | progress cbn [fst snd]];
  eauto with redis.

Section Keeping.
Context `{StoreJson} {C U : Type} `{ClientLaws C} `{UserCache U}.
Implicit Type s : RedisTokenStore C U.

(** The entry of a token survives the storing of another one and every reading. *)
Lemma store_keeps p id o now d s : id <> DTokenID d -> holds p (idk p id) o s -> holds p (idk p id) o (store_redis now d s).2.
Proof. intros Hne Hs. unfold store_redis. destruct (token_json _) as [j|]; [|done]. keep. Qed.

Lemma get_token_keeps p k o now id s : holds p k o s -> holds p k o (get_token now id s).2.
Proof. intros Hs. unfold get_token. keep. by destruct (token_of_json _). Qed.

Lemma refresh_keeps p k o now r s : holds p k o s -> holds p k o (get_token_by_refresh now r s).2.
Proof. intros Hs. unfold get_token_by_refresh. keep. by apply get_token_keeps. Qed.

Lemma valid_keeps p k o now id s : holds p k o s -> holds p k o (valid_redis now id s).2.
Proof.
  intros Hs. unfold valid_redis. pose proof (get_holds _ _ _ now (id_key s id) _ Hs) as Hg.
  destruct (call _ s) as [[j|e] s']; [|done]. by destruct (token_of_json j).
Qed.

Lemma get_user_keeps p k o now u s : holds p k o s -> holds p k o (get_user now u s).2.
Proof.
  intros Hs. unfold get_user. destruct (if enableCache s then _ else _); [done|]. keep.
  destruct (user_of_json _); [|done]. simpl. by destruct (enableCache _).
Qed.

(** A token that is gone stays gone when any token is revoked. *)
Lemma revoke_keeps_gone p id now id' s : holds p (idk p id) None s -> holds p (idk p id) None (revoke_redis now id' s).2.
Proof.
  intros Hs. unfold revoke_redis. pose proof (get_token_keeps _ _ _ now id' _ Hs) as Hg.
  destruct (get_token now id' s) as [[d|e] s']; [|done]. keep.
Qed.

Lemma revoke_gone now id s : (revoke_redis now id s).1 = Ok tt ->
  holds (keyPrefix s) (idk (keyPrefix s) id) None (revoke_redis now id s).2.
Proof.
  unfold revoke_redis.
  pose proof (get_token_keeps (keyPrefix s) "" (contents (client s) !! "") now id s (conj eq_refl eq_refl)) as [Hp _].
  destruct (get_token now id s) as [[d|e] s']; [|done]. simpl in Hp.
  assert (Hd : (call (Del now [id_key s' id]) s').1 = Ok tt ->
               holds (keyPrefix s) (idk (keyPrefix s) id) None (call (Del now [id_key s' id]) s').2).
  { unfold call. destruct (Del now [id_key s' id] (client s')) as [r c] eqn:E. simpl. intros ->. split; [done|]. simpl.
    change c with (Ok (A := unit) (E := string) tt, c).2. rewrite <- E. apply Del_gone; [by rewrite E|].
    unfold idk, id_key. rewrite Hp. by left. }
  destruct (call (Del now [id_key s' id]) s') as [[[]|e] s1]; [|done]. intros _. specialize (Hd eq_refl). simpl in Hd. keep.
Qed.

End Keeping.

(** * The laws of a token store, for any client *)
#[global, refine] Instance redis_store_laws `{StoreJson} {C U} `{ClientLaws C} `{UserCache U} :
  TokenStoreLaws (RedisTokenStore C U) := {
  dead id s := contents (client s) !! idk (keyPrefix s) id = None }.
Proof.
  - intros now id s Hd. simpl. unfold valid_redis, call.
    destruct (Get_missing now (id_key s id) (client s)) as [e He]; [by apply find_None|].
    destruct (Get _ _ _) as [r c]. simpl in He. subst r. by case_bool_decide.
  - intros now id s Hr. simpl in *. destruct (revoke_gone _ _ _ Hr) as [-> Hk]. done.
  - intros now id id' s Hd. simpl. by destruct (revoke_keeps_gone _ id now id' s (conj eq_refl Hd)) as [-> ?].
  - intros now id d s Hd Hne. simpl. by destruct (store_keeps _ id _ now d s (not_eq_sym Hne) (conj eq_refl Hd)) as [-> ?].
  - done.
  - intros now id r s Hd. simpl. by destruct (refresh_keeps _ _ _ now r s (conj eq_refl Hd)) as [-> ?].
  - intros now id id' s Hd. simpl. by destruct (valid_keeps _ _ _ now id' s (conj eq_refl Hd)) as [-> ?].
  - intros now id u s Hd. simpl. by destruct (get_user_keeps _ _ _ now u s (conj eq_refl Hd)) as [-> ?].
Defined.

(** * With a reliable client *)
Section Reliable.
Context `{StoreJson} {C U : Type} `{ClientReliable C} `{UserCache U}.
Implicit Type s : RedisTokenStore C U.

Lemma call_exact {A} (f : C -> result string A * C) spec s :
  exactly contents spec (f (client s)) ->
  exists c, call f s = (spec.1, with_client c s) /\ contents c = spec.2.
Proof. unfold call. destruct (f (client s)) as [r c]. intros [<- <-]. by exists c. Qed.

(** What the validity check says of the entry it finds. *)
Lemma valid_exact now id s :
  (valid_redis now id s).1 =
  match find now (id_key s id) (contents (client s)) with
  | None => Ok false
  | Some {| value := RString j |} =>
      match token_of_json j with None => Err ErrOther | Some d => Ok (negb (DExpiresAt d <? unix now)) end
  | Some {| value := RHash _ |} => Err ErrOther
  end.
Proof.
  unfold valid_redis. destruct (call_exact (Get now (id_key s id)) _ s (get_exact now _ _)) as (c & -> & _).
  unfold doc_get. cbn [fst]. destruct (find _ _ _) as [[[j|h] dl]|]; simpl; [by destruct (token_of_json j)| |]; done.
Qed.

(** Storing binds the token's key to its JSON; the server keeps it to within a
    millisecond of the token's expiry. *)
Lemma store_binds now d s : DExpiresAt d * Second - now < 2 ^ 63 -> exists j dl,
  holds (keyPrefix s) (idk (keyPrefix s) (DTokenID d)) (Some {| value := RString j; deadline := dl |}) (store_redis now d s).2 /\
  (exists d', token_of_json j = Some d' /\ DExpiresAt d' = DExpiresAt d) /\
  (now < DExpiresAt d * Second -> exists t, dl = Some t /\ DExpiresAt d * Second < t + Millisecond).
Proof.
  intros Hsmall. unfold store_redis. destruct (token_json_total (set_created now d)) as [j Hj]. rewrite Hj.
  destruct (token_json_numbers _ _ Hj) as (d' & Hd' & He & _). cbn [DTokenID DRefreshToken DUserID DExpiresAt set_created].
  set (exp := if time_sub (DExpiresAt d * Second) now <=? 0 then expiration s else time_sub (DExpiresAt d * Second) now).
  destruct (call_exact (Set_ now (id_key s (DTokenID d)) j exp) _ s (set_exact now _ _ _ _)) as (c & -> & Hc).
  exists j, (if 0 <? exp then Some (now + milliseconds exp)
             else if exp =? -1 then find now (id_key s (DTokenID d)) (contents (client s)) ≫= deadline else None).
  split; [|split; [by exists d'|]].
  - assert (Hh : holds (keyPrefix s) (idk (keyPrefix s) (DTokenID d)) (contents c !! id_key s (DTokenID d)) (with_client c s)) by done.
    rewrite Hc in Hh. cbn [doc_set snd] in Hh. rewrite lookup_insert_eq in Hh. cbn [doc_set fst]. keep.
  - intros Hlt. assert (Ht : time_sub (DExpiresAt d * Second) now = DExpiresAt d * Second - now) by (apply time_sub_small; unfold is_i64; lia).
    subst exp. rewrite Ht. destruct (Z.leb_spec (DExpiresAt d * Second - now) 0); [lia|].
    rewrite (proj2 (Z.ltb_lt 0 _)) by lia. eexists. split; [reflexivity|]. unfold milliseconds, Millisecond.
    pose proof (Z.mul_succ_div_gt (DExpiresAt d * Second - now) 1000000 ltac:(lia)). lia.
Qed.

#[global, refine] Instance redis_store_live : TokenStoreLive (RedisTokenStore C U) := { slack := Second + Millisecond }.
Proof.
  - done.
  - intros now now' d s s' Hstore _ Hsmall Hle Hlt. simpl in *. change s' with (Ok (E := auth_error) tt, s').2. rewrite <- Hstore.
    destruct (store_binds now d s Hsmall) as (j & dl & [Hp Hk] & (d' & Hd' & He) & Hdl).
    rewrite valid_exact. unfold id_key. rewrite Hp. change (keyPrefix s ++ "id:" ++ DTokenID d)%string with (idk (keyPrefix s) (DTokenID d)).
    unfold find. rewrite Hk. destruct Hdl as (t & -> & Ht); [unfold Second, Millisecond in *; lia|].
    unfold alive, deadline. rewrite (proj2 (Z.ltb_lt now' t)) by (unfold Second, Millisecond in *; lia).
    rewrite Hd', He. apply Z.lt_le_incl in Hlt. rewrite (proj2 (Z.ltb_ge _ _)); [done|].
    apply unix_le_iff. unfold Second, Millisecond in *; lia.
Defined.

End Reliable.

(** * Runs of a token store *)

Inductive token_op : Type :=
| OpStore (d : TokenData) | OpRevoke (id : string) | OpGet (id : string) | OpRefresh (r : string)
| OpValid (id : string) | OpCleanup | OpUser (id : string).

(** One call at its time. *)
Definition exec_op {S : Type} `{TokenStore S} (s : S) (o : Z * token_op) : S :=
  match o with
  | (now, OpStore d) => (StoreToken now d s).2
  | (now, OpRevoke id) => (RevokeStored now id s).2
  | (now, OpGet id) => (GetToken now id s).2
  | (now, OpRefresh r) => (GetTokenByRefresh now r s).2
  | (now, OpValid id) => (IsTokenValid now id s).2
  | (now, OpCleanup) => (CleanupExpiredTokens now s).2
  | (now, OpUser id) => (GetUserByID now id s).2
  end.

Definition exec_ops {S : Type} `{TokenStore S} (os : list (Z * token_op)) (s : S) : S := foldl exec_op s os.

(** In Redis, over a connection any of whose calls may fail, a token whose revocation has succeeded is not valid again, whatever calls follow and whenever, unless a token of the same identifier is stored. *)
Theorem redis_revocation_final `{StoreJson} {C U} `{ClientLaws C} `{UserCache U} now id os now' (s : RedisTokenStore C U) :
  (RevokeStored now id s).1 = Ok tt -> Forall (fun o => forall d, o.2 = OpStore d -> DTokenID d <> id) os ->
  (IsTokenValid now' id (exec_ops os (RevokeStored now id s).2)).1 <> Ok true.
Proof.
  intros Hr Hos. apply dead_invalid. generalize (RevokeStored now id s).2, (revoke_dead now id s Hr). clear Hr s.
  induction Hos as [|[t o] os Ho _ IH]; intros s Hd; [done|]. apply IH. simpl in Ho.
  destruct o; cbn [exec_op];
    [apply dead_store; eauto|by apply dead_revoke| |by apply dead_refresh|by apply dead_valid|by apply dead_cleanup|by apply dead_user].
  destruct (get_token_keeps _ _ _ t id0 s (conj eq_refl Hd)) as [Hp ?]. unfold dead. simpl. by rewrite Hp.
Qed.

Section Agreement.
Context `{StoreJson} {C U : Type} `{ClientReliable C} `{UserCache U}.

(** The entry of a token that does not count any more from the time [t] on. *)
Definition silent (t : Z) (o : option entry) : Prop :=
  match o with
  | None => True
  | Some {| value := RString j; deadline := dl |} =>
      (exists T, dl = Some T /\ T <= t) \/ exists d, token_of_json j = Some d /\ DExpiresAt d < unix t
  | Some {| value := RHash _ |} => False
  end.

Definition current (t : Z) (d : TokenData) (o : option entry) : Prop :=
  exists j dl d', o = Some {| value := RString j; deadline := dl |} /\ token_of_json j = Some d' /\
    DExpiresAt d' = DExpiresAt d /\
    (t < DExpiresAt d * Second -> exists T, dl = Some T /\ DExpiresAt d * Second < T + Millisecond).

(** What Redis holds for a token at the time [t], seen from the in-memory store. *)
Definition mirrors (t : Z) (o : option TokenData) (e : option entry) : Prop :=
  match o with
  | Some d => if Revoked d then silent t e else current t d e
  | None => silent t e
  end.

Definition related (id : string) (t : Z) (m : InMemoryTokenStore) (s : RedisTokenStore C U) : Prop :=
  mirrors t (tokens m !! id) (contents (client s) !! idk (keyPrefix s) id).

Lemma silent_later t t' o : t <= t' -> silent t o -> silent t' o.
Proof.
  intros Ht. destruct o as [[[j|h] dl]|]; simpl; [|done..]. intros [(T & -> & HT)|(d & Hd & Hlt)].
  - left. exists T. split; [done|lia].
  - right. exists d. split; [done|]. pose proof (unix_mono _ _ Ht). lia.
Qed.

Lemma mirrors_later t t' o e : t <= t' -> mirrors t o e -> mirrors t' o e.
Proof.
  intros Ht. destruct o as [d|]; simpl; [destruct (Revoked d)|]; eauto using silent_later.
  intros (j & dl & d' & -> & Hd & He & Hdl). exists j, dl, d'. split_and!; [done..|]. intros. apply Hdl. lia.
Qed.

(** What the check answers for a token that does not count any more. *)
Lemma silent_invalid t now id (s : RedisTokenStore C U) : t <= now ->
  silent t (contents (client s) !! idk (keyPrefix s) id) -> (valid_redis now id s).1 = Ok false.
Proof.
  intros Ht Hs%(silent_later _ _ _ Ht). rewrite valid_exact. unfold find, id_key. unfold idk in Hs.
  destruct (contents (client s) !! _) as [[[j|h] dl]|]; simpl in Hs; [|done..]. unfold alive. cbn [deadline].
  destruct Hs as [(T & -> & HT)|(d & Hd & Hlt)].
  - by rewrite (proj2 (Z.ltb_ge now T)).
  - destruct (match dl with None => true | Some _ => _ end); [|done]. rewrite Hd. by rewrite (proj2 (Z.ltb_lt _ _)).
Qed.

(** A query that does not fall into the last second of a token's life. *)
Definition clear_of (now : Z) (o : option TokenData) : Prop :=
  match o with
  | None => True
  | Some d => now + Second + Millisecond < (DExpiresAt d + 1) * Second \/ DExpiresAt d < unix now
  end.

Lemma related_valid t now id m (s : RedisTokenStore C U) : t <= now -> related id t m s -> clear_of now (tokens m !! id) ->
  (valid_redis now id s).1 = Ok (is_token_valid now id m).
Proof.
  intros Ht Hrel Hc. unfold related in Hrel. unfold is_token_valid. destruct (tokens m !! id) as [d|]; simpl in *;
    [destruct (Revoked d)|]; [by eapply silent_invalid| |by eapply silent_invalid].
  destruct Hrel as (j & dl & d' & Hk & Hd & He & Hdl). rewrite valid_exact. unfold find, id_key. unfold idk in Hk. rewrite Hk.
  destruct (Z.ltb_spec (DExpiresAt d) (unix now)) as [Hlt|Hge].
  - destruct (alive _ _); [|done]. rewrite Hd, He. by rewrite (proj2 (Z.ltb_lt _ _)).
  - destruct Hc as [Hc|Hc]; [|lia]. destruct Hdl as (T & -> & HT); [unfold Second, Millisecond in *; lia|].
    unfold alive, deadline. rewrite (proj2 (Z.ltb_lt now T)) by (unfold Second, Millisecond in *; lia).
    rewrite Hd, He. by rewrite (proj2 (Z.ltb_ge _ _)).
Qed.

Lemma revoke_keeps_other p id o now id' (s : RedisTokenStore C U) : id <> id' ->
  holds p (idk p id) o s -> holds p (idk p id) o (revoke_redis now id' s).2.
Proof.
  intros Hne Hs. unfold revoke_redis. pose proof (get_token_keeps _ _ _ now id' _ Hs) as Hg.
  destruct (get_token now id' s) as [[d|e] s']; [|done]. keep.
Qed.

(** Revoking removes the entry if there is one to be read, and else leaves it. *)
Lemma revoke_effect now id (s : RedisTokenStore C U) :
  holds (keyPrefix s) (idk (keyPrefix s) id) None (revoke_redis now id s).2 \/
  (holds (keyPrefix s) (idk (keyPrefix s) id) (contents (client s) !! idk (keyPrefix s) id) (revoke_redis now id s).2 /\
   forall j dl d, find now (id_key s id) (contents (client s)) = Some {| value := RString j; deadline := dl |} ->
                  token_of_json j <> Some d).
Proof.
  pose proof (get_token_keeps (keyPrefix s) (idk (keyPrefix s) id) _ now id s (conj eq_refl eq_refl)) as Hg.
  unfold revoke_redis. destruct (get_token now id s) as [[d|e] s'] eqn:E; simpl in Hg.
  - left. destruct (call_exact (Del now [id_key s' id]) _ s' (del_exact now _ _)) as (c & -> & Hc). cbn [doc_del fst].
    assert (holds (keyPrefix s) (idk (keyPrefix s) id) None (with_client c s')); [|keep].
    destruct Hg as [Hp _]. split; [done|]. cbn [client with_client]. rewrite Hc. apply delete_all_eq. unfold idk, id_key. rewrite Hp. by left.
  - right. split; [done|]. intros j dl d Hf Hj. unfold get_token in E.
    destruct (call_exact (Get now (id_key s id)) _ s (get_exact now _ _)) as (c & Hcall & _). rewrite Hcall in E.
    unfold doc_get in E. rewrite Hf in E. cbn [fst] in E. by rewrite Hj in E.
Qed.

(** One call, later, on both stores. *)
Lemma related_step id t now o m (s : RedisTokenStore C U) : t <= now ->
  (forall d, o = OpStore d -> DTokenID d = id -> Revoked d = false /\ DExpiresAt d * Second - now < 2 ^ 63) ->
  related id t m s -> related id now (exec_op m (now, o)) (exec_op s (now, o)).
Proof.
  intros Ht Hwf Hrel. pose proof (mirrors_later _ _ _ _ Ht Hrel) as Hid.
  pose (mine := fun (s' : RedisTokenStore C U) =>
    holds (keyPrefix s) (idk (keyPrefix s) id) (contents (client s) !! idk (keyPrefix s) id) s').
  assert (Hself : mine s) by done.
  assert (Hkeep : forall s', mine s' -> mirrors now (tokens m !! id) (contents (client s') !! idk (keyPrefix s') id)).
  { intros s' [-> ->]. done. }
  unfold related. destruct o as [d|id'|id'|r|id'| |u]; cbn [exec_op StoreToken RevokeStored GetToken GetTokenByRefresh IsTokenValid
    CleanupExpiredTokens GetUserByID redis_store in_memory_store snd].
  - cbn [store_token tokens]. destruct (decide (id = DTokenID d)) as [->|Hne].
    + destruct (Hwf d eq_refl eq_refl) as [Hrev Hsmall]. rewrite lookup_insert_eq. simpl. rewrite Hrev.
      destruct (store_binds now d s Hsmall) as (j & dl & [-> ->] & (d' & Hd' & He) & Hdl). by exists j, dl, d'.
    + rewrite lookup_insert_ne by done. apply Hkeep. by apply store_keeps.
  - unfold revoke_stored. destruct (decide (id = id')) as [<-|Hne].
    + assert (Hs : silent now (contents (client (revoke_redis now id s).2) !! idk (keyPrefix (revoke_redis now id s).2) id)).
      { destruct (revoke_effect now id s) as [[-> ->]|[[-> ->] Hno]]; [done|].
        destruct (tokens m !! id) as [d|]; simpl in Hid; [destruct (Revoked d)|]; [done| |done].
        destruct Hid as (j & dl & d' & Hk & Hd' & _). rewrite Hk. simpl. left.
        destruct (alive now {| value := RString j; deadline := dl |}) eqn:Ha.
        - exfalso. eapply (Hno j dl d'), Hd'. unfold find, id_key. unfold idk in Hk. by rewrite Hk, Ha.
        - unfold alive in Ha. simpl in Ha. destruct dl as [T|]; [|done]. exists T. split; [done|]. by apply Z.ltb_ge. }
      destruct (tokens m !! id) as [d|] eqn:Em; simpl; [by rewrite lookup_insert_eq|by rewrite Em].
    + replace (tokens (match tokens m !! id' with None => _ | Some d => _ end).2 !! id) with (tokens m !! id)
        by (destruct (tokens m !! id'); simpl; [by rewrite lookup_insert_ne|done]).
      apply Hkeep. by apply revoke_keeps_other.
  - apply Hkeep. by apply get_token_keeps.
  - apply Hkeep. by apply refresh_keeps.
  - apply Hkeep. by apply valid_keeps.
  - cbn [cleanup_tokens tokens]. rewrite map_lookup_filter. destruct (tokens m !! id) as [d|]; simpl in *; [|done].
    case_guard as Es; simpl; [done|]. unfold stale in Es. destruct (Revoked d); [done|].
    rewrite orb_false_r in Es. apply not_false_iff_true, Z.ltb_lt in Es. destruct Hid as (j & dl & d' & -> & Hd & He & _).
    right. exists d'. split; [done|]. lia.
  - apply Hkeep. by apply get_user_keeps.
Qed.

(** Calls in the order of time, of which none stores the token as already revoked or with
    an expiry beyond the range of a duration. *)
Fixpoint timed (id : string) (t : Z) (os : list (Z * token_op)) : Prop :=
  match os with
  | [] => True
  | (now, o) :: os =>
      t <= now /\ (forall d, o = OpStore d -> DTokenID d = id -> Revoked d = false /\ DExpiresAt d * Second - now < 2 ^ 63) /\ timed id now os
  end.

(** The time of the last call. *)
Definition end_time (t : Z) (os : list (Z * token_op)) : Z := foldl (fun _ o => o.1) t os.

Lemma related_run id os : forall t m (s : RedisTokenStore C U), timed id t os -> related id t m s ->
  related id (end_time t os) (exec_ops os m) (exec_ops os s).
Proof.
  induction os as [|[now o] os IH]; intros t m s Ht Hrel; [done|]. destruct Ht as (Hle & Hwf & Ht).
  apply (IH now); [done|]. by eapply related_step.
Qed.

End Agreement.

(** C3: over a reliable connection the Redis store is equivalent to the in-memory one on every token that is never stored as already revoked or with an expiry beyond the range of a duration (the token manager marks no new token, and Redis ignores the mark), whatever is stored of other tokens: started without the token, after the same calls in the order of time both give the same answer on its validity, except in the last second (and millisecond) before its expiry, for which Redis need not keep it. *)
Theorem redis_agrees_with_memory `{StoreJson} {C U} `{ClientReliable C} `{UserCache U} t os now id (s : RedisTokenStore C U) :
  contents (client s) !! idk (keyPrefix s) id = None -> timed id t os -> end_time t os <= now ->
  clear_of now (tokens (exec_ops os NewInMemoryTokenStore) !! id) ->
  (IsTokenValid now id (exec_ops os s)).1 = (IsTokenValid now id (exec_ops os NewInMemoryTokenStore)).1.
Proof.
  intros Hempty Ht Hnow Hclear. simpl. apply (related_valid _ _ _ _ _ Hnow); [|done].
  apply related_run; [done|]. unfold related. by rewrite Hempty.
Qed.

(** * Deleting a user *)
Section Deletion.
Context `{StoreJson} {C U : Type} `{ClientReliable C} `{UserCache U}.
Implicit Type s : RedisTokenStore C U.

(** An entry from which no token is read from the time [now] on. *)
Definition unreadable (now : Z) (o : option entry) : Prop :=
  forall e j, o = Some e -> alive now e = true -> value e = RString j -> token_of_json j = None.

Definition gone (p : string) (now : Z) (id : string) s : Prop :=
  keyPrefix s = p /\ unreadable now (contents (client s) !! idk p id).

Lemma alive_earlier now t e : now <= t -> alive t e = true -> alive now e = true.
Proof. unfold alive. destruct (deadline e) as [T|]; [|done]. rewrite !Z.ltb_lt. lia. Qed.

Lemma gone_invalid p now t id s : now <= t -> gone p now id s -> (valid_redis t id s).1 <> Ok true.
Proof.
  intros Ht [<- Hu]. rewrite valid_exact. unfold find, id_key. unfold idk, unreadable in Hu.
  destruct (contents (client s) !! _) as [e|]; [|done]. destruct (alive t e) eqn:Ha; [|done].
  destruct e as [[j|h] dl]; [|done]. rewrite (Hu _ j eq_refl); [done| |done]. by eapply alive_earlier.
Qed.

Lemma delete_all_cases {A} (k : string) ks (m : gmap string A) : foldr delete m ks !! k = m !! k \/ foldr delete m ks !! k = None.
Proof. destruct (decide (k ∈ ks)); [right; by apply delete_all_eq|left; by apply delete_all_ne]. Qed.

(** Deleting keys answers without an error and brings no token back. *)
Lemma del_call now ks s : exists s', call (Del now ks) s = (Ok tt, s') /\ contents (client s') = foldr delete (contents (client s)) ks /\
  keyPrefix s' = keyPrefix s /\ userCache s' = userCache s /\ enableCache s' = enableCache s.
Proof.
  destruct (call_exact (Del now ks) _ s (del_exact now _ _)) as (c & -> & Hc). by exists (with_client c s).
Qed.

Lemma gone_deleted p now id ks s s' : contents (client s') = foldr delete (contents (client s)) ks -> keyPrefix s' = keyPrefix s ->
  gone p now id s -> gone p now id s'.
Proof.
  intros Hc Hp [<- Hu]. split; [done|]. rewrite Hc. destruct (delete_all_cases (idk (keyPrefix s) id) ks (contents (client s))) as [-> | ->]; [done|].
  by intros e j.
Qed.

Lemma get_token_state now id s :
  exists s', (get_token now id s).2 = s' /\ contents (client s') = contents (client s) /\ keyPrefix s' = keyPrefix s /\
    userCache s' = userCache s /\ enableCache s' = enableCache s.
Proof.
  unfold get_token. destruct (call_exact (Get now (id_key s id)) _ s (get_exact now _ _)) as (c & -> & Hc). cbn [doc_get fst snd] in *.
  exists (with_client c s). split; [|done]. destruct (match find _ _ _ with None => _ | Some _ => _ end); [|done]. by destruct (token_of_json _).
Qed.

Lemma get_token_error now id s e : (get_token now id s).1 = Err e -> gone (keyPrefix s) now id s.
Proof.
  intros He. split; [done|]. intros e' j Hk Ha Hv. unfold get_token in He.
  destruct (call_exact (Get now (id_key s id)) _ s (get_exact now _ _)) as (c & Hcall & _). rewrite Hcall in He.
  unfold doc_get, find, id_key in He. unfold idk in Hk. rewrite Hk, Ha in He. destruct e' as [v dl]. simpl in Hv. subst v.
  cbn [fst] in He. by destruct (token_of_json j).
Qed.

Lemma delete_tokens_gone now ids : forall s, exists s', delete_tokens now ids s = (Ok tt, s') /\
  (forall id, id ∈ ids \/ gone (keyPrefix s) now id s -> gone (keyPrefix s) now id s') /\
  keyPrefix s' = keyPrefix s /\ userCache s' = userCache s /\ enableCache s' = enableCache s.
Proof.
  induction ids as [|id ids IH]; intros s.
  { exists s. split; [done|]. split; [|done]. intros id [Hid|Hg]; [by apply elem_of_nil in Hid|done]. }
  cbn [delete_tokens]. destruct (get_token_state now id s) as (s1 & Hs1 & Hc1 & Hp1 & Hu1 & He1).
  pose proof (get_token_error now id s) as Herr.
  assert (Hsame : forall i, gone (keyPrefix s) now i s -> gone (keyPrefix s) now i s1).
  { intros i [_ Hu]. split; [done|]. by rewrite Hc1. }
  destruct (get_token now id s) as [[d|e] s1'] eqn:E; simpl in Hs1; subst s1'.
  - destruct (del_call now [id_key s1 id] s1) as (s2 & -> & Hc2 & Hp2 & Hu2 & He2).
    assert (exists s3, (if bool_decide (DRefreshToken d = "") then (Ok (E := string) tt, s2)
                        else call (Del now [refresh_key s2 (DRefreshToken d)]) s2) = (Ok tt, s3) /\
              (forall i, gone (keyPrefix s) now i s2 -> gone (keyPrefix s) now i s3) /\
              keyPrefix s3 = keyPrefix s2 /\ userCache s3 = userCache s2 /\ enableCache s3 = enableCache s2) as (s3 & -> & Hg3 & Hp3 & Hu3 & He3).
    { case_bool_decide; [by exists s2|]. destruct (del_call now [refresh_key s2 (DRefreshToken d)] s2) as (s3 & -> & Hc3 & ? & ? & ?).
      exists s3. split; [done|]. split; [|done]. intros i. by apply gone_deleted with (ks := [refresh_key s2 (DRefreshToken d)]). }
    destruct (IH s3) as (s' & -> & Hg & Hp' & Hu' & He'). exists s'. split; [done|]. split; [|by rewrite Hp', Hu', He', Hp3, Hu3, He3, Hp2, Hu2, He2].
    rewrite Hp3, Hp2, Hp1 in Hg. intros i Hi. apply Hg. destruct Hi as [[->|Hi]%elem_of_cons|Hi]; [right|by left|right].
    + apply Hg3. split; [congruence|]. rewrite Hc2. unfold idk, id_key. rewrite Hp1. by rewrite delete_all_eq by by left.
    + apply Hg3. eapply gone_deleted; [done..|]. by apply Hsame.
  - destruct (IH s1) as (s' & -> & Hg & Hp' & Hu' & He'). exists s'. split; [done|]. rewrite Hp1 in Hg.
    split; [|by rewrite Hp', Hu', He']. intros i Hi. apply Hg. destruct Hi as [[->|Hi]%elem_of_cons|Hi]; [right|by left|right].
    + apply Hsame. by apply (Herr e).
    + by apply Hsame.
Qed.

End Deletion.

Lemma get_user_missing `{StoreJson} {C U} `{ClientReliable C} `{UserCache U} now u (s : RedisTokenStore C U) :
  (enableCache s = true -> GetUser u (userCache s) = None) -> contents (client s) !! user_data_key s u = None ->
  (get_user now u s).1 = Err ErrOther.
Proof.
  intros Hcache Hk. unfold get_user.
  assert (E : (if enableCache s then GetUser u (userCache s) else None) = None) by (destruct (enableCache s); auto).
  rewrite E. destruct (call_exact (Get now (user_data_key s u)) _ s (get_exact now _ _)) as (c & -> & _).
  unfold doc_get. by rewrite find_None.
Qed.

(** Over a reliable connection, once a user has been deleted no token listed for the user is valid any more, and the user is not found. *)
Theorem delete_user_revokes `{StoreJson} {C} `{ClientReliable C} range now u (s : RedisTokenStore C SimpleUserCache) h dl :
  (forall m, range m ≡ₚ (map_to_list m).*1) ->
  find now (user_key s u) (contents (client s)) = Some {| value := RHash h; deadline := dl |} ->
  exists s', DeleteUser range now u s = (Ok tt, s') /\
    (forall id t, is_Some (h !! id) -> now <= t -> (IsTokenValid t id s').1 <> Ok true) /\
    (forall t, (GetUserByID t u s').1 = Err ErrOther).
Proof.
  intros Hrange Hh. unfold DeleteUser.
  destruct (call_exact (HGetAll now (user_key s u)) _ s (hgetall_exact now _ _)) as (c & -> & Hc).
  unfold doc_hgetall in Hc |- *. rewrite Hh. cbn [fst snd] in Hc |- *.
  destruct (delete_tokens_gone now (range h) (with_client c s)) as (s1 & -> & Hgone & Hp1 & Hu1 & He1).
  destruct (del_call now [user_key s1 u] s1) as (s2 & -> & Hc2 & Hp2 & Hu2 & He2).
  destruct (del_call now [user_data_key s2 u] s2) as (s3 & -> & Hc3 & Hp3 & Hu3 & He3).
  eexists. split; [reflexivity|]. split.
  - intros id t [x Hid] Ht. assert (Hg : gone (keyPrefix s) now id s3).
    { eapply gone_deleted; [done|done|]. eapply gone_deleted; [done|done|]. apply Hgone. left. rewrite Hrange.
      apply list_elem_of_fmap. exists (id, x). split; [done|]. by apply elem_of_map_to_list. }
    simpl. eapply (gone_invalid (keyPrefix s) now); [done|]. by destruct (enableCache s3).
  - intros t. simpl.
    assert (Hmiss : contents (client s3) !! user_data_key s3 u = None).
    { rewrite Hc3. apply delete_all_eq. unfold user_data_key. rewrite Hp3. by left. }
    apply get_user_missing; destruct (enableCache s3) eqn:Hen; simpl; try done; [by rewrite lookup_delete_eq|congruence].
Qed.

(** A user stored over a reliable connection is read back as it was: from the cache for ever, else until the store's expiration. *)
Theorem stored_user_read_back `{StoreJson} {C} `{ClientReliable C} now t u (s s' : RedisTokenStore C SimpleUserCache) :
  json_user u -> 0 < expiration s -> store_user now u s = (Ok tt, s') ->
  enableCache s = true \/ t < now + milliseconds (expiration s) -> (GetUserByID t (ID u) s').1 = Ok u.
Proof.
  intros Hu Hpos Hs Ht. unfold store_user in Hs. destruct (user_json_roundtrip u Hu) as (j & Hj & Hback). rewrite Hj in Hs.
  destruct (call_exact (Set_ now (user_data_key s (ID u)) j (expiration s)) _ s (set_exact now _ _ _ _)) as (c & Hcall & Hc).
  rewrite Hcall in Hs. cbn [doc_set fst] in Hs. injection Hs as <-. simpl. unfold get_user.
  cbn [enableCache with_client]. destruct (enableCache s) eqn:Hen; cbn [enableCache with_cache with_client].
  - rewrite Hen. simpl. by rewrite lookup_insert_eq.
  - rewrite Hen. destruct Ht as [|Ht]; [done|].
    destruct (call_exact (Get t (user_data_key (with_client c s) (ID u))) _ (with_client c s) (get_exact t _ _)) as (c' & -> & _).
    unfold doc_get. cbn [client with_client]. rewrite Hc. cbn [doc_set snd].
    change (user_data_key (with_client c s) (ID u)) with (user_data_key s (ID u)). rewrite find_insert. unfold alive. cbn [deadline].
    rewrite (proj2 (Z.ltb_lt 0 _) Hpos). rewrite (proj2 (Z.ltb_lt t _) Ht). simpl. by rewrite Hback.
Qed.

(** Over a reliable connection an identifier added to the blacklist is on it from then on until its expiration, in whole milliseconds, and no longer; removing it takes it off at once. *)
Theorem blacklisted_until_expiry {C} `{ClientReliable C} now t id d (b : RedisBlacklist C) :
  0 < d -> exists b1 b2, AddToBlacklist now id d b = (Ok tt, b1) /\
    (IsBlacklisted t id b1).1 = Ok (t <? now + milliseconds d) /\
    RemoveFromBlacklist now id b1 = (Ok tt, b2) /\ (IsBlacklisted t id b2).1 = Ok false.
Proof.
  intros Hd. cbn [AddToBlacklist RemoveFromBlacklist IsBlacklisted redis_blacklist]. unfold blacklisted_redis, bcall.
  destruct (set_exact now (entry_key b id) "1" d (bclient b)) as [Hr Hc]. destruct (Set_ _ _ _ _ _) as [r c]. simpl in Hr, Hc. subst r.
  set (b1 := {| bclient := c; bkeyPrefix := bkeyPrefix b |}).
  destruct (del_exact now [entry_key b1 id] (bclient b1)) as [Hr Hc']. destruct (Del _ _ _) as [r c'] eqn:Ed. simpl in Hr, Hc'. subst r.
  set (b2 := {| bclient := c'; bkeyPrefix := bkeyPrefix b1 |}).
  exists b1, b2. split; [done|]. rewrite Ed. split; [|split; [done|]].
  - destruct (get_exact t (entry_key b1 id) (bclient b1)) as [Hg _]. destruct (Get _ _ _) as [r ?]. simpl in Hg. subst r. subst b1.
    cbn [bclient]. unfold doc_get. rewrite Hc, find_insert. unfold alive. cbn [deadline]. rewrite (proj2 (Z.ltb_lt 0 d) Hd).
    by destruct (t <? _).
  - destruct (get_exact t (entry_key b2 id) (bclient b2)) as [Hg _]. destruct (Get _ _ _) as [r ?]. simpl in Hg. subst r.
    unfold doc_get. subst b2. cbn [bclient]. rewrite Hc'. by rewrite find_None by (apply lookup_delete_eq).
Qed.

(** * A concrete encoding, for the witnesses *)

Fixpoint bits (p : positive) : string :=
  match p with xH => EmptyString | xO p => String "0" (bits p) | xI p => String "1" (bits p) end.

Fixpoint unbits (s : string) : positive :=
  match s with EmptyString => xH | String c s => if Ascii.eqb c "0" then xO (unbits s) else xI (unbits s) end.

Lemma unbits_bits p : unbits (bits p) = p.
Proof. induction p; simpl; congruence. Qed.

#[refine] Definition bits_json : StoreJson := {|
  token_json d := Some (bits (encode (DAccessToken d, DRefreshToken d, DUserID d, DExpiresAt d, DTokenID d, Revoked d, CreatedAt d)));
  token_of_json s :=
    t ← decode (A := string * string * string * Z * string * bool * Z) (unbits s);
    let '(a, r, u, e, i, v, c) := t in
    Some {| DAccessToken := a; DRefreshToken := r; DUserID := u; DExpiresAt := e; DTokenID := i; Revoked := v; CreatedAt := c |};
  user_json u := Some (bits (encode (ID u, Username u, Roles u, Permissions u, map_to_list (Metadata u))));
  user_of_json s :=
    t ← decode (A := string * string * list string * list string * list (string * string)) (unbits s);
    let '(i, n, r, p, m) := t in
    Some {| ID := i; Username := n; Roles := r; Permissions := p; Metadata := list_to_map m |};
  json_user _ := True |}.
Proof.
  - done.
  - intros d s [= <-]. rewrite unbits_bits, decode_encode. simpl. by eexists.
  - intros u _. eexists. split; [done|]. rewrite unbits_bits, decode_encode. simpl. rewrite list_to_map_to_list. by destruct u.
Defined.

Definition fresh_store {C : Type} (c : C) : RedisTokenStore C SimpleUserCache :=
  {| client := c; keyPrefix := "token:"; expiration := Hour; userCache := NewSimpleUserCache; enableCache := false |}.

Definition session : TokenData :=
  {| DAccessToken := "a"; DRefreshToken := "r"; DUserID := "u"; DExpiresAt := 60; DTokenID := "id"; Revoked := false; CreatedAt := 0 |}.

#[local] Existing Instance bits_json.

(** A store with the session, over a given connection. *)
Definition with_session {C : Type} `{Client C} (c : C) : RedisTokenStore C SimpleUserCache :=
  (store_redis 0 session (fresh_store c)).2.

(** The connection loses the sixth command, the second one of the deletion. *)
Definition unstable : Flaky := {| schedule := [None; None; None; None; None; Some false]; server := ∅ |}.

Definition stable : Flaky := {| schedule := []; server := ∅ |}.

Definition any_order (m : gmap string string) : list string := (map_to_list m).*1.

(** A fault that hides a token from [DeleteUser] leaves the token valid, although
    the deletion reports success. *)
Example delete_user_misses_token :
  (DeleteUser any_order 1 "u" (with_session unstable)).1 = Ok tt /\
  (valid_redis 2 "id" (DeleteUser any_order 1 "u" (with_session unstable)).2).1 = Ok true.
Proof. vm_compute. done. Qed.

Definition afterwards : list (Z * token_op) := [(2, OpCleanup); (2, OpRefresh "r"); (3, OpRevoke "id")].

Lemma redis_revocation_final_witness :
  (IsTokenValid 4 "id" (exec_ops afterwards (RevokeStored 1 "id" (with_session stable)).2)).1 <> Ok true.
Proof.
  apply (redis_revocation_final 1 "id" afterwards 4 (with_session stable)); [vm_compute; reflexivity|].
  repeat constructor; intros d Hd; discriminate Hd.
Defined.

Definition shared_calls : list (Z * token_op) := [(0, OpStore session); (1, OpGet "id"); (Second, OpRevoke "id")].

Lemma redis_agrees_with_memory_witness :
  (IsTokenValid Second "id" (exec_ops shared_calls (fresh_store (∅ : keyspace)))).1 =
  (IsTokenValid Second "id" (exec_ops shared_calls NewInMemoryTokenStore)).1.
Proof.
  apply (redis_agrees_with_memory 0 shared_calls Second "id" (fresh_store (∅ : keyspace))).
  - done.
  - split; [lia|]. split; [intros d [= <-] _; split; [done|vm_compute; reflexivity]|].
    split; [lia|]. split; [done|]. split; [unfold Second; lia|]. done.
  - vm_compute. discriminate.
  - vm_compute. by left.
Defined.

(** A token that is stored as revoked is invalid in memory and valid in Redis. *)
Definition stored_revoked : TokenData :=
  {| DAccessToken := "a"; DRefreshToken := "r"; DUserID := "u"; DExpiresAt := 60; DTokenID := "id"; Revoked := true; CreatedAt := 0 |}.

Example revoked_mark_ignored :
  (IsTokenValid 1 ("id") (exec_ops [(0, OpStore stored_revoked)] (fresh_store (∅ : keyspace)))).1 = Ok true /\
  (IsTokenValid 1 ("id") (exec_ops [(0, OpStore stored_revoked)] NewInMemoryTokenStore)).1 = Ok false.
Proof. split; vm_compute; reflexivity. Qed.

Lemma delete_user_revokes_witness :
  exists s', DeleteUser any_order 1 "u" (with_session (∅ : keyspace)) = (Ok tt, s') /\
    (forall id t, is_Some (({["id" := "1"]} : gmap string string) !! id) -> 1 <= t -> (IsTokenValid t id s').1 <> Ok true) /\
    (forall t, (GetUserByID t "u" s').1 = Err ErrOther).
Proof.
  apply (delete_user_revokes any_order 1 "u" (with_session (∅ : keyspace)) {["id" := "1"]} (Some Hour));
    [done|vm_compute; reflexivity].
Defined.

Definition bob : User := {| ID := "u"; Username := "bob"; Roles := ["r"]; Permissions := []; Metadata := {["k" := "v"]} |}.

Lemma stored_user_read_back_witness :
  (GetUserByID Minute "u" (store_user 0 bob (fresh_store (∅ : keyspace))).2).1 = Ok bob.
Proof.
  apply (stored_user_read_back 0 Minute bob (fresh_store (∅ : keyspace)));
    [done|vm_compute; reflexivity|vm_compute; reflexivity|right; vm_compute; reflexivity].
Defined.

Lemma blacklisted_until_expiry_witness :
  exists b1 b2, AddToBlacklist 0 "id" Second (NewRedisBlacklist (∅ : keyspace) "") = (Ok tt, b1) /\
    (IsBlacklisted 5 "id" b1).1 = Ok (5 <? milliseconds Second) /\
    RemoveFromBlacklist 0 "id" b1 = (Ok tt, b2) /\ (IsBlacklisted 5 "id" b2).1 = Ok false.
Proof. apply (blacklisted_until_expiry 0 5 "id" Second (NewRedisBlacklist (∅ : keyspace) "")). reflexivity. Defined.
