(* ===== verification/Backpressure.v ===== *)
(** The back-pressure of streams of [src/internal/stream/backpressure.go].

    The interceptor's two maps are shared by all streams. [SendMsg] releases the
    interceptor's mutex between its reads and its updates, so that it is a state
    machine: the program counter [pc] of a stream is the next critical section (or
    wait) of the call that holds the stream's [sendLock]. *)
From S2P Require Import Prelude Float64.

(** * Data *)

Record BackpressureOptions : Type := {
  MaxBufferSize : Z; HighWatermarkPct : float64; LowWatermarkPct : float64;
  WaitTimeout : Z; ThrottleFactor : float64; BlockOnFull : bool }.

Definition DefaultBackpressureOptions : BackpressureOptions :=
  {| MaxBufferSize := 1000; HighWatermarkPct := lit 8 10; LowWatermarkPct := lit 5 10;
     WaitTimeout := 5 * Second; ThrottleFactor := lit 5 10; BlockOnFull := true |}.

Record BackpressureInterceptor : Type := {
  opts : BackpressureOptions; currentLoads : gmap string Z; activeStreams : gmap string Z }.

Definition NewBackpressureInterceptor (o : BackpressureOptions) : BackpressureInterceptor :=
  {| opts := o; currentLoads := ∅; activeStreams := ∅ |}.

(** Reading an absent key of a Go map of integers gives zero. *)
Definition at_key (m : gmap string Z) (k : string) : Z := default 0 (m !! k).

(** [m[k]++] and [m[k]--] *)
Definition incr (k : string) (m : gmap string Z) : gmap string Z := <[k := i64 (at_key m k + 1)]> m.
Definition decr (k : string) (m : gmap string Z) : gmap string Z := <[k := i64 (at_key m k - 1)]> m.

Definition set_loads (m : gmap string Z) (b : BackpressureInterceptor) : BackpressureInterceptor :=
  {| opts := opts b; currentLoads := m; activeStreams := activeStreams b |}.

(** The critical section before the handler of a server stream. *)
Definition begin_stream (m : string) (b : BackpressureInterceptor) : BackpressureInterceptor :=
  {| opts := opts b; currentLoads := currentLoads b; activeStreams := incr m (activeStreams b) |}.

(** The deferred critical section after the handler. *)
Definition end_stream (m : string) (b : BackpressureInterceptor) : BackpressureInterceptor :=
  let active := decr m (activeStreams b) in
  if at_key active m <=? 0
  then {| opts := opts b; currentLoads := delete m (currentLoads b); activeStreams := delete m active |}
  else {| opts := opts b; currentLoads := currentLoads b; activeStreams := active |}.

(** * Sending *)

Inductive side : Type := Server | Client.
#[export] Instance side_eq_dec : EqDecision side.
Proof. solve_decision. Defined.

(** What [SendMsg] returns: its own two errors, or the answer of the wrapped
    stream ([None] is the nil error). *)
Inductive send_result : Type :=
| ErrBufferFull (s : side)
| ErrWaitTimeout (s : side)
| FromStream (err : option string).

Inductive pc : Type :=
| Ready (last : option send_result)          (* no call, or the last one returned *)
| AtRead                                     (* sendLock held *)
| AtWait (deadline next_poll : Z)            (* the select of the waiting loop *)
| AtSleep (until : Z)
| AtIncrement
| AtSend
| AtDecrement (err : option string).

Section Watermarks.
  Context `{GoImpl}.

(** [int(float64(maxBuffer) * HighWatermarkPct)] *)
Definition high_watermark (o : BackpressureOptions) : Z :=
  to_i64 (fmul (of_int (MaxBufferSize o)) (HighWatermarkPct o)).

(** [shouldThrottle], the clock's nanosecond field given. *)
Definition shouldThrottle (nanosecond : Z) (factor : float64) : bool :=
  fgt (fdiv (of_int (Z.rem nanosecond 1000)) (of_int 1000)) factor.

(** The read of the load and the decision that follows. *)
Definition decide_send (sd : side) (m : string) (now : Z) (b : BackpressureInterceptor) : pc :=
  let currentLoad := at_key (currentLoads b) m in
  let maxBuffer := MaxBufferSize (opts b) in
  if currentLoad >=? high_watermark (opts b) then
    if currentLoad >=? maxBuffer then
      if BlockOnFull (opts b)
      then AtWait (now + WaitTimeout (opts b)) (now + 10 * Millisecond)
      else Ready (Some (ErrBufferFull sd))
    else if shouldThrottle (now mod Second) (ThrottleFactor (opts b))
         then AtSleep (now + 10 * Millisecond) else AtIncrement
  else AtIncrement.

(** One turn of the waiting loop after its timer fired: the load is read again;
    the [break] under the condition leaves the [select], and the loop goes on. *)
Definition poll (deadline now : Z) (m : string) (b : BackpressureInterceptor) : pc :=
  let currentLoad := at_key (currentLoads b) m in
  if currentLoad <? high_watermark (opts b)
  then AtWait deadline (now + 10 * Millisecond)
  else AtWait deadline (now + 10 * Millisecond).

(** * Streams and their steps *)

Record stream : Type := { sd : side; method : string; at_pc : pc; open : bool }.

Record system : Type := { ic : BackpressureInterceptor; streams : list stream }.

Definition set_pc (p : pc) (s : stream) : stream :=
  {| sd := sd s; method := method s; at_pc := p; open := open s |}.

Definition close_stream (s : stream) : stream :=
  {| sd := sd s; method := method s; at_pc := at_pc s; open := false |}.

(** What can happen: a stream is opened by an interceptor (a client stream by
    a streamer that succeeded), the handler of a server stream returns, or a stream
    moves. *)
Inductive event : Type :=
| Open (s : side) (m : string)
| Return (i : nat)
| Call (i : nat)
| Read (i : nat) (now : Z)
| Tick (i : nat) (now : Z)
| Timeout (i : nat) (now : Z)
| Wake (i : nat) (now : Z)
| Increment (i : nat)
| Send (i : nat) (err : option string)
| Decrement (i : nat).

#[export] Instance event_eq_dec : EqDecision event.
Proof. solve_decision. Defined.

(** The step of one stream, [None] when it is not the stream's next one. *)
Definition move (e : event) (s : stream) (b : BackpressureInterceptor)
  : option (stream * BackpressureInterceptor) :=
  match e, at_pc s with
  | Return _, _ =>
      if decide (sd s = Server /\ open s = true)
      then Some (close_stream s, end_stream (method s) b) else None
  | Call _, Ready _ => Some (set_pc AtRead s, b)
  | Read _ now, AtRead => Some (set_pc (decide_send (sd s) (method s) now b) s, b)
  | Tick _ now, AtWait deadline next =>
      if next <=? now then Some (set_pc (poll deadline now (method s) b) s, b) else None
  | Timeout _ now, AtWait deadline _ =>
      if deadline <=? now then Some (set_pc (Ready (Some (ErrWaitTimeout (sd s)))) s, b) else None
  | Wake _ now, AtSleep until => if until <=? now then Some (set_pc AtIncrement s, b) else None
  | Increment _, AtIncrement => Some (set_pc AtSend s, set_loads (incr (method s) (currentLoads b)) b)
  | Send _ err, AtSend => Some (set_pc (AtDecrement err) s, b)
  | Decrement _, AtDecrement err =>
      Some (set_pc (Ready (Some (FromStream err))) s, set_loads (decr (method s) (currentLoads b)) b)
  | _, _ => None
  end.

Definition stream_of (e : event) : option nat :=
  match e with
  | Open _ _ => None
  | Return i | Call i | Read i _ | Tick i _ | Timeout i _ | Wake i _ | Increment i | Send i _ | Decrement i => Some i
  end.

Definition step (e : event) (s : system) : option system :=
  match e with
  | Open sd m =>
      Some {| ic := match sd with Server => begin_stream m (ic s) | Client => ic s end;
              streams := streams s ++ [{| sd := sd; method := m; at_pc := Ready None; open := true |}] |}
  | _ =>
      i ← stream_of e; st ← streams s !! i;
      '(st', b') ← move e st (ic s);
      Some {| ic := b'; streams := <[i := st']> (streams s) |}
  end.

Fixpoint run (es : list event) (s : system) : option system :=
  match es with
  | [] => Some s
  | e :: es => s' ← step e s; run es s'
  end.

Definition start (o : BackpressureOptions) : system :=
  {| ic := NewBackpressureInterceptor o; streams := [] |}.

(** [RecvMsg]: the answer of the wrapped stream; the load is read and nothing
    follows from it. *)
Definition RecvMsg (err : option string) (m : string) (b : BackpressureInterceptor)
  : option string * BackpressureInterceptor :=
  match err with
  | Some e => (Some e, b)
  | None =>
      let currentLoad := at_key (currentLoads b) m in
      let lowWatermark := to_i64 (fmul (of_int (MaxBufferSize (opts b))) (LowWatermarkPct (opts b))) in
      if currentLoad <=? lowWatermark then (None, b) else (None, b)
  end.

End Watermarks.

(** * Counting *)

Definition b2z (b : bool) : Z := if b then 1 else 0.

Definition count (P : stream -> bool) (l : list stream) : Z := sum_of (fun s => b2z (P s)) l.

(** A message of the method has been counted and its sending is not over. *)
Definition in_flight (m : string) (s : stream) : bool :=
  bool_decide (method s = m) && match at_pc s with AtSend | AtDecrement _ => true | _ => false end.

(** The stream is a server's and its handler runs. *)
Definition handled (m : string) (s : stream) : bool :=
  bool_decide (method s = m) && bool_decide (sd s = Server) && open s.

Definition idle (s : stream) : bool := match at_pc s with Ready _ => true | _ => false end.

(** How gRPC uses an interceptor: all its streams are of one side, a handler
    returns when no send runs on its stream, and sends come before that. *)
Definition disciplined (s0 : side) (e : event) (s : system) : bool :=
  match e with
  | Open sd _ => bool_decide (sd = s0)
  | Return i => match streams s !! i with Some st => idle st | None => true end
  | Call i => match streams s !! i with Some st => open st | None => true end
  | _ => true
  end.

Fixpoint disciplined_run `{GoImpl} (s0 : side) (es : list event) (s : system) : bool :=
  match es with
  | [] => true
  | e :: es => disciplined s0 e s &&
               match step e s with Some s' => disciplined_run s0 es s' | None => true end
  end.

(** * Lemmas *)

Lemma at_key_incr k k' m :
  at_key (incr k m) k' = if decide (k = k') then i64 (at_key m k + 1) else at_key m k'.
Proof. unfold at_key, incr. case_decide; simplify_eq; by rewrite ?lookup_insert_eq, ?lookup_insert_ne. Qed.

Lemma at_key_decr k k' m :
  at_key (decr k m) k' = if decide (k = k') then i64 (at_key m k - 1) else at_key m k'.
Proof. unfold at_key, decr. case_decide; simplify_eq; by rewrite ?lookup_insert_eq, ?lookup_insert_ne. Qed.

Lemma at_key_delete k k' m : at_key (delete k m) k' = if decide (k = k') then 0 else at_key m k'.
Proof. unfold at_key. case_decide; simplify_eq; by rewrite ?lookup_delete_eq, ?lookup_delete_ne. Qed.

Lemma count_insert P l i x y : l !! i = Some x ->
  count P (<[i := y]> l) = count P l + (b2z (P y) - b2z (P x)).
Proof. apply (sum_of_insert (fun s => b2z (P s))). Qed.

Lemma count_app P l x : count P (l ++ [x]) = count P l + b2z (P x).
Proof. unfold count. rewrite sum_of_app, (sum_of_cons _ x []). unfold sum_of. simpl. lia. Qed.

Lemma count_bounds P l : 0 <= count P l <= Z.of_nat (length l).
Proof.
  unfold count. induction l as [|x l IH]; [done|]. rewrite sum_of_cons. simpl.
  unfold b2z at 1 3. case_bool; lia.
Qed.

Lemma count_le P Q l : Forall (fun s => P s = true -> Q s = true) l -> count P l <= count Q l.
Proof.
  unfold count. induction 1 as [|x l Hx _ IH]; [done|]. rewrite !sum_of_cons. unfold b2z at 1 3.
  destruct (P x), (Q x); naive_solver lia.
Qed.

Lemma count_zero P l : count P l = 0 -> Forall (fun s => P s = false) l.
Proof.
  unfold count. induction l as [|x l IH]; [done|]. rewrite sum_of_cons. unfold b2z at 1.
  pose proof (count_bounds P l). unfold count in *. destruct (P x) eqn:E; intros; [lia|].
  constructor; [done|]. apply IH. lia.
Qed.

Lemma count_pos P l i x : l !! i = Some x -> P x = true -> 1 <= count P l.
Proof.
  intros Hx HP. pose proof (count_bounds P l). destruct (decide (count P l = 0)) as [H0|]; [|lia].
  apply count_zero in H0. rewrite Forall_lookup in H0. specialize (H0 i x Hx). congruence.
Qed.

(** * The invariant *)

(** The loads count the messages in flight and the active streams the running
    handlers; a stream whose handler has returned is not sending, and a method
    without running handlers has no entry on a server. *)
Record consistent (s0 : side) (s : system) : Prop := {
  loads_count : forall m, at_key (currentLoads (ic s)) m = count (in_flight m) (streams s);
  active_count : forall m, at_key (activeStreams (ic s)) m = count (handled m) (streams s);
  one_side : Forall (fun st => sd st = s0) (streams s);
  closed_idle : Forall (fun st => open st = false -> idle st = true) (streams s);
  no_entries : forall m, s0 = Server -> count (handled m) (streams s) = 0 ->
    currentLoads (ic s) !! m = None /\ activeStreams (ic s) !! m = None }.

Section Facts.
Context `{GoImpl}.

Lemma load_start_consistent s0 o : consistent s0 (start o).
Proof. by split. Qed.

Lemma open_consistent s0 sd m s : consistent s0 s -> sd = s0 ->
  Z.of_nat (length (streams s)) + 1 < 2 ^ 63 ->
  forall s', step (Open sd m) s = Some s' -> consistent s0 s'.
Proof.
  intros [Hl Ha H1 Hc Hn] -> Hlen s' [= <-].
  set (st := {| sd := s0; method := m; at_pc := Ready None; open := true |}).
  assert (Hfl : forall k, b2z (in_flight k st) = 0) by (intros k; unfold in_flight; simpl; by rewrite andb_false_r).
  assert (Hh : forall k, b2z (handled k st) = match s0 with Server => b2z (bool_decide (m = k)) | Client => 0 end).
  { intros k. unfold handled, st. cbn [sd method open]. by destruct s0; repeat case_bool_decide. }
  split; simpl; try (apply Forall_app; split; [done|by repeat constructor]).
  - intros k. rewrite count_app, Hfl, Z.add_0_r. destruct s0; apply Hl.
  - intros k. rewrite count_app, Hh. destruct s0; simpl; [|by rewrite Ha, Z.add_0_r].
    rewrite at_key_incr, !Ha. case_decide as Hmk; case_bool_decide; simpl; try done; [subst k|lia].
    pose proof (count_bounds (handled m) (streams s)). rewrite i64_small; [done|]. unfold is_i64. lia.
  - intros k -> H0. rewrite count_app, Hh in H0. pose proof (count_bounds (handled k) (streams s)).
    case_bool_decide as Hmk; simpl in *; [lia|]. destruct (Hn k) as [? ?]; [done|lia|]. simpl. split; [done|].
    unfold incr. by rewrite lookup_insert_ne.
Qed.

(** A stream whose handler runs moves, and the loads follow its message. *)
Lemma replace_consistent s0 s i st st' b' : consistent s0 s -> streams s !! i = Some st ->
  sd st' = sd st -> method st' = method st -> open st = true -> open st' = true ->
  activeStreams b' = activeStreams (ic s) ->
  (forall m, m <> method st -> currentLoads b' !! m = currentLoads (ic s) !! m) ->
  at_key (currentLoads b') (method st) = at_key (currentLoads (ic s)) (method st) +
    (b2z (in_flight (method st) st') - b2z (in_flight (method st) st)) ->
  consistent s0 {| ic := b'; streams := <[i := st']> (streams s) |}.
Proof.
  intros [Hl Ha H1 Hc Hn] Hi Hsd Hm Ho Ho' Hact Hother Hload.
  assert (Hh : forall k, handled k st' = handled k st) by (intros k; unfold handled; by rewrite Hsd, Hm, Ho, Ho').
  assert (Hcnt : forall k, count (handled k) (<[i:=st']> (streams s)) = count (handled k) (streams s)).
  { intros k. rewrite (count_insert _ _ _ _ _ Hi), Hh. lia. }
  split; simpl.
  - intros k. rewrite (count_insert _ _ _ _ _ Hi), <- Hl. destruct (decide (k = method st)) as [->|Hk]; [done|].
    assert (Hf : forall x, method x = method st -> in_flight k x = false).
    { intros x Hx. unfold in_flight. rewrite bool_decide_eq_false_2; [done|congruence]. }
    rewrite !Hf by done. unfold at_key. rewrite Hother by done. lia.
  - intros k. by rewrite Hact, Hcnt.
  - apply Forall_insert; [done|]. rewrite Hsd. by eapply (Forall_lookup_1 _ _ _ _ H1).
  - apply Forall_insert; [done|]. congruence.
  - intros k -> H0. rewrite Hcnt in H0. rewrite Hact.
    destruct (decide (k = method st)) as [->|Hk]; [|rewrite Hother by done; auto].
    enough (1 <= count (handled (method st)) (streams s)) by lia.
    apply (count_pos _ _ i st Hi). unfold handled.
    by rewrite Ho, !bool_decide_eq_true_2 by (done || eapply (Forall_lookup_1 _ _ _ _ H1 Hi)).
Qed.

(** On a server, a message in flight belongs to a running handler. *)
Lemma flights_handled m l : Forall (fun x => open x = false -> idle x = true) l ->
  Forall (fun x => sd x = Server) l -> Forall (fun x => in_flight m x = true -> handled m x = true) l.
Proof.
  rewrite !Forall_forall. intros Hc H1 x Hx. specialize (Hc x Hx). specialize (H1 x Hx).
  unfold in_flight, handled, idle in *. intros [Hm Hp]%andb_true_iff. rewrite Hm, bool_decide_eq_true_2 by done.
  destruct (open x); [done|]. specialize (Hc eq_refl). by destruct (at_pc x).
Qed.

Lemma return_consistent s0 s i st : consistent s0 s -> streams s !! i = Some st ->
  sd st = Server -> open st = true -> idle st = true -> Z.of_nat (length (streams s)) < 2 ^ 63 ->
  consistent s0 {| ic := end_stream (method st) (ic s); streams := <[i := close_stream st]> (streams s) |}.
Proof.
  intros [Hl Ha H1 Hc Hn] Hi Hsd Ho Hid Hlen.
  assert (s0 = Server) as -> by (rewrite <- Hsd; symmetry; by eapply (Forall_lookup_1 _ _ _ _ H1)).
  assert (Hfl : forall k, count (in_flight k) (<[i:=close_stream st]> (streams s)) = count (in_flight k) (streams s)).
  { intros k. rewrite (count_insert _ _ _ _ _ Hi). unfold in_flight. simpl. lia. }
  assert (Hst : forall k, b2z (handled k st) = b2z (bool_decide (method st = k))).
  { intros k. unfold handled. rewrite Ho, Hsd. by repeat case_bool_decide. }
  assert (Hh : forall k, count (handled k) (<[i:=close_stream st]> (streams s)) =
                         count (handled k) (streams s) - b2z (bool_decide (method st = k))).
  { intros k. rewrite (count_insert _ _ _ _ _ Hi), Hst. unfold handled at 2. simpl. rewrite andb_false_r. simpl. lia. }
  pose proof (count_bounds (handled (method st)) (streams s)) as Hb.
  pose proof (count_pos (handled (method st)) _ i st Hi) as Hp.
  assert (Hp1 : handled (method st) st = true).
  { specialize (Hst (method st)). rewrite bool_decide_eq_true_2 in Hst by done. by destruct (handled (method st) st). }
  specialize (Hp Hp1).
  assert (Hdec : forall k, at_key (decr (method st) (activeStreams (ic s))) k =
                           count (handled k) (streams s) - b2z (bool_decide (method st = k))).
  { intros k. rewrite at_key_decr, !Ha. case_decide as E; case_bool_decide; simpl; try done; try lia. rewrite i64_small; [by rewrite E|]. unfold is_i64. lia. }
  assert (Hc' : Forall (fun x => open x = false -> idle x = true) (<[i:=close_stream st]> (streams s)))
    by by apply Forall_insert.
  assert (H1' : Forall (fun x => sd x = Server) (<[i:=close_stream st]> (streams s))) by by apply Forall_insert.
  split; simpl; [| |done|done|].
  - intros k. rewrite Hfl. unfold end_stream. case_bool; simpl; [|apply Hl]. bool_to_prop.
    rewrite Hdec, bool_decide_eq_true_2 in * by done; simpl in *. rewrite at_key_delete. case_decide as E; [subst k|apply Hl].
    pose proof (count_le _ _ _ (flights_handled (method st) (<[i:=close_stream st]> (streams s)) Hc' H1')).
    rewrite Hfl, Hh, bool_decide_eq_true_2 in * by done; simpl in *. pose proof (count_bounds (in_flight (method st)) (streams s)). lia.
  - intros k. rewrite Hh. unfold end_stream. case_bool; simpl; [|apply Hdec]. bool_to_prop.
    rewrite Hdec, bool_decide_eq_true_2 in * by done; simpl in *. rewrite at_key_delete, Hdec. case_decide as E; case_bool_decide; simpl; subst; try done; lia.
  - intros k _ H0. rewrite Hh in H0. unfold end_stream. destruct (decide (method st = k)) as [<-|E].
    + rewrite bool_decide_eq_true_2 in H0 by done; simpl in H0.
      rewrite (proj2 (Z.leb_le _ _)) by (rewrite Hdec, bool_decide_eq_true_2 by done; simpl; lia). simpl. by rewrite !lookup_delete_eq.
    + rewrite bool_decide_eq_false_2 in H0 by done; simpl in H0. destruct (Hn k) as [? ?]; [done|lia|].
      case_bool; simpl; rewrite ?lookup_delete_ne by done; unfold decr; by rewrite ?lookup_insert_ne.
Qed.

(** A step is an opening or the move of one stream. *)
Lemma step_cases e s s' : step e s = Some s' ->
  (exists sd m, e = Open sd m) \/
  exists i st st' b', stream_of e = Some i /\ streams s !! i = Some st /\
    move e st (ic s) = Some (st', b') /\ s' = {| ic := b'; streams := <[i := st']> (streams s) |}.
Proof.
  destruct e; simpl; [left; eauto|..]; intros Hs; right;
    apply bind_Some in Hs as (st & Hst & Hs); apply bind_Some in Hs as ([st' b'] & Hm & [= <-]); eauto 8.
Qed.

(** Every other move than the end of a handler changes the program counter of
    its stream, and the load follows. *)
Lemma move_effect e st b st' b' : move e st b = Some (st', b') -> (forall i, e <> Return i) ->
  - 2 ^ 62 < at_key (currentLoads b) (method st) < 2 ^ 62 ->
  st' = set_pc (at_pc st') st /\ activeStreams b' = activeStreams b /\
  (forall m, m <> method st -> currentLoads b' !! m = currentLoads b !! m) /\
  at_key (currentLoads b') (method st) = at_key (currentLoads b) (method st) +
    (b2z (in_flight (method st) st') - b2z (in_flight (method st) st)) /\
  (idle st = true -> exists i, e = Call i).
Proof.
  intros Hm Hr Hb. unfold in_flight, idle.
  destruct e as [| |i|i now|i now|i now|i now|i|i err|i]; simpl in Hm; [done|by destruct (Hr i)|..];
    destruct (at_pc st) eqn:Hp; try done; repeat (case_bool; [|done || idtac]); simplify_eq/=;
    rewrite ?bool_decide_eq_true_2 by done.
  all: try (unfold decide_send, poll, set_pc; simpl; repeat case_bool; repeat split; try done; simpl; try lia; naive_solver).
  all: split_and!; try done; try (intros k Hk; unfold incr, decr; by rewrite lookup_insert_ne).
  - rewrite at_key_incr. case_decide; [|done]. rewrite i64_small by (unfold is_i64; lia). simpl. lia.
  - rewrite at_key_decr. case_decide; [|done]. rewrite i64_small by (unfold is_i64; lia). simpl. lia.
Qed.

Lemma load_step_consistent s0 e s s' : consistent s0 s -> disciplined s0 e s = true ->
  Z.of_nat (length (streams s)) + 1 < 2 ^ 62 -> step e s = Some s' ->
  consistent s0 s' /\ Z.of_nat (length (streams s')) <= Z.of_nat (length (streams s)) + 1.
Proof.
  intros Hc Hd Hlen Hs. destruct (step_cases _ _ _ Hs) as [(sd & m & ->)|(i & st & st' & b' & Hi & Hst & Hm & ->)].
  { apply bool_decide_eq_true_1 in Hd. split; [eapply open_consistent; eauto; lia|].
    injection Hs as <-. simpl. rewrite length_app. simpl. lia. }
  simpl. rewrite length_insert. split; [|lia].
  destruct (decide (e = Return i)) as [->|He].
  { simpl in Hm, Hd. rewrite Hst in Hd. case_decide as Hso; [|done]. destruct Hso. simplify_eq.
    eapply return_consistent; eauto. lia. }
  pose proof (loads_count _ _ Hc (method st)) as Hload.
  pose proof (count_bounds (in_flight (method st)) (streams s)).
  destruct (move_effect _ _ _ _ _ Hm) as (Hst' & Hact & Hoth & Hl & Hcall); [intros j ->; by simplify_eq/=|lia|].
  assert (Ho : open st = true).
  { destruct (open st) eqn:Ho; [done|]. pose proof (Forall_lookup_1 _ _ _ _ (closed_idle _ _ Hc) Hst Ho) as Hid.
    destruct (Hcall Hid) as [j ->]. simplify_eq/=. rewrite Hst in Hd. congruence. }
  eapply replace_consistent; eauto; by rewrite Hst'.
Qed.

Lemma load_run_consistent s0 es : forall s s', consistent s0 s -> disciplined_run s0 es s = true ->
  Z.of_nat (length (streams s)) + Z.of_nat (length es) < 2 ^ 62 -> run es s = Some s' ->
  consistent s0 s' /\ Z.of_nat (length (streams s')) < 2 ^ 62.
Proof.
  induction es as [|e es IH]; intros s s' Hc Hd Hlen Hr; simplify_eq/=; [split; [done|lia]|].
  apply bind_Some in Hr as (s1 & Hs & Hr). rewrite Hs in Hd. apply andb_true_iff in Hd as [Hd Hd'].
  destruct (load_step_consistent s0 e s s1) as [H1 ?]; eauto; [lia|]. eapply (IH s1); eauto. lia.
Qed.

(** For the streams of one side, used as gRPC uses them, the load of every method is at every moment exactly the number of its messages between the two updates of [SendMsg]. On a server it is at most the number of running handlers of the method, which the active streams count, and when the last one returns both maps lose the method's entry. *)
Theorem loads_in_flight s0 o es s m :
  run es (start o) = Some s -> disciplined_run s0 es (start o) = true -> Z.of_nat (length es) < 2 ^ 62 ->
  at_key (currentLoads (ic s)) m = count (in_flight m) (streams s) /\
  (s0 = Server ->
     at_key (activeStreams (ic s)) m = count (handled m) (streams s) /\
     at_key (currentLoads (ic s)) m <= count (handled m) (streams s) /\
     (count (handled m) (streams s) = 0 -> currentLoads (ic s) !! m = None /\ activeStreams (ic s) !! m = None)).
Proof.
  intros Hr Hd Hlen. destruct (load_run_consistent s0 es (start o) s) as [Hc _]; auto using load_start_consistent.
  destruct Hc as [Hl Ha H1 Hcl Hn]. split; [done|]. intros ->. split_and!; [done| |by apply Hn].
  rewrite Hl. by apply count_le, flights_handled.
Qed.

(** The load never exceeds the handlers that run, so that while a method has at most as many of them as the high watermark, no message of its streams is refused, delayed or made to wait. *)
Theorem few_streams_never_wait o es s i st now :
  run es (start o) = Some s -> disciplined_run Server es (start o) = true -> Z.of_nat (length es) < 2 ^ 62 ->
  streams s !! i = Some st -> at_pc st = AtRead ->
  count (handled (method st)) (streams s) <= high_watermark (opts (ic s)) ->
  exists s', step (Read i now) s = Some s' /\ at_pc <$> streams s' !! i = Some AtIncrement.
Proof.
  intros Hr Hd Hlen Hst Hp Hw. destruct (load_run_consistent Server es (start o) s) as [Hc _];
    auto using load_start_consistent.
  destruct Hc as [Hl Ha H1 Hcl Hn].
  assert (Hlt : at_key (currentLoads (ic s)) (method st) < count (handled (method st)) (streams s)).
  { rewrite Hl. pose proof (Forall_lookup_1 _ _ _ _ H1 Hst) as Hsd. pose proof (Forall_lookup_1 _ _ _ _ Hcl Hst) as Hid.
    assert (Ho : open st = true) by (destruct (open st) eqn:Ho; [done|]; specialize (Hid Ho); unfold idle in Hid; by rewrite Hp in Hid).
    pose proof (flights_handled (method st) (<[i := set_pc AtSend st]> (streams s))) as Hf.
    specialize (Hf ltac:(apply Forall_insert; [done|simpl; congruence]) ltac:(by apply Forall_insert)).
    apply count_le in Hf. rewrite !(count_insert _ _ _ _ _ Hst) in Hf.
    unfold in_flight at 2 3, handled at 2 3 in Hf. simpl in Hf.
    rewrite Hp, Ho, Hsd, !bool_decide_eq_true_2 in Hf by done. simpl in Hf. lia. }
  eexists. split; [simpl; rewrite Hst; simpl; rewrite Hp; reflexivity|]. simpl.
  rewrite list_lookup_insert_eq by (by apply lookup_lt_Some in Hst). simpl. unfold decide_send.
  case_bool; [bool_to_prop; exfalso; lia|done].
Qed.

(** One step of a system with a stream in the waiting loop. *)
Lemma wait_step e s s1 i st d n : step e s = Some s1 -> streams s !! i = Some st -> at_pc st = AtWait d n ->
  (exists st1 n1, streams s1 !! i = Some st1 /\ sd st1 = sd st /\ at_pc st1 = AtWait d n1 /\ forall err, e <> Send i err) \/
  (exists now st1, e = Timeout i now /\ d <= now /\ streams s1 !! i = Some st1 /\
     at_pc st1 = Ready (Some (ErrWaitTimeout (sd st)))).
Proof.
  intros Hs Hst Hp. destruct (step_cases _ _ _ Hs) as [(sd & m & ->)|(j & x & x' & b' & Hj & Hx & Hm & ->)].
  { injection Hs as <-. left. exists st, n. split_and!; try done. simpl. by apply lookup_app_l_Some. }
  simpl. destruct (decide (i = j)) as [<-|Hij].
  - rewrite list_lookup_insert_eq by (by apply lookup_lt_Some in Hst). simplify_eq.
    destruct e; simplify_eq/=; rewrite ?Hp in Hm; simplify_eq; repeat case_decide; repeat case_bool; simplify_eq;
      bool_to_prop.
    + left. exists (close_stream st), n. done.
    + left. eexists _, _. split_and!; try done. simpl. unfold poll. by case_bool.
    + right. eexists _, _. done.
  - rewrite list_lookup_insert_ne by done. left. exists st, n. split_and!; try done. intros err ->. by simplify_eq/=.
Qed.

(** A message that found the buffer full with [BlockOnFull] is never sent, whatever becomes of the load: in every run its stream stays in the waiting loop until the loop's timeout, and then the call fails (the [break] of the loop leaves only the [select]). *)
Theorem full_buffer_times_out es : forall s s' i st deadline next,
  run es s = Some s' -> streams s !! i = Some st -> at_pc st = AtWait deadline next ->
  (exists st' next', streams s' !! i = Some st' /\ at_pc st' = AtWait deadline next') \/
  exists before now after s1 st1, es = before ++ Timeout i now :: after /\ deadline <= now /\
    run (before ++ [Timeout i now]) s = Some s1 /\ streams s1 !! i = Some st1 /\
    at_pc st1 = Ready (Some (ErrWaitTimeout (sd st))) /\ Forall (fun e => forall err, e <> Send i err) before.
Proof.
  induction es as [|e es IH]; intros s s' i st d n Hr Hst Hp; [simplify_eq/=; left; eauto|].
  simpl in Hr. apply bind_Some in Hr as (s1 & Hs & Hr).
  assert (Hstay : (exists st1 n1, streams s1 !! i = Some st1 /\ sd st1 = sd st /\ at_pc st1 = AtWait d n1 /\
                     forall err, e <> Send i err) \/
                  (exists now st1, e = Timeout i now /\ d <= now /\ streams s1 !! i = Some st1 /\
                     at_pc st1 = Ready (Some (ErrWaitTimeout (sd st))))) by by eapply wait_step.
  destruct Hstay as [(st1 & n1 & Hst1 & Hsd & Hp1 & He)|(now & st1 & -> & Hd & Hst1 & Hp1)].
  - destruct (IH _ _ _ _ _ _ Hr Hst1 Hp1) as [?|(bf & now & af & s2 & st2 & -> & ? & Hr2 & ? & ? & ?)]; [by left|].
    right. exists (e :: bf), now, af, s2, st2. split_and!; auto; [|congruence].
    simpl. by rewrite Hs.
  - right. exists [], now, es, s1, st1. split_and!; auto; simpl. simpl in Hs. by rewrite Hs.
Qed.

End Facts.

(** * Witnesses and concrete runs *)

Definition small : BackpressureOptions :=
  {| MaxBufferSize := 1; HighWatermarkPct := lit 1 1; LowWatermarkPct := lit 1 2;
     WaitTimeout := 20 * Millisecond; ThrottleFactor := lit 1 2; BlockOnFull := true |}.

(** Two handlers of one method; the first has a message in flight. *)
Definition two_handlers : list event :=
  [Open Server "m"; Open Server "m"; Call 0; Read 0 0; Increment 0; Call 1].

Definition after (es : list event) : system := default (start small) (@run amd64 es (start small)).

Lemma loads_in_flight_witness :
  at_key (currentLoads (ic (after two_handlers))) "m" = count (in_flight "m") (streams (after two_handlers)) /\
  count (in_flight "m") (streams (after two_handlers)) = 1.
Proof.
  split; [|reflexivity].
  refine (proj1 (@loads_in_flight amd64 Server small two_handlers _ "m" _ _ _)); reflexivity.
Defined.

Lemma few_streams_never_wait_witness :
  exists s', @step amd64 (Read 0 0) (after [Open Server "m"; Call 0]) = Some s' /\
             at_pc <$> streams s' !! 0%nat = Some AtIncrement.
Proof.
  apply (@few_streams_never_wait amd64 small [Open Server "m"; Call 0] _ 0%nat
           {| sd := Server; method := "m"; at_pc := AtRead; open := true |} 0); try reflexivity.
Defined.

(** The second handler finds the buffer full; the first message is sent within a
    millisecond, and the second call fails all the same. *)
Definition full_then_free : list event :=
  [Read 1 0; Send 0 None; Decrement 0; Tick 1 (10 * Millisecond); Timeout 1 (20 * Millisecond)].

Lemma full_buffer_times_out_witness :
  let s := after (two_handlers ++ [Read 1 0]) in
  let s' := after (two_handlers ++ full_then_free) in
  (exists st' next', streams s' !! 1%nat = Some st' /\ at_pc st' = AtWait (20 * Millisecond) next') \/
  exists before now after s1 st1, tail full_then_free = before ++ Timeout 1 now :: after /\ 20 * Millisecond <= now /\
    @run amd64 (before ++ [Timeout 1 now]) s = Some s1 /\ streams s1 !! 1%nat = Some st1 /\
    at_pc st1 = Ready (Some (ErrWaitTimeout Server)) /\ Forall (fun e => forall err, e <> Send 1 err) before.
Proof.
  intros s s'.
  apply (@full_buffer_times_out amd64 (tail full_then_free) s s' 1%nat
           {| sd := Server; method := "m"; at_pc := AtWait (20 * Millisecond) (10 * Millisecond); open := true |}
           (20 * Millisecond) (10 * Millisecond)); reflexivity.
Defined.

(** A handler that returns while a goroutine of its own still sends makes the load
    of the method negative for good. *)
Example late_send_negative :
  at_key (currentLoads (ic (after [Open Server "m"; Call 0; Read 0 0; Increment 0; Return 0; Send 0 None; Decrement 0]))) "m" = -1.
Proof. reflexivity. Qed.
