(* ===== verification/Batch.v ===== *)
(** The batch processor of [src/internal/batch/processor.go].

    Callers put requests into a channel, workers take them out and collect them
    into a batch under the processor's mutex. A system is the processor's shared
    state with the program counters of the workers and of [Close]. *)
From S2P Require Import Prelude.

(** * Options *)

Record Options : Type := {
  BatchSize : Z; MaxLatency : Z; Workers : Z; WaitForBatch : bool; QueueSize : Z; DefaultTimeout : Z }.

Definition DefaultOptions : Options :=
  {| BatchSize := 100; MaxLatency := 100 * Millisecond; Workers := 5; WaitForBatch := false;
     QueueSize := 1000; DefaultTimeout := 5 * Second |}.

(** The defaults that [NewProcessor] puts for values that are not positive. *)
Definition with_defaults (o : Options) : Options :=
  let or_default (f : Options -> Z) := if f o <=? 0 then f DefaultOptions else f o in
  {| BatchSize := or_default BatchSize; MaxLatency := or_default MaxLatency; Workers := or_default Workers;
     WaitForBatch := WaitForBatch o; QueueSize := or_default QueueSize; DefaultTimeout := or_default DefaultTimeout |}.

Inductive batch_error : Type :=
| ErrProcessorClosed
| ErrMissingResult
| ErrContext (err : string)
| ErrOfProcess (err : string).

(** The case that a [select] of [Process] takes: its channel, the context, the
    processor's end. *)
Inductive select_case (A : Type) : Type :=
| CaseChannel (a : A)
| CaseContext (err : batch_error)
| CaseQuit.
Arguments CaseChannel {A} a.
Arguments CaseContext {A} err.
Arguments CaseQuit {A}.

Section Processor.
(** The item and result types with their zero values, and the batch function. *)
Context {T R : Type} (zeroT : T) (zeroR : R).
Context (process : list T -> list R * list (option batch_error)).

(** * Data *)

(** A request. Its context is [None] when the field is nil; its response channel
    is known by the number of the call that made it, [None] for a fresh one that
    nobody reads. *)
Record request : Type := {
  item : T; index : Z; respChan : option nat; ctx : option nat; result_ : R; err : option batch_error }.

Record Processor : Type := {
  opts : Options;
  items : list T;
  indices : list Z;
  reqChan : list request;
  quit : bool;                                        (* the channel is closed *)
  timer : bool;                                       (* the timer runs *)
  calls : list (list T);                              (* the batches given to [process] so far *)
  responses : list (nat * (R * option batch_error))   (* what was sent on response channels *) }.

Definition NewProcessor (o : Options) : Processor :=
  {| opts := with_defaults o; items := []; indices := []; reqChan := []; quit := false; timer := false;
     calls := []; responses := [] |}.

Definition set_reqChan (q : list request) (p : Processor) : Processor :=
  {| opts := opts p; items := items p; indices := indices p; reqChan := q; quit := quit p; timer := timer p;
     calls := calls p; responses := responses p |}.

Definition set_quit (p : Processor) : Processor :=
  {| opts := opts p; items := items p; indices := indices p; reqChan := reqChan p; quit := true; timer := timer p;
     calls := calls p; responses := responses p |}.

Definition respond (id : nat) (r : R * option batch_error) (p : Processor) : Processor :=
  {| opts := opts p; items := items p; indices := indices p; reqChan := reqChan p; quit := quit p; timer := timer p;
     calls := calls p; responses := responses p ++ [(id, r)] |}.

(** * Operations *)

(** [append] of one value until the length is [n]. *)
Definition pad {A} (n : nat) (x : A) (l : list A) : list A := l ++ replicate (n - length l) x.

(** The results and errors after the lengths were made to match. *)
Definition matched (n : nat) (r : list R * list (option batch_error)) : list R * list (option batch_error) :=
  if bool_decide (length r.1 <> n \/ length r.2 <> n)
  then (pad n zeroR r.1, pad n (Some ErrMissingResult) r.2) else r.

(** The loop that answers a batch: each answer is put into the request channel
    if there is room; [results[i]] or [errs[i]] out of range panics. *)
Fixpoint send_answers (i : nat) (idxs : list Z) (results : list R) (errs : list (option batch_error))
    (cap : Z) (q : list request) : outcome (list request) :=
  match idxs with
  | [] => Returns q
  | idx :: idxs =>
      match results !! i, errs !! i with
      | Some r, Some e =>
          let answer := {| item := zeroT; index := idx; respChan := None; ctx := None; result_ := r; err := e |} in
          send_answers (S i) idxs results errs cap (if Z.of_nat (length q) <? cap then q ++ [answer] else q)
      | _, _ => Panics
      end
  end.

Definition processBatch (p : Processor) : outcome Processor :=
  match items p with
  | [] => Returns p
  | its =>
      let '(results, errs) := matched (length its) (process its) in
      match (if WaitForBatch (opts p)
             then send_answers 0 (indices p) results errs (QueueSize (opts p)) (reqChan p)
             else Returns (reqChan p)) with
      | Panics => Panics
      | Returns q =>
          Returns {| opts := opts p; items := []; indices := []; reqChan := q; quit := quit p; timer := false;
                     calls := calls p ++ [its]; responses := responses p |}
      end
  end.

(** [handleRequest], [ctx_err] what the request's context answers to [Err]; the
    method call on a nil context panics. *)
Definition handleRequest (ctx_err : option batch_error) (req : request) (p : Processor) : outcome Processor :=
  match ctx req with
  | None => Panics
  | Some _ =>
      match ctx_err with
      | Some e =>
          Returns (if WaitForBatch (opts p)
                   then match respChan req with Some id => respond id (zeroR, Some e) p | None => p end
                   else p)
      | None =>
          let its := items p ++ [item req] in
          let p := {| opts := opts p; items := its; indices := indices p ++ [Z.of_nat (length its) - 1];
                      reqChan := reqChan p; quit := quit p;
                      timer := if decide (length its = 1%nat) then true else timer p;
                      calls := calls p; responses := responses p |} in
          if Z.of_nat (length its) >=? BatchSize (opts p) then processBatch p else Returns p
      end
  end.

(** The critical section of [Close] up to [wg.Wait]; closing a closed channel
    panics. *)
Definition close_section (p : Processor) : outcome Processor :=
  match (match items p with [] => Returns p | _ => processBatch p end) with
  | Panics => Panics
  | Returns p => if quit p then Panics else Returns (set_quit p)
  end.

(** The request that [Process] makes for the call [id]. *)
Definition new_request (id : nat) (x : T) : request :=
  {| item := x; index := 0; respChan := Some id; ctx := Some id; result_ := zeroR; err := None |}.

(** What [Process] returns, by the cases of its two selects: sending the request,
    and waiting for the answer. *)
Definition Process (o : Options) (send : select_case unit) (wait : select_case (R * option batch_error))
  : R * option batch_error :=
  match send with
  | CaseContext e => (zeroR, Some e)
  | CaseQuit => (zeroR, Some ErrProcessorClosed)
  | CaseChannel _ =>
      if negb (WaitForBatch o) then (zeroR, None)
      else match wait with
           | CaseChannel resp => resp
           | CaseContext e => (zeroR, Some e)
           | CaseQuit => (zeroR, Some ErrProcessorClosed)
           end
  end.

(** * The system *)

Inductive worker_pc : Type :=
| Selecting
| Locking (req : request)      (* at [p.mu.Lock] of [handleRequest] *)
| Exited.

Record system : Type := { proc : Processor; workers : list worker_pc; closing : bool (* Close holds the mutex *) }.

Definition start (o : Options) : system :=
  {| proc := NewProcessor o; workers := replicate (Z.to_nat (Workers (with_defaults o))) Selecting; closing := false |}.

Inductive event : Type :=
| Enqueue (id : nat) (x : T)                              (* the send of [Process] *)
| Receive (w : nat)
| Handle (w : nat) (ctx_err : option batch_error)
| Leave (w : nat)
| CloseStart
| CloseReturn.

Definition set_worker (w : nat) (pc : worker_pc) (s : system) : system :=
  {| proc := proc s; workers := <[w := pc]> (workers s); closing := closing s |}.

Definition set_proc (p : Processor) (s : system) : system :=
  {| proc := p; workers := workers s; closing := closing s |}.

(** One step, [None] when it is not enabled; a panic ends the program. *)
Definition step (e : event) (s : system) : option (outcome system) :=
  match e with
  | Enqueue id x =>
      let q := reqChan (proc s) in
      if Z.of_nat (length q) <? QueueSize (opts (proc s))
      then Some (Returns (set_proc (set_reqChan (q ++ [new_request id x]) (proc s)) s)) else None
  | Receive w =>
      match workers s !! w, reqChan (proc s) with
      | Some Selecting, req :: q => Some (Returns (set_worker w (Locking req) (set_proc (set_reqChan q (proc s)) s)))
      | _, _ => None
      end
  | Handle w ctx_err =>
      match workers s !! w with
      | Some (Locking req) =>
          if closing s then None
          else Some (match handleRequest ctx_err req (proc s) with
                     | Panics => Panics
                     | Returns p => Returns (set_worker w Selecting (set_proc p s))
                     end)
      | _ => None
      end
  | Leave w =>
      match workers s !! w with
      | Some Selecting => if quit (proc s) then Some (Returns (set_worker w Exited s)) else None
      | _ => None
      end
  | CloseStart =>
      if closing s then None
      else Some (match close_section (proc s) with
                 | Panics => Panics
                 | Returns p => Returns {| proc := p; workers := workers s; closing := true |}
                 end)
  | CloseReturn =>
      if closing s && forallb (fun w => match w with Exited => true | _ => false end) (workers s)
      then Some (Returns {| proc := proc s; workers := workers s; closing := false |}) else None
  end.

Fixpoint run (es : list event) (s : system) : option (outcome system) :=
  match es with
  | [] => Some (Returns s)
  | e :: es => match step e s with
               | Some (Returns s) => run es s
               | Some Panics => Some Panics
               | None => None
               end
  end.

(** The critical sections of workers, one after the other. *)
Fixpoint handle_all (reqs : list (option batch_error * request)) (p : Processor) : outcome Processor :=
  match reqs with
  | [] => Returns p
  | (e, req) :: reqs => match handleRequest e req p with Panics => Panics | Returns p => handle_all reqs p end
  end.

(** * Lemmas *)

(** The indices of the batch are the positions of its items. *)
Definition well_formed (p : Processor) : Prop := length (indices p) = length (items p).

(** The items of the requests whose context was alive, in order. *)
Definition accepted (reqs : list (option batch_error * request)) : list T :=
  omap (fun r => match r.1 with None => Some (item r.2) | Some _ => None end) reqs.

Lemma pad_length {A} n (x : A) l : (n <= length (pad n x l))%nat.
Proof. unfold pad. rewrite length_app, length_replicate. lia. Qed.

Lemma matched_length n r : (n <= length (matched n r).1)%nat /\ (n <= length (matched n r).2)%nat.
Proof.
  unfold matched. case_bool_decide as H; [split; apply pad_length|].
  apply Decidable.not_or in H as [?%dec_stable ?%dec_stable]. lia.
Qed.

(** The answers never index out of range; the queue gets only requests without a context. *)
Lemma send_answers_total idxs : forall i results errs cap q,
  (i + length idxs <= length results)%nat -> (i + length idxs <= length errs)%nat ->
  exists l, send_answers i idxs results errs cap q = Returns (q ++ l) /\ Forall (fun r => ctx r = None) l /\
            (Z.of_nat (length q) < cap -> idxs <> [] -> l <> []).
Proof.
  induction idxs as [|idx idxs IH]; intros i results errs cap q Hr He; simpl in *.
  { exists []. by rewrite app_nil_r. }
  destruct (lookup_lt_is_Some_2 results i) as [r ->]; [lia|].
  destruct (lookup_lt_is_Some_2 errs i) as [e ->]; [lia|]. case_bool; bool_to_prop.
  - destruct (IH (S i) results errs cap (q ++ [{| item := zeroT; index := idx; respChan := None; ctx := None; result_ := r; err := e |}]))
      as (l & -> & Hl & _); [lia..|].
    eexists (_ :: l). rewrite <- app_assoc. split_and!; [done|by constructor|done].
  - destruct (IH (S i) results errs cap q) as (l & -> & Hl & _); [lia..|]. exists l. split_and!; [done..|lia].
Qed.

(** A batch that is processed is given to [process] whole, and a new one begins. *)
Lemma processBatch_spec p : well_formed p -> items p <> [] ->
  exists l, processBatch p = Returns {| opts := opts p; items := []; indices := []; reqChan := reqChan p ++ l;
      quit := quit p; timer := false; calls := calls p ++ [items p]; responses := responses p |} /\
    Forall (fun r => ctx r = None) l /\
    (WaitForBatch (opts p) = true -> Z.of_nat (length (reqChan p)) < QueueSize (opts p) -> l <> []).
Proof.
  unfold well_formed, processBatch. intros Hw Hn. destruct (items p) as [|x its] eqn:Hi; [done|].
  pose proof (matched_length (length (x :: its)) (process (x :: its))) as [Hr He].
  destruct (matched _ _) as [rs es]. simpl in Hr, He.
  destruct (WaitForBatch (opts p)).
  - destruct (send_answers_total (indices p) 0 rs es (QueueSize (opts p)) (reqChan p)) as (l & -> & Hl & Hn');
      [simpl in *; lia..|].
    exists l. split_and!; [done..|]. intros _ Hc. apply Hn'; [done|]. by destruct (indices p).
  - exists []. rewrite app_nil_r. by split_and!.
Qed.

(** What one critical section of a worker does to the batch. *)
Lemma handle_spec e req p : well_formed p -> ctx req <> None -> 0 < BatchSize (opts p) ->
  Z.of_nat (length (items p)) < BatchSize (opts p) ->
  exists p', handleRequest e req p = Returns p' /\ well_formed p' /\ opts p' = opts p /\ quit p' = quit p /\
    concat (calls p') ++ items p' = (concat (calls p) ++ items p) ++ accepted [(e, req)] /\
    Z.of_nat (length (items p')) < BatchSize (opts p) /\
    (exists new, calls p' = calls p ++ new /\ Forall (fun b => Z.of_nat (length b) = BatchSize (opts p)) new) /\
    (exists new, responses p' = responses p ++ new /\ Forall (fun r => r.2.1 = zeroR /\ r.2.2 <> None) new).
Proof.
  intros Hw Hctx Hb Hl. unfold handleRequest. destruct (ctx req); [|done]. destruct e as [e|].
  { eexists. split; [done|]. unfold accepted. simpl. rewrite app_nil_r. unfold well_formed.
    destruct (WaitForBatch (opts p)), (respChan req); simpl; split_and!; try done;
      (exists []; rewrite app_nil_r; by split) || (eexists; split; [done|by repeat constructor]). }
  set (p1 := {| opts := opts p; items := items p ++ [item req]; indices := _; reqChan := _; quit := _; timer := _;
                calls := _; responses := _ |}).
  assert (Hw1 : well_formed p1) by (unfold well_formed, p1; simpl; rewrite !length_app, Hw; done).
  rewrite length_app. simpl. case_bool; bool_to_prop.
  - destruct (processBatch_spec p1) as (l & -> & _); [done|by destruct (items p)|].
    eexists. split; [done|]. simpl. split_and!; try done.
    + by rewrite concat_app, app_nil_r, concat_cons, concat_nil, app_nil_r, app_assoc.
    + exists [items p ++ [item req]]. split; [done|]. constructor; [|done]. rewrite length_app. simpl. lia.
    + exists []. by rewrite app_nil_r.
  - exists p1. split; [done|]. simpl. split_and!; try done.
    + by rewrite app_assoc.
    + rewrite length_app. simpl. lia.
    + exists []. by rewrite app_nil_r.
    + exists []. by rewrite app_nil_r.
Qed.

Lemma with_defaults_pos o : 0 < BatchSize (with_defaults o) /\ 0 < QueueSize (with_defaults o) /\ 0 < Workers (with_defaults o).
Proof. simpl. repeat case_bool; bool_to_prop; simpl; lia. Qed.

Lemma handle_all_spec reqs : forall p, well_formed p -> Forall (fun r => ctx r.2 <> None) reqs ->
  0 < BatchSize (opts p) -> Z.of_nat (length (items p)) < BatchSize (opts p) ->
  exists p', handle_all reqs p = Returns p' /\
    concat (calls p') ++ items p' = (concat (calls p) ++ items p) ++ accepted reqs /\
    Z.of_nat (length (items p')) < BatchSize (opts p) /\
    exists new, calls p' = calls p ++ new /\ Forall (fun b => Z.of_nat (length b) = BatchSize (opts p)) new.
Proof.
  induction reqs as [|[e req] reqs IH]; intros p Hw Hf Hb Hl.
  { exists p. unfold accepted. simpl. rewrite app_nil_r. split_and!; try done. exists []. by rewrite app_nil_r. }
  apply Forall_cons in Hf as [Hc Hf]. simpl in Hc.
  destruct (handle_spec e req p Hw Hc Hb Hl) as (p1 & Hp1 & Hw1 & Ho & _ & Hcat & Hl1 & (n1 & Hn1 & Hf1) & _).
  destruct (IH p1 Hw1 Hf) as (p2 & Hp2 & Hcat2 & Hl2 & n2 & Hn2 & Hf2); [rewrite Ho; lia..|].
  exists p2. simpl. rewrite Hp1, Hp2. split_and!; [done| |by rewrite <- Ho|].
  - rewrite Hcat2, Hcat, <- !app_assoc. do 2 f_equal. unfold accepted. simpl. by destruct e.
  - exists (n1 ++ n2). rewrite Hn2, Hn1, app_assoc. split; [done|]. apply Forall_app. split; [done|]. by rewrite <- Ho.
Qed.

(** The workers put the requests whose contexts are alive into batches in the order in which they take the mutex: none is lost, repeated or reordered, every batch given to the batch function has exactly [BatchSize] items, and fewer than that are left over. *)
Theorem requests_are_batched o reqs : Forall (fun r => ctx r.2 <> None) reqs ->
  exists p, handle_all reqs (NewProcessor o) = Returns p /\
    concat (calls p) ++ items p = accepted reqs /\
    Forall (fun b => Z.of_nat (length b) = BatchSize (with_defaults o)) (calls p) /\
    Z.of_nat (length (items p)) < BatchSize (with_defaults o).
Proof.
  intros Hf. pose proof (with_defaults_pos o) as (Hb & _).
  destruct (handle_all_spec reqs (NewProcessor o)) as (p & Hp & Hcat & Hl & n & Hn & Hfn);
    [done|done|exact Hb..|].
  exists p. split_and!; [done|done| |done]. by rewrite Hn.
Qed.

(** ** Runs of the system *)

Record inv (o : Options) (s : system) : Prop := {
  inv_wf : well_formed (proc s);
  inv_opts : opts (proc s) = with_defaults o;
  inv_len : Z.of_nat (length (items (proc s))) < BatchSize (with_defaults o);
  inv_responses : Forall (fun r => r.2.1 = zeroR /\ r.2.2 <> None) (responses (proc s)) }.

Lemma handle_returns e req p p' : handleRequest e req p = Returns p' -> ctx req <> None.
Proof. unfold handleRequest. by destruct (ctx req). Qed.

Lemma close_section_inv o p p' : well_formed p -> opts p = with_defaults o ->
  Forall (fun r => r.2.1 = zeroR /\ r.2.2 <> None) (responses p) -> close_section p = Returns p' ->
  well_formed p' /\ opts p' = with_defaults o /\ items p' = [] /\
  Forall (fun r => r.2.1 = zeroR /\ r.2.2 <> None) (responses p').
Proof.
  intros Hw Ho Hr. unfold close_section. destruct (items p) as [|x l] eqn:Hi.
  - case_bool; [done|]. intros [= <-]. by simpl.
  - destruct (processBatch_spec p Hw) as (l' & -> & _); [by rewrite Hi|]. simpl. case_bool; [done|].
    intros [= <-]. by simpl.
Qed.

Lemma processor_step_inv o e s s' : inv o s -> step e s = Some (Returns s') -> inv o s' /\
  (e <> CloseStart -> exists new, calls (proc s') = calls (proc s) ++ new /\
     Forall (fun b => Z.of_nat (length b) = BatchSize (with_defaults o)) new).
Proof.
  intros [Hw Ho Hl Hr] Hs. pose proof (with_defaults_pos o) as (Hb & _).
  assert (Hsame : forall l, exists new, l = l ++ new /\ Forall (fun b : list T => Z.of_nat (length b) = BatchSize (with_defaults o)) new)
    by (intros l; exists []; by rewrite app_nil_r).
  destruct e as [id x|w|w ce|w| |]; simpl in Hs.
  - case_bool; simplify_eq. by split; [split|].
  - destruct (workers s !! w) as [[]|], (reqChan (proc s)); simplify_eq. by split; [split|].
  - destruct (workers s !! w) as [[|req|]|]; simplify_eq. case_bool; [done|].
    destruct (handleRequest ce req (proc s)) as [p|] eqn:Hh; simplify_eq.
    destruct (handle_spec ce req (proc s) Hw (handle_returns _ _ _ _ Hh)) as
      (p1 & Hp1 & Hw1 & Ho1 & _ & _ & Hl1 & Hn & n2 & Hn2 & Hf2); [by rewrite Ho..|]. simplify_eq.
    assert (p1 = p) as -> by congruence. rewrite Ho in Hl1, Ho1, Hn. split; [|intros _; exact Hn]. split; simpl; [done..|]. rewrite Hn2. by apply Forall_app.
  - destruct (workers s !! w) as [[]|]; simplify_eq. case_bool; simplify_eq. by split; [split|].
  - case_bool; [done|]. destruct (close_section (proc s)) as [p|] eqn:Hc; simplify_eq.
    destruct (close_section_inv o _ _ Hw Ho Hr Hc) as (Hw' & Ho' & Hi & Hr').
    split; [|done]. split; simpl; try done. rewrite Hi. exact Hb.
  - case_bool; simplify_eq. by split; [split|].
Qed.

Lemma processor_start_inv o : inv o (start o).
Proof. pose proof (with_defaults_pos o) as (Hb & _). split; simpl; try done. Qed.

Lemma processor_run_inv o es : forall s s', inv o s -> run es s = Some (Returns s') -> inv o s'.
Proof.
  induction es as [|e es IH]; intros s s' Hi Hr; simplify_eq/=; [done|].
  destruct (step e s) as [[s1|]|] eqn:Hs; simplify_eq. eapply IH; [|done]. by eapply processor_step_inv.
Qed.

(** Whatever the workers and callers do, until [Close] every batch given to the batch function is full: the timer that should bound the waiting time by [MaxLatency] is armed and never read, and a batch that does not fill up is not processed. *)
Theorem only_full_batches o es s : run es (start o) = Some (Returns s) -> CloseStart ∉ es ->
  Forall (fun b => Z.of_nat (length b) = BatchSize (with_defaults o)) (calls (proc s)) /\
  Z.of_nat (length (items (proc s))) < BatchSize (with_defaults o).
Proof.
  intros Hr Hn. split; [|by eapply inv_len, processor_run_inv; [apply processor_start_inv|]].
  assert (Hg : forall es s0, inv o s0 -> CloseStart ∉ es -> run es s0 = Some (Returns s) ->
    Forall (fun b => Z.of_nat (length b) = BatchSize (with_defaults o)) (calls (proc s0)) ->
    Forall (fun b => Z.of_nat (length b) = BatchSize (with_defaults o)) (calls (proc s))).
  { clear es Hr Hn. induction es as [|e es IH]; intros s0 Hi Hn Hr Hf; simplify_eq/=; [done|].
    apply not_elem_of_cons in Hn as [He Hn]. destruct (step e s0) as [[s1|]|] eqn:Hs; simplify_eq.
    destruct (processor_step_inv o e s0 s1 Hi Hs) as [Hi1 Hnew]. destruct (Hnew ltac:(congruence)) as (new & Hc & Hfn).
    eapply IH; [done..|]. rewrite Hc. by apply Forall_app. }
  by eapply (Hg es _ (processor_start_inv o)).
Qed.

(** With [WaitForBatch] no call ever returns a result of the batch function, whatever case its selects take: all that is sent on the channel it waits on is the zero value with an error (the results are put into the request channel instead), so that every call returns the zero value and an error. *)
Theorem results_never_delivered o es s id send wait : run es (start o) = Some (Returns s) -> WaitForBatch o = true ->
  (forall r, wait = CaseChannel r -> (id, r) ∈ responses (proc s)) ->
  (Process o send wait).1 = zeroR /\ (Process o send wait).2 <> None.
Proof.
  intros Hr Hw Hc. assert (Hf : Forall (fun r => r.2.1 = zeroR /\ r.2.2 <> None) (responses (proc s)))
    by (eapply inv_responses, processor_run_inv; [apply processor_start_inv|done]).
  unfold Process. rewrite Hw. simpl. destruct send; try done. destruct wait as [r| |]; try done.
  rewrite Forall_forall in Hf. apply (Hf (id, r)). by apply Hc.
Qed.

(** With [WaitForBatch], a batch that completes while the request channel has room ends the program: the answer that is put into the channel has a nil context, and the worker that takes it out calls a method of that context and panics. *)
Theorem wait_for_batch_crashes o p : opts p = with_defaults o -> well_formed p -> items p <> [] ->
  WaitForBatch o = true -> Z.of_nat (length (reqChan p)) < QueueSize (with_defaults o) ->
  exists p' req, processBatch p = Returns p' /\ req ∈ reqChan p' /\
    forall ce s w, workers s !! w = Some (Locking req) -> closing s = false -> step (Handle w ce) s = Some Panics.
Proof.
  intros Ho Hw Hi Hwait Hq. destruct (processBatch_spec p Hw Hi) as (l & Hp & Hl & Hn).
  rewrite Ho in Hn. specialize (Hn Hwait Hq). destruct l as [|req l]; [done|].
  eexists _, req. split_and!; [exact Hp|simpl; set_solver|].
  intros ce s w Hs Hcl. simpl. rewrite Hs, Hcl. unfold handleRequest. apply Forall_cons in Hl as [-> _]. done.
Qed.

(** [Close] holds the mutex while it waits for the workers; when a worker has taken a request and not yet the mutex, neither ever goes on: in every continuation the worker waits for the mutex and [Close] for the worker. *)
Theorem close_deadlocks es : forall s s' w req, closing s = true -> workers s !! w = Some (Locking req) ->
  run es s = Some (Returns s') ->
  closing s' = true /\ workers s' !! w = Some (Locking req) /\ step CloseReturn s' = None.
Proof.
  assert (Hblock : forall s w req, workers s !! w = Some (Locking req) -> step CloseReturn s = None).
  { intros s w req Hw. simpl. destruct (forallb _ _) eqn:Hf; [|by rewrite andb_false_r].
    rewrite forallb_forall in Hf. apply list_elem_of_lookup_2, list_elem_of_In in Hw. by specialize (Hf _ Hw). }
  induction es as [|e es IH]; intros s s' w req Hc Hw Hr; simplify_eq/=; [by eauto|].
  destruct (step e s) as [[s1|]|] eqn:Hs; simplify_eq.
  assert (closing s1 = true /\ workers s1 !! w = Some (Locking req)) as [Hc1 Hw1]; [|by eapply IH].
  destruct e as [id x|v|v ce|v| |]; [simpl in Hs..|pose proof (Hblock _ _ _ Hw) as Hb; simpl in Hs, Hb; congruence].
  - case_bool; by simplify_eq.
  - destruct (decide (v = w)) as [->|Hv]; [by rewrite Hw in Hs|].
    destruct (workers s !! v) as [[]|], (reqChan (proc s)); simplify_eq/=. by rewrite list_lookup_insert_ne.
  - rewrite Hc in Hs. by destruct (workers s !! v) as [[]|].
  - destruct (decide (v = w)) as [->|Hv]; [by rewrite Hw in Hs|].
    destruct (workers s !! v) as [[]|]; simplify_eq. case_bool; simplify_eq/=. by rewrite list_lookup_insert_ne.
  - by rewrite Hc in Hs.
Qed.

End Processor.

(** * Witnesses *)

(** Batches of two numbers, each answered by its double. *)
Definition doubling (wait : bool) : Options :=
  {| BatchSize := 2; MaxLatency := Millisecond; Workers := 2; WaitForBatch := wait; QueueSize := 4; DefaultTimeout := Second |}.

Definition double (l : list Z) : list Z * list (option batch_error) := (Z.mul 2 <$> l, (fun _ => None) <$> l).

Definition reached (wait : bool) (es : list (@event Z)) : @system Z Z :=
  match run 0 0 double es (start (doubling wait)) with Some (Returns s) => s | _ => start (doubling wait) end.

Definition three_requests : list (option batch_error * @request Z Z) :=
  [(None, new_request 0 0 1); (Some (ErrContext "canceled"), new_request 0 1 2); (None, new_request 0 2 3)].

Lemma requests_are_batched_witness :
  exists p, handle_all 0 0 double three_requests (NewProcessor (doubling false)) = Returns p /\
    concat (calls p) ++ items p = [1; 3] /\
    Forall (fun b => Z.of_nat (length b) = 2) (calls p) /\ Z.of_nat (length (items p)) < 2.
Proof. apply (requests_are_batched 0 0 double (doubling false) three_requests). by repeat constructor. Defined.

Definition one_waits : list (@event Z) := [Enqueue 0 7; Receive 0; Handle 0 None].

Lemma only_full_batches_witness :
  Forall (fun b => Z.of_nat (length b) = 2) (calls (proc (reached false one_waits))) /\
  Z.of_nat (length (items (proc (reached false one_waits)))) < 2.
Proof.
  apply (only_full_batches 0 0 double (doubling false) one_waits); [reflexivity|].
  unfold one_waits. rewrite !not_elem_of_cons. repeat split; try discriminate. apply not_elem_of_nil.
Defined.

Definition one_canceled : list (@event Z) := [Enqueue 0 7; Receive 0; Handle 0 (Some (ErrContext "canceled"))].

Lemma results_never_delivered_witness :
  let r := (0, Some (ErrContext "canceled")) in
  (Process (R := Z) 0 (doubling true) (CaseChannel tt) (CaseChannel r)).1 = 0 /\
  (Process (R := Z) 0 (doubling true) (CaseChannel tt) (CaseChannel r)).2 <> None.
Proof.
  intros r. apply (results_never_delivered 0 0 double (doubling true) one_canceled (reached true one_canceled) 0%nat);
    [reflexivity|reflexivity|].
  intros r' [= <-]. apply list_elem_of_singleton. reflexivity.
Defined.

Lemma wait_for_batch_crashes_witness :
  let p := {| opts := doubling true; items := [1; 2]; indices := [0; 1]; reqChan := []; quit := false;
              timer := true; calls := []; responses := [] |} in
  exists p' req, processBatch 0 0 double p = Returns p' /\ req ∈ reqChan p' /\
    forall ce s w, workers s !! w = Some (Locking req) -> closing s = false ->
                   step 0 0 double (Handle w ce) s = Some Panics.
Proof. intros p. apply (wait_for_batch_crashes 0 0 double (doubling true) p); done. Defined.

(** The program run that ends in the panic. *)
Example crash_run :
  run 0 0 double [Enqueue 0 1; Enqueue 1 2; Receive 0; Handle 0 None; Receive 1; Handle 1 None; Receive 0; Handle 0 None]
    (start (doubling true)) = Some Panics.
Proof. reflexivity. Qed.

(** A worker has taken a request when [Close] takes the mutex. *)
Definition stuck : @system Z Z := reached false [Enqueue 0 1; Receive 0; CloseStart].

Lemma close_deadlocks_witness :
  let s' := reached false [Enqueue 0 1; Receive 0; CloseStart; Leave 1] in
  closing s' = true /\ workers s' !! 0%nat = Some (Locking (new_request 0 0 1)) /\ step 0 0 double CloseReturn s' = None.
Proof. intros s'. apply (close_deadlocks 0 0 double [Leave 1] stuck s' 0%nat (new_request 0 0 1)); reflexivity. Defined.
