(* ===== verification/AdaptiveBatch.v ===== *)
(** The adaptive batcher of [src/internal/batch/adaptive_batcher.go].

    Callers wait for their items, which a loop collects into a queue and hands
    over to goroutines that process a batch. Items are shared objects in a heap
    and known by their index; a step is a critical section, a channel operation or
    a call. *)
From S2P Require Import Prelude Float64.

(** * Data *)

(** The values of the interface type that the batcher handles: a request or
    response of the program, a slice of them, and the struct that
    [NewMultiProcessorBatcher] wraps answers in. *)
Inductive value : Type :=
| VNil
| VOther (n : Z)
| VList (l : list value)
| VResults (Responses : list value) (Errors : list (option string)).

Inductive error : Type :=
| ErrBatchClosed
| ErrBatchSizeLimitExceeded
| ErrContextCanceled
| ErrCtx (e : string)
| ErrNoBatchRequestFunc
| ErrNoSplitResponseFunc
| ErrFewerResponses
| ErrProcessor (e : string).

Record AdaptiveBatchOptions : Type := {
  MaxBatchSize : Z; MinBatchSize : Z; MaxLatency : Z; MaxRequestSize : Z; MaxConcurrentBatches : Z;
  HighLoadFactor : float64; LowLoadFactor : float64; HighLoadThreshold : float64; LowLoadThreshold : float64;
  RequestSizeFunc : option (value -> Z);
  BatchRequestFunc : option (list value -> value);
  SplitResponseFunc : option (value -> Z -> list value);
  ErrorHandler : option (error -> option error);
  StatsInterval : Z }.

Definition DefaultAdaptiveBatchOptions : AdaptiveBatchOptions :=
  {| MaxBatchSize := 100; MinBatchSize := 10; MaxLatency := 50 * Millisecond; MaxRequestSize := 0;
     MaxConcurrentBatches := 10; HighLoadFactor := lit 7 10; LowLoadFactor := lit 15 10;
     HighLoadThreshold := lit 8 10; LowLoadThreshold := lit 3 10; RequestSizeFunc := None;
     BatchRequestFunc := None; SplitResponseFunc := None; ErrorHandler := None; StatsInterval := 5 * Second |}.

(** The defaults that [NewAdaptiveBatcher] puts. *)
Definition with_defaults (o : AdaptiveBatchOptions) : AdaptiveBatchOptions :=
  let or (z d : Z) := if z <=? 0 then d else z in
  {| MaxBatchSize := or (MaxBatchSize o) 100; MinBatchSize := or (MinBatchSize o) 1;
     MaxLatency := or (MaxLatency o) (100 * Millisecond); MaxRequestSize := MaxRequestSize o;
     MaxConcurrentBatches := or (MaxConcurrentBatches o) 10;
     HighLoadFactor := HighLoadFactor o; LowLoadFactor := LowLoadFactor o;
     HighLoadThreshold := HighLoadThreshold o; LowLoadThreshold := LowLoadThreshold o;
     RequestSizeFunc := RequestSizeFunc o; BatchRequestFunc := BatchRequestFunc o;
     SplitResponseFunc := SplitResponseFunc o; ErrorHandler := ErrorHandler o; StatsInterval := StatsInterval o |}.

(** Where the call of [Process] that owns an item is. *)
Inductive caller_pc : Type :=
| Sending
| Waiting
| Returned (r : value) (e : option error).

(** [Done] says that the channel is closed; [ctx_err] is what [ctx.Err] answers.
    [sent] records that the item went into the channel. *)
Record RequestItem : Type := {
  Request : value; Size : Z; Response : value; Error : option error; Done : bool;
  arrivedAt : Z; processingAt : Z; completedAt : Z; ctx_err : option string; caller : caller_pc; sent : bool }.

Record BatchStats : Type := {
  TotalRequests : Z; TotalBatches : Z; AvgBatchSize : float64; AvgWaitTimeMs : float64; AvgProcessTimeMs : float64;
  CurrentBatchSize : Z; CurrentWaitingRequests : Z; CurrentActiveBatches : Z;
  LoadFactor : float64; BatchRate : float64; RequestRate : float64 }.

Definition zero_stats : BatchStats :=
  {| TotalRequests := 0; TotalBatches := 0; AvgBatchSize := of_int 0; AvgWaitTimeMs := of_int 0;
     AvgProcessTimeMs := of_int 0; CurrentBatchSize := 0; CurrentWaitingRequests := 0; CurrentActiveBatches := 0;
     LoadFactor := of_int 0; BatchRate := of_int 0; RequestRate := of_int 0 |}.

(** A ring buffer of times; [None] is the zero time. *)
Record ring : Type := { times : list (option Z); idx : Z }.

Definition new_ring : ring := {| times := replicate 100 None; idx := 0 |}.

Definition record_time (now : Z) (r : ring) : ring :=
  {| times := <[Z.to_nat (idx r) := Some now]> (times r);
     idx := Z.rem (idx r + 1) (Z.of_nat (length (times r))) |}.

(** The batcher's own fields, but for the items, the load statistics and what the
    goroutines hold. *)
Record AdaptiveBatcher : Type := {
  opts : AdaptiveBatchOptions;
  items : list nat;
  requestChan : list nat;
  activeCount : Z;
  closed : bool;
  timer : option Z;                (* when it fires, if it runs *)
  timerActive : bool;
  currentBatchSize : Z;
  stop : bool;                     (* the channel is closed *)
  stats : BatchStats;
  processingCount : Z;
  lastProcessTime : option Z;
  requestTimes : ring;
  batchTimes : ring }.

(** The most bytes that the runtime allocates at once on the 64-bit systems
    ([runtime.maxAlloc]); below it the memory may still run out, which ends the
    program. *)
Definition max_alloc : Z := 2 ^ 48.

(** Whether [make] gives a slice or channel of [n] pointers instead of a panic. *)
Definition make_fits (n : Z) : bool := (0 <=? n) && (8 * n <=? max_alloc).

(** The struct that [NewAdaptiveBatcher] fills in. *)
Definition new_batcher (o : AdaptiveBatchOptions) : AdaptiveBatcher :=
  let o := with_defaults o in
  {| opts := o; items := []; requestChan := []; activeCount := 0; closed := false; timer := None; timerActive := false;
     currentBatchSize := MaxBatchSize o; stop := false; stats := zero_stats; processingCount := 0;
     lastProcessTime := None; requestTimes := new_ring; batchTimes := new_ring |}.

(** [NewAdaptiveBatcher]: the queue and the channel must fit. *)
Definition NewAdaptiveBatcher (o : AdaptiveBatchOptions) : outcome AdaptiveBatcher :=
  let n := MaxBatchSize (with_defaults o) in
  if make_fits n && make_fits (i64 (n * 2)) then Returns (new_batcher o) else Panics.

(** * Field updates *)

Definition set_queues (its chan : list nat) (b : AdaptiveBatcher) : AdaptiveBatcher :=
  {| opts := opts b; items := its; requestChan := chan; activeCount := activeCount b; closed := closed b;
     timer := timer b; timerActive := timerActive b; currentBatchSize := currentBatchSize b; stop := stop b;
     stats := stats b; processingCount := processingCount b; lastProcessTime := lastProcessTime b;
     requestTimes := requestTimes b; batchTimes := batchTimes b |}.

Definition set_active (n : Z) (b : AdaptiveBatcher) : AdaptiveBatcher :=
  {| opts := opts b; items := items b; requestChan := requestChan b; activeCount := n; closed := closed b;
     timer := timer b; timerActive := timerActive b; currentBatchSize := currentBatchSize b; stop := stop b;
     stats := stats b; processingCount := processingCount b; lastProcessTime := lastProcessTime b;
     requestTimes := requestTimes b; batchTimes := batchTimes b |}.

Definition set_timer (t : option Z) (a : bool) (b : AdaptiveBatcher) : AdaptiveBatcher :=
  {| opts := opts b; items := items b; requestChan := requestChan b; activeCount := activeCount b; closed := closed b;
     timer := t; timerActive := a; currentBatchSize := currentBatchSize b; stop := stop b;
     stats := stats b; processingCount := processingCount b; lastProcessTime := lastProcessTime b;
     requestTimes := requestTimes b; batchTimes := batchTimes b |}.

Definition set_closed (b : AdaptiveBatcher) : AdaptiveBatcher :=
  {| opts := opts b; items := items b; requestChan := requestChan b; activeCount := activeCount b; closed := true;
     timer := if timerActive b then None else timer b; timerActive := timerActive b;
     currentBatchSize := currentBatchSize b; stop := true;
     stats := stats b; processingCount := processingCount b; lastProcessTime := lastProcessTime b;
     requestTimes := requestTimes b; batchTimes := batchTimes b |}.

Definition set_stats (s : BatchStats) (size : Z) (b : AdaptiveBatcher) : AdaptiveBatcher :=
  {| opts := opts b; items := items b; requestChan := requestChan b; activeCount := activeCount b; closed := closed b;
     timer := timer b; timerActive := timerActive b; currentBatchSize := size; stop := stop b;
     stats := s; processingCount := processingCount b; lastProcessTime := lastProcessTime b;
     requestTimes := requestTimes b; batchTimes := batchTimes b |}.

Definition set_processing (n : Z) (last : option Z) (b : AdaptiveBatcher) : AdaptiveBatcher :=
  {| opts := opts b; items := items b; requestChan := requestChan b; activeCount := activeCount b; closed := closed b;
     timer := timer b; timerActive := timerActive b; currentBatchSize := currentBatchSize b; stop := stop b;
     stats := stats b; processingCount := n; lastProcessTime := last;
     requestTimes := requestTimes b; batchTimes := batchTimes b |}.

Definition set_times (rq bt : ring) (b : AdaptiveBatcher) : AdaptiveBatcher :=
  {| opts := opts b; items := items b; requestChan := requestChan b; activeCount := activeCount b; closed := closed b;
     timer := timer b; timerActive := timerActive b; currentBatchSize := currentBatchSize b; stop := stop b;
     stats := stats b; processingCount := processingCount b; lastProcessTime := lastProcessTime b;
     requestTimes := rq; batchTimes := bt |}.

(** * Load and sizes *)

Section Batcher.
Context `{GoImpl}.

(** The times of the last minute: their number and the oldest. *)
Definition recent (now : Z) (r : ring) : Z * option Z :=
  foldl (fun '(n, oldest) t =>
    match t with
    | Some t =>
        if time_sub now t <? Minute
        then (n + 1, match oldest with
                     | None => Some t
                     | Some o => if t <? o then Some t else Some o
                     end)
        else (n, oldest)
    | None => (n, oldest)
    end) (0, None) (times r).

(** Events per second since the oldest of them. *)
Definition rate (now : Z) (r : ring) : float64 :=
  match recent now r with
  | (n, Some oldest) =>
      let elapsed := Seconds (time_sub now oldest) in
      if fgt elapsed (of_int 0) then fdiv (of_int n) elapsed else of_int 0
  | (_, None) => of_int 0
  end.

Definition set_load (load req batch : float64) (s : BatchStats) : BatchStats :=
  {| TotalRequests := TotalRequests s; TotalBatches := TotalBatches s; AvgBatchSize := AvgBatchSize s;
     AvgWaitTimeMs := AvgWaitTimeMs s; AvgProcessTimeMs := AvgProcessTimeMs s;
     CurrentBatchSize := CurrentBatchSize s; CurrentWaitingRequests := CurrentWaitingRequests s;
     CurrentActiveBatches := CurrentActiveBatches s; LoadFactor := load; BatchRate := batch; RequestRate := req |}.

Definition set_waiting (n : Z) (s : BatchStats) : BatchStats :=
  {| TotalRequests := TotalRequests s; TotalBatches := TotalBatches s; AvgBatchSize := AvgBatchSize s;
     AvgWaitTimeMs := AvgWaitTimeMs s; AvgProcessTimeMs := AvgProcessTimeMs s;
     CurrentBatchSize := CurrentBatchSize s; CurrentWaitingRequests := n;
     CurrentActiveBatches := CurrentActiveBatches s; LoadFactor := LoadFactor s; BatchRate := BatchRate s;
     RequestRate := RequestRate s |}.

(** [updateStats], the clock read once. *)
Definition updateStats (now : Z) (b : AdaptiveBatcher) : AdaptiveBatcher :=
  let loadFactor := fdiv (of_int (processingCount b)) (of_int (MaxConcurrentBatches (opts b))) in
  let loadFactor := match lastProcessTime b with
                    | Some t => if time_sub now t >? Minute then of_int 0 else loadFactor
                    | None => loadFactor
                    end in
  set_stats (set_load loadFactor (rate now (requestTimes b)) (rate now (batchTimes b)) (stats b))
            (currentBatchSize b) b.

(** The batch size after a batch, by the load measured last. *)
Definition resize (o : AdaptiveBatchOptions) (load : float64) (size : Z) : Z :=
  if fgt load (HighLoadThreshold o) then
    let newSize := to_i64 (fmul (of_int size) (HighLoadFactor o)) in
    if newSize <? MinBatchSize o then MinBatchSize o else newSize
  else if flt load (LowLoadThreshold o) then
    let newSize := to_i64 (fmul (of_int size) (LowLoadFactor o)) in
    if newSize >? MaxBatchSize o then MaxBatchSize o else newSize
  else size.

(** * Batches *)

(** [close(item.Done)]: a second close panics. *)
Definition close_done (item : RequestItem) : outcome RequestItem :=
  if Done item then Panics
  else Returns {| Request := Request item; Size := Size item; Response := Response item; Error := Error item; Done := true;
                  arrivedAt := arrivedAt item; processingAt := processingAt item; completedAt := completedAt item;
                  ctx_err := ctx_err item; caller := caller item; sent := sent item |}.

Definition set_answer (r : value) (e : option error) (item : RequestItem) : RequestItem :=
  {| Request := Request item; Size := Size item; Response := r; Error := e; Done := Done item;
     arrivedAt := arrivedAt item; processingAt := processingAt item; completedAt := completedAt item;
     ctx_err := ctx_err item; caller := caller item; sent := sent item |}.

Definition set_processingAt (t : Z) (item : RequestItem) : RequestItem :=
  {| Request := Request item; Size := Size item; Response := Response item; Error := Error item; Done := Done item;
     arrivedAt := arrivedAt item; processingAt := t; completedAt := completedAt item;
     ctx_err := ctx_err item; caller := caller item; sent := sent item |}.

Definition set_completedAt (t : Z) (item : RequestItem) : RequestItem :=
  {| Request := Request item; Size := Size item; Response := Response item; Error := Error item; Done := Done item;
     arrivedAt := arrivedAt item; processingAt := processingAt item; completedAt := t;
     ctx_err := ctx_err item; caller := caller item; sent := sent item |}.

(** A loop over the items of a batch that writes the answer [f i] of the i-th one
    and closes its channel. *)
Fixpoint answer_all (f : nat -> RequestItem -> value * option error) (i : nat) (ks : list nat) (h : list RequestItem)
  : outcome (list RequestItem) :=
  match ks with
  | [] => Returns h
  | k :: ks =>
      match h !! k with
      | None => Panics
      | Some item =>
          let '(r, e) := f i item in
          match close_done (set_answer r e item) with
          | Panics => Panics
          | Returns item => answer_all f (S i) ks (<[k := item]> h)
          end
      end
  end.

(** The first loop of [processBatch]: items whose context is done are answered,
    the others are the batch. *)
Fixpoint validate (now : Z) (ks : list nat) (h : list RequestItem) : outcome (list nat * list RequestItem) :=
  match ks with
  | [] => Returns ([], h)
  | k :: ks =>
      match h !! k with
      | None => Panics
      | Some item =>
          match ctx_err item with
          | None =>
              match validate now ks (<[k := set_processingAt now item]> h) with
              | Panics => Panics
              | Returns (valid, h) => Returns (k :: valid, h)
              end
          | Some e =>
              match close_done (set_answer (Response item) (Some (ErrCtx e)) item) with
              | Panics => Panics
              | Returns item => validate now ks (<[k := item]> h)
              end
          end
      end
  end.

(** The request for a whole batch, [None] when there is no way to merge. *)
Definition merge (o : AdaptiveBatchOptions) (requests : list value) : option value :=
  match BatchRequestFunc o with
  | Some f => Some (f requests)
  | None => match requests with [r] => Some r | _ => None end
  end.

(** The answer of the i-th item of a batch of [n]. *)
Definition answer_of (o : AdaptiveBatchOptions) (n : Z) (resp : value) (err : option error) (i : nat) (item : RequestItem)
  : value * option error :=
  match err with
  | Some e => (Response item, match ErrorHandler o with Some f => f e | None => Some e end)
  | None =>
      match SplitResponseFunc o, n >? 1 with
      | Some split, true =>
          match split resp n !! i with
          | Some r => (r, Error item)
          | None => (Response item, Some ErrFewerResponses)
          end
      | _, _ => if n =? 1 then (resp, Error item) else (Response item, Some ErrNoSplitResponseFunc)
      end
  end.

Definition milliseconds (d : Z) : Z := Z.quot d Millisecond.

(** The sums of the waiting and processing times of a batch. *)
Definition total_times (clock : nat -> Z) (valid : list nat) (h : list RequestItem) : Z * Z :=
  foldl (fun '(wait, proc) '(i, k) =>
    match h !! k with
    | Some item => (i64 (wait + milliseconds (time_sub (processingAt item) (arrivedAt item))),
                    i64 (proc + milliseconds (time_sub (clock i) (processingAt item))))
    | None => (wait, proc)
    end) (0, 0) (zip (seq 0 (length valid)) valid).

(** The statistics section of [processBatch], with the new batch size. *)
Definition batch_stats (clock : nat -> Z) (valid : list nat) (h : list RequestItem) (b : AdaptiveBatcher) : AdaptiveBatcher :=
  let s := stats b in
  let n := Z.of_nat (length valid) in
  let size := resize (opts b) (LoadFactor s) (currentBatchSize b) in
  let '(wait, proc) := total_times clock valid h in
  let requests := i64 (TotalRequests s + n) in
  let batches := i64 (TotalBatches s + 1) in
  set_stats {| TotalRequests := requests; TotalBatches := batches;
               AvgBatchSize := fdiv (of_int requests) (of_int batches);
               AvgWaitTimeMs := fdiv (of_int wait) (of_int n); AvgProcessTimeMs := fdiv (of_int proc) (of_int n);
               CurrentBatchSize := size; CurrentWaitingRequests := CurrentWaitingRequests s;
               CurrentActiveBatches := activeCount b; LoadFactor := LoadFactor s; BatchRate := BatchRate s;
               RequestRate := RequestRate s |} size b.

(** The loop that records when the items of a batch were completed. *)
Fixpoint complete_all (clock : nat -> Z) (i : nat) (ks : list nat) (h : list RequestItem) : list RequestItem :=
  match ks with
  | [] => h
  | k :: ks => complete_all clock (S i) ks (alter (set_completedAt (clock i)) k h)
  end.

(** * The system *)

(** Where [processBatch] is: at its start, in the call of the processor, back from
    it, at the last critical section, returned. *)
Inductive phase : Type :=
| BStart
| BCall (valid : list nat) (request : value)
| BAnswer (valid : list nat) (resp : value) (err : option error)
| BFinish
| BReturned.

(** A run of [processBatch]; [launched] says that the loop started it (and counted
    it), otherwise [Flush] called it. *)
Record batch : Type := { batch_items : list nat; at_phase : phase; launched : bool }.

Record system : Type := {
  batcher : AdaptiveBatcher; heap : list RequestItem; batches : list batch; looping : bool }.

Definition start (o : AdaptiveBatchOptions) : system :=
  {| batcher := new_batcher o; heap := []; batches := []; looping := true |}.

Definition with_batcher (b : AdaptiveBatcher) (s : system) : system :=
  {| batcher := b; heap := heap s; batches := batches s; looping := looping s |}.

Definition with_item (k : nat) (item : RequestItem) (s : system) : system :=
  {| batcher := batcher s; heap := <[k := item]> (heap s); batches := batches s; looping := looping s |}.

Definition set_caller (pc : caller_pc) (snt : bool) (item : RequestItem) : RequestItem :=
  {| Request := Request item; Size := Size item; Response := Response item; Error := Error item; Done := Done item;
     arrivedAt := arrivedAt item; processingAt := processingAt item; completedAt := completedAt item;
     ctx_err := ctx_err item; caller := pc; sent := snt |}.

Definition set_ctx (e : string) (item : RequestItem) : RequestItem :=
  {| Request := Request item; Size := Size item; Response := Response item; Error := Error item; Done := Done item;
     arrivedAt := arrivedAt item; processingAt := processingAt item; completedAt := completedAt item;
     ctx_err := match ctx_err item with None => Some e | Some e0 => Some e0 end; caller := caller item; sent := sent item |}.

(** The loop takes the queue for a new batch if it may start one. The new queue is
    made with room for the current batch size, which panics when that is negative
    or too large. *)
Definition launch (s : system) : outcome system :=
  let b := batcher s in
  if activeCount b >=? MaxConcurrentBatches (opts b) then Returns s
  else if make_fits (currentBatchSize b) then
    Returns {| batcher := set_queues [] (requestChan b) (set_active (i64 (activeCount b + 1)) b); heap := heap s;
               batches := batches s ++ [{| batch_items := items b; at_phase := BStart; launched := true |}];
               looping := looping s |}
  else Panics.

(** The case of [processLoop] for a received item. *)
Definition receive (now : Z) (k : nat) (chan : list nat) (s : system) : outcome system :=
  let b := batcher s in
  let its := items b ++ [k] in
  let n := Z.of_nat (length its) in
  let b := set_queues its chan b in
  let oldest := match its with o :: _ => match heap s !! o with Some x => arrivedAt x | None => 0 end | [] => 0 end in
  let shouldProcess :=
    if n >=? currentBatchSize b then true
    else if n >=? MinBatchSize (opts b) then time_sub now oldest >=? MaxLatency (opts b) else false in
  let b := if negb shouldProcess && negb (timerActive b) && (n >? 0)
           then set_timer (Some (now + MaxLatency (opts b))) true b else b in
  let b := set_stats (set_waiting n (stats b)) (currentBatchSize b) b in
  if shouldProcess then launch (with_batcher b s) else Returns (with_batcher b s).

(** The case of [processLoop] for the timer. *)
Definition fire (s : system) : outcome system :=
  let s := with_batcher (set_timer None false (batcher s)) s in
  match items (batcher s) with [] => Returns s | _ => launch s end.

(** The first section of [Flush]: the queue is taken for a batch of the caller's. *)
Definition flush (s : system) : outcome system :=
  let b := batcher s in
  match items b with
  | [] => Returns s
  | its =>
      if make_fits (currentBatchSize b) then
        Returns {| batcher := set_queues [] (requestChan b) b; heap := heap s;
                   batches := batches s ++ [{| batch_items := its; at_phase := BStart; launched := false |}];
                   looping := looping s |}
      else Panics
  end.

Definition set_batch (j : nat) (p : phase) (s : system) : system :=
  {| batcher := batcher s; heap := heap s;
     batches := alter (fun x => {| batch_items := batch_items x; at_phase := p; launched := launched x |}) j (batches s);
     looping := looping s |}.

Definition with_heap (h : list RequestItem) (s : system) : system :=
  {| batcher := batcher s; heap := h; batches := batches s; looping := looping s |}.

(** [processBatch] up to the call of the processor. *)
Definition begin_batch (now : Z) (j : nat) (its : list nat) (s : system) : outcome system :=
  match its with
  | [] => Returns (set_batch j BReturned s)
  | _ =>
      let b := batcher s in
      let s := with_batcher (set_times (requestTimes b) (record_time now (batchTimes b)) b) s in
      match validate now its (heap s) with
      | Panics => Panics
      | Returns ([], h) => Returns (set_batch j BFinish (with_heap h s))
      | Returns (valid, h) =>
          let requests := omap (fun k => Request <$> h !! k) valid in
          match merge (opts b) requests with
          | None =>
              match answer_all (fun _ item => (Response item, Some ErrNoBatchRequestFunc)) 0 valid h with
              | Panics => Panics
              | Returns h => Returns (set_batch j BFinish (with_heap h s))
              end
          | Some request =>
              let b := batcher s in
              Returns (set_batch j (BCall valid request)
                (with_batcher (set_processing (i64 (processingCount b + 1)) (lastProcessTime b) b) (with_heap h s)))
          end
      end
  end.

(** The sections after the processor returned, up to the last one. *)
Definition distribute (clock : nat -> Z) (j : nat) (valid : list nat) (resp : value) (err : option error) (s : system)
  : outcome system :=
  let b := batch_stats clock valid (heap s) (batcher s) in
  let h := complete_all clock 0 valid (heap s) in
  match answer_all (answer_of (opts b) (Z.of_nat (length valid)) resp err) 0 valid h with
  | Panics => Panics
  | Returns h => Returns (set_batch j BFinish (with_batcher b (with_heap h s)))
  end.

Inductive event : Type :=
| Arrive (request : value) (now : Z)        (* [Process] up to its first select *)
| SendItem (k : nat)
| Cancel (k : nat) (e : string)             (* the caller's context is done *)
| GiveUp (k : nat)
| Collect (k : nat)
| LoopReceive (now : Z)
| LoopFire (now : Z)
| LoopStop
| Begin (j : nat) (now : Z)
| Answer (j : nat) (now : Z) (resp : value) (err : option error)   (* the processor returns *)
| Distribute (j : nat) (clock : nat -> Z)
| Finish (j : nat)
| Flush
| Close
| UpdateStats (now : Z).

(** The first checks of [Process]: an error, or the new item. *)
Definition arrive (request : value) (now : Z) (b : AdaptiveBatcher) : result error RequestItem :=
  if closed b then Err ErrBatchClosed
  else
    let size := match RequestSizeFunc (opts b) with Some f => f request | None => 0 end in
    if bool_decide (RequestSizeFunc (opts b) <> None) && (MaxRequestSize (opts b) >? 0) && (size >? MaxRequestSize (opts b))
    then Err ErrBatchSizeLimitExceeded
    else Ok {| Request := request; Size := size; Response := VNil; Error := None; Done := false; arrivedAt := now;
               processingAt := 0; completedAt := 0; ctx_err := None; caller := Sending; sent := false |}.

(** One step, [None] when it is not enabled. *)
Definition step (e : event) (s : system) : option (outcome system) :=
  let b := batcher s in
  match e with
  | Arrive request now =>
      Some (Returns (match arrive request now b with
                     | Err _ => s
                     | Ok item => {| batcher := set_times (record_time now (requestTimes b)) (batchTimes b) b;
                                     heap := heap s ++ [item]; batches := batches s; looping := looping s |}
                     end))
  | SendItem k =>
      match heap s !! k with
      | Some item =>
          match caller item with
          | Sending =>
              if Z.of_nat (length (requestChan b)) <? MaxBatchSize (opts b) * 2
              then Some (Returns (with_item k (set_caller Waiting true item)
                                   (with_batcher (set_queues (items b) (requestChan b ++ [k]) b) s)))
              else None
          | _ => None
          end
      | None => None
      end
  | Cancel k e => item ← heap s !! k; Some (Returns (with_item k (set_ctx e item) s))
  | GiveUp k =>
      item ← heap s !! k;
      e ← ctx_err item;
      match caller item with
      | Sending => Some (Returns (with_item k (set_caller (Returned VNil (Some ErrContextCanceled)) false item) s))
      | Waiting => Some (Returns (with_item k (set_caller (Returned VNil (Some (ErrCtx e))) (sent item) item) s))
      | Returned _ _ => None
      end
  | Collect k =>
      item ← heap s !! k;
      match caller item, Done item with
      | Waiting, true => Some (Returns (with_item k (set_caller (Returned (Response item) (Error item)) (sent item) item) s))
      | _, _ => None
      end
  | LoopReceive now =>
      match looping s, requestChan b with
      | true, k :: chan => Some (receive now k chan s)
      | _, _ => None
      end
  | LoopFire now =>
      match looping s, timer b with
      | true, Some t => if t <=? now then Some (fire s) else None
      | _, _ => None
      end
  | LoopStop =>
      if looping s && stop b
      then Some (Returns {| batcher := b; heap := heap s; batches := batches s; looping := false |}) else None
  | Begin j now =>
      x ← batches s !! j;
      match at_phase x with BStart => Some (begin_batch now j (batch_items x) s) | _ => None end
  | Answer j now resp err =>
      x ← batches s !! j;
      match at_phase x with
      | BCall valid _ =>
          Some (Returns (set_batch j (BAnswer valid resp err)
                          (with_batcher (set_processing (i64 (processingCount b - 1)) (Some now) b) s)))
      | _ => None
      end
  | Distribute j clock =>
      x ← batches s !! j;
      match at_phase x with BAnswer valid resp err => Some (distribute clock j valid resp err s) | _ => None end
  | Finish j =>
      x ← batches s !! j;
      match at_phase x with
      | BFinish => Some (Returns (set_batch j BReturned (with_batcher (set_active (i64 (activeCount b - 1)) b) s)))
      | _ => None
      end
  | Flush => Some (flush s)
  | Close => Some (if closed b then Returns s else flush (with_batcher (set_closed b) s))
  | UpdateStats now => Some (Returns (with_batcher (updateStats now b) s))
  end.

Fixpoint run (es : list event) (s : system) : option (outcome system) :=
  match es with
  | [] => Some (Returns s)
  | e :: es => match step e s with
               | Some (Returns s) => run es s
               | Some Panics => Some Panics
               | None => None
               end
  end.

(** * Independent requests *)

(** The processor that [NewMultiProcessorBatcher] makes of a [MultiProcessor]. *)
Definition multi_processor (ProcessMulti : list value -> list value * list (option string)) (batchReq : value)
  : value * option error :=
  match batchReq with
  | VList requests => let '(responses, errs) := ProcessMulti requests in (VResults responses errs, None)
  | _ => (VNil, Some (ErrProcessor "invalid batch request type"))
  end.

Definition multi_options (o : AdaptiveBatchOptions) : AdaptiveBatchOptions :=
  {| MaxBatchSize := MaxBatchSize o; MinBatchSize := MinBatchSize o; MaxLatency := MaxLatency o;
     MaxRequestSize := MaxRequestSize o; MaxConcurrentBatches := MaxConcurrentBatches o;
     HighLoadFactor := HighLoadFactor o; LowLoadFactor := LowLoadFactor o;
     HighLoadThreshold := HighLoadThreshold o; LowLoadThreshold := LowLoadThreshold o;
     RequestSizeFunc := RequestSizeFunc o;
     BatchRequestFunc := match BatchRequestFunc o with Some f => Some f | None => Some VList end;
     SplitResponseFunc := match SplitResponseFunc o with
                          | Some f => Some f
                          | None => Some (fun resp count => match resp with
                                                            | VResults responses _ => responses
                                                            | _ => replicate (Z.to_nat count) VNil
                                                            end)
                          end;
     ErrorHandler := ErrorHandler o; StatsInterval := StatsInterval o |}.

Definition NewMultiProcessorBatcher (o : AdaptiveBatchOptions) : outcome AdaptiveBatcher :=
  NewAdaptiveBatcher (multi_options o).

(** * Where an item is *)

(** The items a batch has still to answer. *)
Definition pending (x : batch) : list nat :=
  match at_phase x with
  | BStart => batch_items x
  | BCall valid _ | BAnswer valid _ _ => valid
  | BFinish | BReturned => []
  end.

Definition places (s : system) : list nat :=
  requestChan (batcher s) ++ items (batcher s) ++ concat (pending <$> batches s).

(** The items in [l] are those that were sent and not answered, each once. *)
Record consistent (h : list RequestItem) (l : list nat) : Prop := {
  once : NoDup l;
  unanswered : forall k, k ∈ l -> exists item, h !! k = Some item /\ sent item = true /\ Done item = false;
  placed : forall k item, h !! k = Some item -> sent item = true -> Done item = false -> k ∈ l;
  fresh : forall k item, h !! k = Some item -> caller item = Sending -> sent item = false /\ Done item = false }.

Lemma consistent_perm h l l' : l ≡ₚ l' -> consistent h l -> consistent h l'.
Proof. intros Hp [H1 H2 H3 H4]. split; [by rewrite <- Hp|setoid_rewrite <- Hp; done..|done]. Qed.

(** Changes that are not about where items are. *)
Lemma consistent_same h h' l : consistent h l ->
  (forall k item', h' !! k = Some item' -> exists item, h !! k = Some item /\ sent item' = sent item /\
     Done item' = Done item /\ (caller item' = Sending -> caller item = Sending)) ->
  length h' = length h -> consistent h' l.
Proof.
  intros [H1 H2 H3 H4] Hs Hl. split; [done|..].
  - intros k Hk. destruct (H2 k Hk) as (item & Hi & ? & ?).
    destruct (lookup_lt_is_Some_2 h' k) as [item' Hi']; [rewrite Hl; by apply lookup_lt_Some in Hi|].
    destruct (Hs k item' Hi') as (item2 & Hi2 & ? & ? & _). exists item'. split_and!; [done|congruence..].
  - intros k item' Hi' Hsn Hd. destruct (Hs k item' Hi') as (item & Hi & ? & ? & _). eapply H3; [done|congruence..].
  - intros k item' Hi' Hc. destruct (Hs k item' Hi') as (item & Hi & ? & ? & Hcc). destruct (H4 k item Hi (Hcc Hc)). split; congruence.
Qed.

(** An item is answered: it leaves its place. *)
Lemma consistent_close h l k item : consistent h (k :: l) -> h !! k = Some item ->
  forall item', sent item' = sent item -> caller item' = caller item -> Done item' = true ->
  consistent (<[k := item']> h) l.
Proof.
  intros [H1 H2 H3 H4] Hi item' Hsn Hc Hd. apply NoDup_cons in H1 as [Hk H1].
  assert (Hlen : (k < length h)%nat) by (by apply lookup_lt_Some in Hi). split; [done|..].
  - intros j Hj. destruct (H2 j) as (x & ? & ? & ?); [set_solver|].
    exists x. rewrite list_lookup_insert_ne by (intros ->; done). done.
  - intros j x Hx ? ?. destruct (decide (k = j)) as [->|].
    + rewrite list_lookup_insert_eq in Hx by done. congruence.
    + rewrite list_lookup_insert_ne in Hx by done. pose proof (H3 j x Hx) as Hj. rewrite elem_of_cons in Hj. naive_solver.
  - intros j x Hx Hcx. destruct (decide (k = j)) as [->|].
    + rewrite list_lookup_insert_eq in Hx by done. simplify_eq. destruct (H4 j item Hi) as [? _]; [congruence|].
      destruct (H2 j) as (y & ? & ? & _); [set_solver|]. simplify_eq. congruence.
    + rewrite list_lookup_insert_ne in Hx by done. by eapply H4.
Qed.

(** A loop over items that are all unanswered does not panic and answers each of
    them. *)
Lemma answer_all_spec f ks : forall i h l, consistent h (ks ++ l) ->
  exists h', answer_all f i ks h = Returns h' /\ consistent h' l /\ length h' = length h /\
    (forall k, k ∉ ks -> h' !! k = h !! k) /\
    forall n k, ks !! n = Some k -> exists item item', h !! k = Some item /\ h' !! k = Some item' /\
      Response item' = (f (i + n)%nat item).1 /\ Error item' = (f (i + n)%nat item).2 /\ Done item' = true.
Proof.
  induction ks as [|k ks IH]; intros i h l Hc; simpl in *.
  { exists h. split_and!; try done. }
  destruct (unanswered _ _ Hc k) as (item & Hi & Hsn & Hd); [set_solver|].
  pose proof (once _ _ Hc) as [Hk Hnd]%NoDup_cons.
  rewrite Hi. destruct (f i item) as [r e] eqn:Hf. unfold close_done. simpl. rewrite Hd.
  set (item1 := {| Request := _; Size := _; Response := r; Error := e; Done := true; arrivedAt := _; processingAt := _;
                   completedAt := _; ctx_err := _; caller := _; sent := _ |}).
  assert (Hlt : (k < length h)%nat) by (by apply lookup_lt_Some in Hi).
  destruct (IH (S i) (<[k := item1]> h) l) as (h' & Ha & Hc' & Hl & Hout & Hin); [by eapply consistent_close|].
  exists h'. split_and!; [done|done|by rewrite Hl, length_insert| |].
  - intros j Hj. apply not_elem_of_cons in Hj as [? ?]. rewrite Hout by done. by rewrite list_lookup_insert_ne.
  - intros [|n] j Hj; simplify_eq/=.
    + exists item, item1. rewrite Hout by set_solver. rewrite list_lookup_insert_eq, Nat.add_0_r, Hf by done. done.
    + destruct (Hin n j Hj) as (x & x' & Hx & Hx' & Hr). rewrite list_lookup_insert_ne in Hx.
      * exists x, x'. by rewrite <- Nat.add_succ_comm.
      * intros ->. apply Hk, elem_of_app. left. by eapply list_elem_of_lookup_2.
Qed.

(** A write of one item that keeps its flags. *)
Lemma consistent_write h l k item item' : consistent h l -> h !! k = Some item ->
  sent item' = sent item -> Done item' = Done item -> (caller item' = Sending -> caller item = Sending) ->
  consistent (<[k := item']> h) l.
Proof.
  intros Hc Hk Hs Hd Hca. eapply consistent_same; [done| |by rewrite length_insert].
  intros j x Hx. destruct (decide (k = j)) as [<-|Hj].
  - rewrite list_lookup_insert_eq in Hx by (by apply lookup_lt_Some in Hk). simplify_eq. by exists item.
  - rewrite list_lookup_insert_ne in Hx by done. by exists x.
Qed.

Definition alive (h : list RequestItem) (k : nat) : Prop := ctx_err <$> h !! k = Some None.

#[export] Instance alive_dec h k : Decision (alive h k).
Proof. unfold alive. apply _. Defined.

Lemma validate_spec now ks : forall h l, consistent h (ks ++ l) ->
  exists h', validate now ks h = Returns (filter (alive h) ks, h') /\
    consistent h' (filter (alive h) ks ++ l) /\ length h' = length h /\
    (forall k, ctx_err <$> h' !! k = ctx_err <$> h !! k) /\ (forall k, Request <$> h' !! k = Request <$> h !! k).
Proof.
  induction ks as [|k ks IH]; intros h l Hc; simpl in *; [by exists h|].
  destruct (unanswered _ _ Hc k) as (item & Hi & Hsn & Hd); [set_solver|]. rewrite Hi.
  assert (Hlt : (k < length h)%nat) by (by apply lookup_lt_Some in Hi).
  assert (Hsame : forall item' A (g : RequestItem -> A), g item' = g item ->
            forall j, g <$> <[k := item']> h !! j = g <$> h !! j).
  { intros item' A g Hg j. destruct (decide (k = j)) as [<-|?].
    - by rewrite list_lookup_insert_eq, Hi by done; simpl; rewrite Hg.
    - by rewrite list_lookup_insert_ne. }
  assert (Hflt : forall item', ctx_err item' = ctx_err item -> filter (alive (<[k := item']> h)) ks = filter (alive h) ks).
  { intros item' Hx. apply list_filter_iff. intros j. unfold alive. by rewrite (Hsame item' _ ctx_err Hx). }
  destruct (ctx_err item) as [e|] eqn:He.
  - unfold close_done. simpl. rewrite Hd. set (item1 := {| Request := _ |}).
    destruct (IH (<[k := item1]> h) l) as (h' & Hv & Hc' & Hl & Hx & Hr); [by eapply consistent_close|].
    rewrite Hflt in * by (by simpl; rewrite He).
    rewrite filter_cons_False by (unfold alive; by rewrite Hi; simpl; rewrite He).
    exists h'. split_and!; [done|done|by rewrite Hl, length_insert|intros j; by rewrite Hx, (Hsame item1 _ ctx_err)|
      intros j; by rewrite Hr, (Hsame item1 _ Request)].
  - set (item1 := set_processingAt now item).
    destruct (IH (<[k := item1]> h) (k :: l)) as (h' & Hv & Hc' & Hl & Hx & Hr).
    { eapply consistent_write; [|done..]. eapply consistent_perm; [|done]. apply Permutation_middle. }
    rewrite Hflt in * by (by simpl; rewrite He). rewrite Hv.
    rewrite filter_cons_True by (unfold alive; by rewrite Hi; simpl; rewrite He).
    exists h'. split_and!; [done| |by rewrite Hl, length_insert|intros j; by rewrite Hx, (Hsame item1 _ ctx_err)|
      intros j; by rewrite Hr, (Hsame item1 _ Request)].
    eapply consistent_perm; [|done]. simpl. symmetry. apply Permutation_middle.
Qed.

Lemma complete_all_consistent clock ks : forall i h l, consistent h l -> consistent (complete_all clock i ks h) l.
Proof.
  induction ks as [|k ks IH]; intros i h l Hc; simpl; [done|]. apply IH.
  destruct (h !! k) as [item|] eqn:Hk.
  - rewrite (alter_as_insert _ _ _ _ Hk). by eapply consistent_write.
  - eapply consistent_same; [done| |by rewrite length_alter].
    intros j x Hx. destruct (decide (k = j)) as [<-|?].
    + by rewrite list_lookup_alter_eq, Hk in Hx.
    + rewrite list_lookup_alter_ne in Hx by done. by exists x.
Qed.

(** What a batch still has to answer, and what the others have. *)
Lemma pending_alter bs : forall j x, bs !! j = Some x ->
  exists rest, concat (pending <$> bs) ≡ₚ pending x ++ rest /\
    forall g, concat (pending <$> alter g j bs) ≡ₚ pending (g x) ++ rest.
Proof.
  induction bs as [|y bs IH]; intros [|j] x Hx; simplify_eq/=; [by eauto|].
  destruct (IH j x Hx) as (rest & Hp & Hg). exists (pending y ++ rest).
  split; [rewrite Hp|intros g; rewrite Hg]; by rewrite !app_assoc, (Permutation_app_comm (pending y)).
Qed.

Lemma consistent_new h l item : consistent h l -> sent item = false -> Done item = false -> consistent (h ++ [item]) l.
Proof.
  intros [H1 H2 H3 H4] Hs Hd.
  assert (Hnew : forall k x, (h ++ [item]) !! k = Some x -> h !! k = Some x \/ x = item).
  { intros k x [?|[_ Hx]]%lookup_app_Some; [by left|]. right. apply list_lookup_singleton_Some in Hx. naive_solver. }
  split; [done|..].
  - intros k Hk. destruct (H2 k Hk) as (x & Hx & ?). exists x. split; [by apply lookup_app_l_Some|done].
  - intros k x Hx ? ?. destruct (Hnew k x Hx) as [?| ->]; [by eapply H3|congruence].
  - intros k x Hx ?. destruct (Hnew k x Hx) as [?| ->]; [by eapply H4|done].
Qed.

Lemma consistent_send h l k item : consistent h l -> h !! k = Some item -> caller item = Sending ->
  consistent (<[k := set_caller Waiting true item]> h) (k :: l).
Proof.
  intros [H1 H2 H3 H4] Hk Hca. destruct (H4 k item Hk Hca) as [Hs Hd].
  assert (Hlt : (k < length h)%nat) by (by apply lookup_lt_Some in Hk).
  assert (Hnk : k ∉ l) by (intros Hin; destruct (H2 k Hin) as (y & ? & ? & _); congruence).
  split; [by constructor|..].
  - intros j Hj. destruct (decide (k = j)) as [<-|Hne].
    + exists (set_caller Waiting true item). by rewrite list_lookup_insert_eq.
    + rewrite list_lookup_insert_ne by done. apply H2. set_solver.
  - intros j x Hx ? ?. destruct (decide (k = j)) as [<-|Hne]; [set_solver|].
    rewrite list_lookup_insert_ne in Hx by done. apply elem_of_cons. right. by eapply H3.
  - intros j x Hx Hcx. destruct (decide (k = j)) as [<-|Hne].
    + rewrite list_lookup_insert_eq in Hx by done. by simplify_eq.
    + rewrite list_lookup_insert_ne in Hx by done. by eapply H4.
Qed.

Lemma concat_pending_snoc bs x : concat (pending <$> bs ++ [x]) = concat (pending <$> bs) ++ pending x.
Proof. by rewrite fmap_app, concat_app; simpl; rewrite app_nil_r. Qed.

(** A step that moves items between places, or panics because the new queue does
    not fit. *)
Definition moves (s : system) (r : outcome system) : Prop :=
  match r with
  | Returns s' => places s' ≡ₚ places s /\ heap s' = heap s
  | Panics => make_fits (currentBatchSize (batcher s)) = false
  end.

Lemma launch_moves s : moves s (launch s).
Proof.
  unfold launch. case_bool; [done|]. destruct (make_fits _) eqn:Hf; [|done]. split; [|done]. unfold places. simpl.
  rewrite concat_pending_snoc. apply Permutation_app_head, Permutation_app_comm.
Qed.

Lemma flush_moves s : moves s (flush s).
Proof.
  unfold flush. destruct (items (batcher s)) as [|k its] eqn:Hi; [done|]. destruct (make_fits _) eqn:Hf; [|done].
  split; [|done]. unfold places. simpl. rewrite concat_pending_snoc, Hi. apply Permutation_app_head.
  simpl. by rewrite <- Permutation_cons_append || apply Permutation_app_comm.
Qed.

Lemma fire_moves s : moves s (fire s).
Proof. unfold fire. destruct (items _); [done|]. apply (launch_moves (with_batcher (set_timer None false (batcher s)) s)). Qed.

Lemma receive_moves now k chan s : requestChan (batcher s) = k :: chan -> moves s (receive now k chan s).
Proof.
  intros Hc. unfold receive. cbn zeta.
  set (b1 := set_stats _ _ _).
  assert (Hb : requestChan b1 = chan /\ items b1 = items (batcher s) ++ [k] /\
               currentBatchSize b1 = currentBatchSize (batcher s)) by (by unfold b1; case_bool).
  clearbody b1. destruct Hb as (Hq & Hi & Hz).
  assert (Hp : places (with_batcher b1 s) ≡ₚ places s).
  { unfold places. simpl. rewrite Hq, Hi, Hc. simpl. rewrite <- !app_assoc. simpl.
    by rewrite (app_assoc chan), <- Permutation_middle, <- app_assoc. }
  case_bool; [|done]. pose proof (launch_moves (with_batcher b1 s)) as Hm.
  destruct (launch (with_batcher b1 s)) as [s'|]; simpl in *; [by destruct Hm as [-> ->]|by rewrite <- Hz].
Qed.

Lemma moves_consistent s r : consistent (heap s) (places s) -> moves s r ->
  (forall s', r = Returns s' -> consistent (heap s') (places s')) /\
  (r = Panics -> make_fits (currentBatchSize (batcher s)) = false).
Proof.
  intros Hc Hm. destruct r as [s1|]; [|done]. split; [|done]. intros s' [= <-]. destruct Hm as [Hp ->].
  by eapply consistent_perm.
Qed.

Lemma set_batch_places j s x : batches s !! j = Some x ->
  exists rest, places s ≡ₚ pending x ++ rest /\
    forall p s', batches s' = batches s -> requestChan (batcher s') = requestChan (batcher s) ->
      items (batcher s') = items (batcher s) ->
      places (set_batch j p s') ≡ₚ
        pending {| batch_items := batch_items x; at_phase := p; launched := launched x |} ++ rest.
Proof.
  intros Hx. destruct (pending_alter _ _ _ Hx) as (rest & Hp & Hg).
  exists (requestChan (batcher s) ++ items (batcher s) ++ rest). unfold places. split.
  - rewrite Hp, !app_assoc. apply Permutation_app_tail. rewrite <- (app_assoc (pending x)). apply Permutation_app_comm.
  - intros p s' Hb Hr Hi. simpl. rewrite Hb, Hr, Hi, Hg. simpl. rewrite !app_assoc.
    apply Permutation_app_tail. rewrite <- (app_assoc (pending _)). apply Permutation_app_comm.
Qed.

Lemma begin_batch_consistent now j x s : batches s !! j = Some x -> at_phase x = BStart ->
  consistent (heap s) (places s) ->
  exists s', begin_batch now j (batch_items x) s = Returns s' /\ consistent (heap s') (places s').
Proof.
  intros Hx Hph Hc. destruct (set_batch_places j s x Hx) as (rest & Hp & Hset).
  unfold pending in Hp. rewrite Hph in Hp. pose proof (consistent_perm _ _ _ Hp Hc) as Hc1.
  unfold begin_batch. destruct (batch_items x) as [|k its'] eqn:Hits.
  { eexists. split; [done|]. simpl. eapply consistent_perm; [symmetry; by apply Hset|done]. }
  rewrite <- Hits in *. clear k its' Hits. simpl.
  destruct (validate_spec now _ _ _ Hc1) as (h1 & -> & Hc2 & _ & _ & _).
  destruct (filter (alive (heap s)) (batch_items x)) as [|k valid] eqn:Hv.
  { eexists. split; [done|]. simpl. eapply consistent_perm; [symmetry; by apply Hset|done]. }
  rewrite <- Hv in *. destruct (merge _ _) as [request|].
  - eexists. split; [done|]. simpl. eapply consistent_perm; [symmetry; by apply Hset|done].
  - destruct (answer_all_spec (fun _ item => (Response item, Some ErrNoBatchRequestFunc)) _ 0 _ _ Hc2)
      as (h2 & -> & Hc3 & _). eexists. split; [done|]. simpl.
    eapply consistent_perm; [symmetry; by apply Hset|done].
Qed.

Lemma distribute_consistent clock j x valid resp err s : batches s !! j = Some x ->
  at_phase x = BAnswer valid resp err -> consistent (heap s) (places s) ->
  exists s', distribute clock j valid resp err s = Returns s' /\ consistent (heap s') (places s').
Proof.
  intros Hx Hph Hc. destruct (set_batch_places j s x Hx) as (rest & Hp & Hset).
  unfold pending in Hp. rewrite Hph in Hp. pose proof (consistent_perm _ _ _ Hp Hc) as Hc1.
  unfold distribute. pose proof (complete_all_consistent clock valid 0 _ _ Hc1) as Hc2.
  destruct (answer_all_spec (answer_of (opts (batch_stats clock valid (heap s) (batcher s)))
    (Z.of_nat (length valid)) resp err) _ 0 _ _ Hc2) as (h2 & -> & Hc3 & _).
  eexists. split; [done|]. simpl. eapply consistent_perm; [symmetry; apply Hset|done]; try done;
    unfold batch_stats; simpl; by destruct (total_times _ _ _).
Qed.

Lemma set_batch_consistent j x p s s' : batches s !! j = Some x -> consistent (heap s) (places s) ->
  heap s' = heap s -> batches s' = batches s -> requestChan (batcher s') = requestChan (batcher s) ->
  items (batcher s') = items (batcher s) ->
  pending {| batch_items := batch_items x; at_phase := p; launched := launched x |} = pending x ->
  consistent (heap (set_batch j p s')) (places (set_batch j p s')).
Proof.
  intros Hx Hc Hh Hb Hq Hi Hpd. destruct (set_batch_places j s x Hx) as (rest & Hp & Hset). simpl. rewrite Hh.
  eapply consistent_perm; [|done]. rewrite Hset by done. by rewrite Hp, Hpd.
Qed.

Lemma step_consistent e s : consistent (heap s) (places s) ->
  (forall s', step e s = Some (Returns s') -> consistent (heap s') (places s')) /\
  (step e s = Some Panics -> make_fits (currentBatchSize (batcher s)) = false).
Proof.
  intros Hc.
  assert (Hmove : forall r, moves s r -> (forall s', Some r = Some (Returns s') -> consistent (heap s') (places s')) /\
    (Some r = Some Panics -> make_fits (currentBatchSize (batcher s)) = false)).
  { intros r Hr. destruct (moves_consistent s r Hc Hr). split; [intros s' [=]|intros [=]]; auto. }
  destruct e as [rq now|k|k e|k|k|now|now| |j now|j now resp err|j clock|j| | |now]; simpl.
  - split; [|done]. intros s' [= <-]. unfold arrive. repeat case_bool; try done; by apply consistent_new.
  - destruct (heap s !! k) as [item|] eqn:Hk; [|done]. destruct (caller item) eqn:Hca; try done. case_bool; [|done].
    split; [|done]. intros s' [= <-]. eapply consistent_perm; [|by apply consistent_send].
    unfold places. simpl. rewrite <- app_assoc. simpl. apply Permutation_middle.
  - destruct (heap s !! k) as [item|] eqn:Hk; [|done]. simpl. split; [|done]. intros s' [= <-]. by eapply consistent_write.
  - destruct (heap s !! k) as [item|] eqn:Hk; [|done]. simpl. destruct (ctx_err item); [|done]. simpl.
    destruct (caller item) eqn:Hca; (split; [|done]); intros s' Hs; simplify_eq; eapply consistent_write; try done.
    by destruct (fresh _ _ Hc _ _ Hk) as [-> _].
  - destruct (heap s !! k) as [item|] eqn:Hk; [|done]. simpl. destruct (caller item) eqn:Hca, (Done item) eqn:Hd; try done.
    split; [|done]. intros s' [= <-]. by eapply consistent_write.
  - destruct (looping s), (requestChan (batcher s)) as [|k chan] eqn:Hq; try done. by apply Hmove, receive_moves.
  - destruct (looping s), (timer (batcher s)); try done. case_bool; [|done]. apply Hmove, fire_moves.
  - case_bool; [|done]. split; [|done]. by intros s' [= <-].
  - destruct (batches s !! j) as [x|] eqn:Hx; [|done]. simpl. destruct (at_phase x) eqn:Hph; try done.
    destruct (begin_batch_consistent now j x s Hx Hph Hc) as (s1 & -> & ?). split; [|done]. by intros s' [= <-].
  - destruct (batches s !! j) as [x|] eqn:Hx; [|done]. simpl. destruct (at_phase x) eqn:Hph; try done.
    split; [|done]. intros s' [= <-]. eapply set_batch_consistent; try done. unfold pending. by rewrite Hph.
  - destruct (batches s !! j) as [x|] eqn:Hx; [|done]. simpl. destruct (at_phase x) eqn:Hph; try done.
    destruct (distribute_consistent clock j x _ _ _ s Hx Hph Hc) as (s1 & -> & ?). split; [|done]. by intros s' [= <-].
  - destruct (batches s !! j) as [x|] eqn:Hx; [|done]. simpl. destruct (at_phase x) eqn:Hph; try done.
    split; [|done]. intros s' [= <-]. eapply set_batch_consistent; try done. unfold pending. by rewrite Hph.
  - apply Hmove, flush_moves.
  - apply Hmove. case_bool; [done|]. apply (flush_moves (with_batcher (set_closed (batcher s)) s)).
  - split; [|done]. by intros s' [= <-].
Qed.

(** A run ends in a panic only where the new queue did not fit. *)
Lemma run_consistent es : forall s, consistent (heap s) (places s) ->
  (forall s', run es s = Some (Returns s') -> consistent (heap s') (places s')) /\
  (run es s = Some Panics -> exists es1 s1, es1 `prefix_of` es /\ run es1 s = Some (Returns s1) /\
     make_fits (currentBatchSize (batcher s1)) = false).
Proof.
  induction es as [|e es IH]; intros s Hc; simpl; [split; [by intros s' [= <-]|done]|].
  destruct (step_consistent e s Hc) as [Hs Hp]. destruct (step e s) as [[s1|]|] eqn:He; [|split; [done|]|done].
  - destruct (IH s1 (Hs s1 eq_refl)) as [Hr Hq]. split; [done|]. intros (es1 & s2 & Hpre & Hrun & ?)%Hq.
    exists (e :: es1), s2. split_and!; [by apply prefix_cons|simpl; by rewrite He|done].
  - intros _. exists [], s. split_and!; [apply prefix_nil|done|by apply Hp].
Qed.

Lemma start_consistent o : consistent (heap (start o)) (places (start o)).
Proof. split; simpl; [constructor|set_solver|done|done]. Qed.

(** C30: in every run of the batcher, at every moment, the items that were sent and have no answer yet are exactly those in the request channel, in the queue and in running batches, each in one place: an item is never lost, answered twice or put into two batches. The only panic of the loop, the batches, [Flush] and [Close] is that of making a new queue for a batch size that is negative or too large, which other factors than the default ones can give. *)
Theorem every_item_in_one_place o es :
  (forall s, run es (start o) = Some (Returns s) ->
    NoDup (places s) /\
    forall k item, heap s !! k = Some item -> (k ∈ places s <-> sent item = true /\ Done item = false)) /\
  (run es (start o) = Some Panics -> exists es1 s1, es1 `prefix_of` es /\ run es1 (start o) = Some (Returns s1) /\
    make_fits (currentBatchSize (batcher s1)) = false).
Proof.
  destruct (run_consistent es (start o) (start_consistent o)) as [Hs Hp]. split_and!; [|done..].
  intros s Hr. destruct (Hs s Hr) as [H1 H2 H3 H4]. split; [done|]. intros k item Hk. split.
  - intros Hin. destruct (H2 k Hin) as (x & ? & ? & ?). by simplify_eq.
  - intros [? ?]. by eapply H3.
Qed.

(** * What a batch asks and answers *)

(** A batch is the requests of its items whose contexts are alive, in the order of arrival, merged into the request for the processor. *)
Theorem batch_merges_alive now j x s valid request s' : consistent (heap s) (places s) ->
  batches s !! j = Some x -> at_phase x = BStart -> begin_batch now j (batch_items x) s = Returns s' ->
  at_phase <$> batches s' !! j = Some (BCall valid request) ->
  valid = filter (alive (heap s)) (batch_items x) /\
  merge (opts (batcher s)) (omap (fun k => Request <$> heap s !! k) valid) = Some request.
Proof.
  intros Hc Hx Hph Hb Hv. destruct (set_batch_places j s x Hx) as (rest & Hp & _).
  unfold pending in Hp. rewrite Hph in Hp. pose proof (consistent_perm _ _ _ Hp Hc) as Hc1.
  unfold begin_batch in Hb. destruct (batch_items x) as [|k0 its0] eqn:Hits.
  { simplify_eq/=. by rewrite list_lookup_alter_eq, Hx in Hv. }
  rewrite <- Hits in *. simpl in Hb.
  destruct (validate_spec now _ _ _ Hc1) as (h1 & Hval & Hc2 & _ & _ & Hreq). rewrite Hval in Hb.
  destruct (filter (alive (heap s)) (batch_items x)) as [|k vs] eqn:Hf.
  { simplify_eq/=. by rewrite list_lookup_alter_eq, Hx in Hv. }
  rewrite <- Hf in *.
  assert (Hsame : omap (fun k => Request <$> h1 !! k) (filter (alive (heap s)) (batch_items x)) =
                  omap (fun k => Request <$> heap s !! k) (filter (alive (heap s)) (batch_items x))).
  { apply list_omap_ext, Forall_Forall2_diag, Forall_true. intros y. apply Hreq. }
  rewrite Hsame in Hb. destruct (merge _ _) as [rq|] eqn:Hm.
  - simplify_eq/=. rewrite list_lookup_alter_eq, Hx in Hv. by simplify_eq/=.
  - destruct (answer_all_spec (fun _ item => (Response item, Some ErrNoBatchRequestFunc)) _ 0 _ _ Hc2) as (h2 & Ha & _).
    rewrite Ha in Hb. simplify_eq/=. by rewrite list_lookup_alter_eq, Hx in Hv.
Qed.

Lemma complete_all_lookup clock ks : forall i h k item, complete_all clock i ks h !! k = Some item ->
  exists item0, h !! k = Some item0 /\ Response item = Response item0 /\ Error item = Error item0.
Proof.
  induction ks as [|j ks IH]; intros i h k item Hk; simpl in Hk; [by exists item|].
  destruct (IH _ _ _ _ Hk) as (x & Hx & -> & ->). destruct (decide (j = k)) as [->|Hj].
  - rewrite list_lookup_alter_eq in Hx. apply fmap_Some in Hx as (y & ? & ->). by exists y.
  - rewrite list_lookup_alter_ne in Hx by done. by exists x.
Qed.

(** When the processor has answered, every item of the batch is answered with what belongs to its position: the i-th part of the split response, the whole response when it is alone, the error that the error handler makes of the processor's, or the error of a missing part or function. *)
Theorem batch_answers_in_order clock j x s valid resp err s' i k : consistent (heap s) (places s) ->
  batches s !! j = Some x -> at_phase x = BAnswer valid resp err -> distribute clock j valid resp err s = Returns s' ->
  valid !! i = Some k ->
  exists item item', heap s !! k = Some item /\ heap s' !! k = Some item' /\ Done item' = true /\
    (Response item', Error item') = answer_of (opts (batcher s)) (Z.of_nat (length valid)) resp err i item.
Proof.
  intros Hc Hx Hph Hd Hi. destruct (set_batch_places j s x Hx) as (rest & Hp & _).
  unfold pending in Hp. rewrite Hph in Hp. pose proof (consistent_perm _ _ _ Hp Hc) as Hc1.
  unfold distribute in Hd. pose proof (complete_all_consistent clock valid 0 _ _ Hc1) as Hc2.
  destruct (answer_all_spec (answer_of (opts (batch_stats clock valid (heap s) (batcher s)))
    (Z.of_nat (length valid)) resp err) _ 0 _ _ Hc2) as (h2 & Ha & _ & _ & _ & Hin).
  rewrite Ha in Hd. simplify_eq/=. destruct (Hin i k Hi) as (item & item' & Hit & Hit' & HR & HE & HD).
  destruct (complete_all_lookup _ _ _ _ _ _ Hit) as (item0 & Hit0 & HR0 & HE0).
  exists item0, item'. split_and!; [done..|]. rewrite HR, HE. simpl.
  assert (opts (batch_stats clock valid (heap s) (batcher s)) = opts (batcher s)) as ->
    by (unfold batch_stats; by destruct (total_times _ _ _)).
  rewrite <- surjective_pairing. unfold answer_of. rewrite HR0, HE0. done.
Qed.

(** With a [MultiProcessor], two or more items are each answered with the response of their position, or an error if there is none, and the errors the processor returned for them are dropped; an item that is alone in its batch is answered with the batcher's own wrapper instead of its response. *)
Theorem multi_processor_answers o pm requests responses errs i item :
  BatchRequestFunc o = None -> SplitResponseFunc o = None -> pm requests = (responses, errs) ->
  merge (multi_options o) requests = Some (VList requests) /\
  multi_processor pm (VList requests) = (VResults responses errs, None) /\
  answer_of (multi_options o) (Z.of_nat (length requests)) (VResults responses errs) None i item =
    if decide (length requests = 1%nat) then (VResults responses errs, Error item)
    else if decide (length requests = 0%nat) then (Response item, Some ErrNoSplitResponseFunc)
    else match responses !! i with Some r => (r, Error item) | None => (Response item, Some ErrFewerResponses) end.
Proof.
  intros Hb Hs Hp. unfold merge, multi_processor, answer_of. simpl. rewrite Hb, Hs, Hp. split_and!; [done..|].
  repeat case_decide; destruct (Z.of_nat (length requests) >? 1) eqn:E1, (Z.of_nat (length requests) =? 1) eqn:E2;
    bool_to_prop; try lia; done.
Qed.

(** * Counting the running batches *)

(** A batch of the loop that has not returned; a batch of [Flush] that has. *)
Definition running (x : batch) : Z :=
  match launched x, at_phase x with true, BReturned => 0 | true, _ => 1 | false, _ => 0 end.
Definition flushed (x : batch) : Z :=
  match launched x, at_phase x with false, BReturned => 1 | _, _ => 0 end.
Definition weight (x : batch) : Z := running x - flushed x.

Record counted (s : system) : Prop := {
  active_weight : activeCount (batcher s) = sum_of weight (batches s);
  active_max : activeCount (batcher s) <= MaxConcurrentBatches (opts (batcher s));
  nonempty : Forall (fun x => batch_items x <> []) (batches s) }.

Lemma sum_of_weight l : - Z.of_nat (length l) <= sum_of weight l <= Z.of_nat (length l).
Proof.
  induction l as [|x l IH]; [done|]. rewrite sum_of_cons. simpl length.
  assert (-1 <= weight x <= 1) by (unfold weight, running, flushed; destruct (launched x), (at_phase x); lia). lia.
Qed.

Lemma launch_counted s s' : counted s -> items (batcher s) <> [] -> Z.of_nat (length (batches s)) < 2 ^ 62 ->
  launch s = Returns s' -> counted s'.
Proof.
  intros [Hw Hm Hn] Hi Hl. unfold launch. case_bool; [by intros [= <-]|]. destruct (make_fits _); [|done]. intros [= <-].
  bool_to_prop. pose proof (sum_of_weight (batches s)). rewrite i64_small by (unfold is_i64; lia).
  split; simpl; [|lia|apply Forall_app; by repeat constructor].
  rewrite sum_of_app, Hw. done.
Qed.

Lemma set_batch_counted j p x s s' : batches s !! j = Some x -> counted s -> batches s' = batches s ->
  opts (batcher s') = opts (batcher s) ->
  activeCount (batcher s') = activeCount (batcher s) +
    (weight {| batch_items := batch_items x; at_phase := p; launched := launched x |} - weight x) ->
  activeCount (batcher s') <= activeCount (batcher s) -> counted (set_batch j p s').
Proof.
  intros Hx [Hw Hm Hn] Hb Ho Ha Hle. split; simpl.
  - rewrite Hb, Ha, Hw. symmetry. by erewrite sum_of_alter.
  - rewrite Ho. lia.
  - rewrite Hb, (alter_as_insert _ _ _ _ Hx). apply Forall_insert; [done|]. simpl. by eapply (Forall_lookup_1 _ _ _ _ Hn).
Qed.

(** A move of a running batch that does not end it. *)
Lemma set_batch_running j p x s s' : batches s !! j = Some x -> counted s -> at_phase x <> BReturned -> p <> BReturned ->
  batches s' = batches s -> opts (batcher s') = opts (batcher s) ->
  activeCount (batcher s') = activeCount (batcher s) -> counted (set_batch j p s').
Proof.
  intros Hx Hc Hq Hp Hb Ho Ha. eapply set_batch_counted; [done..| |lia]. rewrite Ha.
  unfold weight, running, flushed. simpl. destruct (launched x), (at_phase x), p; done || lia.
Qed.

Lemma begin_batch_counted now j x s s' : batches s !! j = Some x -> at_phase x = BStart -> counted s ->
  begin_batch now j (batch_items x) s = Returns s' ->
  counted s' /\ opts (batcher s') = opts (batcher s) /\ length (batches s') = length (batches s).
Proof.
  intros Hx Hph Hc Hb. pose proof (Forall_lookup_1 _ _ _ _ (nonempty _ Hc) Hx) as Hne.
  unfold begin_batch in Hb. destruct (batch_items x) eqn:Hi; [done|]. rewrite <- Hi in Hb.
  destruct (validate _ _ _) as [[vs h]|]; [|done].
  assert (Hq : at_phase x <> BReturned) by (by rewrite Hph).
  destruct vs; [|destruct (merge _ _); [|destruct (answer_all _ _ _ _); [|done]]]; simplify_eq; simpl;
    rewrite length_alter; (split; [by eapply set_batch_running|done]).
Qed.

Lemma distribute_counted clock j x valid resp err s s' : batches s !! j = Some x ->
  at_phase x = BAnswer valid resp err -> counted s -> distribute clock j valid resp err s = Returns s' ->
  counted s' /\ opts (batcher s') = opts (batcher s) /\ length (batches s') = length (batches s).
Proof.
  intros Hx Hph Hc Hd. unfold distribute in Hd. destruct (answer_all _ _ _ _); [|done]. simplify_eq.
  assert (Hb : opts (batch_stats clock valid (heap s) (batcher s)) = opts (batcher s) /\
               activeCount (batch_stats clock valid (heap s) (batcher s)) = activeCount (batcher s))
    by (unfold batch_stats; by destruct (total_times _ _ _)).
  destruct Hb as [Ho Ha]. simpl. rewrite length_alter. split_and!; try done.
  eapply set_batch_running; try done. by rewrite Hph.
Qed.

(** A step keeps the count and the options and adds a batch at most. *)
Definition grows (s s' : system) : Prop :=
  counted s' /\ opts (batcher s') = opts (batcher s) /\ (length (batches s') <= S (length (batches s)))%nat.

Lemma launch_grows s s1 s' : Z.of_nat (length (batches s)) < 2 ^ 62 -> counted s1 -> batches s1 = batches s ->
  opts (batcher s1) = opts (batcher s) -> items (batcher s1) <> [] -> launch s1 = Returns s' -> grows s s'.
Proof.
  intros Hl Hc1 Hb1 Ho1 Hi Hr. split; [eapply launch_counted; try done; by rewrite Hb1|].
  unfold launch in Hr. case_bool; [by simplify_eq; rewrite Ho1, Hb1; split; [|lia]|]. destruct (make_fits _); simplify_eq.
  simpl. rewrite length_app, Hb1. simpl. split; [done|lia].
Qed.

Lemma flush_grows s s1 s' : counted s1 -> batches s1 = batches s -> opts (batcher s1) = opts (batcher s) ->
  flush s1 = Returns s' -> grows s s'.
Proof.
  intros [Hw1 Hm1 Hn1] Hb1 Ho1 Hr. unfold flush, grows in *. destruct (items (batcher s1)) as [|k its] eqn:Hi.
  - simplify_eq. by rewrite Hb1; split_and!; [split|done|lia].
  - destruct (make_fits _); simplify_eq. simpl. rewrite length_app, Hb1. simpl. split_and!; [|done|lia].
    split; simpl; [rewrite sum_of_app, Hw1, Hb1; unfold sum_of, sumZ; simpl; unfold weight, running, flushed; simpl; lia|done|].
    apply Forall_app. split; [by rewrite <-Hb1|]. by repeat constructor.
Qed.

Lemma step_counted e s s' : counted s -> Z.of_nat (length (batches s)) < 2 ^ 62 -> step e s = Some (Returns s') ->
  counted s' /\ opts (batcher s') = opts (batcher s) /\ (length (batches s') <= S (length (batches s)))%nat.
Proof.
  intros Hc Hl Hs. pose proof Hc as [Hw Hm Hn].
  assert (Hlaunch : forall s1 s2, counted s1 -> batches s1 = batches s -> opts (batcher s1) = opts (batcher s) ->
    items (batcher s1) <> [] -> launch s1 = Returns s2 -> grows s s2) by (intros; by eapply launch_grows).
  assert (Hflush : forall s1 s2, counted s1 -> batches s1 = batches s -> opts (batcher s1) = opts (batcher s) ->
    flush s1 = Returns s2 -> grows s s2) by (intros; by eapply flush_grows).
  unfold grows in *.
  destruct e as [rq now|k|k e|k|k|now|now| |j now|j now resp err|j clock|j| | |now]; simpl in Hs.
  - simplify_eq. destruct (arrive _ _ _); simpl; split_and!; try done; lia.
  - destruct (heap s !! k) as [item|]; [|done]. destruct (caller item); try done. case_bool; [|done].
    simplify_eq. simpl. split_and!; try done; lia.
  - destruct (heap s !! k); simplify_eq/=. split_and!; try done; lia.
  - destruct (heap s !! k) as [item|]; simplify_eq/=. destruct (ctx_err item); simplify_eq/=.
    destruct (caller item); simplify_eq; simpl; split_and!; try done; lia.
  - destruct (heap s !! k) as [item|]; simplify_eq/=. destruct (caller item), (Done item); simplify_eq.
    simpl; split_and!; try done; lia.
  - destruct (looping s), (requestChan (batcher s)) as [|k chan]; simplify_eq.
    unfold receive in Hs. cbn zeta in Hs. set (b1 := set_stats _ _ _) in Hs.
    assert (Hb : activeCount b1 = activeCount (batcher s) /\ opts b1 = opts (batcher s) /\ items b1 <> [])
      by (unfold b1; case_bool; simpl; split_and!; try done; by destruct (items (batcher s))).
    clearbody b1. destruct Hb as (Ha & Ho & Hi).
    assert (Hc1 : counted (with_batcher b1 s)) by (split; simpl; rewrite ?Ha, ?Ho; done).
    case_bool; [by eapply Hlaunch|]. simplify_eq. simpl. split_and!; try done; lia.
  - destruct (looping s), (timer (batcher s)); try done. case_bool; simplify_eq. unfold fire in Hs. simpl in Hs.
    destruct (items (batcher s)) eqn:Hi; [simplify_eq; simpl; split_and!; try done; lia|].
    eapply Hlaunch; [..|exact Hs]; simpl; try done; congruence.
  - case_bool; simplify_eq. simpl. split_and!; try done; lia.
  - destruct (batches s !! j) as [x|] eqn:Hx; simplify_eq/=. destruct (at_phase x) eqn:Hph; simplify_eq.
    destruct (begin_batch_counted now j x s s' Hx Hph Hc) as (? & ? & ->); [congruence|]. split_and!; try done; lia.
  - destruct (batches s !! j) as [x|] eqn:Hx; simplify_eq/=. destruct (at_phase x) eqn:Hph; simplify_eq.
    simpl. rewrite length_alter. split_and!; [|done|lia]. eapply set_batch_running; try done. by rewrite Hph.
  - destruct (batches s !! j) as [x|] eqn:Hx; simplify_eq/=. destruct (at_phase x) eqn:Hph; simplify_eq.
    destruct (distribute_counted clock j x _ _ _ s s' Hx Hph Hc) as (? & ? & ->); [congruence|]. split_and!; try done; lia.
  - destruct (batches s !! j) as [x|] eqn:Hx; simplify_eq/=. destruct (at_phase x) eqn:Hph; simplify_eq.
    simpl. rewrite length_alter. split_and!; [|done|lia]. pose proof (sum_of_weight (batches s)).
    eapply set_batch_counted; simpl; try done; rewrite i64_small by (unfold is_i64; lia); [|lia].
    unfold weight, running, flushed. rewrite Hph. simpl. destruct (launched x); lia.
  - simplify_eq. by eapply Hflush.
  - case_bool; simplify_eq; [split_and!; try done; lia|]. apply (Hflush (with_batcher (set_closed (batcher s)) s)); [split|..]; done.
  - simplify_eq. simpl. split_and!; try done; lia.
Qed.

Lemma run_counted es : forall s s', counted s -> Z.of_nat (length (batches s)) + Z.of_nat (length es) < 2 ^ 62 ->
  run es s = Some (Returns s') -> counted s' /\ opts (batcher s') = opts (batcher s).
Proof.
  induction es as [|e es IH]; intros s s' Hc Hl Hr; simplify_eq/=; [done|].
  destruct (step e s) as [[s1|]|] eqn:Hs; simplify_eq.
  destruct (step_counted e s s1 Hc) as (Hc1 & Ho & Hl1); [lia|done|].
  destruct (IH s1 s' Hc1) as [? ?]; [lia|done|]. split; [done|congruence].
Qed.

(** The count of active batches is the number of batches that the loop started and that still run, less the number of those that [Flush] (or [Close]) has processed, which were never counted: without them at most [MaxConcurrentBatches] run at once, and each of them allows one more for good. *)
Theorem active_batches o es s : run es (start o) = Some (Returns s) -> Z.of_nat (length es) < 2 ^ 62 ->
  activeCount (batcher s) = sum_of running (batches s) - sum_of flushed (batches s) /\
  sum_of running (batches s) <= MaxConcurrentBatches (with_defaults o) + sum_of flushed (batches s).
Proof.
  intros Hr Hl. assert (Hc : counted (start o)).
  { split; simpl; [done| |done]. case_bool; bool_to_prop; lia. }
  destruct (run_counted es (start o) s Hc) as [[Hw Hm _] Ho]; [simpl length; lia|done|].
  assert (Hsum : sum_of weight (batches s) = sum_of running (batches s) - sum_of flushed (batches s)).
  { clear. induction (batches s) as [|x l IH]; [done|]. rewrite !sum_of_cons, IH. unfold weight. lia. }
  rewrite Ho in Hm. simpl in Hm. split; [lia|]. simpl. lia.
Qed.

(** * Items that stay behind *)

(** No timer runs, no batch runs, the channel is empty and no caller is sending. *)
Record stalled (s : system) : Prop := {
  no_timer : timer (batcher s) = None;
  no_batch : Forall (fun x => at_phase x = BReturned) (batches s);
  no_queue : requestChan (batcher s) = [];
  no_sender : forall k item, heap s !! k = Some item -> caller item <> Sending }.

Definition from_outside (e : event) : bool :=
  match e with Arrive _ _ | Flush | Close => true | _ => false end.

Lemma stalled_step e s s' : stalled s -> from_outside e = false -> step e s = Some (Returns s') ->
  stalled s' /\ items (batcher s') = items (batcher s).
Proof.
  intros [Ht Hb Hq Hn] He Hs.
  assert (Hitem : forall k item item', heap s !! k = Some item -> (caller item' = Sending -> caller item = Sending) ->
    stalled (with_item k item' s)).
  { intros k item item' Hk Hc. split; simpl; try done. intros j x Hx. destruct (decide (k = j)) as [<-|?].
    - rewrite list_lookup_insert_eq in Hx by (by apply lookup_lt_Some in Hk). simplify_eq. intros ?.
      by eapply Hn, Hc.
    - rewrite list_lookup_insert_ne in Hx by done. by eapply Hn. }
  assert (Hret : forall j x, batches s !! j = Some x -> at_phase x = BReturned)
    by (intros j x Hx; by apply (Forall_lookup_1 _ _ _ _ Hb Hx)).
  destruct e as [rq now|k|k e|k|k|now|now| |j now|j now resp err|j clock|j| | |now]; try done; simpl in Hs.
  - destruct (heap s !! k) as [item|] eqn:Hk; [|done]. destruct (caller item) eqn:Hca; try done. by destruct (Hn k item Hk).
  - destruct (heap s !! k) as [item|] eqn:Hk; simplify_eq/=. split; [by eapply Hitem|done].
  - destruct (heap s !! k) as [item|] eqn:Hk; simplify_eq/=. destruct (ctx_err item); simplify_eq/=.
    destruct (caller item) eqn:Hca; simplify_eq; (split; [by eapply Hitem|done]).
  - destruct (heap s !! k) as [item|] eqn:Hk; simplify_eq/=. destruct (caller item) eqn:Hca, (Done item); simplify_eq.
    split; [by eapply Hitem|done].
  - rewrite Hq in Hs. by destruct (looping s).
  - rewrite Ht in Hs. by destruct (looping s).
  - case_bool; simplify_eq. by split; [split|].
  - destruct (batches s !! j) as [x|] eqn:Hx; simplify_eq/=. by rewrite (Hret j x Hx) in Hs.
  - destruct (batches s !! j) as [x|] eqn:Hx; simplify_eq/=. by rewrite (Hret j x Hx) in Hs.
  - destruct (batches s !! j) as [x|] eqn:Hx; simplify_eq/=. by rewrite (Hret j x Hx) in Hs.
  - destruct (batches s !! j) as [x|] eqn:Hx; simplify_eq/=. by rewrite (Hret j x Hx) in Hs.
  - simplify_eq. by split; [split|].
Qed.

(** When the timer fires while the maximal number of batches runs, it is not set again; once those batches have returned, the items left in the queue stay there until another request arrives or the batcher is flushed or closed, whatever time passes. *)
Theorem queue_left_behind es : forall s s', stalled s -> forallb (fun e => negb (from_outside e)) es = true ->
  run es s = Some (Returns s') ->
  items (batcher s') = items (batcher s) /\ timer (batcher s') = None.
Proof.
  induction es as [|e es IH]; intros s s' Hst Hf Hr; simplify_eq/=; [split; [done|apply Hst]|].
  apply andb_true_iff in Hf as [He%negb_true_iff Hf]. destruct (step e s) as [[s1|]|] eqn:Hs; simplify_eq.
  destruct (stalled_step e s s1 Hst He Hs) as [Hst1 Hi]. destruct (IH s1 s' Hst1 Hf Hr) as [-> ?]. done.
Qed.

(** * The batch size *)

Lemma default_resize load size : 10 <= size <= 100 -> 10 <= resize DefaultAdaptiveBatchOptions load size <= 100.
Proof.
  intros Hs.
  assert (Hall : forallb (fun n => (10 <=? resize DefaultAdaptiveBatchOptions (of_int 1) (Z.of_nat n)) &&
                                   (resize DefaultAdaptiveBatchOptions (of_int 1) (Z.of_nat n) <=? 100) &&
                                   (10 <=? resize DefaultAdaptiveBatchOptions (of_int 0) (Z.of_nat n)) &&
                                   (resize DefaultAdaptiveBatchOptions (of_int 0) (Z.of_nat n) <=? 100)) (seq 10 91) = true)
    by (vm_compute; reflexivity).
  rewrite forallb_forall in Hall. specialize (Hall (Z.to_nat size)). rewrite Z2Nat.id in Hall by lia.
  rewrite in_seq in Hall. specialize (Hall ltac:(lia)). bool_to_prop.
  unfold resize in *. simpl (HighLoadThreshold _) in *. simpl (LowLoadThreshold _) in *.
  replace (fgt (of_int 1) (lit 8 10)) with true in * by done.
  replace (fgt (of_int 0) (lit 8 10)) with false in * by done.
  replace (flt (of_int 0) (lit 3 10)) with true in * by done.
  destruct (fgt load (lit 8 10)); [lia|]. destruct (flt load (lit 3 10)); lia.
Qed.

(** A property of the size that [resize] keeps holds of every run. *)
Lemma step_size (P : Z -> Prop) o e s s' : (forall load size, P size -> P (resize o load size)) ->
  P (currentBatchSize (batcher s)) -> opts (batcher s) = o -> step e s = Some (Returns s') ->
  P (currentBatchSize (batcher s')) /\ opts (batcher s') = o.
Proof.
  intros HP Hp Ho Hs.
  assert (Hlaunch : forall s1 s2, launch s1 = Returns s2 -> currentBatchSize (batcher s2) = currentBatchSize (batcher s1) /\
    opts (batcher s2) = opts (batcher s1))
    by (intros s1 s2; unfold launch; case_bool; [|destruct (make_fits _); [|done]]; by intros [= <-]).
  assert (Hflush : forall s1 s2, flush s1 = Returns s2 -> currentBatchSize (batcher s2) = currentBatchSize (batcher s1) /\
    opts (batcher s2) = opts (batcher s1))
    by (intros s1 s2; unfold flush; destruct (items _); [|destruct (make_fits _); [|done]]; by intros [= <-]).
  destruct e as [rq now|k|k e|k|k|now|now| |j now|j now resp err|j clock|j| | |now]; simpl in Hs.
  - simplify_eq. by destruct (arrive _ _ _).
  - destruct (heap s !! k) as [item|]; [|done]. destruct (caller item); try done. case_bool; by simplify_eq.
  - destruct (heap s !! k); by simplify_eq/=.
  - destruct (heap s !! k) as [item|]; simplify_eq/=. destruct (ctx_err item); simplify_eq/=.
    by destruct (caller item); simplify_eq.
  - destruct (heap s !! k) as [item|]; simplify_eq/=. by destruct (caller item), (Done item); simplify_eq.
  - destruct (looping s), (requestChan (batcher s)) as [|k chan]; simplify_eq.
    unfold receive in Hs. cbn zeta in Hs. set (b1 := set_stats _ _ _) in Hs.
    assert (Hb : currentBatchSize b1 = currentBatchSize (batcher s) /\ opts b1 = opts (batcher s))
      by (unfold b1; by case_bool).
    clearbody b1. destruct Hb as [Hc Hob]. case_bool; [|simplify_eq; simpl; by rewrite Hc, Hob].
    destruct (Hlaunch _ _ Hs) as [-> ->]; simpl; by rewrite Hc, Hob.
  - destruct (looping s), (timer (batcher s)); try done. case_bool; simplify_eq. unfold fire in Hs.
    destruct (items _); [by simplify_eq|]. by destruct (Hlaunch _ _ Hs) as [-> ->].
  - case_bool; by simplify_eq.
  - destruct (batches s !! j) as [x|]; simplify_eq/=. destruct (at_phase x); simplify_eq. unfold begin_batch in Hs.
    destruct (batch_items x); simplify_eq; [done|]. destruct (validate _ _ _) as [[[|v vs] h]|]; simplify_eq; [done|].
    destruct (merge _ _); simplify_eq; [done|]. by destruct (answer_all _ _ _ _); simplify_eq.
  - destruct (batches s !! j) as [x|]; simplify_eq/=. by destruct (at_phase x); simplify_eq.
  - destruct (batches s !! j) as [x|]; simplify_eq/=. destruct (at_phase x); simplify_eq. unfold distribute in Hs.
    destruct (answer_all _ _ _ _); simplify_eq. unfold batch_stats. simpl. destruct (total_times _ _ _). simpl. auto.
  - destruct (batches s !! j) as [x|]; simplify_eq/=. by destruct (at_phase x); simplify_eq.
  - simplify_eq. by destruct (Hflush _ _ Hs) as [-> ->].
  - case_bool; simplify_eq; [done|]. by destruct (Hflush _ _ Hs) as [-> ->].
  - by simplify_eq.
Qed.

Lemma run_size (P : Z -> Prop) o : (forall load size, P size -> P (resize o load size)) ->
  forall es s s', P (currentBatchSize (batcher s)) -> opts (batcher s) = o -> run es s = Some (Returns s') ->
  P (currentBatchSize (batcher s')) /\ opts (batcher s') = o.
Proof.
  intros HP. induction es as [|e es IH]; intros s s' Hp Ho Hr; simpl in Hr; [by injection Hr as <-|].
  destruct (step e s) as [[s1|]|] eqn:Hs; try done. destruct (step_size P o e s s1 HP Hp Ho Hs). by eapply IH.
Qed.

(** With the default options the batch size stays between [MinBatchSize] and [MaxBatchSize] in every run, whatever the measured load. *)
Theorem default_batch_size_bounds es s : run es (start DefaultAdaptiveBatchOptions) = Some (Returns s) ->
  10 <= currentBatchSize (batcher s) <= 100.
Proof.
  intros Hr. refine (proj1 (run_size (fun z => 10 <= z <= 100) DefaultAdaptiveBatchOptions default_resize es
    (start DefaultAdaptiveBatchOptions) s _ eq_refl Hr)). simpl. lia.
Qed.

(** With the default options no run panics. *)
Lemma default_never_panics es : run es (start DefaultAdaptiveBatchOptions) <> Some Panics.
Proof.
  destruct (run_consistent es _ (start_consistent DefaultAdaptiveBatchOptions)) as [_ Hp].
  intros (es1 & s1 & _ & Hr & Hf)%Hp.
  destruct (run_size (fun z => 10 <= z <= 100) DefaultAdaptiveBatchOptions default_resize es1
    (start DefaultAdaptiveBatchOptions) s1 ltac:(simpl; lia) eq_refl Hr) as [Hz _].
  unfold make_fits in Hf. apply andb_false_iff in Hf as [Hf|Hf]; apply Z.leb_gt in Hf; [lia|].
  unfold max_alloc in Hf. lia.
Qed.

End Batcher.

(** * Witnesses *)

(** One batch at a time, of two items; all answers are the request itself. *)
Definition pairs : AdaptiveBatchOptions :=
  {| MaxBatchSize := 2; MinBatchSize := 1; MaxLatency := Millisecond; MaxRequestSize := 0; MaxConcurrentBatches := 1;
     HighLoadFactor := lit 7 10; LowLoadFactor := lit 15 10; HighLoadThreshold := lit 8 10; LowLoadThreshold := lit 3 10;
     RequestSizeFunc := None; BatchRequestFunc := Some VList;
     SplitResponseFunc := Some (fun r _ => match r with VList l => l | _ => [] end);
     ErrorHandler := None; StatsInterval := Second |}.

Definition reached (es : list event) : system :=
  match @run amd64 es (start pairs) with Some (Returns s) => s | _ => start pairs end.

(** Two items are batched; a third arrives while the batch runs. *)
Definition two_batched : list event :=
  [Arrive (VOther 1) 0; SendItem 0; LoopReceive 1; Arrive (VOther 2) 2; SendItem 1; LoopReceive 3].

Definition third_waits : list event :=
  two_batched ++ [Arrive (VOther 3) 4; SendItem 2; LoopReceive 5; LoopFire 1000002].

Definition both_answered : list event :=
  [Begin 0 6; Answer 0 7 (VList [VOther 1; VOther 2]) None; Distribute 0 (fun _ => 8); Finish 0; Collect 0; Collect 1].

Lemma batch_merges_alive_witness :
  let s := reached two_batched in
  [0; 1]%nat = filter (alive (heap s)) [0; 1]%nat /\
  merge (opts (batcher s)) (omap (fun k => Request <$> heap s !! k) [0; 1]%nat) = Some (VList [VOther 1; VOther 2]).
Proof.
  intros s. apply (batch_merges_alive 6 0 {| batch_items := [0; 1]%nat; at_phase := BStart; launched := true |} s
    [0; 1]%nat (VList [VOther 1; VOther 2]) (reached (two_batched ++ [Begin 0 6]))); [|vm_compute; reflexivity..].
  apply (proj1 (@run_consistent amd64 two_batched (start pairs) (start_consistent pairs))). vm_compute. reflexivity.
Defined.

Lemma batch_answers_in_order_witness :
  let s := reached (two_batched ++ take 2 both_answered) in
  let s' := reached (two_batched ++ take 3 both_answered) in
  exists item item', heap s !! 1%nat = Some item /\ heap s' !! 1%nat = Some item' /\ Done item' = true /\
    (Response item', Error item') = answer_of (opts (batcher s)) 2 (VList [VOther 1; VOther 2]) None 1 item.
Proof.
  intros s s'.
  apply (@batch_answers_in_order amd64 (fun _ => 8) 0
    {| batch_items := [0; 1]%nat; at_phase := BAnswer [0; 1]%nat (VList [VOther 1; VOther 2]) None; launched := true |} s
    [0; 1]%nat (VList [VOther 1; VOther 2]) None s' 1 1); [|vm_compute; reflexivity..].
  apply (proj1 (@run_consistent amd64 (two_batched ++ take 2 both_answered) (start pairs) (start_consistent pairs))).
  vm_compute. reflexivity.
Defined.

Lemma multi_processor_answers_witness :
  let pm := fun l : list value => (l, (fun _ => None) <$> l) in
  merge (multi_options DefaultAdaptiveBatchOptions) [VOther 1] = Some (VList [VOther 1]) /\
  multi_processor pm (VList [VOther 1]) = (VResults [VOther 1] [None], None) /\
  forall item, answer_of (multi_options DefaultAdaptiveBatchOptions) 1 (VResults [VOther 1] [None]) None 0 item =
               (VResults [VOther 1] [None], Error item).
Proof.
  intros pm. split_and!; [reflexivity..|]. intros item.
  apply (multi_processor_answers DefaultAdaptiveBatchOptions pm [VOther 1] [VOther 1] [None] 0 item); reflexivity.
Defined.

(** [Flush] takes the first item while nothing runs, and ends its batch. *)
Definition flushed_one : list event :=
  [Arrive (VOther 1) 0; SendItem 0; LoopReceive 1; Flush; Begin 0 2; Answer 0 3 (VOther 1) None; Distribute 0 (fun _ => 4); Finish 0].

Lemma active_batches_witness :
  let s := reached flushed_one in
  activeCount (batcher s) = sum_of running (batches s) - sum_of flushed (batches s) /\
  sum_of running (batches s) <= 1 + sum_of flushed (batches s).
Proof. intros s. apply (@active_batches amd64 pairs flushed_one s); vm_compute; reflexivity. Defined.

Example flush_makes_negative : activeCount (batcher (reached flushed_one)) = -1.
Proof. vm_compute. reflexivity. Qed.

Lemma queue_left_behind_witness :
  let s := reached (third_waits ++ both_answered) in
  let s' := reached (third_waits ++ both_answered ++ [UpdateStats 2000000; Cancel 2 "deadline"; GiveUp 2]) in
  items (batcher s') = items (batcher s) /\ timer (batcher s') = None.
Proof.
  intros s s'.
  apply (@queue_left_behind amd64 [UpdateStats 2000000; Cancel 2 "deadline"; GiveUp 2] s s');
    [|vm_compute; reflexivity..].
  split; [vm_compute; reflexivity|vm_compute; by repeat constructor|vm_compute; reflexivity|].
  intros k item Hk. vm_compute in Hk. destruct k as [|[|[|k]]]; [injection Hk as <-..|]; done.
Defined.

Example third_item_waits : items (batcher (reached (third_waits ++ both_answered))) = [2%nat].
Proof. vm_compute. reflexivity. Qed.

Lemma default_batch_size_bounds_witness :
  10 <= currentBatchSize (batcher (match @run amd64 [UpdateStats 5; Flush] (start DefaultAdaptiveBatchOptions) with
                                   | Some (Returns s) => s | _ => start pairs end)) <= 100.
Proof. apply (@default_batch_size_bounds amd64 [UpdateStats 5; Flush]). vm_compute. reflexivity. Defined.

(** An item that was sent before [Close] and not received by the loop is never
    answered: the loop has stopped. *)
Example closed_before_received :
  let s := reached [Arrive (VOther 1) 0; SendItem 0; Close; LoopStop] in
  requestChan (batcher s) = [0%nat] /\ looping s = false.
Proof. split; vm_compute; reflexivity. Qed.

(** A negative [LowLoadFactor]: the first batch makes the batch size negative, and
    the loop panics when it takes the next one. *)
Definition shrinking : AdaptiveBatchOptions :=
  {| MaxBatchSize := 2; MinBatchSize := 1; MaxLatency := Millisecond; MaxRequestSize := 0; MaxConcurrentBatches := 1;
     HighLoadFactor := lit 7 10; LowLoadFactor := lit (-15) 10; HighLoadThreshold := lit 8 10; LowLoadThreshold := lit 3 10;
     RequestSizeFunc := None; BatchRequestFunc := Some VList; SplitResponseFunc := None; ErrorHandler := None;
     StatsInterval := Second |}.

Example negative_factor_panics :
  @run amd64 (two_batched ++ both_answered ++ [Arrive (VOther 3) 9; SendItem 2; LoopReceive 10]) (start shrinking) = Some Panics.
Proof. vm_compute. reflexivity. Qed.

(** A maximum of 2^45 items: the queue of the constructor fits, its channel of
    twice as many does not. *)
Definition huge : AdaptiveBatchOptions :=
  {| MaxBatchSize := 2 ^ 45; MinBatchSize := 1; MaxLatency := Millisecond; MaxRequestSize := 0; MaxConcurrentBatches := 1;
     HighLoadFactor := lit 7 10; LowLoadFactor := lit 15 10; HighLoadThreshold := lit 8 10; LowLoadThreshold := lit 3 10;
     RequestSizeFunc := None; BatchRequestFunc := Some VList; SplitResponseFunc := None; ErrorHandler := None;
     StatsInterval := Second |}.

Example huge_batches_refused : NewAdaptiveBatcher huge = Panics.
Proof. vm_compute. reflexivity. Qed.

Lemma every_item_in_one_place_witness :
  let s := reached third_waits in
  (NoDup (places s) /\ forall k item, heap s !! k = Some item -> (k ∈ places s <-> sent item = true /\ Done item = false)) /\
  exists es1 s1, @run amd64 es1 (start shrinking) = Some (Returns s1) /\ make_fits (currentBatchSize (batcher s1)) = false.
Proof.
  intros s. split.
  - apply (proj1 (@every_item_in_one_place amd64 pairs third_waits)). vm_compute. reflexivity.
  - destruct (proj2 (@every_item_in_one_place amd64 shrinking
      (two_batched ++ both_answered ++ [Arrive (VOther 3) 9; SendItem 2; LoopReceive 10])) negative_factor_panics)
      as (es1 & s1 & _ & ? & ?). by exists es1, s1.
Defined.
