(* ===== verification/GoCrypto.v ===== *)
(** The functions of Go's [crypto/sha1], [crypto/hmac] and [encoding/base32]
    that the one-time passwords use, on lists of bytes. A byte is a [Z] from 0 to
    255. *)
From S2P Require Import Prelude GoString.

Definition is_byte (z : Z) : Prop := 0 <= z < 256.

(** The bytes of a string. *)
Definition bytes_of (s : string) : list Z := (fun c => Z.of_nat (nat_of_ascii c)) <$> String.list_ascii_of_string s.

(** The last [n] bytes of [z], the highest first. *)
Fixpoint be_bytes (n : nat) (z : Z) : list Z :=
  match n with
  | O => []
  | S n => Z.land (Z.shiftr z (8 * Z.of_nat n)) 255 :: be_bytes n z
  end.

Definition of_be_bytes (l : list Z) : Z := foldl (fun acc b => acc * 256 + b) 0 l.

(** Consecutive pieces of [k] elements. *)
Fixpoint pieces {A} (fuel : nat) (k : nat) (l : list A) : list (list A) :=
  match fuel, l with
  | S fuel, _ :: _ => take k l :: pieces fuel k (drop k l)
  | _, _ => []
  end.

(** * SHA-1 *)

Definition rotl (n z : Z) : Z := Z.lor (u32 (Z.shiftl z n)) (Z.shiftr z (32 - n)).

Definition sha1_pad (msg : list Z) : list Z :=
  let n := Z.of_nat (length msg) in
  msg ++ [128] ++ replicate (Z.to_nat ((55 - n) mod 64)) 0 ++ be_bytes 8 (u64 (8 * n)).

(** The message schedule, last word first. *)
Fixpoint schedule (n : nat) (ws : list Z) : list Z :=
  match n with
  | O => ws
  | S n =>
      let w i := default 0 (ws !! i) in
      schedule n (rotl 1 (Z.lxor (Z.lxor (w 2%nat) (w 7%nat)) (Z.lxor (w 13%nat) (w 15%nat))) :: ws)
  end.

Record sha1_state : Type := { sa : Z; sb : Z; sc : Z; sd : Z; se : Z }.

Definition sha1_round (st : sha1_state) (tw : nat * Z) : sha1_state :=
  let '(t, w) := tw in
  let '{| sa := a; sb := b; sc := c; sd := d; se := e |} := st in
  let '(f, k) :=
    if (t <? 20)%nat then (Z.lor (Z.land b c) (Z.land (Z.lxor b MaxUint32) d), 0x5A827999)
    else if (t <? 40)%nat then (Z.lxor (Z.lxor b c) d, 0x6ED9EBA1)
    else if (t <? 60)%nat then (Z.lor (Z.lor (Z.land b c) (Z.land b d)) (Z.land c d), 0x8F1BBCDC)
    else (Z.lxor (Z.lxor b c) d, 0xCA62C1D6) in
  {| sa := u32 (rotl 5 a + f + e + k + w); sb := a; sc := rotl 30 b; sd := c; se := d |}.

Definition sha1_block (st : sha1_state) (block : list Z) : sha1_state :=
  let ws := rev (schedule 64 (rev (of_be_bytes <$> pieces 16 4 block))) in
  let r := foldl sha1_round st (zip (seq 0 80) ws) in
  {| sa := u32 (sa st + sa r); sb := u32 (sb st + sb r); sc := u32 (sc st + sc r); sd := u32 (sd st + sd r);
     se := u32 (se st + se r) |}.

Definition sha1 (msg : list Z) : list Z :=
  let padded := sha1_pad msg in
  let r := foldl sha1_block {| sa := 0x67452301; sb := 0xEFCDAB89; sc := 0x98BADCFE; sd := 0x10325476; se := 0xC3D2E1F0 |}
             (pieces (length padded) 64 padded) in
  be_bytes 4 (sa r) ++ be_bytes 4 (sb r) ++ be_bytes 4 (sc r) ++ be_bytes 4 (sd r) ++ be_bytes 4 (se r).

(** * HMAC with SHA-1 *)

Definition hmac_sha1 (key msg : list Z) : list Z :=
  let key := if (64 <? length key)%nat then sha1 key else key in
  let key := key ++ replicate (64 - length key) 0 in
  let xor b := (fun z => Z.lxor z b) <$> key in
  sha1 (xor 0x5c ++ sha1 (xor 0x36 ++ msg)).

Example sha1_abc : sha1 (bytes_of "abc") =
  be_bytes 20 0xa9993e364706816aba3e25717850c26c9cd0d89d.
Proof. vm_compute. reflexivity. Qed.

Example hmac_sha1_jefe : hmac_sha1 (bytes_of "Jefe") (bytes_of "what do ya want for nothing?") =
  be_bytes 20 0xeffcdf6ae5eb2fa2d27416d5f184df9c259a7c79.
Proof. vm_compute. reflexivity. Qed.

Lemma be_bytes_length n z : length (be_bytes n z) = n.
Proof. induction n; simpl; congruence. Qed.

Lemma be_bytes_range n z : Forall is_byte (be_bytes n z).
Proof.
  induction n as [|n IH]; [constructor|]. cbn [be_bytes]. constructor; [|done]. unfold is_byte.
  change 255 with (Z.ones 8). rewrite Z.land_ones by lia. apply Z.mod_pos_bound. lia.
Qed.

Lemma sha1_length msg : length (sha1 msg) = 20%nat.
Proof. unfold sha1. by rewrite !length_app, !be_bytes_length. Qed.

Lemma sha1_range msg : Forall is_byte (sha1 msg).
Proof. unfold sha1. rewrite !Forall_app. split_and!; apply be_bytes_range. Qed.

(** * Base32 without padding

    A group of five bytes is eight letters; the last group may be shorter. *)

Definition base32_alphabet : string := "ABCDEFGHIJKLMNOPQRSTUVWXYZ234567".

Definition base32_letter (v : Z) : ascii := default " "%char (String.get (Z.to_nat v) base32_alphabet).

(** The value of a letter of the alphabet. *)
Definition base32_value (c : ascii) : option Z :=
  let n := Z.of_nat (nat_of_ascii c) in
  if (65 <=? n) && (n <=? 90) then Some (n - 65)
  else if (50 <=? n) && (n <=? 55) then Some (n - 24) else None.

(** The number of letters for a group of [n] bytes, and of bytes for a group of
    letters; letters too few for one more byte are dropped. *)
Definition letters_of (n : nat) : nat := match n with 0 => 0 | 1 => 2 | 2 => 4 | 3 => 5 | 4 => 7 | _ => 8 end%nat.
Definition bytes_in (n : nat) : nat := match n with 0 => 0 | 1 => 0 | 2 => 1 | 3 => 0 | 4 => 2 | 5 => 3 | 6 => 0 | 7 => 4 | _ => 5 end%nat.

(** A group as a number of 40 bits. *)
Definition encode_group (g : list Z) : list Z :=
  let n := of_be_bytes (g ++ replicate (5 - length g) 0) in
  (fun i => Z.land (Z.shiftr n (35 - 5 * Z.of_nat i)) 31) <$> seq 0 (letters_of (length g)).

Definition decode_group (g : list Z) : list Z :=
  let n := foldl (fun acc v => acc * 32 + v) 0 (g ++ replicate (8 - length g) 0) in
  take (bytes_in (length g)) (be_bytes 5 n).

Definition base32_encode (l : list Z) : string :=
  String.string_of_list_ascii (base32_letter <$> concat (encode_group <$> pieces (length l) 5 l)).

(** [DecodeString] skips line breaks; another character is an error. *)
Definition base32_decode (s : string) : option (list Z) :=
  let chars := filter (fun c => c <> "010"%char /\ c <> "013"%char) (String.list_ascii_of_string s) in
  vs ← mapM base32_value chars;
  Some (concat (decode_group <$> pieces (length vs) 8 vs)).

Example base32_foobar : base32_encode (bytes_of "foobar") = "MZXW6YTBOI" /\ base32_decode "MZXW6YTBOI" = Some (bytes_of "foobar").
Proof. split; vm_compute; reflexivity. Qed.

(** * Round trip of base32 *)

(** The [k] digits of [n] to the base [b], highest first, and back. *)
Fixpoint digits (b : Z) (k : nat) (n : Z) : list Z :=
  match k with
  | O => []
  | S k => n / b ^ Z.of_nat k mod b :: digits b k n
  end.

Definition of_digits (b : Z) (l : list Z) : Z := foldl (fun acc v => acc * b + v) 0 l.

Lemma of_digits_app b l1 l2 : of_digits b (l1 ++ l2) = of_digits b l1 * b ^ Z.of_nat (length l2) + of_digits b l2.
Proof.
  unfold of_digits. rewrite foldl_app. generalize (foldl (fun acc v => acc * b + v) 0 l1). clear l1.
  induction l2 as [|x l2 IH] using rev_ind; intros acc; [simpl; lia|].
  rewrite !foldl_app, length_app. simpl. rewrite IH, Nat2Z.inj_add, Z.pow_add_r by lia. simpl. lia.
Qed.

Lemma digits_length b k n : length (digits b k n) = k.
Proof. induction k; simpl; congruence. Qed.

Lemma of_digits_digits b k n : 0 < b -> of_digits b (digits b k n) = n mod b ^ Z.of_nat k.
Proof.
  intros Hb. induction k as [|k IH]; [simpl; by rewrite Z.mod_1_r|]. cbn [digits].
  change (?x :: ?l) with ([x] ++ l). rewrite of_digits_app, digits_length, IH. unfold of_digits. cbn [foldl].
  rewrite Nat2Z.inj_succ, Z.pow_succ_r, (Z.mul_comm b), Z.rem_mul_r by lia. lia.
Qed.

Lemma digits_of_digits b l : 0 < b -> Forall (fun v => 0 <= v < b) l -> digits b (length l) (of_digits b l) = l.
Proof.
  intros Hb. induction l as [|x l IH] using rev_ind; intros Hf; [done|].
  apply Forall_app in Hf as [Hl Hx]. apply Forall_cons in Hx as [Hx _]. specialize (IH Hl).
  rewrite of_digits_app, length_app. cbn [length]. replace (b ^ Z.of_nat 1) with b by lia.
  unfold of_digits at 2. cbn [foldl]. rewrite Nat.add_1_r.
  assert (H : forall k m, digits b (S k) (m * b + (0 * b + x)) = digits b k m ++ [x]).
  { intros k m. induction k as [|k IHk].
    - cbn [digits app]. do 2 f_equal. rewrite Z.pow_0_r, Z.div_1_r, Z.add_comm, Z.mod_add, Z.mod_small by lia. lia.
    - change (digits b (S (S k)) (m * b + (0 * b + x))) with
        ((m * b + (0 * b + x)) / b ^ Z.of_nat (S k) mod b :: digits b (S k) (m * b + (0 * b + x))).
      rewrite IHk. cbn [digits app]. do 2 f_equal.
      rewrite Nat2Z.inj_succ, Z.pow_succ_r, <- Z.div_div by lia. do 2 f_equal.
      rewrite Z.add_comm, Z.div_add, Z.div_small by lia. lia. }
  by rewrite H, IH.
Qed.

Lemma be_bytes_digits n z : be_bytes n z = digits 256 n z.
Proof.
  induction n as [|n IH]; [done|]. cbn [be_bytes digits]. rewrite IH. f_equal.
  change 255 with (Z.ones 8). rewrite Z.land_ones, Z.shiftr_div_pow2, Z.pow_mul_r by lia. done.
Qed.

Lemma be_bytes_of l : Forall is_byte l -> be_bytes (length l) (of_be_bytes l) = l.
Proof. intros H. rewrite be_bytes_digits. by apply digits_of_digits. Qed.

(** The letters of a group are the first base-32 digits of its number. *)
Lemma encode_group_digits g : (length g <= 5)%nat ->
  encode_group g = take (letters_of (length g)) (digits 32 8 (of_be_bytes (g ++ replicate (5 - length g) 0))).
Proof.
  intros Hg. unfold encode_group. set (n := of_be_bytes _). clearbody n.
  assert (Hl : (letters_of (length g) <= 8)%nat) by (destruct (length g) as [|[|[|[|[|]]]]]; simpl; lia).
  revert Hl. generalize (letters_of (length g)). intros m Hm.
  assert (Hd : digits 32 8 n = (fun i => Z.land (Z.shiftr n (35 - 5 * Z.of_nat i)) 31) <$> seq 0 8).
  { assert (E : forall j i, 35 - 5 * Z.of_nat i = 5 * Z.of_nat j ->
              n / 32 ^ Z.of_nat j mod 32 = Z.land (Z.shiftr n (35 - 5 * Z.of_nat i)) 31).
    { intros j i ->. change 31 with (Z.ones 5). rewrite Z.land_ones, Z.shiftr_div_pow2, Z.pow_mul_r by lia. done. }
    cbn [digits]. rewrite (E 7%nat 0%nat), (E 6%nat 1%nat), (E 5%nat 2%nat), (E 4%nat 3%nat), (E 3%nat 4%nat),
      (E 2%nat 5%nat), (E 1%nat 6%nat), (E 0%nat 7%nat) by done. reflexivity. }
  rewrite Hd, <- fmap_take. f_equal. rewrite take_seq. f_equal. lia.
Qed.

Lemma of_digits_zeros b k : of_digits b (replicate k 0) = 0.
Proof. unfold of_digits. induction k as [|k IH]; [done|]. rewrite replicate_S_end, foldl_app, IH. simpl. lia. Qed.

Lemma of_be_bytes_range l : Forall is_byte l -> 0 <= of_be_bytes l < 256 ^ Z.of_nat (length l).
Proof.
  change of_be_bytes with (of_digits 256). induction l as [|x l IH] using rev_ind; intros H; [simpl; unfold of_digits; simpl; lia|].
  apply Forall_app in H as [Hl Hx]. apply Forall_cons in Hx as [Hx _]. specialize (IH Hl). unfold is_byte in Hx.
  rewrite of_digits_app, length_app, Nat2Z.inj_add, Z.pow_add_r by lia. simpl length. unfold of_digits at 2 4. simpl. lia.
Qed.

(** The digits that are not written are zero. *)
Lemma digits_tail b n j k : 0 < b -> (b ^ Z.of_nat k | n) -> (k <= j)%nat ->
  digits b j n = take (j - k) (digits b j n) ++ replicate k 0.
Proof.
  intros Hb [q Hq] Hk. induction j as [|j IH]; [replace k with 0%nat by lia; done|].
  destruct (decide (k = S j)) as [->|Hne].
  - rewrite Nat.sub_diag. simpl take. simpl app. clear IH Hk. subst n.
    assert (H : forall m, (m <= S j)%nat -> digits b m (q * b ^ Z.of_nat (S j)) = replicate m 0).
    { induction m as [|m IHm]; intros Hm; [done|]. cbn [digits replicate]. f_equal; [|apply IHm; lia].
      replace (q * b ^ Z.of_nat (S j)) with ((q * b ^ (Z.of_nat (S j) - Z.of_nat m - 1) * b) * b ^ Z.of_nat m).
      - rewrite Z.div_mul by lia. apply Z.mod_mul. lia.
      - rewrite <- !Z.mul_assoc. f_equal. rewrite <- Z.pow_succ_r, <- Z.pow_add_r by lia. f_equal. lia. }
    by apply H.
  - replace (S j - k)%nat with (S (j - k)) by lia. cbn [digits take app]. f_equal. apply IH. lia.
Qed.

Lemma decode_encode_group g : (1 <= length g <= 5)%nat -> Forall is_byte g -> decode_group (encode_group g) = g.
Proof.
  intros Hg Hb. rewrite encode_group_digits by lia.
  set (n := of_be_bytes (g ++ replicate (5 - length g) 0)).
  assert (Hn : 0 <= n < 2 ^ 40).
  { assert (Hf : Forall is_byte (g ++ replicate (5 - length g) 0))
      by (apply Forall_app; split; [done|]; apply Forall_replicate; unfold is_byte; lia).
    pose proof (of_be_bytes_range _ Hf) as H. rewrite length_app, length_replicate in H.
    replace (length g + (5 - length g))%nat with 5%nat in H by lia. unfold n. change (2 ^ 40) with (256 ^ Z.of_nat 5). lia. }
  assert (Hdiv : (32 ^ Z.of_nat (8 - letters_of (length g)) | n)).
  { unfold n. change of_be_bytes with (of_digits 256). rewrite of_digits_app, of_digits_zeros, length_replicate, Z.add_0_r.
    apply Z.divide_mul_r. destruct (length g) as [|[|[|[|[|[|]]]]]]; try lia; simpl.
    - exists 4. done. - exists 16. done. - exists 2. done. - exists 8. done. - exists 1. done. }
  assert (Hlet : (letters_of (length g) <= 8)%nat) by (destruct (length g) as [|[|[|[|[|]]]]]; simpl; lia).
  pose proof (digits_tail 32 n 8 _ ltac:(lia) Hdiv ltac:(lia)) as Ht.
  replace (8 - (8 - letters_of (length g)))%nat with (letters_of (length g)) in Ht by lia.
  unfold decode_group. rewrite length_take, digits_length, Nat.min_l by done. rewrite <- Ht.
  change (foldl _ 0 (digits 32 8 n)) with (of_digits 32 (digits 32 8 n)). rewrite of_digits_digits by lia.
  rewrite Z.mod_small by (change (32 ^ Z.of_nat 8) with (2 ^ 40); lia).
  assert (Hbytes : be_bytes 5 n = g ++ replicate (5 - length g) 0).
  { rewrite <- (be_bytes_of (g ++ replicate (5 - length g) 0)).
    - rewrite length_app, length_replicate. f_equal. lia.
    - apply Forall_app; split; [done|]. apply Forall_replicate. unfold is_byte. lia. }
  rewrite Hbytes.
  assert (bytes_in (letters_of (length g)) = length g) as -> by (destruct (length g) as [|[|[|[|[|[|]]]]]]; lia || done).
  apply take_app_length.
Qed.

Lemma pieces_fuel {A} k (l : list A) : (0 < k)%nat -> forall fuel, (length l <= fuel)%nat -> pieces fuel k l = pieces (length l) k l.
Proof.
  intros Hk. remember (length l) as n eqn:Hn. revert l Hn.
  induction n as [n IH] using lt_wf_ind. intros l Hn fuel Hf. destruct l as [|x l]; [subst; by destruct fuel|].
  destruct fuel as [|fuel], n as [|n]; try (simpl in *; lia). cbn [pieces]. f_equal.
  assert (Hd : (length (drop k (x :: l)) <= n)%nat) by (rewrite length_drop; simpl in *; lia).
  rewrite (IH (length (drop k (x :: l)))) by (done || simpl in *; lia).
  symmetry. apply IH; simpl in *; lia.
Qed.

Lemma pieces_app {A} k (l1 l2 : list A) : (0 < k)%nat -> length l1 = k ->
  pieces (length (l1 ++ l2)) k (l1 ++ l2) = l1 :: pieces (length l2) k l2.
Proof.
  intros Hk Hl. destruct l1 as [|x l1]; [simpl in Hl; lia|]. rewrite length_app. cbn [length Nat.add pieces app].
  f_equal.
  - change (x :: l1 ++ l2) with ((x :: l1) ++ l2). by rewrite <- Hl, take_app_length.
  - change (x :: l1 ++ l2) with ((x :: l1) ++ l2). rewrite <- Hl, drop_app_length. apply pieces_fuel; [simpl; lia|lia].
Qed.

Lemma pieces_one {A} k (l : list A) : (1 <= length l <= k)%nat -> pieces (length l) k l = [l].
Proof.
  intros Hl. destruct l as [|x l]; [simpl in Hl; lia|]. cbn [length pieces].
  rewrite take_ge, drop_ge by (simpl in *; lia). by destruct (length l).
Qed.

Definition encode_values (l : list Z) : list Z := concat (encode_group <$> pieces (length l) 5 l).
Definition decode_values (vs : list Z) : list Z := concat (decode_group <$> pieces (length vs) 8 vs).

Lemma encode_group_length g : (length g <= 5)%nat -> length (encode_group g) = letters_of (length g).
Proof.
  intros Hg. rewrite encode_group_digits, length_take, digits_length by done.
  destruct (length g) as [|[|[|[|[|]]]]]; simpl; lia.
Qed.

Lemma decode_encode_values l : Forall is_byte l -> decode_values (encode_values l) = l.
Proof.
  remember (length l) as n eqn:Hn. revert l Hn. induction n as [n IH] using lt_wf_ind. intros l Hn Hb. unfold encode_values, decode_values.
  destruct (decide (n = 0%nat)) as [->|H0]; [by destruct l|].
  destruct (decide (n <= 5)%nat) as [H5|H5].
  - rewrite (pieces_one 5 l) by lia. simpl. rewrite app_nil_r.
    assert (1 <= length (encode_group l) <= 8)%nat by (rewrite encode_group_length, <- Hn by lia; destruct n as [|[|[|[|[|]]]]]; simpl; lia).
    rewrite pieces_one by done. simpl. rewrite app_nil_r. apply decode_encode_group; [lia|done].
  - assert (Ht : length (take 5 l) = 5%nat) by (rewrite length_take; lia).
    assert (Hp : pieces (length l) 5 l = take 5 l :: pieces (length (drop 5 l)) 5 (drop 5 l))
      by (rewrite <- (take_drop 5 l) at 1 2; apply pieces_app; [lia|done]).
    rewrite Hp. cbn [fmap list_fmap concat].
    assert (He : length (encode_group (take 5 l)) = 8%nat) by (rewrite encode_group_length; rewrite Ht; done).
    rewrite pieces_app by (done || lia). cbn [fmap list_fmap concat].
    rewrite decode_encode_group by (lia || by apply Forall_take).
    assert (Hr : decode_values (encode_values (drop 5 l)) = drop 5 l)
      by (apply (IH (n - 5)%nat); [lia|rewrite length_drop; lia|by apply Forall_drop]).
    unfold decode_values, encode_values in Hr. rewrite Hr. apply take_drop.
Qed.

Lemma encode_values_range l : Forall (fun v => 0 <= v < 32) (encode_values l).
Proof.
  unfold encode_values. apply Forall_concat, Forall_fmap, Forall_true. intros g. apply Forall_fmap, Forall_true. intros i. cbn beta delta [compose]. change 31 with (Z.ones 5). rewrite Z.land_ones by lia. apply Z.mod_pos_bound. lia.
Qed.

(** The letters are those of the alphabet, none of them a line break. *)
Lemma letter_facts v : 0 <= v < 32 -> base32_value (base32_letter v) = Some v /\
  base32_letter v <> "010"%char /\ base32_letter v <> "013"%char /\ base32_letter v <> " "%char /\ base32_letter v <> "="%char.
Proof.
  intros Hv. assert (Hall : forallb (fun n => bool_decide (base32_value (base32_letter (Z.of_nat n)) = Some (Z.of_nat n)) &&
    negb (Ascii.eqb (base32_letter (Z.of_nat n)) "010") && negb (Ascii.eqb (base32_letter (Z.of_nat n)) "013") &&
    negb (Ascii.eqb (base32_letter (Z.of_nat n)) " ") && negb (Ascii.eqb (base32_letter (Z.of_nat n)) "=")) (seq 0 32) = true)
    by (vm_compute; reflexivity).
  rewrite forallb_forall in Hall. specialize (Hall (Z.to_nat v)). rewrite in_seq, Z2Nat.id in Hall by lia.
  specialize (Hall ltac:(lia)). repeat (apply andb_true_iff in Hall as [Hall ?]). apply bool_decide_eq_true_1 in Hall.
  split; [done|]. rewrite !negb_true_iff, !Ascii.eqb_neq in *. done.
Qed.

(** Decoding what was encoded gives the bytes back. *)
Lemma base32_roundtrip l : Forall is_byte l -> base32_decode (base32_encode l) = Some l.
Proof.
  intros Hb. unfold base32_decode, base32_encode. rewrite String.list_ascii_of_string_of_list_ascii.
  fold (encode_values l). pose proof (encode_values_range l) as Hr. rewrite filter_all.
  - assert (mapM base32_value (base32_letter <$> encode_values l) = Some (encode_values l)) as ->.
    { apply mapM_Some_2, Forall2_fmap_l, Forall_Forall2_diag. eapply Forall_impl; [exact Hr|]. intros v Hv. apply letter_facts, Hv. }
    cbn. f_equal. by apply decode_encode_values.
  - apply Forall_fmap. eapply Forall_impl; [exact Hr|]. intros v Hv. cbn. by destruct (letter_facts v Hv) as (_ & ? & ? & _).
Qed.

(** * Base64

    [base64.StdEncoding]: with padding, ignoring line breaks. *)
Definition base64_letter (v : Z) : ascii :=
  ascii_of_nat (Z.to_nat (if v <? 26 then 65 + v else if v <? 52 then 71 + v else if v <? 62 then v - 4
                          else if v =? 62 then 43 else 47)).

Definition base64_value (c : ascii) : option Z :=
  let n := Z.of_nat (nat_of_ascii c) in
  if (65 <=? n) && (n <=? 90) then Some (n - 65)
  else if (97 <=? n) && (n <=? 122) then Some (n - 71)
  else if (48 <=? n) && (n <=? 57) then Some (n + 4)
  else if n =? 43 then Some 62 else if n =? 47 then Some 63 else None.

(** The bytes of four values. *)
Definition quad (a b c d : Z) : list Z := be_bytes 3 (a * 2 ^ 18 + b * 2 ^ 12 + c * 2 ^ 6 + d).

Fixpoint base64_groups (l : list ascii) : option (list Z) :=
  match l with
  | [] => Some []
  | a :: b :: c :: d :: rest =>
      va ← base64_value a; vb ← base64_value b;
      if Ascii.eqb c "=" then
        if Ascii.eqb d "=" && (length rest =? 0)%nat then Some (take 1 (quad va vb 0 0)) else None
      else
        vc ← base64_value c;
        if Ascii.eqb d "=" then if (length rest =? 0)%nat then Some (take 2 (quad va vb vc 0)) else None
        else vd ← base64_value d; t ← base64_groups rest; Some (quad va vb vc vd ++ t)
  | _ => None
  end.

Definition not_line_break (c : ascii) : Prop := c <> "010"%char /\ c <> "013"%char.

Definition base64_decode (s : string) : option (list Z) :=
  base64_groups (filter not_line_break (String.list_ascii_of_string s)).

Definition base64_quad (a b c : Z) : list Z :=
  let n := a * 2 ^ 16 + b * 2 ^ 8 + c in [n / 2 ^ 18; n / 2 ^ 12 mod 64; n / 2 ^ 6 mod 64; n mod 64].

Fixpoint base64_letters (l : list Z) : list ascii :=
  match l with
  | [] => []
  | [a] => (base64_letter <$> take 2 (base64_quad a 0 0)) ++ ["="; "="]%char
  | [a; b] => (base64_letter <$> take 3 (base64_quad a b 0)) ++ ["="]%char
  | a :: b :: c :: rest => (base64_letter <$> base64_quad a b c) ++ base64_letters rest
  end.

Definition base64_encode (l : list Z) : string := String.string_of_list_ascii (base64_letters l).

(** The string with given bytes. *)
Definition string_of_bytes (l : list Z) : string := String.string_of_list_ascii ((fun z => ascii_of_nat (Z.to_nat z)) <$> l).

Example base64_basic : base64_encode (bytes_of "Aladdin:open sesame") = "QWxhZGRpbjpvcGVuIHNlc2FtZQ==" /\
  base64_decode "QWxhZGRpbjpvcGVuIHNlc2FtZQ==" = Some (bytes_of "Aladdin:open sesame").
Proof. vm_compute. split; reflexivity. Qed.

Lemma string_of_bytes_of s : string_of_bytes (bytes_of s) = s.
Proof.
  unfold string_of_bytes, bytes_of. rewrite <- list_fmap_compose. rewrite (list_fmap_ext _ id).
  - rewrite list_fmap_id. apply String.string_of_list_ascii_of_string.
  - intros i c _. unfold compose. rewrite Nat2Z.id. apply ascii_nat_embedding.
Qed.

Lemma bytes_of_range s : Forall is_byte (bytes_of s).
Proof.
  unfold bytes_of. apply Forall_fmap, Forall_true. intros c. unfold is_byte, compose.
  pose proof (nat_ascii_bounded c). lia.
Qed.

Lemma base64_letter_facts v : 0 <= v < 64 -> base64_value (base64_letter v) = Some v /\
  Ascii.eqb (base64_letter v) "=" = false /\ not_line_break (base64_letter v).
Proof.
  intros Hv. assert (Hall : forallb (fun n => bool_decide (base64_value (base64_letter (Z.of_nat n)) = Some (Z.of_nat n)) &&
    negb (Ascii.eqb (base64_letter (Z.of_nat n)) "=") && negb (Ascii.eqb (base64_letter (Z.of_nat n)) "010") &&
    negb (Ascii.eqb (base64_letter (Z.of_nat n)) "013")) (seq 0 64) = true) by (vm_compute; reflexivity).
  rewrite forallb_forall in Hall. specialize (Hall (Z.to_nat v)). rewrite in_seq, Z2Nat.id in Hall by lia.
  specialize (Hall ltac:(lia)). repeat (apply andb_true_iff in Hall as [Hall ?]). apply bool_decide_eq_true_1 in Hall.
  unfold not_line_break. rewrite !negb_true_iff, !Ascii.eqb_neq in *. split_and!; done.
Qed.

Lemma base64_quad_range a b c : is_byte a -> is_byte b -> is_byte c -> Forall (fun v => 0 <= v < 64) (base64_quad a b c).
Proof.
  unfold is_byte. intros. unfold base64_quad. repeat constructor;
    first [by apply Z.mod_pos_bound | apply Z.div_pos; lia | apply Z.div_lt_upper_bound; lia | apply Z.mod_pos_bound; lia].
Qed.

(** Four values made of three bytes give the bytes back. *)
Lemma quad_quad a b c : is_byte a -> is_byte b -> is_byte c ->
  match base64_quad a b c with [w; x; y; z] => quad w x y z = [a; b; c] | _ => False end.
Proof.
  unfold is_byte. intros. unfold base64_quad, quad. set (n := a * 2 ^ 16 + b * 2 ^ 8 + c).
  assert (E : n / 2 ^ 18 * 2 ^ 18 + n / 2 ^ 12 mod 64 * 2 ^ 12 + n / 2 ^ 6 mod 64 * 2 ^ 6 + n mod 64 = n).
  { change (2 ^ 18) with 262144. change (2 ^ 12) with 4096. change (2 ^ 6) with 64. Z.to_euclidean_division_equations. lia. }
  rewrite E. replace n with (of_be_bytes [a; b; c]); [|unfold n, of_be_bytes; simpl; lia].
  apply (be_bytes_of [a; b; c]). unfold is_byte. repeat (apply Forall_cons; split; [lia|]). constructor.
Qed.

Lemma base64_last a : is_byte a -> match base64_quad a 0 0 with [w; x; y; z] => y = 0 /\ z = 0 | _ => False end.
Proof. unfold is_byte, base64_quad. intros. cbv zeta. change (2 ^ 6) with 64. Z.to_euclidean_division_equations. lia. Qed.

Lemma base64_last2 a b : is_byte a -> is_byte b -> match base64_quad a b 0 with [w; x; y; z] => z = 0 | _ => False end.
Proof. unfold is_byte, base64_quad. intros. cbv zeta. Z.to_euclidean_division_equations. lia. Qed.

Lemma base64_groups_letters : forall l, Forall is_byte l ->
  base64_groups (base64_letters l) = Some l /\ Forall not_line_break (base64_letters l).
Proof.
  assert (H0 : is_byte 0) by (unfold is_byte; lia). assert (Lpad : not_line_break "=") by done.
  fix IH 1. intros [|a [|b [|c rest]]] Hl; [done|..].
  - apply Forall_inv in Hl. pose proof (base64_quad_range a 0 0 Hl H0 H0) as Hr. pose proof (quad_quad a 0 0 Hl H0 H0) as Hq.
    pose proof (base64_last a Hl) as Hz. cbn [base64_letters]. destruct (base64_quad a 0 0) as [|w [|x [|y [|z []]]]]; try done.
    destruct Hz as [-> ->]. apply Forall_cons in Hr as [Hw Hr]. apply Forall_cons in Hr as [Hx _].
    destruct (base64_letter_facts w Hw) as (Ew & _ & Lw), (base64_letter_facts x Hx) as (Ex & _ & Lx).
    cbn [take fmap list_fmap app base64_groups]. rewrite Ew, Ex. change (Ascii.eqb "=" "=") with true. cbn [mbind option_bind andb length Nat.eqb]. rewrite Hq. split; [done|]. repeat (apply Forall_cons; split; [done|]). done.
  - apply Forall_cons in Hl as [Ha Hl]. apply Forall_inv in Hl as Hb. pose proof (base64_quad_range a b 0 Ha Hb H0) as Hr.
    pose proof (quad_quad a b 0 Ha Hb H0) as Hq. pose proof (base64_last2 a b Ha Hb) as Hz. cbn [base64_letters].
    destruct (base64_quad a b 0) as [|w [|x [|y [|z []]]]]; try done. subst z.
    apply Forall_cons in Hr as [Hw Hr]. apply Forall_cons in Hr as [Hx Hr]. apply Forall_cons in Hr as [Hy _].
    destruct (base64_letter_facts w Hw) as (Ew & _ & Lw), (base64_letter_facts x Hx) as (Ex & _ & Lx), (base64_letter_facts y Hy) as (Ey & Ny & Ly).
    cbn [take fmap list_fmap app base64_groups]. rewrite Ew, Ex, Ny, Ey. change (Ascii.eqb "=" "=") with true. cbn [mbind option_bind andb length Nat.eqb]. rewrite Hq. split; [done|]. repeat (apply Forall_cons; split; [done|]). done.
  - apply Forall_cons in Hl as [Ha Hl]. apply Forall_cons in Hl as [Hb Hl]. apply Forall_cons in Hl as [Hc Hl].
    destruct (IH rest Hl) as [Hg Hn]. pose proof (base64_quad_range a b c Ha Hb Hc) as Hr. pose proof (quad_quad a b c Ha Hb Hc) as Hq.
    cbn [base64_letters]. destruct (base64_quad a b c) as [|w [|x [|y [|z []]]]]; try done.
    apply Forall_cons in Hr as [Hw Hr]. apply Forall_cons in Hr as [Hx Hr]. apply Forall_cons in Hr as [Hy Hr]. apply Forall_inv in Hr as Hzz.
    destruct (base64_letter_facts w Hw) as (Ew & _ & Lw), (base64_letter_facts x Hx) as (Ex & _ & Lx),
      (base64_letter_facts y Hy) as (Ey & Ny & Ly), (base64_letter_facts z Hzz) as (Ez & Nz & Lz).
    cbn [fmap list_fmap app base64_groups]. rewrite Ew, Ex, Ny, Ey, Nz, Ez. cbn [mbind option_bind]. rewrite Hg. cbn [mbind option_bind].
    rewrite Hq. split; [done|]. repeat (apply Forall_cons; split; [done|]). done.
Qed.

Lemma base64_roundtrip l : Forall is_byte l -> base64_decode (base64_encode l) = Some l.
Proof.
  intros Hl. destruct (base64_groups_letters l Hl) as [Hg Hn]. unfold base64_decode, base64_encode.
  rewrite String.list_ascii_of_string_of_list_ascii, filter_all; done.
Qed.
