(* ===== verification/Totp.v ===== *)
(** One-time passwords: [src/auth/mfa/totp.go]. *)
From S2P Require Import Prelude Float64 GoString GoCrypto.

(** * Configuration *)

Record TOTPConfig : Type := {
  Secret : string; Digits : Z; Period : Z; Algorithm : string; Issuer : string; AccountName : string }.

Definition DefaultPeriod : Z := 30.
Definition DefaultDigits : Z := 6.
Definition DefaultAlgorithm : string := "SHA1".

Definition NewDefaultTOTPConfig (issuer accountName : string) : TOTPConfig :=
  {| Secret := ""; Digits := DefaultDigits; Period := DefaultPeriod; Algorithm := DefaultAlgorithm;
     Issuer := issuer; AccountName := accountName |}.

Inductive totp_error : Type := ErrRandom (e : string) | ErrNilConfig | ErrDecodeSecret.

(** [GenerateSecret], given what the system's random source answers for the
    number of bytes that it is asked. *)
Definition GenerateSecret (length : Z) (read : nat -> result string (list Z)) : result totp_error string :=
  let length := if length <=? 0 then 20 else length in
  match read (Z.to_nat length) with
  | Err e => Err (ErrRandom e)
  | Ok secret => Ok (base32_encode secret)
  end.

Definition set_secret (s : string) (c : TOTPConfig) : TOTPConfig :=
  {| Secret := s; Digits := Digits c; Period := Period c; Algorithm := Algorithm c; Issuer := Issuer c;
     AccountName := AccountName c |}.

(** Upper case, no spaces, no padding. *)
Definition normalize_secret (s : string) : string := trim_right_char "=" (ToUpper (remove_char " " s)).

(** [NewTOTP]; [None] is the nil configuration. *)
Definition NewTOTP (config : option TOTPConfig) (read : nat -> result string (list Z)) : result totp_error TOTPConfig :=
  match config with
  | None => Err ErrNilConfig
  | Some c =>
      match (if bool_decide (Secret c = "") then GenerateSecret 20 read else Ok (Secret c)) with
      | Err e => Err e
      | Ok secret =>
          Ok {| Secret := normalize_secret secret;
                Digits := if Digits c <=? 0 then DefaultDigits else Digits c;
                Period := if Period c <=? 0 then DefaultPeriod else Period c;
                Algorithm := if bool_decide (Algorithm c = "") then DefaultAlgorithm else Algorithm c;
                Issuer := Issuer c; AccountName := AccountName c |}
      end
  end.

Definition GetSecret (t : TOTPConfig) : string := Secret t.

(** * Codes *)

Section Codes.
Context `{GoImpl}.

(** The time step of an instant. *)
Definition counter_at (t : TOTPConfig) (at_ : Z) : Z :=
  to_u64 (ffloor (fdiv (of_int (unix at_)) (of_int (Period t)))).

(** The dynamic truncation of a hash: [None] is an index out of range. *)
Definition truncate (hash : list Z) : option Z :=
  last_ ← last hash;
  let offset := Z.to_nat (Z.land last_ 0xf) in
  b0 ← hash !! offset; b1 ← hash !! (offset + 1)%nat; b2 ← hash !! (offset + 2)%nat; b3 ← hash !! (offset + 3)%nat;
  Some (Z.lor (Z.lor (Z.lor (Z.shiftl (Z.land b0 0x7f) 24) (Z.shiftl (Z.land b1 0xff) 16))
                     (Z.shiftl (Z.land b2 0xff) 8)) (Z.land b3 0xff)).

(** [generateOTP]: an index out of range or a remainder by zero panics. *)
Definition generateOTP (t : TOTPConfig) (counter : Z) : outcome (result totp_error string) :=
  match base32_decode (Secret t) with
  | None => Returns (Err ErrDecodeSecret)
  | Some key =>
      match truncate (hmac_sha1 key (be_bytes 8 counter)) with
      | None => Panics
      | Some binary =>
          let modulus := to_i64 (Pow10 (Digits t)) in
          if modulus =? 0 then Panics
          else Returns (Ok (zero_padded (Z.to_nat (Digits t)) (Z.rem binary modulus)))
      end
  end.

Definition GenerateCodeAt (t : TOTPConfig) (at_ : Z) : outcome (result totp_error string) :=
  generateOTP t (counter_at t at_).

Definition GenerateWithOffset (t : TOTPConfig) (offset now : Z) : outcome (result totp_error string) :=
  GenerateCodeAt t (now + i64 (i64 offset * Second)).

(** The loop over the time steps around [now]. *)
Fixpoint validate_steps (t : TOTPConfig) (code : string) (now : Z) (steps : list Z) : outcome bool :=
  match steps with
  | [] => Returns false
  | i :: steps =>
      match GenerateCodeAt t (now + i64 (i64 (i * Period t) * Second)) with
      | Panics => Panics
      | Returns (Err _) => validate_steps t code now steps
      | Returns (Ok validCode) => if bool_decide (validCode = code) then Returns true else validate_steps t code now steps
      end
  end.

Definition ValidateCodeWithWindow (t : TOTPConfig) (code : string) (window now : Z) : outcome bool :=
  let window := if window <? 0 then 0 else window in
  let code := TrimSpace code in
  if negb (Z.of_nat (String.length code) =? Digits t) then Returns false
  else validate_steps t code now (seqZ (- window) (2 * window + 1)).

Definition ValidateCode (t : TOTPConfig) (code : string) (now : Z) : outcome bool := ValidateCodeWithWindow t code 0 now.

End Codes.

(** * The URI for a QR code *)

Definition hex_digit (n : nat) : ascii := ascii_of_nat (if (n <? 10)%nat then 48 + n else 55 + n)%nat.

(** [url.QueryEscape] *)
Definition escape_char (c : ascii) : string :=
  let n := nat_of_ascii c in
  if ((48 <=? n) && (n <=? 57) || (65 <=? n) && (n <=? 90) || (97 <=? n) && (n <=? 122) ||
      (n =? 45) || (n =? 46) || (n =? 95) || (n =? 126))%nat
  then String c EmptyString
  else if (n =? 32)%nat then "+" else String "%" (String (hex_digit (n / 16)) (String (hex_digit (n mod 16)) EmptyString)).

Definition QueryEscape (s : string) : string :=
  foldr (fun c acc => (escape_char c ++ acc)%string) EmptyString (String.list_ascii_of_string s).

(** [GetURI]; [Values.Encode] writes the parameters in the order of their names. *)
Definition GetURI (t : TOTPConfig) : string :=
  ("otpauth://totp/" ++ QueryEscape (Issuer t) ++ ":" ++ QueryEscape (AccountName t) ++
   "?algorithm=" ++ QueryEscape (Algorithm t) ++ "&digits=" ++ QueryEscape (itoa (Digits t)) ++
   "&issuer=" ++ QueryEscape (Issuer t) ++ "&period=" ++ QueryEscape (itoa (Period t)) ++
   "&secret=" ++ QueryEscape (Secret t))%string.

(** The test vectors of RFC 4226 and RFC 6238. *)
Definition rfc (digits : Z) : TOTPConfig :=
  {| Secret := base32_encode (bytes_of "12345678901234567890"); Digits := digits; Period := 30; Algorithm := "SHA1";
     Issuer := ""; AccountName := "" |}.

Example rfc4226 : (fun c => @generateOTP amd64 (rfc 6) c) <$> [0; 1; 2; 9] =
  (fun s => Returns (Ok s)) <$> ["755224"; "287082"; "359152"; "520489"].
Proof. vm_compute. reflexivity. Qed.

Example rfc6238 : (fun s => @GenerateCodeAt amd64 (rfc 8) (s * Second)) <$> [59; 1111111109; 1234567890; 20000000000] =
  (fun s => Returns (Ok s)) <$> ["94287082"; "07081804"; "89005924"; "65353130"].
Proof. vm_compute. reflexivity. Qed.

(** * Lemmas *)

(** The last four bits of a hash of twenty bytes never point past it, and the
    code is a number of 31 bits. *)
Lemma truncate_some hash : length hash = 20%nat -> Forall is_byte hash -> exists b, truncate hash = Some b /\ 0 <= b < 2 ^ 31.
Proof.
  intros Hl Hf. unfold truncate.
  destruct (last hash) as [x|] eqn:Hx; [|apply last_None in Hx; by subst]. cbn [mbind option_bind].
  assert (Ho : 0 <= Z.land x 0xf < 16).
  { change 0xf with (Z.ones 4). rewrite Z.land_ones by lia. apply Z.mod_pos_bound. lia. }
  set (o := Z.to_nat (Z.land x 0xf)). assert (Hn : (o <= 15)%nat) by lia. clearbody o.
  destruct (lookup_lt_is_Some_2 hash o) as [b0 ->]; [lia|].
  destruct (lookup_lt_is_Some_2 hash (o + 1)%nat) as [b1 ->]; [lia|].
  destruct (lookup_lt_is_Some_2 hash (o + 2)%nat) as [b2 ->]; [lia|].
  destruct (lookup_lt_is_Some_2 hash (o + 3)%nat) as [b3 ->]; [lia|].
  eexists. split; [reflexivity|].
  change 0x7f with (Z.ones 7). change 0xff with (Z.ones 8). rewrite !Z.land_ones by lia.
  pose proof (Z.mod_pos_bound b0 (2 ^ 7) ltac:(lia)). pose proof (Z.mod_pos_bound b1 (2 ^ 8) ltac:(lia)).
  pose proof (Z.mod_pos_bound b2 (2 ^ 8) ltac:(lia)). pose proof (Z.mod_pos_bound b3 (2 ^ 8) ltac:(lia)).
  rewrite !Z.shiftl_mul_pow2 by lia.
  assert (Hlor : forall a b k, 0 <= k -> 0 <= a < 2 ^ k -> 0 <= b < 2 ^ k -> 0 <= Z.lor a b < 2 ^ k).
  { intros a b k Hk Ha Hb. split; [apply Z.lor_nonneg; lia|]. destruct (Z.eq_dec (Z.lor a b) 0) as [->|Hne]; [lia|].
    apply Z.log2_lt_pow2; [pose proof (proj2 (Z.lor_nonneg a b)); lia|].
    rewrite Z.log2_lor by lia. apply Z.max_lub_lt.
    - destruct (Z.eq_dec a 0) as [->|]; [simpl|apply Z.log2_lt_pow2; lia].
      destruct (Z.eq_dec k 0) as [->|]; [|lia]. exfalso. apply Hne. replace b with 0 by lia. done.
    - destruct (Z.eq_dec b 0) as [->|]; [simpl|apply Z.log2_lt_pow2; lia].
      destruct (Z.eq_dec k 0) as [->|]; [|lia]. exfalso. apply Hne. replace a with 0 by lia. done. }
  apply Hlor; [lia| |lia]. apply Hlor; [lia| |lia]. apply Hlor; lia.
Qed.

(** Normalising leaves what was encoded as it is. *)
Definition is_letter (c : ascii) : Prop := base32_value c <> None.

Lemma letter_upper c s : is_letter c -> ToUpper (String c s) = String c (ToUpper s).
Proof. unfold is_letter. destruct c as [[] [] [] [] [] [] [] []]; intros H; vm_compute in H; done. Qed.

Lemma letter_not c d : is_letter c -> base32_value d = None -> Ascii.eqb c d = false.
Proof. unfold is_letter. intros Hc Hd. apply Ascii.eqb_neq. congruence. Qed.

Lemma normalize_letters s : all_chars is_letter s -> normalize_secret s = s.
Proof.
  intros Hs. unfold normalize_secret.
  assert (remove_char " " s = s) as ->.
  { induction s as [|c s IH]; [done|]. destruct Hs as [Hc Hs]. cbn [remove_char]. by rewrite letter_not, IH. }
  assert (ToUpper s = s) as ->.
  { induction s as [|c s IH]; [done|]. destruct Hs as [Hc Hs]. by rewrite letter_upper, IH. }
  induction s as [|c s IH]; [done|]. destruct Hs as [Hc Hs]. cbn [trim_right_char]. rewrite IH by done.
  destruct s; [by rewrite letter_not|done].
Qed.

Lemma normalize_encoded l : normalize_secret (base32_encode l) = base32_encode l.
Proof.
  apply normalize_letters. unfold base32_encode. fold (encode_values l). pose proof (encode_values_range l) as H.
  induction H as [|v vs Hv _ IH]; [done|]. refine (conj _ IH). unfold is_letter. by rewrite (proj1 (letter_facts v Hv)).
Qed.

Section Facts.
Context `{GoImpl}.

Lemma Pow10_small n : 0 < n <= 15 -> to_i64 (Pow10 n) = 10 ^ n.
Proof.
  intros Hn. assert (Hall : forallb (fun k => to_i64 (Pow10 (Z.of_nat k)) =? 10 ^ Z.of_nat k) (seq 1 15) = true)
    by (vm_compute; reflexivity).
  rewrite forallb_forall in Hall. specialize (Hall (Z.to_nat n)). rewrite in_seq, Z2Nat.id in Hall by lia.
  specialize (Hall ltac:(lia)). by bool_to_prop.
Qed.

(** With a secret that decodes, there is a code of exactly [Digits] digits. *)
Lemma generateOTP_ok t c key : base32_decode (Secret t) = Some key -> 0 < Digits t <= 15 ->
  exists code, generateOTP t c = Returns (Ok code) /\ Z.of_nat (String.length code) = Digits t /\ all_chars is_digit code.
Proof.
  intros Hk Hd. unfold generateOTP. rewrite Hk.
  destruct (truncate_some (hmac_sha1 key (be_bytes 8 c))) as (b & -> & Hb); [apply sha1_length|apply sha1_range|].
  rewrite Pow10_small by lia. assert (0 < 10 ^ Digits t) by (apply Z.pow_pos_nonneg; lia).
  rewrite (proj2 (Z.eqb_neq _ _)) by lia. eexists. split; [reflexivity|].
  assert (0 <= Z.rem b (10 ^ Digits t) < 10 ^ Digits t) by (apply Z.rem_bound_pos; lia).
  split; [rewrite zero_padded_length; rewrite ?Z2Nat.id; lia|apply zero_padded_digits; lia].
Qed.

Lemma counter_exact t at_ : 0 <= unix at_ < 2 ^ 51 -> 0 < Period t < 2 ^ 51 -> counter_at t at_ = unix at_ / Period t.
Proof.
  intros Ha Hp. unfold counter_at. rewrite floor_quotient by lia.
  assert (0 <= unix at_ / Period t < 2 ^ 51).
  { split; [apply Z.div_pos; lia|]. apply Z.div_lt_upper_bound; [lia|]. nia. }
  unfold to_u64, to_range. rewrite trunc_of_int by lia. crush.
Qed.

(** The time [i] steps from [now], when nothing overflows. *)
Lemma offset_counter t now i : 0 < Period t < 2 ^ 32 -> -2 ^ 20 < i < 2 ^ 20 ->
  Z.abs (i * Period t) * Second < 2 ^ 62 ->
  0 <= unix now + i * Period t < 2 ^ 51 ->
  counter_at t (now + i64 (i64 (i * Period t) * Second)) = unix now / Period t + i.
Proof.
  intros Hp Hi Hs Hu. unfold Second in *. rewrite (i64_small (i * Period t)) by (unfold is_i64; lia).
  rewrite i64_small by (unfold is_i64; lia).
  assert (Hn : unix (now + i * Period t * 1000000000) = unix now + i * Period t).
  { unfold unix, Second. rewrite Z.div_add by lia. done. }
  rewrite counter_exact; rewrite ?Hn; [|lia..]. by rewrite Z.div_add by lia.
Qed.


(** The instants around [now] that a window reaches are after 1970 and small
    enough for the arithmetic. *)
Definition in_range (t : TOTPConfig) (w now : Z) : Prop :=
  0 <= w < 2 ^ 20 /\ 0 < Period t < 2 ^ 32 /\ w * Period t * Second < 2 ^ 62 /\
  w * Period t <= unix now /\ unix now + w * Period t < 2 ^ 51.

Lemma validate_steps_spec t key code now w steps : base32_decode (Secret t) = Some key -> 0 < Digits t <= 15 ->
  in_range t w now -> Forall (fun i => - w <= i <= w) steps ->
  exists b, validate_steps t code now steps = Returns b /\
    (b = true <-> exists i, i ∈ steps /\ generateOTP t (unix now / Period t + i) = Returns (Ok code)).
Proof.
  intros Hk Hd (Hw & Hp & Hs & Hlo & Hhi) Hf. induction Hf as [|i steps Hi _ IH].
  { exists false. split; [done|]. split; [done|]. intros (i & Hi & _). by apply elem_of_nil in Hi. }
  assert (Hc : counter_at t (now + i64 (i64 (i * Period t) * Second)) = unix now / Period t + i).
  { assert (Z.abs (i * Period t) <= w * Period t) by nia. apply offset_counter; unfold Second in *; nia. }
  cbn [validate_steps]. unfold GenerateCodeAt. rewrite Hc.
  destruct (generateOTP_ok t (unix now / Period t + i) key Hk Hd) as (s & Hs' & _). rewrite Hs'. case_bool_decide as Hsc.
  - exists true. split; [done|]. split; [intros _|done]. exists i. split; [by left|]. by rewrite Hs', Hsc.
  - destruct IH as (b & Hb & Hiff). exists b. split; [done|]. rewrite Hiff. split.
    + intros (j & Hj & ?). exists j. split; [by right|done].
    + intros (j & [->|Hj]%elem_of_cons & Hg); [congruence|by exists j].
Qed.

Lemma window_steps w : 0 <= w -> Forall (fun i => - w <= i <= w) (seqZ (- w) (2 * w + 1)) /\
  forall i, - w <= i <= w -> i ∈ seqZ (- w) (2 * w + 1).
Proof. intros Hw. split; [apply Forall_forall; intros i Hi%elem_of_seqZ; lia|]. intros i Hi. apply elem_of_seqZ. lia. Qed.

Lemma window_spec t key code w now : base32_decode (Secret t) = Some key -> 0 < Digits t <= 15 -> in_range t w now ->
  exists b, ValidateCodeWithWindow t code w now = Returns b /\
    (b = true <-> exists i, - w <= i <= w /\ generateOTP t (unix now / Period t + i) = Returns (Ok (TrimSpace code))).
Proof.
  intros Hk Hd Hr. unfold ValidateCodeWithWindow. rewrite (proj2 (Z.ltb_ge _ _)) by (unfold in_range in Hr; lia).
  destruct (window_steps w) as [Hf Hin]; [unfold in_range in Hr; lia|].
  case_bool; bool_to_prop.
  - exists false. split; [done|]. split; [done|]. intros (i & _ & Hg).
    destruct (generateOTP_ok t (unix now / Period t + i) key Hk Hd) as (s & Hs & Hl & _). rewrite Hg in Hs. by simplify_eq.
  - destruct (validate_steps_spec t key (TrimSpace code) now w _ Hk Hd Hr Hf) as (b & -> & Hiff).
    exists b. split; [done|]. rewrite Hiff. split; intros (i & Hi & Hg); exists i; (split; [|done]); [|by apply Hin].
    rewrite Forall_forall in Hf. by apply Hf.
Qed.

(** A code is accepted exactly when, without the spaces around it, it is the code of a time step at most [window] steps from the present one; the floating-point computation of the steps is exact. *)
Theorem validate_iff t key code w now : base32_decode (Secret t) = Some key -> 0 < Digits t <= 15 -> in_range t w now ->
  exists b, ValidateCodeWithWindow t code w now = Returns b /\
    (b = true <-> exists c, unix now / Period t - w <= c <= unix now / Period t + w /\
                            generateOTP t c = Returns (Ok (TrimSpace code))).
Proof.
  intros Hk Hd Hr. destruct (window_spec t key code w now Hk Hd Hr) as (b & Hv & Hb). exists b. split; [done|].
  rewrite Hb. split.
  - intros (i & Hi & Hg). exists (unix now / Period t + i). split; [lia|done].
  - intros (c & Hc & Hg). exists (c - unix now / Period t). split; [lia|].
    by replace (unix now / Period t + (c - unix now / Period t)) with c by lia.
Qed.

(** A code that was generated is accepted while the present time step is at most [window] steps from the one of its generation. *)
Theorem generated_code_accepted t key w made now : base32_decode (Secret t) = Some key -> 0 < Digits t <= 15 ->
  in_range t w now -> 0 <= unix made < 2 ^ 51 -> Z.abs (unix made / Period t - unix now / Period t) <= w ->
  exists code, GenerateCodeAt t made = Returns (Ok code) /\ ValidateCodeWithWindow t code w now = Returns true.
Proof.
  intros Hk Hd Hr Hm Hw. unfold GenerateCodeAt. rewrite counter_exact by (unfold in_range in Hr; lia).
  destruct (generateOTP_ok t (unix made / Period t) key Hk Hd) as (code & Hg & _ & Hdig). exists code. split; [done|].
  destruct (window_spec t key code w now Hk Hd Hr) as (b & -> & [_ Hb]). f_equal. apply Hb.
  exists (unix made / Period t - unix now / Period t). split; [lia|].
  replace (unix now / Period t + _) with (unix made / Period t) by lia. by rewrite TrimSpace_digits.
Qed.

(** A configuration without a secret gets one that decodes to exactly the random bytes drawn for it, and so has codes. *)
Theorem fresh_secret_decodes c read bytes_ : Secret c = "" -> read 20%nat = Ok bytes_ -> Forall is_byte bytes_ ->
  exists t, NewTOTP (Some c) read = Ok t /\ base32_decode (GetSecret t) = Some bytes_ /\ 0 < Digits t /\ 0 < Period t.
Proof.
  intros Hs Hr Hb. unfold NewTOTP. rewrite Hs, bool_decide_eq_true_2 by done. unfold GenerateSecret.
  change (if 20 <=? 0 then 20 else 20) with 20. change (Z.to_nat 20) with 20%nat. rewrite Hr. eexists. split; [reflexivity|]. simpl.
  rewrite normalize_encoded. split; [by apply base32_roundtrip|].
  unfold DefaultDigits, DefaultPeriod. split; case_bool; bool_to_prop; lia.
Qed.

End Facts.

(** * Witnesses *)

Definition soon : Z := 1700000000 * Second.

Lemma rfc_decodes : base32_decode (Secret (rfc 6)) = Some (bytes_of "12345678901234567890").
Proof. vm_compute. reflexivity. Qed.

Lemma rfc_in_range : in_range (rfc 6) 1 soon.
Proof. unfold in_range, soon, unix, Second. simpl Period. rewrite Z.div_mul by lia. lia. Qed.

Lemma validate_iff_witness :
  exists b, @ValidateCodeWithWindow amd64 (rfc 6) "123456" 1 soon = Returns b /\
    (b = true <-> exists c, unix soon / 30 - 1 <= c <= unix soon / 30 + 1 /\
                            @generateOTP amd64 (rfc 6) c = Returns (Ok (TrimSpace "123456"))).
Proof.
  apply (@validate_iff amd64 (rfc 6) (bytes_of "12345678901234567890") "123456" 1 soon);
    [apply rfc_decodes|split; reflexivity || discriminate|apply rfc_in_range].
Defined.

Lemma generated_code_accepted_witness :
  exists code, @GenerateCodeAt amd64 (rfc 6) (soon - 20 * Second) = Returns (Ok code) /\
               @ValidateCodeWithWindow amd64 (rfc 6) code 1 soon = Returns true.
Proof.
  apply (@generated_code_accepted amd64 (rfc 6) (bytes_of "12345678901234567890") 1 (soon - 20 * Second) soon);
    [apply rfc_decodes|split; reflexivity || discriminate|apply rfc_in_range| |]; vm_compute; [split|]; (discriminate || reflexivity).
Defined.

Lemma fresh_secret_decodes_witness :
  exists t, NewTOTP (Some (NewDefaultTOTPConfig "app" "bob")) (fun n => Ok (replicate n 7)) = Ok t /\
            base32_decode (GetSecret t) = Some (replicate 20 7) /\ 0 < Digits t /\ 0 < Period t.
Proof.
  apply (fresh_secret_decodes (NewDefaultTOTPConfig "app" "bob") (fun n => Ok (replicate n 7)) (replicate 20 7));
    [reflexivity|reflexivity|apply Forall_replicate; unfold is_byte; lia].
Defined.
