(* ===== verification/Mfa.v ===== *)
(** Multi-factor authentication: [src/auth/mfa/authenticator.go] and the Redis
    repository of [redis_repository.go].

    A repository keeps the maps it is given by reference, so that the maps live in
    a heap that callers and repository share. *)
From S2P Require Import Prelude Float64 GoString GoCrypto Auth Redis Totp.

(** * Types *)

Inductive mfa_error : Type :=
| ErrMFARequired | ErrMFAInvalid | ErrMFANotEnabled | ErrUserNotFound
| ErrAlreadySet | ErrUnsupported | ErrTotp (e : totp_error) | ErrRedis (e : string) | ErrAuth (e : auth_error).

#[export] Instance totp_error_eq_dec : EqDecision totp_error.
Proof. solve_decision. Defined.

#[export] Instance mfa_error_eq_dec : EqDecision mfa_error.
Proof. solve_decision. Defined.

Definition MFATypeNone : string := "none".
Definition MFATypeTOTP : string := "totp".
Definition MFATypeSMS : string := "sms".
Definition MFATypeEmail : string := "email".

(** The order in which a range statement visits a map. *)
Class MapOrder : Type := {
  range {A : Type} : gmap string A -> list (string * A);
  range_all {A : Type} (m : gmap string A) : range m ≡ₚ map_to_list m }.

(** A reference to a map, the heap and the repository. *)
Abbreviation loc := nat (only parsing).

Record world (R : Type) : Type := { heap : list (gmap string string); repo : R }.
Arguments heap {R} w.
Arguments repo {R} w.

Definition with_repo {R : Type} (r : R) (w : world R) : world R := {| heap := heap w; repo := r |}.

(** A map literal: a new map in the heap. *)
Definition new_map {R : Type} (m : gmap string string) (w : world R) : loc * world R :=
  (length (heap w), {| heap := heap w ++ [m]; repo := repo w |}).

Definition write {R : Type} (l : loc) (k v : string) (w : world R) : world R :=
  {| heap := alter (insert k v) l (heap w); repo := repo w |}.

(** [m[k]], also of a nil map. *)
Definition field {R : Type} (w : world R) (l : option loc) (k : string) : string :=
  default "" (l ≫= fun l => heap w !! l ≫= fun m => m !! k).

(** * Repositories *)

Class MFARepository (R : Type) : Type := {
  GetUserMFA : Z -> string -> string -> world R -> result mfa_error (option loc) * world R;
  SetUserMFA : Z -> string -> string -> loc -> world R -> result mfa_error unit * world R;
  DisableUserMFA : Z -> string -> string -> world R -> result mfa_error unit * world R;
  ListUserMFA : Z -> string -> world R -> result mfa_error (list string) * world R }.

(** ** In memory *)

Record InMemoryMFARepository : Type := { data : gmap string (gmap string loc) }.

Definition NewInMemoryMFARepository : InMemoryMFARepository := {| data := ∅ |}.

Section InMemory.
Context `{MapOrder}.

Definition get_memory (userID mfaType : string) (r : InMemoryMFARepository) : result mfa_error (option loc) :=
  match data r !! userID with
  | None => Err ErrUserNotFound
  | Some userMFA => match userMFA !! mfaType with None => Err ErrMFANotEnabled | Some l => Ok (Some l) end
  end.

Definition set_memory (userID mfaType : string) (l : loc) (r : InMemoryMFARepository) : InMemoryMFARepository :=
  {| data := <[userID := <[mfaType := l]> (default ∅ (data r !! userID))]> (data r) |}.

Definition disable_memory (userID mfaType : string) (r : InMemoryMFARepository) : InMemoryMFARepository :=
  match data r !! userID with
  | None => r
  | Some userMFA => {| data := <[userID := delete mfaType userMFA]> (data r) |}
  end.

Definition list_memory (userID : string) (r : InMemoryMFARepository) : result mfa_error (list string) :=
  match data r !! userID with None => Err ErrUserNotFound | Some userMFA => Ok (range userMFA).*1 end.

#[global] Instance in_memory_mfa : MFARepository InMemoryMFARepository := {
  GetUserMFA _ u t w := (get_memory u t (repo w), w);
  SetUserMFA _ u t l w := (Ok tt, with_repo (set_memory u t l (repo w)) w);
  DisableUserMFA _ u t w := (Ok tt, with_repo (disable_memory u t (repo w)) w);
  ListUserMFA _ u w := (list_memory u (repo w), w) }.
End InMemory.

(** ** In Redis *)

Record RedisMFARepository (C : Type) : Type := { mclient : C; mkeyPrefix : string; mexpiration : Z }.
Arguments mclient {C} r.
Arguments mkeyPrefix {C} r.
Arguments mexpiration {C} r.

(** [NewRedisMFARepository]; [None] is a nil client. *)
Definition NewRedisMFARepository {C : Type} (c : option C) (prefix : string) (e : Z) : option (RedisMFARepository C) :=
  match c with
  | None => None
  | Some c => Some {| mclient := c; mkeyPrefix := if bool_decide (prefix = "") then "mfa:" else prefix;
                      mexpiration := if e <=? 0 then Hour * 24 * 365 else e |}
  end.

Section InRedis.
Context `{MapOrder} {C : Type} `{Client C}.
Implicit Type w : world (RedisMFARepository C).

Definition mfa_key (r : RedisMFARepository C) (u t : string) : string := (mkeyPrefix r ++ "user:" ++ u ++ ":" ++ t)%string.
Definition types_key (r : RedisMFARepository C) (u : string) : string := (mkeyPrefix r ++ "user_types:" ++ u)%string.

Definition rcall {A : Type} (f : C -> result string A * C) w : result mfa_error A * world (RedisMFARepository C) :=
  let '(a, c) := f (mclient (repo w)) in
  (match a with Ok a => Ok a | Err e => Err (ErrRedis e) end,
   with_repo {| mclient := c; mkeyPrefix := mkeyPrefix (repo w); mexpiration := mexpiration (repo w) |} w).

Definition get_redis (now : Z) (u t : string) w : result mfa_error (option loc) * world (RedisMFARepository C) :=
  match rcall (HGetAll now (mfa_key (repo w) u t)) w with
  | (Err e, w) => (Err e, w)
  | (Ok d, w) => if bool_decide (d = ∅) then (Err ErrMFANotEnabled, w) else let '(l, w) := new_map d w in (Ok (Some l), w)
  end.

Fixpoint set_fields (now : Z) (key : string) (fields : list (string * string)) w : result mfa_error unit * world (RedisMFARepository C) :=
  match fields with
  | [] => (Ok tt, w)
  | (f, v) :: fields =>
      match rcall (HSet now key f v) w with (Err e, w) => (Err e, w) | (Ok _, w) => set_fields now key fields w end
  end.

Definition set_redis (now : Z) (u t : string) (l : loc) w : result mfa_error unit * world (RedisMFARepository C) :=
  let key := mfa_key (repo w) u t in
  match set_fields now key (range (default ∅ (heap w !! l))) w with
  | (Err e, w) => (Err e, w)
  | (Ok _, w) =>
      match rcall (Expire now key (mexpiration (repo w))) w with
      | (Err e, w) => (Err e, w)
      | (Ok _, w) =>
          let tkey := types_key (repo w) u in
          match rcall (HSet now tkey t "1") w with
          | (Err e, w) => (Err e, w)
          | (Ok _, w) => rcall (Expire now tkey (mexpiration (repo w))) w
          end
      end
  end.

Definition disable_redis (now : Z) (u t : string) w : result mfa_error unit * world (RedisMFARepository C) :=
  match rcall (Del now [mfa_key (repo w) u t]) w with
  | (Err e, w) => (Err e, w)
  | (Ok _, w) => rcall (HDel now (types_key (repo w) u) [t]) w
  end.

Definition list_redis (now : Z) (u : string) w : result mfa_error (list string) * world (RedisMFARepository C) :=
  match rcall (HGetAll now (types_key (repo w) u)) w with
  | (Err e, w) => (Err e, w)
  | (Ok d, w) => (Ok (range d).*1, w)
  end.

#[global] Instance redis_mfa : MFARepository (RedisMFARepository C) := {
  GetUserMFA := get_redis; SetUserMFA := set_redis; DisableUserMFA := disable_redis; ListUserMFA := list_redis }.
End InRedis.

(** * Providers *)

Record MFAProvider (W : Type) : Type := {
  ProviderType : string;
  GenerateChallenge : Z -> string -> W -> result mfa_error string * W;
  VerifyChallenge : Z -> string -> string -> W -> outcome (result mfa_error bool) * W;
  Setup : (nat -> result string (list Z)) -> Z -> string -> gmap string string -> W -> outcome (result mfa_error loc) * W;
  Disable : Z -> string -> W -> result mfa_error unit * W }.
Arguments ProviderType {W} m.
Arguments GenerateChallenge {W} m.
Arguments VerifyChallenge {W} m.
Arguments Setup {W} m.
Arguments Disable {W} m.

Record TOTPProvider : Type := { window : Z; defaultConfig : TOTPConfig }.

Definition NewTOTPProvider (issuer : string) (window : Z) : TOTPProvider :=
  {| window := if window <=? 0 then 1 else window;
     defaultConfig := {| Secret := ""; Digits := DefaultDigits; Period := DefaultPeriod; Algorithm := DefaultAlgorithm;
                         Issuer := issuer; AccountName := "" |} |}.

(** The configuration that a method builds from the provider's default one. *)
Definition config_for (p : TOTPProvider) (secret account : string) : TOTPConfig :=
  {| Secret := secret; Digits := Digits (defaultConfig p); Period := Period (defaultConfig p);
     Algorithm := Algorithm (defaultConfig p); Issuer := Issuer (defaultConfig p); AccountName := account |}.

Section Provider.
Context `{GoImpl} {R : Type} `{MFARepository R}.
Implicit Types (p : TOTPProvider) (w : world R).

Definition generate_challenge p (now : Z) (userID : string) w : result mfa_error string * world R :=
  match GetUserMFA now userID MFATypeTOTP w with
  | (Err e, w) => (Err e, w)
  | (Ok d, w) => (if bool_decide (field w d "secret" = "") then Err ErrMFANotEnabled else Ok EmptyString, w)
  end.

(** A secret that is not empty is not generated, so that nothing random is drawn. *)
Definition verify_challenge p (now : Z) (userID response : string) w : outcome (result mfa_error bool) * world R :=
  match GetUserMFA now userID MFATypeTOTP w with
  | (Err e, w) => (Returns (Err e), w)
  | (Ok d, w) =>
      if bool_decide (field w d "secret" = "") then (Returns (Err ErrMFANotEnabled), w)
      else match NewTOTP (Some (config_for p (field w d "secret") "")) (fun _ => Ok []) with
           | Err e => (Returns (Err (ErrTotp e)), w)
           | Ok totp => (match ValidateCodeWithWindow totp response (window p) now with
                         | Panics => Panics
                         | Returns b => Returns (Ok b)
                         end, w)
           end
  end.

Definition param (params : gmap string string) (k : string) : string := default "" (params !! k).

Definition setup_data p (totp : TOTPConfig) : gmap string string :=
  {["secret" := GetSecret totp; "uri" := GetURI totp; "algorithm" := Algorithm (defaultConfig p);
    "digits" := itoa (Digits (defaultConfig p)); "period" := itoa (Period (defaultConfig p))]}.

Definition setup p (read : nat -> result string (list Z)) (now : Z) (userID : string) (params : gmap string string) w
  : outcome (result mfa_error loc) * world R :=
  let '(got, w) := GetUserMFA now userID MFATypeTOTP w in
  match (match got with Err ErrUserNotFound => Ok None | _ => got end) with
  | Err e => (Returns (Err e), w)
  | Ok existing =>
      if negb (bool_decide (field w existing "secret" = "")) && negb (bool_decide (param params "reset" = "true"))
      then (Returns (Err ErrAlreadySet), w)
      else
        let account := if bool_decide (param params "account_name" = "") then userID else param params "account_name" in
        match NewTOTP (Some (config_for p "" account)) read with
        | Err e => (Returns (Err (ErrTotp e)), w)
        | Ok totp =>
            let '(d, w) := new_map (setup_data p totp) w in
            if bool_decide (param params "verify" = "true") && negb (bool_decide (param params "code" = "")) then
              match ValidateCodeWithWindow totp (param params "code") 1 now with
              | Panics => (Panics, w)
              | Returns false => (Returns (Err ErrMFAInvalid), w)
              | Returns true =>
                  match SetUserMFA now userID MFATypeTOTP d w with
                  | (Err e, w) => (Returns (Err e), w)
                  | (Ok _, w) => (Returns (Ok d), write d "setup_complete" "true" w)
                  end
              end
            else (Returns (Ok d), write d "setup_complete" "false" w)
        end
  end.

Definition totp_provider p : MFAProvider (world R) := {|
  ProviderType := MFATypeTOTP; GenerateChallenge := generate_challenge p; VerifyChallenge := verify_challenge p;
  Setup := setup p; Disable now u := DisableUserMFA now u MFATypeTOTP |}.

End Provider.

(** * The authenticator *)

Record MFAAuthenticator (W : Type) : Type := {
  baseAuthenticator : Z -> Credential -> result auth_error User;
  providers : gmap string (MFAProvider W);
  forceMFA : bool }.
Arguments baseAuthenticator {W} m.
Arguments providers {W} m.
Arguments forceMFA {W} m.

Definition NewMFAAuthenticator {W : Type} (base : Z -> Credential -> result auth_error User) (ps : list (MFAProvider W))
    (force : bool) : MFAAuthenticator W :=
  {| baseAuthenticator := base; forceMFA := force;
     providers := foldl (fun m p => <[ProviderType p := p]> m) ∅ ps |}.

Record AuthenticationResult : Type := { RUser : User; RequireMFA : bool; AvailableMFATypes : list string }.

Section Authenticator.
Context {R : Type} `{MFARepository R}.
Implicit Types (a : MFAAuthenticator (world R)) (w : world R).

Definition PreAuthenticate a (now : Z) (credential : Credential) w : result mfa_error AuthenticationResult * world R :=
  match baseAuthenticator a now credential with
  | Err e => (Err (ErrAuth e), w)
  | Ok user =>
      let '(types, w) := ListUserMFA now (ID user) w in
      match (match types with Err ErrUserNotFound => Ok [] | _ => types end) with
      | Err e => (Err e, w)
      | Ok types =>
          (Ok {| RUser := user; RequireMFA := forceMFA a || negb (bool_decide (types = [])); AvailableMFATypes := types |}, w)
      end
  end.

Definition CompleteMFA a (now : Z) (userID mfaType code : string) w : outcome (result mfa_error bool) * world R :=
  match providers a !! mfaType with
  | None => (Returns (Err ErrUnsupported), w)
  | Some provider => VerifyChallenge provider now userID code w
  end.

Definition SetupMFA a read (now : Z) (userID mfaType : string) (params : gmap string string) w
  : outcome (result mfa_error loc) * world R :=
  match providers a !! mfaType with
  | None => (Returns (Err ErrUnsupported), w)
  | Some provider => Setup provider read now userID params w
  end.

Definition DisableMFA a (now : Z) (userID mfaType : string) w : result mfa_error unit * world R :=
  match providers a !! mfaType with
  | None => (Err ErrUnsupported, w)
  | Some provider => Disable provider now userID w
  end.

Definition Authenticate a (now : Z) (credential : Credential) w : result mfa_error User * world R :=
  match PreAuthenticate a now credential w with
  | (Err e, w) => (Err e, w)
  | (Ok r, w) => (if RequireMFA r then Err ErrMFARequired else Ok (RUser r), w)
  end.

End Authenticator.

(** * Facts: one-time passwords as the second factor *)
Section Totp.
Context `{GoImpl} {R : Type} `{MFARepository R}.
Implicit Types (w : world R).

(** The configuration with which a provider checks codes against a secret. *)
Definition checked (issuer secret account : string) : TOTPConfig :=
  {| Secret := normalize_secret secret; Digits := DefaultDigits; Period := DefaultPeriod; Algorithm := DefaultAlgorithm;
     Issuer := issuer; AccountName := account |}.

Lemma NewTOTP_secret issuer win secret account read : secret <> "" ->
  NewTOTP (Some (config_for (NewTOTPProvider issuer win) secret account)) read = Ok (checked issuer secret account).
Proof. intros Hs. unfold NewTOTP. cbn [Secret config_for]. by rewrite bool_decide_eq_false_2. Qed.

Lemma NewTOTP_fresh issuer win account read :
  NewTOTP (Some (config_for (NewTOTPProvider issuer win) "" account)) read =
  match read 20%nat with Ok b => Ok (checked issuer (base32_encode b) account) | Err e => Err (ErrRandom e) end.
Proof.
  unfold NewTOTP, GenerateSecret. cbn [Secret config_for]. rewrite bool_decide_eq_true_2 by done.
  change (Z.to_nat (if 20 <=? 0 then 20 else 20)) with 20%nat. by destruct (read 20%nat).
Qed.

(** The present and the codes that a window of [win] steps reaches are after 1970
    and small enough for the arithmetic. *)
Definition sane_time (win now : Z) : Prop := 0 <= win < 2 ^ 20 /\ win * 30 <= unix now < 2 ^ 50.

Lemma sane_in_range issuer secret account win now : sane_time win now -> in_range (checked issuer secret account) win now.
Proof. intros [? ?]. unfold in_range, checked, DefaultPeriod, Second. simpl. lia. Qed.

(** The second factor is accepted exactly when the answer, without the spaces around it, is the one-time password that the user's stored secret has in a time step within the provider's window. *)
Theorem second_factor_iff a issuer win now u answer w w' d key :
  providers a !! MFATypeTOTP = Some (totp_provider (NewTOTPProvider issuer win)) ->
  sane_time (window (NewTOTPProvider issuer win)) now ->
  GetUserMFA now u MFATypeTOTP w = (Ok d, w') -> field w' d "secret" <> "" ->
  base32_decode (normalize_secret (field w' d "secret")) = Some key ->
  exists b, CompleteMFA a now u MFATypeTOTP answer w = (Returns (Ok b), w') /\
    (b = true <-> exists c, Z.abs (c - unix now / 30) <= window (NewTOTPProvider issuer win) /\
                            generateOTP (checked issuer (field w' d "secret") "") c = Returns (Ok (TrimSpace answer))).
Proof.
  intros Ha Ht Hget Hs Hk. unfold CompleteMFA. rewrite Ha. cbn [VerifyChallenge totp_provider].
  unfold verify_challenge. rewrite Hget, bool_decide_eq_false_2, NewTOTP_secret by done.
  destruct (window_spec (checked issuer (field w' d "secret") "") key answer _ now Hk ltac:(done) (sane_in_range _ _ _ _ _ Ht))
    as (b & -> & Hb). exists b. split; [done|]. rewrite Hb. change (Period _) with 30. split.
  - intros (i & Hi & Hg). exists (unix now / 30 + i). split; [lia|done].
  - intros (c & Hc & Hg). exists (c - unix now / 30). split; [lia|]. by replace (unix now / 30 + _) with c by lia.
Qed.

(** The verification stage of a set-up, when it succeeds. *)
Lemma setup_verified issuer win read now u params w w' l :
  setup (NewTOTPProvider issuer win) read now u params w = (Returns (Ok l), w') ->
  param params "verify" = "true" -> param params "code" <> "" ->
  exists bytes_ account w1, read 20%nat = Ok bytes_ /\
    let t := checked issuer (base32_encode bytes_) account in
    let '(d, w2) := new_map (setup_data (NewTOTPProvider issuer win) t) w1 in
    l = d /\ ValidateCodeWithWindow t (param params "code") 1 now = Returns true /\
    (GetUserMFA now u MFATypeTOTP w).2 = w1 /\
    (forall e, (GetUserMFA now u MFATypeTOTP w).1 = Err e -> e = ErrUserNotFound) /\
    (SetUserMFA now u MFATypeTOTP d w2).1 = Ok tt /\
    w' = write d "setup_complete" "true" (SetUserMFA now u MFATypeTOTP d w2).2.
Proof.
  intros Hs Hv Hc. unfold setup in Hs. destruct (GetUserMFA now u MFATypeTOTP w) as [got w1].
  destruct (match got with Err ErrUserNotFound => Ok None | _ => got end) as [existing|e] eqn:Eg; [|done].
  destruct (_ && _) in Hs; [done|]. rewrite NewTOTP_fresh in Hs. destruct (read 20%nat) as [b|] eqn:Er; [|done].
  set (account := if bool_decide (param params "account_name" = "") then _ else _) in Hs.
  exists b, account, w1. split; [done|]. simpl. unfold new_map in Hs. rewrite Hv in Hs.
  rewrite bool_decide_eq_true_2, bool_decide_eq_false_2 in Hs by done. simpl in Hs.
  destruct (ValidateCodeWithWindow _ _ 1 now) as [[|]|]; [|done..].
  destruct (SetUserMFA _ _ _ _ _) as [[[]|e] w2]; [|done]. injection Hs as <- <-. split_and!; try done.
  intros e ->. by destruct e.
Qed.

(** A set-up is completed only with a one-time password of the secret that the same call draws: a code computed from the secret that the first stage gave to the user does not help. *)
Theorem setup_checks_fresh_secret issuer win read now u params w w' l :
  setup (NewTOTPProvider issuer win) read now u params w = (Returns (Ok l), w') ->
  param params "verify" = "true" -> param params "code" <> "" -> sane_time 1 now ->
  (forall b, read 20%nat = Ok b -> Forall is_byte b) ->
  exists bytes_ account, read 20%nat = Ok bytes_ /\
    exists c, Z.abs (c - unix now / 30) <= 1 /\
      generateOTP (checked issuer (base32_encode bytes_) account) c = Returns (Ok (TrimSpace (param params "code"))).
Proof.
  intros Hs Hv Hc Ht Hread. destruct (setup_verified _ _ _ _ _ _ _ _ _ Hs Hv Hc) as (b & account & w1 & Hr & Hset).
  exists b, account. split; [done|]. destruct Hset as (_ & Hval & _).
  assert (Hk : base32_decode (Secret (checked issuer (base32_encode b) account)) = Some b).
  { simpl. rewrite normalize_encoded. apply base32_roundtrip. by apply Hread. }
  destruct (window_spec _ b (param params "code") 1 now Hk ltac:(done) (sane_in_range _ _ _ _ _ Ht)) as (r & Hr' & Hiff).
  rewrite Hval in Hr'. injection Hr' as <-. destruct (proj1 Hiff eq_refl) as (i & Hi & Hg). change (Period _) with 30 in Hg.
  exists (unix now / 30 + i). split; [lia|done].
Qed.

End Totp.

(** * Runs of an authenticator *)

Inductive mfa_op : Type :=
| DoAuthenticate (c : Credential) | DoPre (c : Credential) | DoComplete (u t code : string)
| DoSetup (read : nat -> result string (list Z)) (u t : string) (params : gmap string string) | DoDisable (u t : string).

Section Runs.
Context `{GoImpl} {R : Type} `{MFARepository R}.

(** One call at its time; a panic ends only the call. *)
Definition exec_mfa (a : MFAAuthenticator (world R)) (w : world R) (o : Z * mfa_op) : world R :=
  match o with
  | (now, DoAuthenticate c) => (Authenticate a now c w).2
  | (now, DoPre c) => (PreAuthenticate a now c w).2
  | (now, DoComplete u t code) => (CompleteMFA a now u t code w).2
  | (now, DoSetup read u t params) => (SetupMFA a read now u t params w).2
  | (now, DoDisable u t) => (DisableMFA a now u t w).2
  end.

(** An authenticator with one-time passwords as its only second factor. *)
Definition totp_authenticator (base : Z -> Credential -> result auth_error User) (issuer : string) (win : Z) (force : bool)
  : MFAAuthenticator (world R) := NewMFAAuthenticator base [totp_provider (NewTOTPProvider issuer win)] force.

Lemma totp_only base issuer win force t :
  providers (totp_authenticator base issuer win force) !! t =
  if decide (t = MFATypeTOTP) then Some (totp_provider (NewTOTPProvider issuer win)) else None.
Proof.
  change (providers _) with (<[MFATypeTOTP := totp_provider (NewTOTPProvider issuer win)]> (∅ : gmap string (MFAProvider (world R)))).
  case_decide as Ht; [rewrite Ht; by rewrite lookup_insert_eq|by rewrite lookup_insert_ne by congruence].
Qed.

(** What every repository call of a run must preserve is preserved by the run. *)
Lemma run_keeps (P : world R -> Prop) base issuer win force w o :
  (forall w now u t, P w -> P (GetUserMFA now u t w).2) -> (forall w now u, P w -> P (ListUserMFA now u w).2) ->
  (forall w m, P w -> P (new_map m w).2) -> (forall w l k v, P w -> P (write l k v w)) ->
  (forall w now u, P w -> (exists e, (GetUserMFA now u MFATypeTOTP w).1 = Err e /\ e <> ErrUserNotFound) \/
                          forall w' l, P w' -> P (SetUserMFA now u MFATypeTOTP l w').2) ->
  (forall now u, o = (now, DoDisable u MFATypeTOTP) -> forall w, P w -> P (DisableUserMFA now u MFATypeTOTP w).2) ->
  P w -> P (exec_mfa (totp_authenticator base issuer win force) w o).
Proof.
  intros Hget Hlist Hnew Hwrite Hset Hdis Hw. pose proof (totp_only base issuer win force) as Honly.
  set (a := totp_authenticator base issuer win force) in *.
  assert (Hpre : forall now c, P (PreAuthenticate a now c w).2).
  { intros now c. unfold PreAuthenticate. destruct (baseAuthenticator a now c) as [user|]; [|done].
    specialize (Hlist w now (ID user) Hw). destruct (ListUserMFA now (ID user) w) as [[ts|e] w1]; [done|]. by destruct e. }
  destruct o as [now [c|c|u t code|read u t params|u t]]; cbn [exec_mfa].
  - unfold Authenticate. specialize (Hpre now c). by destruct (PreAuthenticate a now c w) as [[r|e] w1].
  - apply Hpre.
  - unfold CompleteMFA. rewrite Honly. case_decide; [|done]. cbn [VerifyChallenge totp_provider]. unfold verify_challenge.
    specialize (Hget w now u MFATypeTOTP Hw). destruct (GetUserMFA now u MFATypeTOTP w) as [[d|e] w1]; [|done].
    case_bool_decide; [done|]. by destruct (NewTOTP _ _).
  - unfold SetupMFA. rewrite Honly. case_decide; [|done]. cbn [Setup totp_provider]. unfold setup.
    specialize (Hget w now u MFATypeTOTP Hw). specialize (Hset w now u Hw).
    destruct (GetUserMFA now u MFATypeTOTP w) as [got w1]. cbn [fst snd] in *.
    destruct (match got with Err ErrUserNotFound => Ok None | _ => got end) as [ex|e] eqn:Eg; [|done].
    assert (Hset' : forall w' l, P w' -> P (SetUserMFA now u MFATypeTOTP l w').2).
    { destruct Hset as [(e & -> & Hne)|Hset]; [|done]. by destruct e. }
    destruct (_ && _); [done|]. destruct (NewTOTP _ _) as [totp|]; [|done].
    specialize (Hnew w1 (setup_data (NewTOTPProvider issuer win) totp) Hget). unfold new_map in *. cbn [fst snd] in Hnew.
    destruct (_ && _); [|by apply Hwrite]. destruct (ValidateCodeWithWindow _ _ _ _) as [[|]|]; [|done..].
    specialize (Hset' _ (length (heap w1)) Hnew). destruct (SetUserMFA _ _ _ _ _) as [[|] w2]; [by apply Hwrite|done].
  - unfold DisableMFA. rewrite Honly. case_decide as Ht; [|done]. subst t. cbn [Disable totp_provider]. by apply (Hdis now u).
Qed.

End Runs.

(** * Facts: in memory *)
Section InMemoryFacts.
Context `{GoImpl} `{MapOrder}.
Implicit Type w : world InMemoryMFARepository.

Definition enabled (u : string) w : Prop := exists userMFA l, data (repo w) !! u = Some userMFA /\ userMFA !! MFATypeTOTP = Some l.

Lemma set_enables u l w : enabled u (with_repo (set_memory u MFATypeTOTP l (repo w)) w).
Proof. unfold enabled, set_memory. simpl. rewrite lookup_insert_eq. do 2 eexists. split; [done|]. apply lookup_insert_eq. Qed.

Lemma set_keeps_enabled u u' l w : enabled u w -> enabled u (with_repo (set_memory u' MFATypeTOTP l (repo w)) w).
Proof.
  destruct (decide (u = u')) as [<-|Hne]; [intros _; apply set_enables|]. unfold enabled, set_memory. simpl.
  by rewrite lookup_insert_ne.
Qed.

Lemma disable_keeps_enabled u u' w : u <> u' -> enabled u w -> enabled u (with_repo (disable_memory u' MFATypeTOTP (repo w)) w).
Proof.
  unfold enabled, disable_memory. intros Hne He. simpl. destruct (data (repo w) !! u'); [|done]. simpl. by rewrite lookup_insert_ne.
Qed.

Lemma run_enabled base issuer win force u os : forall w, enabled u w ->
  Forall (fun o => o.2 <> DoDisable u MFATypeTOTP) os ->
  enabled u (foldl (exec_mfa (totp_authenticator base issuer win force)) w os).
Proof.
  induction os as [|o os IH]; intros w He Hos; [done|]. apply Forall_cons in Hos as [Ho Hos]. apply IH; [|done].
  apply run_keeps; try done.
  - intros w' now u'' Hw. right. intros. by apply set_keeps_enabled.
  - intros now u' -> w' Hw. apply disable_keeps_enabled; [|done]. intros <-. by apply Ho.
Qed.

(** Who has a second factor is not let in without it. *)
Lemma enabled_required base issuer win force now c user w : enabled (ID user) w -> base now c = Ok user ->
  (Authenticate (totp_authenticator base issuer win force) now c w).1 = Err ErrMFARequired.
Proof.
  intros (m & l & Hm & Hl) Hb. unfold Authenticate, PreAuthenticate. cbn [baseAuthenticator totp_authenticator NewMFAAuthenticator].
  rewrite Hb. cbn [ListUserMFA in_memory_mfa]. unfold list_memory. rewrite Hm. simpl.
  rewrite bool_decide_eq_false_2; [by rewrite orb_true_r|]. intros E%fmap_nil_inv.
  pose proof (range_all m) as Hp. rewrite E in Hp. apply Permutation_nil_l, eq_sym, map_to_list_empty_iff in Hp. by subst.
Qed.

(** In memory, from the completion of a user's set-up on and until the user's second factor is disabled, whatever calls come between, the user's credentials alone do not authenticate. *)
Theorem second_factor_required base issuer win force read now u params w w1 l os later c user :
  SetupMFA (totp_authenticator base issuer win force) read now u MFATypeTOTP params w = (Returns (Ok l), w1) ->
  param params "verify" = "true" -> param params "code" <> "" ->
  Forall (fun o => o.2 <> DoDisable u MFATypeTOTP) os -> base later c = Ok user -> ID user = u ->
  (Authenticate (totp_authenticator base issuer win force) later c
     (foldl (exec_mfa (totp_authenticator base issuer win force)) w1 os)).1 = Err ErrMFARequired.
Proof.
  intros Hs Hv Hcode Hos Hb Hu. eapply enabled_required; [|done]. rewrite Hu. apply run_enabled; [|done].
  unfold SetupMFA in Hs. rewrite totp_only, decide_True in Hs by done.
  destruct (setup_verified _ _ _ _ _ _ _ _ _ Hs Hv Hcode) as (b & account & w0 & _ & _ & _ & _ & _ & _ & ->).
  exact (set_enables u (length (heap w0)) (new_map _ w0).2).
Qed.

(** Disabling is final: the user's entry stays, without the second factor, and the
    answer to that is an error which [Setup] does not expect. *)
Lemma disabled_forever base issuer win force read now now' u params w : is_Some (data (repo w) !! u) ->
  let a := totp_authenticator base issuer win force in
  (SetupMFA a read now' u MFATypeTOTP params (DisableMFA a now u MFATypeTOTP w).2).1 = Returns (Err ErrMFANotEnabled).
Proof.
  intros [m Hm] a. unfold a, SetupMFA, DisableMFA. rewrite !totp_only, !decide_True by done. cbn [Setup Disable totp_provider].
  unfold setup. cbn [GetUserMFA DisableUserMFA in_memory_mfa snd]. unfold get_memory, disable_memory. rewrite Hm. simpl.
  by rewrite lookup_insert_eq, lookup_delete_eq.
Qed.

End InMemoryFacts.

(** * Facts: in Redis *)
Section RedisFacts.
Context `{GoImpl} `{MapOrder} {C : Type} `{ClientLaws C}.
Implicit Type w : world (RedisMFARepository C).

(** Nobody has a second factor in the server's keys with the prefix [p]. *)
Definition none_enabled (p : string) w : Prop :=
  mkeyPrefix (repo w) = p /\ forall u, contents (mclient (repo w)) !! (p ++ "user:" ++ u ++ ":" ++ MFATypeTOTP)%string = None.

Lemma rcall_keeps {A} (f : C -> result string A * C) p w :
  (forall u, contents (f (mclient (repo w))).2 !! (p ++ "user:" ++ u ++ ":" ++ MFATypeTOTP)%string = None) ->
  mkeyPrefix (repo w) = p -> none_enabled p (rcall f w).2.
Proof. unfold rcall. intros Hf Hp. destruct (f _) as [r c]. by split. Qed.

Lemma get_redis_keeps p now u t w : none_enabled p w -> none_enabled p (get_redis now u t w).2.
Proof.
  intros [Hp Hn]. unfold get_redis.
  pose proof (rcall_keeps (HGetAll now (mfa_key (repo w) u t)) p w) as Hk. rewrite HGetAll_contents in Hk. specialize (Hk Hn Hp).
  destruct (rcall _ w) as [[d|e] w']; [|done]. by case_bool_decide.
Qed.

(** The error for a user without a second factor. *)
Lemma get_redis_none p now u w : none_enabled p w ->
  exists e, (get_redis now u MFATypeTOTP w).1 = Err e /\ e <> ErrUserNotFound.
Proof.
  intros [Hp Hn]. unfold get_redis, rcall.
  destruct (hgetall_law now (mfa_key (repo w) u MFATypeTOTP) (mclient (repo w))) as [[E _]|(e & E & _)];
    destruct (HGetAll _ _ _) as [r c]; simpl in E; subst r; simpl; [|by eexists].
  unfold find, mfa_key. rewrite Hp, Hn, bool_decide_eq_true_2 by done. by eexists.
Qed.

Lemma list_redis_keeps p now u w : none_enabled p w -> none_enabled p (list_redis now u w).2.
Proof.
  intros [Hp Hn]. unfold list_redis.
  pose proof (rcall_keeps (HGetAll now (types_key (repo w) u)) p w) as Hk. rewrite HGetAll_contents in Hk. specialize (Hk Hn Hp).
  by destruct (rcall _ w) as [[d|e] w'].
Qed.

Lemma prefixed_inj (p a b : string) : (p ++ a)%string = (p ++ b)%string -> a = b.
Proof. induction p as [|c p IH]; simpl; [done|]. intros [= ?]. by apply IH. Qed.

Lemma disable_redis_keeps p now u w : none_enabled p w -> none_enabled p (disable_redis now u MFATypeTOTP w).2.
Proof.
  intros [Hp Hn]. unfold disable_redis.
  pose proof (rcall_keeps (Del now [mfa_key (repo w) u MFATypeTOTP]) p w) as Hk.
  assert (H1' : none_enabled p (rcall (Del now [mfa_key (repo w) u MFATypeTOTP]) w).2).
  { apply Hk; [|done]. intros u'. by apply Del_stays. }
  destruct (rcall _ w) as [[d|e] w']; [|done]. cbn [snd] in H1'. destruct H1' as [Hp' Hn'].
  apply rcall_keeps; [|done]. intros u'. rewrite HDel_frame; [done|]. unfold types_key. rewrite Hp'. by intros E%prefixed_inj.
Qed.

(** With the Redis repository, whatever its connection does, no user's set-up ever succeeds: a user without a second factor is answered with an error that [Setup] does not expect, and nothing else enables one. *)
Theorem redis_never_enables base issuer win force os p read now u params w :
  none_enabled p w ->
  let a := totp_authenticator base issuer win force in
  none_enabled p (foldl (exec_mfa a) w os) /\
  exists e, (SetupMFA a read now u MFATypeTOTP params (foldl (exec_mfa a) w os)).1 = Returns (Err e).
Proof.
  intros Hw a. assert (Hrun : none_enabled p (foldl (exec_mfa a) w os)).
  { revert w Hw. induction os as [|o os IH]; intros w Hw; [done|]. apply IH. apply run_keeps; try done.
    - intros. by apply get_redis_keeps.
    - intros. by apply list_redis_keeps.
    - intros w' now' u' Hw'. left. by eapply get_redis_none.
    - intros now' u' _ w' Hw'. by apply disable_redis_keeps. }
  split; [done|]. unfold a, SetupMFA. rewrite totp_only, decide_True by done. cbn [Setup totp_provider]. unfold setup.
  destruct (get_redis_none p now u _ Hrun) as (e & He & Hne). cbn [GetUserMFA redis_mfa].
  destruct (get_redis now u MFATypeTOTP _) as [got w']. simpl in He. subst got. exists e. by destruct e.
Qed.
End RedisFacts.

(** * Facts: what the Redis repository keeps, over a reliable connection *)
Section RedisReliable.
Context `{GoImpl} `{MapOrder} {C : Type} `{ClientReliable C}.
Implicit Type w : world (RedisMFARepository C).

(** The entry of a hash that may be empty. *)
Definition hash_entry (h : gmap string string) : option entry :=
  if bool_decide (h = ∅) then None else Some {| value := RHash h; deadline := None |}.

Definition set_pairs (l : list (string * string)) (h : gmap string string) : gmap string string :=
  foldl (fun h fv => <[fv.1 := fv.2]> h) h l.

Lemma set_pairs_lookup l : forall h k, NoDup l.*1 ->
  set_pairs l h !! k = match (list_to_map l : gmap string string) !! k with Some v => Some v | None => h !! k end.
Proof.
  induction l as [|[f v] l IH]; intros h k Hl; [done|]. rewrite fmap_cons in Hl. apply NoDup_cons in Hl as [Hf Hl].
  change (set_pairs ((f, v) :: l) h) with (set_pairs l (<[f := v]> h)). rewrite IH by done. simpl.
  destruct (decide (k = f)) as [->|Hne]; [|by rewrite !lookup_insert_ne].
  rewrite !lookup_insert_eq. by rewrite (not_elem_of_list_to_map_1 l f).
Qed.

Lemma set_pairs_range d : set_pairs (range d) ∅ = d.
Proof.
  assert (Hnd : NoDup (range d).*1) by (rewrite (range_all d); apply NoDup_fst_map_to_list).
  apply map_eq. intros k. rewrite set_pairs_lookup by done.
  rewrite (list_to_map_proper _ _ Hnd (range_all d)), list_to_map_to_list. by destruct (d !! k).
Qed.

Lemma rcall_exact {A} (f : C -> result string A * C) spec w : exactly contents spec (f (mclient (repo w))) ->
  exists w', rcall f w = (match spec.1 with Ok a => Ok a | Err e => Err (ErrRedis e) end, w') /\
    contents (mclient (repo w')) = spec.2 /\ mkeyPrefix (repo w') = mkeyPrefix (repo w) /\
    mexpiration (repo w') = mexpiration (repo w) /\ heap w' = heap w.
Proof. unfold rcall. destruct (f _) as [r c]. intros [<- <-]. eexists. split; [reflexivity|]. done. Qed.

Lemma set_fields_exact now k l : forall w h, contents (mclient (repo w)) !! k = hash_entry h ->
  exists w', set_fields now k l w = (Ok tt, w') /\ contents (mclient (repo w')) !! k = hash_entry (set_pairs l h) /\
    (forall k', k' <> k -> contents (mclient (repo w')) !! k' = contents (mclient (repo w)) !! k') /\
    mkeyPrefix (repo w') = mkeyPrefix (repo w) /\ mexpiration (repo w') = mexpiration (repo w) /\ heap w' = heap w.
Proof.
  induction l as [|[f v] l IH]; intros w h Hk; [by exists w|]. cbn [set_fields].
  destruct (rcall_exact (HSet now k f v) _ w (hset_exact now k f v _)) as (w1 & -> & Hc & Hp & He & Hh).
  assert (Hset : doc_hset now k f v (contents (mclient (repo w))) =
                 (Ok tt, <[k := {| value := RHash (<[f := v]> h); deadline := None |}]> (contents (mclient (repo w))))).
  { unfold doc_hset, find. rewrite Hk. unfold hash_entry. case_bool_decide as Hemp; simpl; [by subst|done]. }
  rewrite Hset in *. cbn [fst snd] in *.
  destruct (IH w1 (<[f := v]> h)) as (w' & -> & Hk' & Hrest & Hp' & He' & Hh').
  { rewrite Hc, lookup_insert_eq. unfold hash_entry. by rewrite bool_decide_eq_false_2 by apply insert_non_empty. }
  exists w'. split; [done|]. split; [done|]. split; [|by rewrite Hp', He', Hh'].
  intros k' Hne. rewrite Hrest, Hc by done. by apply lookup_insert_ne.
Qed.

(** An expiration that has been set on a key that is there. *)
Lemma expire_found now k d (m : keyspace) e : m !! k = Some e -> deadline e = None -> 0 < seconds d ->
  (doc_expire now k d m).2 !! k = Some {| value := value e; deadline := Some (now + seconds d) |}.
Proof.
  intros Hk Hd Hs. simpl. unfold find. rewrite Hk. unfold alive. rewrite Hd.
  rewrite (proj2 (Z.leb_gt _ _) Hs). by rewrite lookup_insert_eq.
Qed.

Lemma seconds_pos d : 0 < d -> 0 < seconds d.
Proof.
  intros Hd. unfold seconds. destruct (_ && _) eqn:E; [done|]. bool_to_prop. unfold Second in *.
  destruct E as [E|E]; bool_to_prop; [lia|]. pose proof (Z.quot_str_pos d 1000000000 ltac:(lia)). lia.
Qed.

(** Setting a second factor for a user that has none. *)
Lemma set_redis_exact now u l d w : heap w !! l = Some d -> d <> ∅ -> 0 < mexpiration (repo w) ->
  contents (mclient (repo w)) !! mfa_key (repo w) u MFATypeTOTP = None ->
  contents (mclient (repo w)) !! types_key (repo w) u = None ->
  exists w', set_redis now u MFATypeTOTP l w = (Ok tt, w') /\ mkeyPrefix (repo w') = mkeyPrefix (repo w) /\ heap w' = heap w /\
    contents (mclient (repo w')) !! mfa_key (repo w) u MFATypeTOTP =
      Some {| value := RHash d; deadline := Some (now + seconds (mexpiration (repo w))) |} /\
    contents (mclient (repo w')) !! types_key (repo w) u =
      Some {| value := RHash {[MFATypeTOTP := "1"]}; deadline := Some (now + seconds (mexpiration (repo w))) |}.
Proof.
  intros Hl Hd Hexp Hk Ht. unfold set_redis. rewrite Hl. simpl default.
  set (k := mfa_key (repo w) u MFATypeTOTP) in *. set (tk := types_key (repo w) u) in *.
  assert (Hne : k <> tk) by (unfold k, tk, mfa_key, types_key; intros E%prefixed_inj; discriminate E).
  assert (Hk0 : contents (mclient (repo w)) !! k = hash_entry ∅) by (rewrite Hk; unfold hash_entry; by rewrite bool_decide_eq_true_2).
  destruct (set_fields_exact now k (range d) w ∅ Hk0) as (w1 & -> & Hk1 & Hr1 & Hp1 & He1 & Hh1).
  rewrite set_pairs_range in Hk1. unfold hash_entry in Hk1. rewrite bool_decide_eq_false_2 in Hk1 by done.
  destruct (rcall_exact (Expire now k (mexpiration (repo w1))) _ w1 (expire_exact now k _ _)) as (w2 & -> & Hc2 & Hp2 & He2 & Hh2).
  cbn [doc_expire fst]. assert (Htk : types_key (repo w2) u = tk) by (unfold tk, types_key; by rewrite Hp2, Hp1). rewrite Htk.
  destruct (rcall_exact (HSet now tk MFATypeTOTP "1") _ w2 (hset_exact now tk _ _ _)) as (w3 & -> & Hc3 & Hp3 & He3 & Hh3).
  assert (Hmiss : contents (mclient (repo w2)) !! tk = None).
  { rewrite Hc2, doc_expire_ne by done. by rewrite Hr1. }
  assert (Hset : doc_hset now tk MFATypeTOTP "1" (contents (mclient (repo w2))) =
    (Ok tt, <[tk := {| value := RHash {[MFATypeTOTP := "1"]}; deadline := None |}]> (contents (mclient (repo w2))))).
  { unfold doc_hset. by rewrite find_None. }
  rewrite Hset in *. cbn [fst snd] in *.
  destruct (rcall_exact (Expire now tk (mexpiration (repo w3))) _ w3 (expire_exact now tk _ _)) as (w4 & -> & Hc4 & Hp4 & He4 & Hh4).
  exists w4. split; [done|]. split; [congruence|]. split; [congruence|]. rewrite Hc4, He3, He2, He1. split.
  - rewrite doc_expire_ne by done. rewrite Hc3, lookup_insert_ne by done. rewrite Hc2, He1.
    by rewrite (expire_found _ _ _ _ _ Hk1 eq_refl (seconds_pos _ Hexp)).
  - erewrite expire_found; [|rewrite Hc3; apply lookup_insert_eq|done|by apply seconds_pos]. done.
Qed.

(** What a hash with a deadline answers. *)
Lemma hgetall_until now k (m : keyspace) h T : m !! k = Some {| value := RHash h; deadline := Some T |} ->
  (doc_hgetall now k m).1 = Ok (if decide (now < T) then h else ∅).
Proof.
  intros Hk. unfold doc_hgetall, find. rewrite Hk. unfold alive. simpl. destruct (Z.ltb_spec now T); case_decide; done || lia.
Qed.

Lemma get_redis_exact now u w h T : contents (mclient (repo w)) !! mfa_key (repo w) u MFATypeTOTP = Some {| value := RHash h; deadline := Some T |} ->
  exists w', get_redis now u MFATypeTOTP w =
    (if bool_decide ((if decide (now < T) then h else ∅) = ∅) then (Err ErrMFANotEnabled, w')
     else (Ok (Some (length (heap w))), {| heap := heap w ++ [if decide (now < T) then h else ∅]; repo := repo w' |})).
Proof.
  intros Hk. unfold get_redis.
  destruct (rcall_exact (HGetAll now (mfa_key (repo w) u MFATypeTOTP)) _ w (hgetall_exact now _ _)) as (w1 & -> & _ & _ & _ & Hh).
  rewrite (hgetall_until _ _ _ _ _ Hk). exists w1. unfold new_map. by rewrite Hh.
Qed.

Lemma authenticate_redis base issuer win t c user w T : base t c = Ok user ->
  contents (mclient (repo w)) !! types_key (repo w) (ID user) = Some {| value := RHash {[MFATypeTOTP := "1"]}; deadline := Some T |} ->
  (Authenticate (totp_authenticator base issuer win false) t c w).1 = if decide (t < T) then Err ErrMFARequired else Ok user.
Proof.
  intros Hb Hk. unfold Authenticate, PreAuthenticate. cbn [baseAuthenticator totp_authenticator NewMFAAuthenticator].
  rewrite Hb. cbn [ListUserMFA redis_mfa]. unfold list_redis.
  destruct (rcall_exact (HGetAll t (types_key (repo w) (ID user))) _ w (hgetall_exact t _ _)) as (w1 & -> & _).
  rewrite (hgetall_until _ _ _ _ _ Hk). case_decide; cbn [fst RequireMFA RUser forceMFA totp_authenticator NewMFAAuthenticator orb].
  - rewrite bool_decide_eq_false_2; [done|]. intros E%fmap_nil_inv.
    pose proof (range_all ({[MFATypeTOTP := "1"]} : gmap string string)) as Hp. rewrite E in Hp.
    apply Permutation_nil_l, eq_sym, map_to_list_empty_iff in Hp. discriminate Hp.
  - rewrite bool_decide_eq_true_2; [done|]. pose proof (range_all (∅ : gmap string string)) as Hp.
    rewrite map_to_list_empty in Hp. apply Permutation_nil_r in Hp. by rewrite Hp.
Qed.

(** Over a reliable connection the settings stored in Redis for a user that has none are read back as they were stored, up to the repository's expiration, and only until then is the second factor required: afterwards the credentials alone authenticate again. *)
Theorem redis_settings_kept now t u l d base issuer win c user w : heap w !! l = Some d -> d <> ∅ -> 0 < mexpiration (repo w) ->
  contents (mclient (repo w)) !! mfa_key (repo w) u MFATypeTOTP = None ->
  contents (mclient (repo w)) !! types_key (repo w) u = None -> base t c = Ok user -> ID user = u ->
  exists w', SetUserMFA now u MFATypeTOTP l w = (Ok tt, w') /\
    (if decide (t < now + seconds (mexpiration (repo w)))
     then (exists l' w'', GetUserMFA t u MFATypeTOTP w' = (Ok (Some l'), w'') /\ heap w'' !! l' = Some d) /\
          (Authenticate (totp_authenticator base issuer win false) t c w').1 = Err ErrMFARequired
     else (GetUserMFA t u MFATypeTOTP w').1 = Err ErrMFANotEnabled /\
          (Authenticate (totp_authenticator base issuer win false) t c w').1 = Ok user).
Proof.
  intros Hl Hd Hexp Hk Ht Hb Hu. destruct (set_redis_exact now u l d w Hl Hd Hexp Hk Ht) as (w' & Hset & Hp & _ & Hk' & Ht').
  assert (Hkey : mfa_key (repo w') u MFATypeTOTP = mfa_key (repo w) u MFATypeTOTP) by (unfold mfa_key; by rewrite Hp).
  assert (Htkey : types_key (repo w') u = types_key (repo w) u) by (unfold types_key; by rewrite Hp).
  rewrite <- Hkey in Hk'. rewrite <- Htkey, <- Hu in Ht'. exists w'. split; [done|].
  destruct (get_redis_exact t u w' _ _ Hk') as (w'' & Hget). cbn [GetUserMFA redis_mfa]. rewrite Hget.
  rewrite (authenticate_redis base issuer win t c user w' _ Hb Ht'). case_decide; [|by rewrite bool_decide_eq_true_2].
  rewrite bool_decide_eq_false_2 by done. split; [|done]. do 2 eexists. split; [reflexivity|]. simpl.
  by apply list_lookup_middle.
Qed.
End RedisReliable.

(** * Witnesses *)

#[refine] Definition listed : MapOrder := {| range A m := map_to_list m |}.
Proof. done. Defined.

#[local] Existing Instance listed.
#[local] Existing Instance amd64.

Definition noon : Z := 1700000000 * Second.

Definition sevens (n : nat) : result string (list Z) := Ok (replicate n 7).
Definition eights (n : nat) : result string (list Z) := Ok (replicate n 8).

(** The code that an authenticator app shows for a secret. *)
Definition shown (bytes_ : list Z) (account : string) : string :=
  match GenerateCodeAt (checked "app" (base32_encode bytes_) account) noon with Returns (Ok c) => c | _ => "" end.

Definition verify_params (code : string) : gmap string string := {["verify" := "true"; "code" := code]}.

Definition empty_world : world InMemoryMFARepository := {| heap := []; repo := NewInMemoryMFARepository |}.

Definition carol : User := {| ID := "u"; Username := "carol"; Roles := []; Permissions := []; Metadata := ∅ |}.
Definition carols (now : Z) (c : Credential) : result auth_error User := Ok carol.
Definition nobody : Credential := {| CUsername := ""; Password := ""; Extra := ∅ |}.

Abbreviation the_authenticator := (totp_authenticator carols "app" 1 false).

(** A set-up whose code was, by luck, that of the secret drawn afterwards. *)
Definition completed : outcome (result mfa_error nat) * world InMemoryMFARepository :=
  SetupMFA the_authenticator sevens noon "u" MFATypeTOTP (verify_params (shown (replicate 20 7) "u")) empty_world.

(** Who follows the two stages is refused: the second one draws another secret. *)
Example two_stages_fail :
  let first := SetupMFA the_authenticator sevens noon "u" MFATypeTOTP ∅ empty_world in
  field first.2 (Some 0%nat) "secret" = base32_encode (replicate 20 7) /\
  (SetupMFA the_authenticator eights noon "u" MFATypeTOTP (verify_params (shown (replicate 20 7) "u")) first.2).1 =
    Returns (Err ErrMFAInvalid).
Proof. split; vm_compute; reflexivity. Qed.

Lemma second_factor_iff_witness :
  exists b, CompleteMFA the_authenticator noon "u" MFATypeTOTP "123456" completed.2 = (Returns (Ok b), completed.2) /\
    (b = true <-> exists c, Z.abs (c - unix noon / 30) <= 1 /\
       generateOTP (checked "app" (field completed.2 (Some 0%nat) "secret") "") c = Returns (Ok (TrimSpace "123456"))).
Proof.
  apply (second_factor_iff the_authenticator "app" 1 noon "u" "123456" completed.2 completed.2 (Some 0%nat) (replicate 20 7)).
  - reflexivity.
  - split; [simpl; lia|vm_compute; split; [discriminate|reflexivity]].
  - vm_compute. reflexivity.
  - vm_compute. discriminate.
  - vm_compute. reflexivity.
Defined.

Lemma setup_checks_fresh_secret_witness :
  exists bytes_ account, sevens 20 = Ok bytes_ /\ exists c, Z.abs (c - unix noon / 30) <= 1 /\
    generateOTP (checked "app" (base32_encode bytes_) account) c =
      Returns (Ok (TrimSpace (param (verify_params (shown (replicate 20 7) "u")) "code"))).
Proof.
  apply (setup_checks_fresh_secret "app" 1 sevens noon "u" (verify_params (shown (replicate 20 7) "u")) empty_world completed.2 0%nat).
  - vm_compute. reflexivity.
  - vm_compute. reflexivity.
  - vm_compute. discriminate.
  - split; [lia|vm_compute; split; [discriminate|reflexivity]].
  - intros b [= <-]. repeat constructor; discriminate.
Defined.

Definition some_calls : list (Z * mfa_op) := [(noon, DoAuthenticate nobody); (noon, DoDisable "v" MFATypeTOTP)].

Lemma second_factor_required_witness :
  (Authenticate the_authenticator noon nobody (foldl (exec_mfa the_authenticator) completed.2 some_calls)).1 = Err ErrMFARequired.
Proof.
  apply (second_factor_required carols "app" 1 false sevens noon "u" (verify_params (shown (replicate 20 7) "u")) empty_world
           completed.2 0%nat some_calls noon nobody carol).
  - vm_compute. reflexivity.
  - vm_compute. reflexivity.
  - vm_compute. discriminate.
  - repeat constructor; intros E; discriminate E.
  - reflexivity.
  - reflexivity.
Defined.

Definition redis_world : world (RedisMFARepository Flaky) :=
  {| heap := []; repo := {| mclient := {| schedule := [None; Some false]; server := ∅ |}; mkeyPrefix := "mfa:"; mexpiration := Hour |} |}.

Definition redis_calls : list (Z * mfa_op) := [(noon, DoSetup sevens "u" MFATypeTOTP ∅); (noon, DoDisable "u" MFATypeTOTP)].

Lemma redis_never_enables_witness :
  none_enabled "mfa:" (foldl (exec_mfa the_authenticator) redis_world redis_calls) /\
  exists e, (SetupMFA the_authenticator sevens noon "u" MFATypeTOTP (verify_params (shown (replicate 20 7) "u"))
               (foldl (exec_mfa the_authenticator) redis_world redis_calls)).1 = Returns (Err e).
Proof.
  apply (redis_never_enables carols "app" 1 false redis_calls "mfa:" sevens noon "u" (verify_params (shown (replicate 20 7) "u")) redis_world).
  split; [reflexivity|]. intros u. reflexivity.
Defined.

Definition settings : gmap string string := {["secret" := "JBSWY3DP"]}.

Definition reliable_world : world (RedisMFARepository keyspace) :=
  {| heap := [settings]; repo := {| mclient := ∅; mkeyPrefix := "mfa:"; mexpiration := Hour |} |}.

Lemma redis_settings_kept_witness :
  exists w', SetUserMFA 0 "u" MFATypeTOTP 0%nat reliable_world = (Ok tt, w') /\
    (if decide (Hour < 0 + seconds Hour)
     then (exists l' w'', GetUserMFA Hour "u" MFATypeTOTP w' = (Ok (Some l'), w'') /\ heap w'' !! l' = Some settings) /\
          (Authenticate the_authenticator Hour nobody w').1 = Err ErrMFARequired
     else (GetUserMFA Hour "u" MFATypeTOTP w').1 = Err ErrMFANotEnabled /\
          (Authenticate the_authenticator Hour nobody w').1 = Ok carol).
Proof.
  apply (redis_settings_kept 0 Hour "u" 0%nat settings carols "app" 1 nobody carol reliable_world);
    [reflexivity|vm_compute; discriminate|vm_compute; reflexivity|vm_compute; reflexivity|vm_compute; reflexivity|reflexivity|reflexivity].
Defined.
