(* ===== verification/Cluster.v ===== *)
(** Calls to all the instances of a service: the three interceptors of
    [src/cluster/], over the registry of [src/registry/types.go].

    Each instance is called by a goroutine of its own. A run is a sequence of
    events: steps of the goroutines, of the caller that receives the answers, and
    of the context. *)
From S2P Require Import Prelude.

(** * The registry *)

Record ServiceInstance : Type := { Name : string; Address : string; Weight : Z; Group : string }.

Class Registry (R : Type) : Type := {
  Register : ServiceInstance -> R -> result string unit * R;
  UnRegister : ServiceInstance -> R -> result string unit * R;
  ListServices : string -> R -> result string (list ServiceInstance) * R;
  CloseRegistry : R -> result string unit * R }.

(** What the code calls: dialling an address, whose connection is then closed by a
    deferred call, and the invoker over the connection. Both see whether the
    context is cancelled. The invoker may fill in the reply. *)
Class Network (Reply : Type) : Type := {
  dial : bool -> string -> option string;
  invoke : bool -> string -> option Reply * option string }.

(** * [cluster/broadcast]: one reply for all, the first error *)
Module Broadcast.

Record ClusterBuilder (R : Type) : Type := { registry : R; service : string }.
Arguments registry {R} c.
Arguments service {R} c.

Definition NewClusterBuilder {R : Type} (r : R) (s : string) : ClusterBuilder R := {| registry := r; service := s |}.

Inductive pc : Type := Dialing | Invoking | Finished (err : option string).

(** The goroutines, the group's context, its first error and the shared reply. *)
Record group (Reply : Type) : Type := {
  procs : list (string * pc); cancelled : bool; first : option string; reply : option Reply }.
Arguments procs {Reply} g.
Arguments cancelled {Reply} g.
Arguments first {Reply} g.
Arguments reply {Reply} g.

Inductive event : Type := Dial (i : nat) | Invoke (i : nat) | Cancel.

Section Broadcast.
Context {Reply : Type} `{Network Reply}.
Implicit Type g : group Reply.

(** [errgroup.WithContext] and one [errGroup.Go] for each instance. *)
Definition spawn (cancelled : bool) (reply : option Reply) (instances : list ServiceInstance) : group Reply :=
  {| procs := (fun ins => (Address ins, Dialing)) <$> instances; cancelled := cancelled; first := None; reply := reply |}.

(** A function given to the group returns: its first error is kept and cancels the
    group's context. *)
Definition finish (i : nat) (addr : string) (err : option string) g : group Reply :=
  {| procs := <[i := (addr, Finished err)]> (procs g);
     cancelled := cancelled g || match err with Some _ => true | None => false end;
     first := match first g with Some e => Some e | None => err end; reply := reply g |}.

Definition step (e : event) g : option (group Reply) :=
  match e with
  | Cancel => Some {| procs := procs g; cancelled := true; first := first g; reply := reply g |}
  | Dial i =>
      p ← procs g !! i;
      match p with
      | (addr, Dialing) =>
          match dial (cancelled g) addr with
          | Some err => Some (finish i addr (Some err) g)
          | None => Some {| procs := <[i := (addr, Invoking)]> (procs g); cancelled := cancelled g; first := first g; reply := reply g |}
          end
      | _ => None
      end
  | Invoke i =>
      p ← procs g !! i;
      match p with
      | (addr, Invoking) =>
          let '(r, err) := invoke (cancelled g) addr in
          Some (finish i addr err {| procs := procs g; cancelled := cancelled g; first := first g;
                                     reply := match r with Some x => Some x | None => reply g end |})
      | _ => None
      end
  end.

Fixpoint run (es : list event) g : option (group Reply) :=
  match es with [] => Some g | e :: es => g' ← step e g; run es g' end.

(** [errGroup.Wait]: the first error, once all have returned. *)
Definition finished (p : string * pc) : bool := match p.2 with Finished _ => true | _ => false end.
Definition wait g : option (result string unit) :=
  if forallb finished (procs g) then Some (match first g with Some e => Err e | None => Ok tt end) else None.

(** The interceptor: [plain] is the call without a broadcast, and [es] what happens
    until the group has finished. [None]: the call has not returned. *)
Definition BuildUnaryInterceptor {R : Type} `{Registry R} (b : ClusterBuilder R) (broadcast cancelled : bool)
    (plain : result string unit * option Reply) (reply : option Reply) (es : list event)
  : option (result string unit * option Reply) * R :=
  if negb broadcast then (Some plain, registry b)
  else match ListServices (service b) (registry b) with
       | (Err e, r) => (Some (Err e, reply), r)
       | (Ok instances, r) =>
           (g ← run es (spawn cancelled reply instances); res ← wait g; Some (res, Broadcast.reply g), r)
       end.

End Broadcast.
End Broadcast.

(** * [cluster/broadcastall] and [cluster/fastest]: a channel of answers

    The two differ in the last select of a goroutine: it waits for a receiver or
    for the end of the context, or it does not wait at all. *)
Module Responses.

Inductive kind : Type := All | Fastest.

Record Response (Reply : Type) : Type := { Error : option string; RReply : option Reply }.
Arguments Error {Reply} r.
Arguments RReply {Reply} r.

(** [Refused]: at the send of the dial's error, outside any select; [Sending]: at
    the select after the call. *)
Inductive pc (Reply : Type) : Type :=
| Dialing | Refused (err : string) | Invoking | Sending (r : Response Reply) | Finished.
Arguments Dialing {Reply}.
Arguments Refused {Reply} err.
Arguments Invoking {Reply}.
Arguments Sending {Reply} r.
Arguments Finished {Reply}.

(** The receiver of the channel is elsewhere, waiting in a receive, or gone. *)
Inductive receiver : Type := Busy | Ready | Gone.

(** [returned]: the wait group is done, the deferred close has run. *)
Record call (Reply : Type) : Type := {
  procs : list (string * pc Reply); cancelled : bool; recv : receiver;
  received : list (nat * Response Reply); returned : bool }.
Arguments procs {Reply} c.
Arguments cancelled {Reply} c.
Arguments recv {Reply} c.
Arguments received {Reply} c.
Arguments returned {Reply} c.

Inductive event : Type :=
| Dial (i : nat) | Invoke (i : nat) | Send (i : nat) | GiveUp (i : nat) | Cancel | Listen | Leave | Return.

Section Responses.
Context {Reply : Type} `{Network Reply}.
Implicit Type c : call Reply.

Definition spawn (cancelled : bool) (recv : receiver) (instances : list ServiceInstance) : call Reply :=
  {| procs := (fun ins => (Address ins, Dialing)) <$> instances; cancelled := cancelled; recv := recv;
     received := []; returned := false |}.

Definition set_proc (i : nat) (addr : string) (p : pc Reply) c : call Reply :=
  {| procs := <[i := (addr, p)]> (procs c); cancelled := cancelled c; recv := recv c; received := received c; returned := returned c |}.

(** A rendezvous on the channel, which has no buffer. *)
Definition deliver (i : nat) (addr : string) (r : Response Reply) c : call Reply :=
  {| procs := <[i := (addr, Finished)]> (procs c); cancelled := cancelled c; recv := Busy;
     received := received c ++ [(i, r)]; returned := returned c |}.

Definition set_recv (v : receiver) c : call Reply :=
  {| procs := procs c; cancelled := cancelled c; recv := v; received := received c; returned := returned c |}.

Definition is_ready (v : receiver) : bool := match v with Ready => true | _ => false end.
Definition finished (p : string * pc Reply) : bool := match p.2 with Finished => true | _ => false end.

Definition step (k : kind) (e : event) c : option (call Reply) :=
  match e with
  | Cancel => Some {| procs := procs c; cancelled := true; recv := recv c; received := received c; returned := returned c |}
  | Listen => match recv c with Gone => None | _ => Some (set_recv Ready c) end
  | Leave => Some (set_recv Gone c)
  | Return =>
      if forallb finished (procs c) && negb (returned c)
      then Some {| procs := procs c; cancelled := cancelled c; recv := recv c; received := received c; returned := true |}
      else None
  | Dial i =>
      p ← procs c !! i;
      match p with
      | (addr, Dialing) => Some (set_proc i addr (match dial (cancelled c) addr with Some e => Refused e | None => Invoking end) c)
      | _ => None
      end
  | Invoke i =>
      p ← procs c !! i;
      match p with
      | (addr, Invoking) => let '(r, e) := invoke (cancelled c) addr in Some (set_proc i addr (Sending {| Error := e; RReply := r |}) c)
      | _ => None
      end
  | Send i =>
      p ← procs c !! i;
      match p with
      | (addr, Refused e) => if is_ready (recv c) then Some (deliver i addr {| Error := Some e; RReply := None |} c) else None
      | (addr, Sending r) => if is_ready (recv c) then Some (deliver i addr r c) else None
      | _ => None
      end
  | GiveUp i =>
      p ← procs c !! i;
      match p with
      | (addr, Sending r) =>
          if match k with All => cancelled c | Fastest => negb (is_ready (recv c)) end
          then Some (set_proc i addr Finished c) else None
      | _ => None
      end
  end.

Fixpoint run (k : kind) (es : list event) c : option (call Reply) :=
  match es with [] => Some c | e :: es => c' ← step k e c; run k es c' end.

(** The interceptor with the channel of the context, [None] without a broadcast;
    the answer is what the call returns and whether the channel is then closed. *)
Definition BuildUnaryInterceptor {R : Type} `{Registry R} (b : Broadcast.ClusterBuilder R) (k : kind)
    (channel : option receiver) (cancelled : bool) (plain : result string unit) (es : list event)
  : option (result string unit * option (call Reply)) * R :=
  match channel with
  | None => (Some (plain, None), Broadcast.registry b)
  | Some v =>
      match ListServices (Broadcast.service b) (Broadcast.registry b) with
      | (Err e, r) => (Some (Err e, None), r)
      | (Ok instances, r) =>
          (c ← run k es (spawn cancelled v instances); if returned c then Some (Ok tt, Some c) else None, r)
      end
  end.

End Responses.
End Responses.

(** * Facts: the broadcast with one reply *)
Module BroadcastFacts.
Import Broadcast.

Section Facts.
Context {Reply : Type} `{Network Reply}.
Implicit Type g : group Reply.

Definition failed_with (e : string) g : Prop := exists i addr, procs g !! i = Some (addr, Finished (Some e)).

(** The group's error is one of its instances', and only a failure cancels. *)
Definition group_inv (r0 : option Reply) g : Prop :=
  (forall e, first g = Some e -> failed_with e g) /\
  (first g = None -> forall e, ~ failed_with e g) /\
  (reply g = r0 \/ exists addr cancelled x err, reply g = Some x /\ invoke cancelled addr = (Some x, err)).

Lemma failed_insert e i addr err g : (forall a x, procs g !! i = Some (a, Finished x) -> False) -> is_Some (procs g !! i) ->
  failed_with e (finish i addr err g) <-> err = Some e \/ failed_with e g.
Proof.
  intros Hi [x Hx]. unfold failed_with, finish. simpl. split.
  - intros (j & a & Hj). destruct (decide (i = j)) as [<-|Hne].
    + rewrite list_lookup_insert_eq in Hj by (by apply lookup_lt_is_Some; eexists). injection Hj as <- ->. by left.
    + rewrite list_lookup_insert_ne in Hj by done. right. by exists j, a.
  - intros [->|(j & a & Hj)].
    + exists i, addr. apply list_lookup_insert_eq. by apply lookup_lt_is_Some; eexists.
    + exists j, a. rewrite list_lookup_insert_ne; [done|]. intros <-. by apply (Hi a (Some e)).
Qed.

Lemma finish_inv r0 i addr err g : group_inv r0 g -> (forall a x, procs g !! i = Some (a, Finished x) -> False) ->
  is_Some (procs g !! i) -> group_inv r0 (finish i addr err g).
Proof.
  intros (H1 & H2 & H3) Hi Hs. split_and!; [| |done].
  - intros e He. apply failed_insert; [done..|]. simpl in He. destruct (first g) as [e'|]; [|by left].
    right. injection He as ->. by apply H1.
  - intros Hn e Hf. apply failed_insert in Hf; [|done..]. simpl in Hn. destruct (first g); [done|].
    destruct Hf as [->|Hf]; [done|]. by apply (H2 eq_refl e).
Qed.

Lemma step_group r0 e g g' : group_inv r0 g -> step e g = Some g' -> group_inv r0 g'.
Proof.
  intros Hg Hs. destruct e as [i|i|]; cbn [step] in Hs.
  - destruct (procs g !! i) as [[addr [| |x]]|] eqn:Hi; cbn in Hs; [|done..]. destruct (dial (cancelled g) addr) as [e|]; injection Hs as <-.
    + apply finish_inv; [done|..]; rewrite Hi; [by intros|by eexists].
    + destruct Hg as (H1 & H2 & H3). assert (Hf : forall e, failed_with e
        {| procs := <[i := (addr, Invoking)]> (procs g); cancelled := cancelled g; first := first g; reply := reply g |} <-> failed_with e g).
      { intros e. unfold failed_with. simpl. split; intros (j & a & Hj); exists j, a; destruct (decide (i = j)) as [<-|Hne].
        - rewrite list_lookup_insert_eq in Hj by (by apply lookup_lt_is_Some; eexists). done.
        - by rewrite list_lookup_insert_ne in Hj.
        - congruence.
        - by rewrite list_lookup_insert_ne. }
      split_and!; [intros e He; apply Hf; by apply H1|intros Hn e; rewrite Hf; by apply H2|done].
  - destruct (procs g !! i) as [[addr [| |x]]|] eqn:Hi; cbn in Hs; [done| |done..].
    destruct (invoke (cancelled g) addr) as [r err] eqn:Hinv. injection Hs as <-. apply finish_inv; simpl; [|rewrite Hi; by intros|rewrite Hi; by eexists].
    destruct Hg as (H1 & H2 & H3). split_and!; [done..|]. destruct r as [x|]; [|done]. right. by exists addr, (cancelled g), x, err.
  - injection Hs as <-. destruct Hg as (H1 & H2 & H3). by split_and!.
Qed.

Lemma run_group r0 es : forall g g', group_inv r0 g -> run es g = Some g' -> group_inv r0 g'.
Proof.
  induction es as [|e es IH]; intros g g' Hg Hr; [by injection Hr as <-|]. cbn [run] in Hr.
  destruct (step e g) as [g1|] eqn:Hs; [|done]. eapply IH; [|exact Hr]. by eapply step_group.
Qed.

Lemma spawn_group cancelled r0 instances : group_inv r0 (spawn cancelled r0 instances).
Proof.
  split_and!; simpl; [done| |by left]. intros _ e (i & addr & Hi). simpl in Hi. rewrite list_lookup_fmap in Hi.
  by destruct (instances !! i).
Qed.

(** A broadcast returns only after the call of every instance has, without an error exactly when none of them failed, and otherwise with the error of one of them; the reply is the one it had, or what one of the invocations left. *)
Theorem broadcast_outcome cancelled r0 instances es g res :
  run es (spawn cancelled r0 instances) = Some g -> wait g = Some res ->
  length (procs g) = length instances /\ Forall (fun p => exists err, p.2 = Finished err) (procs g) /\
  (res = Ok tt <-> Forall (fun p => p.2 = Finished None) (procs g)) /\
  (forall e, res = Err e -> exists i addr, procs g !! i = Some (addr, Finished (Some e))) /\
  (reply g = r0 \/ exists addr c x err, reply g = Some x /\ invoke c addr = (Some x, err)).
Proof.
  intros Hr Hw. pose proof (run_group r0 _ _ _ (spawn_group cancelled r0 instances) Hr) as (H1 & H2 & H3).
  unfold wait in Hw. destruct (forallb finished (procs g)) eqn:Hall; [|done]. injection Hw as <-.
  assert (Hf : Forall (fun p : string * pc => exists err, p.2 = Finished err) (procs g)).
  { rewrite Forall_forall. intros p Hp. rewrite forallb_forall in Hall. specialize (Hall p (proj1 (list_elem_of_In _ _) Hp)).
    unfold finished in Hall. destruct p as [a [| |x]]; [done..|]. by eexists. }
  split; [|split; [done|]]; [|split; [|split; [|done]]].
  - clear - Hr. enough (forall es g0 g1, run es g0 = Some g1 -> length (procs g1) = length (procs g0)) as Hlen.
    { rewrite (Hlen _ _ _ Hr). apply length_fmap. }
    clear. induction es as [|e es IH]; intros g0 g1 Hr; [by injection Hr as <-|]. cbn [run] in Hr.
    destruct (step e g0) as [g'|] eqn:Hs; [|done]. cbn in Hr. rewrite (IH _ _ Hr). destruct e as [i|i|]; cbn [step] in Hs.
    + destruct (procs g0 !! i) as [[addr [| |x]]|]; cbn in Hs; [|done..]. destruct (dial _ _); injection Hs as <-; apply length_insert.
    + destruct (procs g0 !! i) as [[addr [| |x]]|]; cbn in Hs; [done| |done..]. destruct (invoke _ _). injection Hs as <-. apply length_insert.
    + by injection Hs as <-.
  - destruct (first g) as [e|] eqn:Ef.
    + split; [done|]. intros Hnone. destruct (H1 e eq_refl) as (i & addr & Hi). by apply (Forall_lookup_1 _ _ _ _ Hnone) in Hi.
    + split; [intros _|done]. rewrite Forall_forall in Hf |- *. intros [a p] Hp. destruct (Hf _ Hp) as [[e|] Hx]; [|done].
      simpl in Hx. subst p. apply list_elem_of_lookup in Hp as [i Hi]. exfalso. apply (H2 eq_refl e). by exists i, a.
  - intros e He. destruct (first g) as [e'|]; [|done]. injection He as ->. by apply H1.
Qed.

End Facts.
End BroadcastFacts.

(** * Facts: the broadcasts with a channel *)
Module ResponsesFacts.
Import Responses.

Section Facts.
Context {Reply : Type} `{Network Reply}.
Implicit Type c : call Reply.

(** An answer that an address can have. *)
Definition answer_of (addr : string) (r : Response Reply) : Prop :=
  (exists b e, dial b addr = Some e /\ r = {| Error := Some e; RReply := None |}) \/
  (exists b e x, invoke b addr = (x, e) /\ r = {| Error := e; RReply := x |}).

Definition pc_ok (p : string * pc Reply) : Prop :=
  match p.2 with
  | Refused e => answer_of p.1 {| Error := Some e; RReply := None |}
  | Sending r => answer_of p.1 r
  | _ => True
  end.

(** What was received are answers of different instances that have finished; when
    nothing could be dropped, of all that have. *)
Definition call_inv (k : kind) c : Prop :=
  Forall pc_ok (procs c) /\ NoDup (received c).*1 /\
  (forall i r, (i, r) ∈ received c -> exists addr, procs c !! i = Some (addr, Finished) /\ answer_of addr r) /\
  (k = All -> cancelled c = false -> forall i addr, procs c !! i = Some (addr, Finished) -> i ∈ (received c).*1) /\
  (returned c = true -> Forall (fun p => p.2 = Finished) (procs c)).

Lemma all_finished c : forallb finished (procs c) = true <-> Forall (fun p : string * pc Reply => p.2 = Finished) (procs c).
Proof.
  rewrite Forall_forall, forallb_forall. split; intros Hf p Hp.
  - specialize (Hf p (proj1 (list_elem_of_In _ _) Hp)). unfold finished in Hf. by destruct p as [a [| | | |]].
  - unfold finished. rewrite (Hf p); [done|]. by apply list_elem_of_In.
Qed.

(** A goroutine that is not finished moves on to a point that is sound. *)
Lemma set_proc_inv k i addr p q c : call_inv k c -> procs c !! i = Some (addr, p) -> p <> Finished -> pc_ok (addr, q) ->
  (q = Finished -> k = All -> cancelled c = true) -> call_inv k (set_proc i addr q c).
Proof.
  intros (H1 & H2 & H3 & H4 & H5) Hi Hp Hq Hfin. assert (Hlt : (i < length (procs c))%nat) by (apply lookup_lt_is_Some; by eexists).
  split_and!; simpl; [by apply Forall_insert|done| | |].
  - intros j r Hj. destruct (H3 j r Hj) as (a & Ha & Hr). exists a. rewrite list_lookup_insert_ne; [done|]. intros <-. congruence.
  - intros Hk Hc j a Hj. destruct (decide (i = j)) as [<-|Hne].
    + rewrite list_lookup_insert_eq in Hj by done. injection Hj as <- ->. by rewrite Hfin in Hc.
    + rewrite list_lookup_insert_ne in Hj by done. by eapply H4.
  - intros Hr. specialize (H5 Hr). by apply (Forall_lookup_1 _ _ _ _ H5) in Hi.
Qed.

Lemma deliver_inv k i addr p r c : call_inv k c -> procs c !! i = Some (addr, p) -> p <> Finished -> answer_of addr r ->
  call_inv k (deliver i addr r c).
Proof.
  intros (H1 & H2 & H3 & H4 & H5) Hi Hp Hr. assert (Hlt : (i < length (procs c))%nat) by (apply lookup_lt_is_Some; by eexists).
  assert (Hni : i ∉ (received c).*1).
  { intros ([j r'] & Hj & Hin)%list_elem_of_fmap. simpl in Hj. subst j. destruct (H3 i r' Hin) as (a & Ha & _). congruence. }
  split_and!; simpl; [by apply Forall_insert| | | |].
  - rewrite fmap_app. apply NoDup_app. split; [done|]. split; [|apply NoDup_singleton]. intros j Hj Hj'. simpl in Hj'.
    apply list_elem_of_singleton in Hj'. by subst.
  - intros j r' [Hj|Hj]%elem_of_app.
    + destruct (H3 j r' Hj) as (a & Ha & Hra). exists a. rewrite list_lookup_insert_ne; [done|]. intros <-. congruence.
    + apply list_elem_of_singleton in Hj. injection Hj as -> ->. exists addr. by rewrite list_lookup_insert_eq.
  - intros Hk Hc j a Hj. rewrite fmap_app. apply elem_of_app. destruct (decide (i = j)) as [<-|Hne]; [right; by left|left].
    rewrite list_lookup_insert_ne in Hj by done. by eapply H4.
  - intros Hret. specialize (H5 Hret). by apply (Forall_lookup_1 _ _ _ _ H5) in Hi.
Qed.

Lemma step_call k e c c' : call_inv k c -> step k e c = Some c' -> call_inv k c'.
Proof.
  intros Hc Hs. destruct e as [i|i|i|i| | | |]; cbn [step] in Hs.
  - destruct (procs c !! i) as [[addr [|e| |r|]]|] eqn:Hi; cbn in Hs; [|done..]. injection Hs as <-.
    destruct (dial (cancelled c) addr) as [e|] eqn:Ed; (eapply set_proc_inv; [done|exact Hi|done| |done]); [|done].
    left. by exists (cancelled c), e.
  - destruct (procs c !! i) as [[addr [|e| |r|]]|] eqn:Hi; cbn in Hs; [done|done| |done..].
    destruct (invoke (cancelled c) addr) as [r e] eqn:Ei. injection Hs as <-.
    eapply set_proc_inv; [done|exact Hi|done| |done]. right. by exists (cancelled c), e, r.
  - destruct (procs c !! i) as [[addr [|e| |r|]]|] eqn:Hi; cbn in Hs; [done| |done| |done..];
      (destruct (is_ready (recv c)); [|done]); injection Hs as <-;
      (eapply deliver_inv; [done|exact Hi|done|]); destruct Hc as (H1 & _); by apply (Forall_lookup_1 _ _ _ _ H1) in Hi.
  - destruct (procs c !! i) as [[addr [|e| |r|]]|] eqn:Hi; cbn in Hs; [done..| |done|done].
    destruct (match k with All => _ | Fastest => _ end) eqn:Hk; [|done]. injection Hs as <-.
    eapply set_proc_inv; [done|exact Hi|done|done|]. intros _ ->. exact Hk.
  - injection Hs as <-. destruct Hc as (H1 & H2 & H3 & _ & H5). by split_and!.
  - destruct (recv c); [| |done]; injection Hs as <-; exact Hc.
  - injection Hs as <-. exact Hc.
  - destruct (forallb finished (procs c)) eqn:Hf; [|done]. destruct (negb (returned c)); [|done]. injection Hs as <-.
    destruct Hc as (H1 & H2 & H3 & H4 & _). split_and!; try done. intros _. by apply all_finished.
Qed.

Lemma run_call k es : forall c c', call_inv k c -> run k es c = Some c' -> call_inv k c'.
Proof.
  induction es as [|e es IH]; intros c c' Hc Hr; [by injection Hr as <-|]. cbn [run] in Hr.
  destruct (step k e c) as [c1|] eqn:Hs; [|done]. eapply IH; [|exact Hr]. by eapply step_call.
Qed.

Lemma spawn_call k cancelled v instances : call_inv k (spawn cancelled v instances).
Proof.
  split_and!; simpl; [|constructor| | |done].
  - apply Forall_fmap, Forall_true. by intros ins.
  - intros i r Hi. by apply elem_of_nil in Hi.
  - intros _ _ i addr Hi. rewrite list_lookup_fmap in Hi. by destruct (instances !! i).
Qed.

Lemma run_app k es es' : forall c, run k (es ++ es') c = (run k es c ≫= run k es').
Proof. induction es as [|e es IH]; intros c; [done|]. cbn [run app]. destruct (step k e c); [apply IH|done]. Qed.

(** The goroutines' addresses never change. *)
Lemma step_addresses k e c c' : step k e c = Some c' -> (procs c').*1 = (procs c).*1.
Proof.
  assert (Hset : forall i addr p q, procs c !! i = Some (addr, p) -> (<[i := (addr, q)]> (procs c)).*1 = (procs c).*1).
  { intros i addr p q Hi. rewrite list_fmap_insert. apply list_insert_id. by rewrite list_lookup_fmap, Hi. }
  intros Hs. destruct e as [i|i|i|i| | | |]; cbn [step] in Hs.
  1, 2, 3, 4: destruct (procs c !! i) as [[addr [|e| |r|]]|] eqn:Hi; cbn in Hs; try done.
  - injection Hs as <-. simpl. by eapply Hset.
  - destruct (invoke (cancelled c) addr). injection Hs as <-. simpl. by eapply Hset.
  - destruct (is_ready (recv c)); [|done]. injection Hs as <-. simpl. by eapply Hset.
  - destruct (is_ready (recv c)); [|done]. injection Hs as <-. simpl. by eapply Hset.
  - destruct (match k with All => _ | Fastest => _ end); [|done]. injection Hs as <-. simpl. by eapply Hset.
  - by injection Hs as <-.
  - destruct (recv c); [| |done]; by injection Hs as <-.
  - by injection Hs as <-.
  - destruct (_ && _); [|done]. by injection Hs as <-.
Qed.

Lemma run_addresses k es : forall c c', run k es c = Some c' -> (procs c').*1 = (procs c).*1.
Proof.
  induction es as [|e es IH]; intros c c' Hr; [by injection Hr as <-|]. cbn [run] in Hr.
  destruct (step k e c) as [c1|] eqn:Hs; [|done]. rewrite (IH _ _ Hr). by eapply step_addresses.
Qed.

(** When a call of [broadcastall] returns and its context has not been cancelled, the receiver has got exactly one answer of every instance, in the order in which they came. *)
Theorem all_answers_received v instances es c :
  run All es (spawn false v instances) = Some c -> returned c = true -> cancelled c = false ->
  (received c).*1 ≡ₚ seq 0 (length instances) /\
  forall i r, (i, r) ∈ received c -> exists ins, instances !! i = Some ins /\ answer_of (Address ins) r.
Proof.
  intros Hr Hret Hc. pose proof (run_call _ _ _ _ (spawn_call All false v instances) Hr) as (_ & H2 & H3 & H4 & H5).
  pose proof (run_addresses _ _ _ _ Hr) as Ha. assert (Hlen : length (procs c) = length instances).
  { apply (f_equal length) in Ha. cbn [procs spawn] in Ha. by rewrite !length_fmap in Ha. }
  specialize (H5 Hret). split.
  - apply NoDup_Permutation; [done|apply NoDup_seq|]. intros i. rewrite elem_of_seq. split.
    + intros ([j r] & -> & Hin)%list_elem_of_fmap. destruct (H3 _ _ Hin) as (a & Hi & _). apply lookup_lt_Some in Hi. simpl in *. lia.
    + intros Hi. destruct (lookup_lt_is_Some_2 (procs c) i) as [[a p] Hp]; [lia|].
      pose proof (Forall_lookup_1 _ _ _ _ H5 Hp) as Hf. simpl in Hf. subst p. by eapply H4.
  - intros i r Hin. destruct (H3 _ _ Hin) as (a & Hi & Hans). simpl in Ha.
    assert (Hl : (procs c).*1 !! i = Some a) by (by rewrite list_lookup_fmap, Hi). rewrite Ha in Hl.
    rewrite !list_lookup_fmap in Hl. destruct (instances !! i) as [ins|]; [|done]. simpl in Hl. injection Hl as <-. by exists ins.
Qed.

(** Neither broadcast sends on its channel once the call has returned and closed it, and what has been received up to then are answers of different instances. *)
Theorem nothing_sent_after_close k cancelled v instances es es' c c' :
  run k es (spawn cancelled v instances) = Some c -> returned c = true -> run k es' c = Some c' ->
  received c' = received c /\ NoDup (received c).*1 /\ Forall (fun p => p.2 = Finished) (procs c').
Proof.
  intros Hr Hret. pose proof (run_call _ _ _ _ (spawn_call k cancelled v instances) Hr) as (_ & H2 & _ & _ & H5). specialize (H5 Hret).
  revert es c H2 H5 Hret Hr. induction es' as [|e es' IH]; intros es c H2 H5 Hret Hr Hr'; [by injection Hr' as <-|].
  cbn [run] in Hr'. destruct (step k e c) as [c1|] eqn:Hs; [|done].
  assert (Hrun : run k (es ++ [e]) (spawn cancelled v instances) = Some c1) by (rewrite run_app, Hr; cbn; by rewrite Hs).
  assert (Hsame : received c1 = received c /\ procs c1 = procs c /\ returned c1 = true).
  { destruct e as [i|i|i|i| | | |]; cbn [step] in Hs.
    1, 2, 3, 4: destruct (procs c !! i) as [[addr p]|] eqn:Hi; [|done];
      pose proof (Forall_lookup_1 _ _ _ _ H5 Hi) as Hp; simpl in Hp; by subst p.
    - by injection Hs as <-.
    - destruct (recv c); [| |done]; by injection Hs as <-.
    - by injection Hs as <-.
    - rewrite Hret, andb_false_r in Hs. done. }
  destruct Hsame as (E1 & E2 & E3). rewrite <- E1. eapply (IH (es ++ [e]) c1); [by rewrite E1|by rewrite E2|done..].
Qed.
(** Once the receiver has gone, a goroutine whose dial failed never finishes, since its send is in no select: the call does not return, whatever is cancelled. *)
Theorem refused_dial_blocks k es i addr e : forall c c', procs c !! i = Some (addr, Refused e) -> recv c = Gone -> returned c = false ->
  run k es c = Some c' -> procs c' !! i = Some (addr, Refused e) /\ returned c' = false.
Proof.
  induction es as [|ev es IH]; intros c c' Hi Hg Hret Hr; [by injection Hr as <-|]. cbn [run] in Hr.
  destruct (step k ev c) as [c1|] eqn:Hs; [|done].
  assert (Hnf : forallb finished (procs c) = false).
  { apply not_true_is_false. intros Hf%all_finished. by apply (Forall_lookup_1 _ _ _ _ Hf) in Hi. }
  enough (procs c1 !! i = Some (addr, Refused e) /\ recv c1 = Gone /\ returned c1 = false) as (? & ? & ?) by (by eapply IH).
  destruct ev as [j|j|j|j| | | |]; cbn [step] in Hs.
  1, 2, 3, 4: destruct (decide (i = j)) as [<-|Hne]; [rewrite Hi in Hs; cbn in Hs; try done|destruct (procs c !! j) as [[a p]|]; [|done]; cbn in Hs].
  - destruct p; try done. injection Hs as <-. simpl. by rewrite list_lookup_insert_ne.
  - destruct p; try done. destruct (invoke _ _). injection Hs as <-. simpl. by rewrite list_lookup_insert_ne.
  - by rewrite Hg in Hs.
  - rewrite Hg in Hs. by destruct p.
  - destruct p; try done. destruct (match k with All => _ | Fastest => _ end); [|done]. injection Hs as <-. simpl.
    by rewrite list_lookup_insert_ne.
  - by injection Hs as <-.
  - by rewrite Hg in Hs.
  - by injection Hs as <-.
  - by rewrite Hnf in Hs.
Qed.

(** What a goroutine still has to do. *)
Definition work (p : string * pc Reply) : nat :=
  match p.2 with Dialing => 3 | Invoking => 2 | Refused _ | Sending _ => 1 | Finished => 0 end.

Definition left_to_do c : nat := foldr (fun p n => (work p + n)%nat) 0%nat (procs c).

Lemma work_insert i p q l : l !! i = Some p -> (work q < work p)%nat ->
  (foldr (fun p n => work p + n) 0 (<[i := q]> l) < foldr (fun p n => work p + n) 0 l)%nat.
Proof.
  revert i. induction l as [|x l IH]; intros [|i] Hi Hw; [done|done| |]; simpl in *.
  - injection Hi as ->. lia.
  - specialize (IH i Hi Hw). lia.
Qed.

(** A call with work left has an event that reduces it, as long as its receiver is
    there. *)
Lemma work_progress k c : recv c <> Gone -> returned c = false -> forallb finished (procs c) = false ->
  exists es c', run k es c = Some c' /\ recv c' <> Gone /\ returned c' = false /\ (left_to_do c' < left_to_do c)%nat.
Proof.
  intros Hg Hret Hf. assert (Hex : exists i a p, procs c !! i = Some (a, p) /\ p <> Finished).
  { clear - Hf. induction (procs c) as [|[a p] l IH]; [done|]. simpl in Hf. destruct (finished (a, p)) eqn:Hp.
    - destruct (IH Hf) as (i & a' & p' & Hi & Hn). by exists (S i), a', p'.
    - exists 0%nat, a, p. split; [done|]. by intros ->. }
  destruct Hex as (i & a & p & Hi & Hn). unfold left_to_do.
  assert (Hsend : forall r, p = Refused r \/ (exists x, p = Sending x) -> exists c', run k [Listen; Send i] c = Some c' /\
    recv c' <> Gone /\ returned c' = false /\ procs c' = <[i := (a, Finished)]> (procs c)).
  { intros r Hp. assert (Hlisten : step k Listen c = Some (set_recv Ready c)) by (cbn [step]; by destruct (recv c)).
    cbn [run]. rewrite Hlisten. cbn [mbind option_bind step set_recv procs recv is_ready]. rewrite Hi.
    destruct Hp as [->|[x ->]]; cbn [mbind option_bind]; eexists; (split; [reflexivity|]); done. }
  destruct p as [|e| |r|]; [|destruct (Hsend e (or_introl eq_refl)) as (c' & Hr & ? & ? & Hp)| |destruct (Hsend "" (or_intror (ex_intro _ r eq_refl))) as (c' & Hr & ? & ? & Hp)|done].
  - exists [Dial i]. cbn [run step]. rewrite Hi. cbn [mbind option_bind]. eexists. split; [reflexivity|]. split_and!; [done..|].
    eapply work_insert; [done|]. destruct (dial _ _); simpl; unfold work; simpl; lia.
  - exists [Listen; Send i], c'. split_and!; try done. rewrite Hp. eapply work_insert; [done|]. unfold work; simpl; lia.
  - exists [Invoke i]. cbn [run step]. rewrite Hi. cbn [mbind option_bind]. destruct (invoke _ _) as [r e]. eexists. split; [reflexivity|].
    split_and!; [done..|]. eapply work_insert; [done|]. unfold work; simpl; lia.
  - exists [Listen; Send i], c'. split_and!; try done. rewrite Hp. eapply work_insert; [done|]. unfold work; simpl; lia.
Qed.

(** As long as the receiver has not gone, every broadcast, from whatever point it has reached, can go on to its return: receiving the answers that come is enough. *)
Theorem broadcast_can_return k c : recv c <> Gone -> returned c = false -> exists es c', run k es c = Some c' /\ returned c' = true.
Proof.
  remember (left_to_do c) as n eqn:Hn. revert c Hn. induction n as [n IH] using lt_wf_ind. intros c -> Hg Hret.
  destruct (forallb finished (procs c)) eqn:Hf.
  - exists [Return]. cbn [run step]. rewrite Hf, Hret. by eexists.
  - destruct (work_progress k c Hg Hret Hf) as (es & c1 & Hr & Hg1 & Hret1 & Hlt).
    destruct (IH _ Hlt c1 eq_refl Hg1 Hret1) as (es' & c' & Hr' & Hfin). exists (es ++ es'), c'. by rewrite run_app, Hr.
Qed.

(** The goroutine that an event brings to its end. *)
Definition ends (e : event) : option nat := match e with Send i | GiveUp i => Some i | _ => None end.

Lemma received_grows k es : forall c c', run k es c = Some c' -> exists l, received c' = received c ++ l.
Proof.
  induction es as [|e es IH]; intros c c' Hr; [injection Hr as <-; exists []; by rewrite app_nil_r|]. cbn [run] in Hr.
  destruct (step k e c) as [c1|] eqn:Hs; [|done]. destruct (IH _ _ Hr) as [l ->].
  assert (exists l, received c1 = received c ++ l) as [l' ->]; [|rewrite <- app_assoc; by eexists].
  destruct e as [i|i|i|i| | | |]; cbn [step] in Hs.
  1, 2, 3, 4: destruct (procs c !! i) as [[a p]|]; [|done]; cbn in Hs; destruct p; try done.
  - injection Hs as <-. exists []. by rewrite app_nil_r.
  - destruct (invoke _ _). injection Hs as <-. exists []. by rewrite app_nil_r.
  - destruct (is_ready _); [|done]. injection Hs as <-. by eexists.
  - destruct (is_ready _); [|done]. injection Hs as <-. by eexists.
  - destruct (match k with All => _ | Fastest => _ end); [|done]. injection Hs as <-. exists []. by rewrite app_nil_r.
  - injection Hs as <-. exists []. by rewrite app_nil_r.
  - destruct (recv c); [| |done]; injection Hs as <-; exists []; by rewrite app_nil_r.
  - injection Hs as <-. exists []. by rewrite app_nil_r.
  - destruct (_ && _); [|done]. injection Hs as <-. exists []. by rewrite app_nil_r.
Qed.

Lemma fastest_waiting es : forall c c', recv c = Ready -> received c = [] -> Leave ∉ es -> run Fastest es c = Some c' ->
  (head (received c').*1 = head (omap ends es) /\ omap ends es <> []) \/ (received c' = [] /\ omap ends es = [] /\ recv c' = Ready).
Proof.
  induction es as [|e es IH]; intros c c' Hrec Hnil Hl Hr; [injection Hr as <-; by right|].
  apply not_elem_of_cons in Hl as [Hle Hl]. cbn [run] in Hr. destruct (step Fastest e c) as [c1|] eqn:Hs; [|done]. cbn in Hr.
  assert (Hsend : forall i r, received c1 = [(i, r)] -> head (received c').*1 = Some i).
  { intros i r E. destruct (received_grows _ _ _ _ Hr) as [l ->]. by rewrite E. }
  destruct e as [i|i|i|i| | | |]; cbn [step] in Hs; [..|done|].
  1, 2, 3, 4: destruct (procs c !! i) as [[a p]|]; [|done]; cbn in Hs; destruct p; try done.
  - injection Hs as <-. eapply IH; [| | |exact Hr]; [exact Hrec|exact Hnil|exact Hl].
  - destruct (invoke _ _). injection Hs as <-. eapply IH; [| | |exact Hr]; [exact Hrec|exact Hnil|exact Hl].
  - rewrite Hrec in Hs. injection Hs as <-. left. simpl. split; [|done]. eapply Hsend. simpl. by rewrite Hnil.
  - rewrite Hrec in Hs. injection Hs as <-. left. simpl. split; [|done]. eapply Hsend. simpl. by rewrite Hnil.
  - by rewrite Hrec in Hs.
  - injection Hs as <-. eapply IH; [| | |exact Hr]; [exact Hrec|exact Hnil|exact Hl].
  - rewrite Hrec in Hs. injection Hs as <-. eapply IH; [| | |exact Hr]; [reflexivity|exact Hnil|exact Hl].
  - destruct (_ && _); [|done]. injection Hs as <-. eapply IH; [| | |exact Hr]; [exact Hrec|exact Hnil|exact Hl].
Qed.

(** A goroutine that no event brings to its end is not at its end. *)
Lemma unended_unfinished es : forall c c', run Fastest es c = Some c' -> omap ends es = [] -> forall i a p,
  procs c !! i = Some (a, p) -> p <> Finished -> exists q, procs c' !! i = Some (a, q) /\ q <> Finished.
Proof.
  induction es as [|e es IH]; intros c c' Hr He i a p Hi Hp; [injection Hr as <-; by exists p|]. cbn [run] in Hr.
  destruct (step Fastest e c) as [c1|] eqn:Hs; [|done]. cbn in Hr.
  enough (exists q, procs c1 !! i = Some (a, q) /\ q <> Finished) as (q & Hq & Hqn).
  { eapply (IH c1); [exact Hr| |exact Hq|done]. destruct e; simpl in He; done. }
  destruct e as [j|j|j|j| | | |]; cbn [step] in Hs; try (by simpl in He).
  - destruct (decide (i = j)) as [<-|Hne].
    + rewrite Hi in Hs. cbn in Hs. destruct p; try done. injection Hs as <-. simpl. rewrite list_lookup_insert_eq by (apply lookup_lt_is_Some; by eexists).
      eexists. split; [reflexivity|]. by destruct (dial _ _).
    + destruct (procs c !! j) as [[a' p']|]; [|done]. cbn in Hs. destruct p'; try done. injection Hs as <-. simpl.
      rewrite list_lookup_insert_ne by done. by exists p.
  - destruct (decide (i = j)) as [<-|Hne].
    + rewrite Hi in Hs. cbn in Hs. destruct p; try done. destruct (invoke _ _). injection Hs as <-. simpl.
      rewrite list_lookup_insert_eq by (apply lookup_lt_is_Some; by eexists). by eexists.
    + destruct (procs c !! j) as [[a' p']|]; [|done]. cbn in Hs. destruct p'; try done. destruct (invoke _ _). injection Hs as <-. simpl.
      rewrite list_lookup_insert_ne by done. by exists p.
  - injection Hs as <-. by exists p.
  - destruct (recv c); [| |done]; injection Hs as <-; by exists p.
  - injection Hs as <-. by exists p.
  - destruct (_ && _); [|done]. injection Hs as <-. by exists p.
Qed.

(** A receiver that waits from the start of a call of [fastest] and stays gets, first of all, the answer of the instance that has one first. *)
Theorem fastest_first cancelled instances es c : run Fastest es (spawn cancelled Ready instances) = Some c -> Leave ∉ es ->
  returned c = true -> instances <> [] -> exists i r l, received c = (i, r) :: l /\ head (omap ends es) = Some i.
Proof.
  intros Hr Hl Hret Hne. destruct (fastest_waiting es (spawn cancelled Ready instances) c eq_refl eq_refl Hl Hr) as [[Hh Hn]|(Hnil & Hends & _)].
  - destruct (omap ends es) as [|i l]; [done|]. simpl in Hh. destruct (received c) as [|[j r] l']; [done|]. simpl in Hh.
    injection Hh as ->. by exists i, r, l'.
  - exfalso. pose proof (run_call _ _ _ _ (spawn_call Fastest cancelled Ready instances) Hr) as (_ & _ & _ & _ & H5).
    specialize (H5 Hret). pose proof (run_addresses _ _ _ _ Hr) as Ha. destruct instances as [|ins instances]; [done|].
    destruct (unended_unfinished es _ c Hr Hends 0%nat (Address ins) Dialing eq_refl) as (q & Hq & Hqn); [done|].
    by apply (Forall_lookup_1 _ _ _ _ H5) in Hq.
Qed.

End Facts.
End ResponsesFacts.

(** * A small network, for the witnesses *)
Module Witnesses.

Definition host (a : string) : ServiceInstance := {| Name := "svc"; Address := a; Weight := 1; Group := "" |}.

(** The host [bad] cannot be dialled, [down] fails, any other answers its name. *)
Definition small_network : Network string := {|
  dial _ a := if bool_decide (a = "bad") then Some "no route" else None;
  invoke _ a := if bool_decide (a = "down") then (None, Some "unavailable") else (Some a, None) |}.
#[local] Existing Instance small_network.

Section One.
Import Broadcast BroadcastFacts.

Definition one_after_the_other : list event := [Dial 0; Dial 1; Invoke 0; Invoke 1].
Definition ended (hosts : list string) (es : list event) : group string :=
  default (spawn false None []) (run es (spawn false None (host <$> hosts))).

(** Two answers that arrive in another order leave another reply, without an error. *)
Example last_answer_wins :
  reply (ended ["a"; "b"] [Dial 0; Dial 1; Invoke 0; Invoke 1]) = Some "b" /\
  reply (ended ["a"; "b"] [Dial 0; Dial 1; Invoke 1; Invoke 0]) = Some "a".
Proof. split; reflexivity. Qed.

Lemma broadcast_outcome_witness :
  length (procs (ended ["a"; "down"] one_after_the_other)) = 2%nat /\
  Forall (fun p => exists err, p.2 = Finished err) (procs (ended ["a"; "down"] one_after_the_other)) /\
  (Err "unavailable" = Ok tt <-> Forall (fun p => p.2 = Finished None) (procs (ended ["a"; "down"] one_after_the_other))) /\
  (forall e, Err "unavailable" = Err e :> result string unit ->
     exists i addr, procs (ended ["a"; "down"] one_after_the_other) !! i = Some (addr, Finished (Some e))) /\
  (reply (ended ["a"; "down"] one_after_the_other) = None \/
   exists addr c x err, reply (ended ["a"; "down"] one_after_the_other) = Some x /\ invoke c addr = (Some x, err)).
Proof.
  apply (broadcast_outcome false None [host "a"; host "down"] one_after_the_other (ended ["a"; "down"] one_after_the_other) (Err "unavailable"));
    vm_compute; reflexivity.
Defined.
End One.

Section Several.
Import Responses ResponsesFacts.

Definition answered : list event := [Dial 0; Dial 1; Listen; Send 1; Invoke 0; Listen; Send 0; Return].
Definition ended_with (k : kind) (v : receiver) (hosts : list string) (es : list event) : call string :=
  default (spawn false v []) (run k es (spawn false v (host <$> hosts))).

Lemma all_answers_received_witness :
  (received (ended_with All Busy ["a"; "bad"] answered)).*1 ≡ₚ seq 0 2 /\
  forall i r, (i, r) ∈ received (ended_with All Busy ["a"; "bad"] answered) ->
    exists ins, [host "a"; host "bad"] !! i = Some ins /\ answer_of (Address ins) r.
Proof.
  apply (all_answers_received Busy [host "a"; host "bad"] answered (ended_with All Busy ["a"; "bad"] answered)); vm_compute; reflexivity.
Defined.

Lemma nothing_sent_after_close_witness :
  received (ended_with All Busy ["a"; "bad"] answered) = received (ended_with All Busy ["a"; "bad"] answered) /\
  NoDup (received (ended_with All Busy ["a"; "bad"] answered)).*1 /\
  Forall (fun p => p.2 = Finished) (procs (ended_with All Busy ["a"; "bad"] answered)).
Proof.
  apply (nothing_sent_after_close All false Busy [host "a"; host "bad"] answered []); vm_compute; reflexivity.
Defined.

(** The receiver took the fast answer and left; the slow instance cannot be dialled. *)
Definition taken_and_gone : list event := [Dial 0; Invoke 0; Listen; Send 0; Leave; Dial 1].

Lemma refused_dial_blocks_witness :
  procs (ended_with Fastest Busy ["a"; "bad"] taken_and_gone) !! 1%nat = Some ("bad", Refused "no route") /\
  returned (ended_with Fastest Busy ["a"; "bad"] taken_and_gone) = false.
Proof.
  apply (refused_dial_blocks Fastest [Leave] 1 "bad" "no route" (ended_with Fastest Busy ["a"; "bad"] taken_and_gone)); vm_compute; reflexivity.
Defined.

Lemma broadcast_can_return_witness :
  exists es c', run All es (spawn false Busy [host "a"; host "bad"]) = Some c' /\ returned c' = true.
Proof. apply (broadcast_can_return All (spawn false Busy [host "a"; host "bad"])); [discriminate|reflexivity]. Defined.

Definition race : list event := [Dial 0; Dial 1; Invoke 1; Invoke 0; Send 1; GiveUp 0; Return].

Lemma fastest_first_witness :
  exists i r l, received (ended_with Fastest Ready ["a"; "b"] race) = (i, r) :: l /\ head (omap ends race) = Some i.
Proof.
  apply (fastest_first false [host "a"; host "b"] race (ended_with Fastest Ready ["a"; "b"] race));
    [vm_compute; reflexivity|repeat (apply not_elem_of_cons; split; [discriminate|]); apply not_elem_of_nil|vm_compute; reflexivity|discriminate].
Defined.

(** A receiver that is busy when the answers come gets none of them, and no error. *)
Example fastest_loses_answers :
  let c := ended_with Fastest Busy ["a"; "b"] [Dial 0; Dial 1; Invoke 0; GiveUp 0; Invoke 1; GiveUp 1; Return] in
  returned c = true /\ received c = [].
Proof. split; reflexivity. Qed.
End Several.
End Witnesses.
