(* ===== verification/Mempool.v ===== *)
(** The object pools of [src/internal/mempool/]: slices and byte buffers, buffers
    with a growing content, maps, and messages with reference counts.

    Pools hand out references, so that what they refer to lives in a heap, and a
    run keeps the list of the references that clients hold. *)
From S2P Require Import Prelude.

(** * [sync.Pool] and the generic pool

    A [sync.Pool] is a collection: [Get] takes any item out of it or, when it
    finds none, calls [New]; the garbage collector may drop items at any time.
    [pick] is the item that a [Get] finds. *)
Definition take_item {A : Type} (pick : option nat) (items : list A) : option (A * list A) :=
  i ← pick; a ← items !! i; Some (a, delete i items).

Module Generic.

(** [Pool[T]]: [new] makes an object from the state of the world. *)
Record Pool (A W : Type) : Type := { items : list A; new : W -> A * W }.
Arguments items {A W} p.
Arguments new {A W} p.

Section Pool.
Context {A W : Type}.
Implicit Type p : Pool A W.

Definition New (f : W -> A * W) : Pool A W := {| items := []; new := f |}.

Definition Get (pick : option nat) p (w : W) : A * Pool A W * W :=
  match take_item pick (items p) with
  | Some (a, rest) => (a, {| items := rest; new := new p |}, w)
  | None => let '(a, w) := new p w in (a, p, w)
  end.

Definition Put (a : A) p : Pool A W := {| items := items p ++ [a]; new := new p |}.

(** [BatchGet]; the length of the list of picks is the count. *)
Fixpoint BatchGet (picks : list (option nat)) p (w : W) : list A * Pool A W * W :=
  match picks with
  | [] => ([], p, w)
  | pick :: picks =>
      let '(a, p, w) := Get pick p w in
      let '(l, p, w) := BatchGet picks p w in
      (a :: l, p, w)
  end.

Definition BatchPut (objs : list A) p : Pool A W := foldl (fun p a => Put a p) p objs.

End Pool.
End Generic.

(** * Slices *)
Module Slices.

(** A slice from the start of a backing array; the array's length is its capacity. *)
Record slice : Type := { array : nat; len : nat; cap : nat }.

Section Slices.
Context {T : Type} (zero : T).

Abbreviation heap := (list (list T)).

(** [make([]T, n, c)] for [n <= c]. *)
Definition make (n c : nat) (h : heap) : slice * heap :=
  ({| array := length h; len := n; cap := c |}, h ++ [replicate c zero]).

(** [s[:n]]: panics beyond the capacity. *)
Definition reslice (n : Z) (s : slice) : outcome slice :=
  if (0 <=? n) && (n <=? Z.of_nat (cap s)) then Returns {| array := array s; len := Z.to_nat n; cap := cap s |} else Panics.

(** The elements of a slice. *)
Definition elements (h : heap) (s : slice) : list T := take (len s) (default [] (h !! array s)).

(** [make([]T, n)]: panics for a negative length. *)
Definition make_len (n : Z) (h : heap) : outcome (slice * heap) :=
  if n <? 0 then Panics else Returns (make (Z.to_nat n) (Z.to_nat n) h).

Definition clear_to (n : nat) (l : list T) : list T := replicate n zero ++ drop n l.

(** ** [SlicePool] *)
Record SlicePool : Type := { items : list slice; capacity : nat }.

Definition NewSlicePool (c : nat) : SlicePool := {| items := []; capacity := c |}.

Definition empty_slice (s : slice) : slice := {| array := array s; len := 0; cap := cap s |}.

(** The item of the pool, or a new one. *)
Definition get_item (pick : option nat) (n : nat) (p : SlicePool) (h : heap) : slice * SlicePool * heap :=
  match take_item pick (items p) with
  | Some (s, rest) => (s, {| items := rest; capacity := capacity p |}, h)
  | None => let '(s, h) := make n (capacity p) h in (s, p, h)
  end.

Definition Get (pick : option nat) (p : SlicePool) (h : heap) : slice * SlicePool * heap :=
  let '(s, p, h) := get_item pick 0 p h in (empty_slice s, p, h).

Definition Put (s : slice) (p : SlicePool) : SlicePool :=
  if (capacity p <=? cap s)%nat then {| items := items p ++ [empty_slice s]; capacity := capacity p |} else p.

Definition GetWithSize (pick : option nat) (size : Z) (p : SlicePool) (h : heap) : outcome (slice * SlicePool * heap) :=
  let '(s, p, h) := Get pick p h in
  if Z.of_nat (cap s) <? size then
    match make_len size h with Returns (s, h) => Returns (s, p, h) | Panics => Panics end
  else
    match reslice size s with
    | Returns s => Returns (s, p, alter (clear_to (len s)) (array s) h)
    | Panics => Panics
    end.

(** ** [BufferPool] *)
Definition put_buffer (s : slice) (p : SlicePool) : SlicePool :=
  if (cap s <=? capacity p * 4)%nat then {| items := items p ++ [empty_slice s]; capacity := capacity p |} else p.

Definition buffer_with_size (pick : option nat) (size : Z) (p : SlicePool) (h : heap) : outcome (slice * SlicePool * heap) :=
  let '(s, p, h) := Get pick p h in
  if Z.of_nat (cap s) <? size then
    match make_len size h with Returns (s, h) => Returns (s, p, h) | Panics => Panics end
  else match reslice size s with Returns s => Returns (s, p, h) | Panics => Panics end.

(** ** [PreallocatedByteSlicePool]: the capacity is the slices' length *)
Definition get_preallocated (pick : option nat) (p : SlicePool) (h : heap) : slice * SlicePool * heap := get_item pick (capacity p) p h.

Definition put_preallocated (s : slice) (p : SlicePool) : SlicePool :=
  if (len s =? capacity p)%nat then {| items := items p ++ [s]; capacity := capacity p |} else p.

(** ** Clients of a [SlicePool] *)

Record world : Type := { arrays : heap; pool : SlicePool; held : list slice }.

(** Clients take slices, write to them, let [append] move one to a larger array,
    and give each of them back at most once; the collector drops items. *)
Inductive event : Type :=
| EGet (pick : option nat) | EGetWithSize (pick : option nat) (size : Z) | EPut (i : nat)
| EWrite (i j : nat) (v : T) | EGrow (i c : nat) | EDrop (i : nat) | ECollect (i : nat).

Definition step (e : event) (w : world) : option world :=
  match e with
  | EGet pick => let '(s, p, h) := Get pick (pool w) (arrays w) in Some {| arrays := h; pool := p; held := held w ++ [s] |}
  | EGetWithSize pick size =>
      match GetWithSize pick size (pool w) (arrays w) with
      | Returns (s, p, h) => Some {| arrays := h; pool := p; held := held w ++ [s] |}
      | Panics => None
      end
  | EPut i => s ← held w !! i; Some {| arrays := arrays w; pool := Put s (pool w); held := delete i (held w) |}
  | EWrite i j v =>
      s ← held w !! i;
      if (j <? len s)%nat then Some {| arrays := alter (insert j v) (array s) (arrays w); pool := pool w; held := held w |} else None
  | EGrow i c =>
      s ← held w !! i;
      if (cap s <? c)%nat then
        Some {| arrays := arrays w ++ [elements (arrays w) s ++ replicate (c - len s) zero]; pool := pool w;
                held := <[i := {| array := length (arrays w); len := len s; cap := c |}]> (held w) |}
      else None
  | EDrop i => s ← held w !! i; Some {| arrays := arrays w; pool := pool w; held := delete i (held w) |}
  | ECollect i => Some {| arrays := arrays w; pool := {| items := delete i (items (pool w)); capacity := capacity (pool w) |}; held := held w |}
  end.

Fixpoint run (es : list event) (w : world) : option world :=
  match es with [] => Some w | e :: es => w' ← step e w; run es w' end.

Definition start (c : nat) : world := {| arrays := []; pool := NewSlicePool c; held := [] |}.

End Slices.
End Slices.

Lemma delete_insert_same {A} i x (l : list A) : delete i (<[i := x]> l) = delete i l.
Proof. revert i. induction l as [|y l IH]; intros [|i]; [done..|]. simpl. f_equal. apply IH. Qed.

Lemma delete_past {A} i (l : list A) : (length l <= i)%nat -> delete i l = l.
Proof. revert i. induction l as [|y l IH]; intros [|i] Hi; simpl in *; [done|done|lia|]. f_equal. apply IH. lia. Qed.

Lemma take_item_perm {A} pick (l : list A) a rest : take_item pick l = Some (a, rest) -> l ≡ₚ a :: rest.
Proof.
  unfold take_item. destruct pick as [i|]; [|done]. cbn [mbind option_bind]. destruct (l !! i) as [x|] eqn:Hi; [|done]. cbn [mbind option_bind].
  intros [= <- <-]. by apply delete_Permutation.
Qed.

(** * Facts: slices *)
Module SlicesFacts.
Import Slices.

Section Facts.
Context {T : Type} (zero : T).
Implicit Types (w : @world T) (h : list (list T)).

(** A slice whose backing array is there. *)
Definition backed (h : list (list T)) (s : slice) : Prop := exists a, h !! array s = Some a /\ length a = cap s /\ (len s <= cap s)%nat.

(** Slices that share no backing array. *)
Definition owned (h : list (list T)) (l : list slice) : Prop := Forall (backed h) l /\ NoDup (array <$> l).

(** Every slice that the pool or a client has is backed, no two of them by the same
    array; those of the pool are empty and large enough. *)
Definition sound w : Prop :=
  owned (arrays w) (items (pool w) ++ held w) /\
  Forall (fun s => len s = 0%nat /\ (capacity (pool w) <= cap s)%nat) (items (pool w)).

Lemma backed_app h a s : backed h s -> backed (h ++ [a]) s.
Proof. intros (x & Hx & ?). exists x. split; [|done]. by apply lookup_app_l_Some. Qed.

Lemma backed_alter h f i s : (forall a, length (f a) = length a) -> backed h s -> backed (alter f i h) s.
Proof.
  intros Hf (x & Hx & Hl & ?). destruct (decide (i = array s)) as [->|Hne].
  - exists (f x). rewrite list_lookup_alter_eq, Hx. split; [done|]. by rewrite Hf.
  - exists x. by rewrite list_lookup_alter_ne.
Qed.

Lemma backed_new h s : array s = length h -> (len s <= cap s)%nat -> forall a, length a = cap s -> backed (h ++ [a]) s.
Proof. intros Ha Hl a Hc. exists a. rewrite Ha. split; [|done]. by apply list_lookup_middle. Qed.

Lemma backed_lt h s : backed h s -> (array s < length h)%nat.
Proof. intros (x & Hx & _). by apply lookup_lt_Some in Hx. Qed.

Lemma clear_to_length n (l : list T) : (n <= length l)%nat -> length (clear_to zero n l) = length l.
Proof. intros Hn. unfold clear_to. rewrite length_app, length_replicate, length_drop. lia. Qed.

Lemma owned_perm h l l' : l ≡ₚ l' -> owned h l -> owned h l'.
Proof. unfold owned. by intros ->. Qed.

Lemma owned_cons h s l : owned h (s :: l) <-> backed h s /\ (array s ∉ array <$> l) /\ owned h l.
Proof. unfold owned. rewrite Forall_cons, fmap_cons, NoDup_cons. tauto. Qed.

Lemma owned_alter h f i l : (forall a, length (f a) = length a) -> owned h l -> owned (alter f i h) l.
Proof. intros Hf [Hb Hn]. split; [|done]. eapply Forall_impl; [exact Hb|]. intros s. by apply backed_alter. Qed.

(** A new array at the end of the heap belongs to nobody. *)
Lemma owned_new h a s l : owned h l -> array s = length h -> length a = cap s -> (len s <= cap s)%nat -> owned (h ++ [a]) (s :: l).
Proof.
  intros [Hb Hn] Ha Hl Hlen. apply owned_cons. split; [by apply backed_new|]. split.
  - rewrite Ha. intros (s' & E & Hs)%list_elem_of_fmap. rewrite Forall_forall in Hb. specialize (Hb s' Hs). apply backed_lt in Hb. lia.
  - split; [|done]. eapply Forall_impl; [exact Hb|]. intros s'. apply backed_app.
Qed.

Lemma owned_same_array h s s' l : array s' = array s -> cap s' = cap s -> (len s' <= cap s)%nat -> owned h (s :: l) -> owned h (s' :: l).
Proof.
  rewrite !owned_cons. intros Hs Hc Hl ((a & Ha & Hlen & _) & Hn & Ho). rewrite Hs. split; [|done].
  exists a. by rewrite Hs, Hc.
Qed.

Lemma elements_app h a s : backed h s -> elements (h ++ [a]) s = elements h s.
Proof. intros Hs%backed_lt. unfold elements. by rewrite lookup_app_l. Qed.

Lemma elements_alter h f i s : array s <> i -> elements (alter f i h) s = elements h s.
Proof. intros Hne. unfold elements. by rewrite list_lookup_alter_ne. Qed.

(** What [Get] takes from the pool or makes. *)
Lemma Get_spec pick h (p : SlicePool) (rest : list slice) : sound {| arrays := h; pool := p; held := rest |} ->
  match Get zero pick p h with
  | (s, p', h') => capacity p' = capacity p /\ len s = 0%nat /\ (capacity p <= cap s)%nat /\
      owned h' (s :: items p' ++ rest) /\ Forall (fun s => len s = 0%nat /\ (capacity p <= cap s)%nat) (items p') /\
      forall s', backed h s' -> backed h' s' /\ elements h' s' = elements h s'
  end.
Proof.
  intros (Ho & Hi). unfold Get, get_item. simpl in *. destruct (take_item pick (items p)) as [[s l]|] eqn:Ht.
  - apply take_item_perm in Ht as Hp. rewrite Hp in Hi. apply Forall_cons in Hi as [Hs Hi].
    assert (He : empty_slice s = s) by (destruct s; simpl in *; unfold empty_slice; f_equal; symmetry; apply Hs).
    rewrite He. cbn [capacity items]. split_and!; [done|apply Hs|apply Hs| |done|done].
    eapply owned_perm; [|exact Ho]. by rewrite Hp.
  - unfold make. cbn [empty_slice array cap len]. split_and!; [done|done|done| |done|].
    + by apply owned_new; [|done|apply length_replicate|simpl; lia].
    + intros s' Hs'. split; [by apply backed_app|by apply elements_app].
Qed.

(** What [GetWithSize] gives: zeros, in an array that nobody else has. *)
Lemma GetWithSize_spec pick size h (p : SlicePool) (rest : list slice) s p' h' : sound {| arrays := h; pool := p; held := rest |} ->
  GetWithSize zero pick size p h = Returns (s, p', h') ->
  capacity p' = capacity p /\ 0 <= size /\ elements h' s = replicate (Z.to_nat size) zero /\
  owned h' (s :: items p' ++ rest) /\ Forall (fun s => len s = 0%nat /\ (capacity p <= cap s)%nat) (items p') /\
  Forall (fun s' => elements h' s' = elements h s') rest.
Proof.
  intros Hs Hg. pose proof (Get_spec pick h p rest Hs) as Hspec. unfold GetWithSize in Hg.
  destruct (Get zero pick p h) as [[s1 p1] h1]. destruct Hspec as (Hc & Hl & Hcap & Ho & Hi & Hsame).
  apply owned_cons in Ho as (Hs1 & Hnot & Ho).
  assert (Hrest : Forall (fun s' => backed h1 s' /\ elements h1 s' = elements h s') rest).
  { destruct Hs as [[Hb _] _]. simpl in Hb. apply Forall_app in Hb as [_ Hb]. eapply Forall_impl; [exact Hb|]. exact Hsame. }
  destruct (Z.ltb_spec (Z.of_nat (cap s1)) size) as [Hlt|Hle].
  - unfold make_len in Hg. destruct (Z.ltb_spec size 0); [lia|]. injection Hg as <- <- <-. split_and!; [done|done| | |done|].
    + unfold elements. simpl. rewrite list_lookup_middle by done. simpl. apply take_ge. by rewrite length_replicate.
    + apply owned_new; [done|done|apply length_replicate|done].
    + eapply Forall_impl; [exact Hrest|]. intros s' [Hb <-]. by apply elements_app.
  - unfold reslice in Hg. destruct (Z.leb_spec 0 size); [|done]. destruct (Z.leb_spec size (Z.of_nat (cap s1))); [|done].
    cbn [andb] in Hg. injection Hg as <- <- <-. destruct Hs1 as (a & Ha & Hlen & _). split_and!; [done|done| | |done|].
    + unfold elements. simpl. rewrite list_lookup_alter_eq, Ha. simpl. unfold clear_to.
      rewrite take_app_le by (rewrite length_replicate; lia). rewrite take_ge; [done|]. by rewrite length_replicate.
    + apply owned_cons. simpl. split; [|split; [done|]].
      * exists (clear_to zero (Z.to_nat size) a). simpl. rewrite list_lookup_alter_eq, Ha. split; [done|]. rewrite clear_to_length by lia.
        split; [done|lia].
      * destruct Ho as [Hb Hn]. split; [|done]. eapply Forall_impl; [|]; [apply Forall_and; split; [exact Hb|]|].
        -- apply Forall_forall. intros s' Hs'. exact (fun E : array s' = array s1 => Hnot (eq_rect _ (fun i => i ∈ array <$> items p1 ++ rest)
             (list_elem_of_fmap_2 array _ _ Hs') _ E)).
        -- intros s' [(x & Hx & ?) Hne]. exists x. by rewrite list_lookup_alter_ne by (intros E; by apply Hne).
    + apply Forall_forall. intros s' Hs'. rewrite Forall_forall in Hrest. destruct (Hrest s' Hs') as [Hb <-]. apply elements_alter.
      intros E. apply Hnot. rewrite <- E. apply list_elem_of_fmap_2. apply elem_of_app. by right.
Qed.

Lemma held_perm (l : list slice) i s : l !! i = Some s -> l ≡ₚ s :: delete i l.
Proof. apply delete_Permutation. Qed.

Lemma owned_drop h s l : owned h (s :: l) -> owned h l.
Proof. intros Ho. by apply owned_cons in Ho as (_ & _ & ?). Qed.

(** Every event keeps the world sound, but for a client's own writes beyond a
    slice, which there are none. *)
Lemma step_sound e w w' : sound w -> step zero e w = Some w' -> sound w'.
Proof.
  intros Hw Hs. destruct w as [h p rest]. destruct e as [pick|pick size|i|i j v|i c|i|i]; cbn [step pool arrays held] in Hs.
  - pose proof (Get_spec pick h p rest Hw) as Hspec. destruct (Get zero pick p h) as [[s p1] h1]. injection Hs as <-.
    destruct Hspec as (Hc & _ & _ & Ho & Hi & _). split; simpl; [|by rewrite Hc].
    eapply owned_perm; [|exact Ho]. rewrite (app_assoc (items p1)). apply Permutation_cons_append.
  - destruct (GetWithSize zero pick size p h) as [[[s p1] h1]|] eqn:Hg; [|done]. injection Hs as <-.
    destruct (GetWithSize_spec _ _ _ _ _ _ _ _ Hw Hg) as (Hc & _ & _ & Ho & Hi & _). split; simpl; [|by rewrite Hc].
    eapply owned_perm; [|exact Ho]. rewrite (app_assoc (items p1)). apply Permutation_cons_append.
  - destruct (rest !! i) as [s|] eqn:Hi; [|done]. injection Hs as <-. destruct Hw as [Ho Hc]. simpl in *.
    assert (Hp : items p ++ rest ≡ₚ s :: items p ++ delete i rest) by (rewrite (held_perm _ _ _ Hi) at 1; symmetry; apply Permutation_middle).
    unfold Put. destruct (Nat.leb_spec (capacity p) (cap s)); split; simpl; try done.
    + eapply owned_perm; [|eapply (owned_same_array h s (empty_slice s)); [done|done|simpl; lia|eapply owned_perm; [exact Hp|exact Ho]]].
      rewrite <- app_assoc. simpl. apply Permutation_middle.
    + apply Forall_app. split; [done|]. by apply Forall_singleton.
    + eapply owned_drop, owned_perm; [exact Hp|exact Ho].
  - destruct (rest !! i) as [s|]; [|done]. cbn [mbind option_bind] in Hs. destruct (j <? len s)%nat; [|done]. injection Hs as <-. destruct Hw as [Ho Hc].
    split; [|done]. simpl in *. apply owned_alter; [|done]. intros a. apply length_insert.
  - destruct (rest !! i) as [s|] eqn:Hi; [|done]. cbn [mbind option_bind] in Hs. destruct (Nat.ltb_spec (cap s) c); [|done]. injection Hs as <-.
    destruct Hw as [Ho Hc]. split; [|done]. simpl in *.
    assert (Hp : items p ++ rest ≡ₚ s :: items p ++ delete i rest) by (rewrite (held_perm _ _ _ Hi) at 1; symmetry; apply Permutation_middle).
    assert (Hb : backed h s) by (destruct Ho as [Hb _]; rewrite Forall_forall in Hb; apply Hb, elem_of_app; right; by eapply list_elem_of_lookup_2).
    destruct Hb as (a & Ha & Hla & Hle).
    eapply owned_perm; [|apply (owned_new h (elements h s ++ replicate (c - len s) zero) {| array := length h; len := len s; cap := c |});
      [eapply owned_drop, owned_perm; [exact Hp|exact Ho]|done| |simpl; lia]].
    + assert (Hlt : (i < length rest)%nat) by (by eapply lookup_lt_Some).
      rewrite (held_perm (<[i := _]> rest) i _ (list_lookup_insert_eq _ _ _ Hlt)).
      rewrite delete_insert_same. apply Permutation_middle.
    + simpl. rewrite length_app, length_replicate. unfold elements. rewrite Ha. simpl. rewrite length_take. lia.
  - destruct (rest !! i) as [s|] eqn:Hi; [|done]. injection Hs as <-. destruct Hw as [Ho Hc]. split; [|done]. simpl in *.
    eapply (owned_drop h s), owned_perm; [|exact Ho]. rewrite (held_perm _ _ _ Hi) at 1. symmetry. apply Permutation_middle.
  - injection Hs as <-. destruct Hw as [Ho Hc]. simpl in *. destruct (items p !! i) as [s|] eqn:Hi.
    + pose proof (held_perm _ _ _ Hi) as Hp. split; simpl.
      * eapply (owned_drop h s), owned_perm; [|exact Ho]. by rewrite Hp at 1.
      * rewrite Hp in Hc. by apply Forall_cons in Hc as [_ ?].
    + rewrite delete_past by (by apply lookup_ge_None). by split.
Qed.

Lemma run_sound es : forall w w', sound w -> run zero es w = Some w' -> sound w'.
Proof.
  induction es as [|e es IH]; intros w w' Hw Hr; [by injection Hr as <-|]. cbn [run] in Hr.
  destruct (step zero e w) as [w1|] eqn:Hs; [|done]. eapply IH; [|exact Hr]. by eapply step_sound.
Qed.

Lemma start_sound c : sound (@start T c).
Proof. split; [|constructor]. split; constructor. Qed.

(** Whatever clients and collector have done before, as long as each slice is given back at most once, [GetWithSize] gives a slice of the length asked for, all zeros, in an array that no client holds, and changes nothing that a client holds. *)
Theorem slices_zeroed_unshared c es pick size w w' :
  run zero es (start c) = Some w -> step zero (EGetWithSize pick size) w = Some w' ->
  exists s, held w' = held w ++ [s] /\ elements (arrays w') s = replicate (Z.to_nat size) zero /\
    (array s ∉ array <$> held w) /\ Forall (fun s' => elements (arrays w') s' = elements (arrays w) s') (held w).
Proof.
  intros Hr Hs. pose proof (run_sound _ _ _ (start_sound c) Hr) as Hw. destruct w as [h p rest]. cbn [step pool arrays] in Hs.
  destruct (GetWithSize zero pick size p h) as [[[s p1] h1]|] eqn:Hg; [|done]. injection Hs as <-.
  destruct (GetWithSize_spec _ _ _ _ _ _ _ _ Hw Hg) as (_ & _ & He & Ho & _ & Hsame). exists s. split_and!; try done.
  apply owned_cons in Ho as (_ & Hn & _). rewrite fmap_app in Hn. intros Hin. apply Hn, elem_of_app. by right.
Qed.

End Facts.

Definition some_use : list (@event Z) := [EGetWithSize None 3; EWrite 0 1 7; EGet None; EPut 0].
Definition used : @world Z := default (start 4) (run 0 some_use (start 4)).
Definition reused : @world Z := default (start 4) (step 0 (EGetWithSize (Some 0%nat) 2) used).

Lemma slices_zeroed_unshared_witness :
  exists s, held reused = held used ++ [s] /\ elements (arrays reused) s = [0; 0] /\ (array s ∉ array <$> held used) /\
    Forall (fun s' => elements (arrays reused) s' = elements (arrays used) s') (held used).
Proof. apply (slices_zeroed_unshared 0 4 some_use (Some 0%nat) 2 used reused); reflexivity. Defined.

(** A buffer from [BufferPool] holds what its last user left in it. *)
Example buffer_keeps_old_bytes :
  let '(s, p, h) := Get 0 None (NewSlicePool 4) [] in
  let h := alter (insert 0%nat 7) (array s) h in
  match buffer_with_size 0 (Some 0%nat) 2 (put_buffer s p) h with
  | Returns (s, _, h) => elements h s = [7; 0]
  | Panics => False
  end.
Proof. reflexivity. Qed.
End SlicesFacts.

(** * Messages *)
Module Messages.

Record MessagePoolOptions : Type := {
  MaxPoolSize : Z; CleanupInterval : Z; TTL : Z; PrewarmSize : Z; UseRefCounting : bool; ResetOnGet : bool }.

Definition DefaultMessagePoolOptions : MessagePoolOptions :=
  {| MaxPoolSize := 10000; CleanupInterval := 5 * Minute; TTL := 10 * Minute; PrewarmSize := 10;
     UseRefCounting := true; ResetOnGet := true |}.

Record pooledObject : Type := { createdAt : Z; lastUsed : Z; refCount : Z }.

Record MessagePoolStats : Type := {
  Created : Z; Reused : Z; Destroyed : Z; ObjectsInPool : Z; MaxSize : Z; TotalAllocation : Z }.

(** An object is known by its address; the factory makes the next one. [pool] is the
    [sync.Pool], [reset] says whether there is a reset function and [resets] the
    objects it was applied to. *)
Record MessagePool : Type := {
  next : nat; reset : bool; resets : list nat; pool : list nat; objects : gmap nat pooledObject;
  maxPoolSize : Z; ttl : Z; useRefCount : bool; resetOnGet : bool; stopped : bool; stats : MessagePoolStats }.

Definition set_pool (l : list nat) (p : MessagePool) : MessagePool :=
  {| next := next p; reset := reset p; resets := resets p; pool := l; objects := objects p; maxPoolSize := maxPoolSize p;
     ttl := ttl p; useRefCount := useRefCount p; resetOnGet := resetOnGet p; stopped := stopped p; stats := stats p |}.
Definition set_objects (m : gmap nat pooledObject) (p : MessagePool) : MessagePool :=
  {| next := next p; reset := reset p; resets := resets p; pool := pool p; objects := m; maxPoolSize := maxPoolSize p;
     ttl := ttl p; useRefCount := useRefCount p; resetOnGet := resetOnGet p; stopped := stopped p; stats := stats p |}.
Definition set_stats (s : MessagePoolStats) (p : MessagePool) : MessagePool :=
  {| next := next p; reset := reset p; resets := resets p; pool := pool p; objects := objects p; maxPoolSize := maxPoolSize p;
     ttl := ttl p; useRefCount := useRefCount p; resetOnGet := resetOnGet p; stopped := stopped p; stats := s |}.

Definition count_created (s : MessagePoolStats) : MessagePoolStats :=
  {| Created := u64 (Created s + 1); Reused := Reused s; Destroyed := Destroyed s; ObjectsInPool := ObjectsInPool s;
     MaxSize := MaxSize s; TotalAllocation := u64 (TotalAllocation s + 1) |}.
Definition count_reused (s : MessagePoolStats) : MessagePoolStats :=
  {| Created := Created s; Reused := u64 (Reused s + 1); Destroyed := Destroyed s; ObjectsInPool := ObjectsInPool s;
     MaxSize := MaxSize s; TotalAllocation := TotalAllocation s |}.
Definition count_destroyed (n : Z) (s : MessagePoolStats) : MessagePoolStats :=
  {| Created := Created s; Reused := Reused s; Destroyed := u64 (Destroyed s + n); ObjectsInPool := ObjectsInPool s;
     MaxSize := MaxSize s; TotalAllocation := TotalAllocation s |}.

(** [p.stats.ObjectsInPool = len(p.objects)] *)
Definition count_objects (p : MessagePool) : MessagePool :=
  let s := stats p in
  set_stats {| Created := Created s; Reused := Reused s; Destroyed := Destroyed s; ObjectsInPool := Z.of_nat (size (objects p));
               MaxSize := MaxSize s; TotalAllocation := TotalAllocation s |} p.

(** The [New] of the [sync.Pool]. *)
Definition new_object (now : Z) (p : MessagePool) : nat * MessagePool :=
  (next p,
   {| next := S (next p); reset := reset p; resets := resets p; pool := pool p;
      objects := <[next p := {| createdAt := now; lastUsed := now; refCount := 1 |}]> (objects p);
      maxPoolSize := maxPoolSize p; ttl := ttl p; useRefCount := useRefCount p; resetOnGet := resetOnGet p;
      stopped := stopped p; stats := count_created (stats p) |}).

Definition run_reset (obj : nat) (p : MessagePool) : MessagePool :=
  if resetOnGet p && reset p then
    {| next := next p; reset := reset p; resets := resets p ++ [obj]; pool := pool p; objects := objects p; maxPoolSize := maxPoolSize p;
       ttl := ttl p; useRefCount := useRefCount p; resetOnGet := resetOnGet p; stopped := stopped p; stats := stats p |}
  else p.

Definition Get (pick : option nat) (now : Z) (p : MessagePool) : nat * MessagePool :=
  let '(obj, p) := match take_item pick (pool p) with
                   | Some (obj, rest) => (obj, set_pool rest p)
                   | None => new_object now p
                   end in
  let p := run_reset obj p in
  if useRefCount p then
    match objects p !! obj with
    | Some po =>
        (obj, set_stats (count_reused (stats p))
                (set_objects (<[obj := {| createdAt := createdAt po; lastUsed := now; refCount := i32 (refCount po + 1) |}]> (objects p)) p))
    | None => (obj, p)
    end
  else (obj, p).

Definition Put (obj : nat) (now : Z) (p : MessagePool) : MessagePool :=
  let poolSize := Z.of_nat (size (objects p)) in
  match objects p !! obj, useRefCount p with
  | Some po, true =>
      let n := i32 (refCount po - 1) in
      if n <=? 0 then
        if maxPoolSize p <=? poolSize then set_stats (count_destroyed 1 (stats p)) (set_objects (delete obj (objects p)) p)
        else count_objects
               (set_pool (pool p ++ [obj])
                  (set_objects (<[obj := {| createdAt := createdAt po; lastUsed := now; refCount := n |}]> (objects p)) p))
      else count_objects (set_objects (<[obj := {| createdAt := createdAt po; lastUsed := lastUsed po; refCount := n |}]> (objects p)) p)
  | found, _ =>
      if maxPoolSize p <=? poolSize then set_stats (count_destroyed 1 (stats p)) p
      else
        let po := match found with
                  | None => {| createdAt := now; lastUsed := now; refCount := 0 |}
                  | Some po => {| createdAt := createdAt po; lastUsed := now; refCount := refCount po |}
                  end in
        count_objects (set_pool (pool p ++ [obj]) (set_objects (<[obj := po]> (objects p)) p))
  end.

(** An expired object without references. *)
Definition expired (now : Z) (p : MessagePool) (po : pooledObject) : bool :=
  (0 <? ttl p) && (ttl p <? time_sub now (lastUsed po)) && (negb (useRefCount p) || (refCount po <=? 0)).

Definition cleanup (now : Z) (p : MessagePool) : MessagePool :=
  let kept := filter (fun kv => expired now p kv.2 = false) (objects p) in
  count_objects (set_stats (count_destroyed (Z.of_nat (size (objects p)) - Z.of_nat (size kept)) (stats p)) (set_objects kept p)).

(** [Close]: closing the channel twice panics. *)
Definition Close (p : MessagePool) : outcome MessagePool :=
  if stopped p then Panics
  else Returns {| next := next p; reset := reset p; resets := resets p; pool := pool p; objects := ∅; maxPoolSize := maxPoolSize p;
                  ttl := ttl p; useRefCount := useRefCount p; resetOnGet := resetOnGet p; stopped := true; stats := stats p |}.

(** The loop that warms the pool up. *)
Fixpoint prewarm (n : nat) (now : Z) (p : MessagePool) : MessagePool :=
  match n with
  | O => p
  | S n => let '(obj, p) := new_object now p in prewarm n now (Put obj now p)
  end.

Definition NewMessagePool (has_reset : bool) (o : MessagePoolOptions) (now : Z) : MessagePool :=
  prewarm (Z.to_nat (PrewarmSize o)) now
    {| next := 0; reset := has_reset; resets := []; pool := []; objects := ∅; maxPoolSize := MaxPoolSize o; ttl := TTL o;
       useRefCount := UseRefCounting o; resetOnGet := ResetOnGet o; stopped := false;
       stats := {| Created := 0; Reused := 0; Destroyed := 0; ObjectsInPool := 0; MaxSize := MaxPoolSize o; TotalAllocation := 0 |} |}.

Definition GetStats (p : MessagePool) : MessagePoolStats := stats p.

(** ** Users of a pool

    They get messages and give each one back once. *)
Record users : Type := { mp : MessagePool; held : list nat }.

Inductive event : Type := EGet (pick : option nat) | EPut (i : nat) | ECleanup | ECollect (i : nat).

Definition step (now : Z) (e : event) (u : users) : option users :=
  match e with
  | EGet pick => let '(obj, p) := Get pick now (mp u) in Some {| mp := p; held := held u ++ [obj] |}
  | EPut i => obj ← held u !! i; Some {| mp := Put obj now (mp u); held := delete i (held u) |}
  | ECleanup => Some {| mp := cleanup now (mp u); held := held u |}
  | ECollect i => Some {| mp := set_pool (delete i (pool (mp u))) (mp u); held := held u |}
  end.

Fixpoint run (es : list (Z * event)) (u : users) : option users :=
  match es with [] => Some u | (now, e) :: es => u' ← step now e u; run es u' end.

Definition start (has_reset : bool) (o : MessagePoolOptions) (now : Z) : users :=
  {| mp := NewMessagePool has_reset o now; held := [] |}.

End Messages.

(** * Facts: messages *)
Module MessagesFacts.
Import Messages.

(** Nobody shares a message: the pool's items and those held are all different. *)
Definition unshared (u : users) : Prop :=
  NoDup (pool (mp u) ++ held u) /\ Forall (fun o => (o < next (mp u))%nat) (pool (mp u) ++ held u).

Lemma Put_pool obj now p : (pool (Put obj now p) = pool p ++ [obj] \/ pool (Put obj now p) = pool p) /\ next (Put obj now p) = next p.
Proof.
  unfold Put. destruct (objects p !! obj) as [po|], (useRefCount p); simpl; repeat case_bool; simpl; auto.
Qed.

Lemma Get_pool pick now p :
  (exists obj rest, take_item pick (pool p) = Some (obj, rest) /\ (Get pick now p).1 = obj /\ pool (Get pick now p).2 = rest /\
     next (Get pick now p).2 = next p) \/
  (take_item pick (pool p) = None /\ (Get pick now p).1 = next p /\ pool (Get pick now p).2 = pool p /\ next (Get pick now p).2 = S (next p)).
Proof.
  unfold Get. destruct (take_item pick (pool p)) as [[obj rest]|].
  - left. exists obj, rest. split; [done|]. unfold run_reset. simpl. destruct (_ && _); simpl; destruct (useRefCount p); simpl; [|done| |done];
      by destruct (objects p !! obj).
  - right. split; [done|]. unfold run_reset. simpl. destruct (_ && _); simpl; destruct (useRefCount p); simpl; [|done| |done]; by rewrite lookup_insert_eq.
Qed.

Lemma step_unshared now e u u' : unshared u -> step now e u = Some u' -> unshared u'.
Proof.
  intros [Hn Hf] Hs. destruct u as [p l]. destruct e as [pick|i| |i]; cbn [step mp held] in *.
  - pose proof (Get_pool pick now p) as Hg. destruct (Get pick now p) as [obj p']. simpl in Hg. injection Hs as <-. unfold unshared. simpl.
    destruct Hg as [(o & rest & Ht & -> & -> & ->)|(_ & -> & -> & ->)].
    + apply take_item_perm in Ht. assert (Hp : pool p ++ l ≡ₚ rest ++ l ++ [o]).
      { rewrite Ht, app_assoc. simpl. apply Permutation_cons_append. }
      by rewrite <- Hp.
    + rewrite app_assoc. split.
      * apply NoDup_app. split; [done|]. split; [|apply NoDup_singleton]. intros o Ho Hin. apply list_elem_of_singleton in Hin. subst.
        rewrite Forall_forall in Hf. specialize (Hf _ Ho). lia.
      * apply Forall_app. split; [|apply Forall_singleton; lia]. eapply Forall_impl; [exact Hf|]. simpl. lia.
  - destruct (l !! i) as [obj|] eqn:Hi; [|done]. injection Hs as <-. unfold unshared. simpl.
    destruct (Put_pool obj now p) as [Hpool ->]. assert (Hp : pool p ++ l ≡ₚ obj :: pool p ++ delete i l).
    { rewrite (delete_Permutation _ _ _ Hi) at 1. symmetry. apply Permutation_middle. }
    rewrite Hp in Hn, Hf. destruct Hpool as [-> | ->].
    + assert (Hq : (pool p ++ [obj]) ++ delete i l ≡ₚ obj :: pool p ++ delete i l)
        by (rewrite <- app_assoc; symmetry; apply Permutation_middle). by rewrite Hq.
    + apply NoDup_cons in Hn as [_ Hn]. by apply Forall_cons in Hf as [_ Hf].
  - injection Hs as <-. by split.
  - injection Hs as <-. unfold unshared. simpl. destruct (pool p !! i) as [o|] eqn:Hi.
    + rewrite (delete_Permutation _ _ _ Hi) in Hn, Hf. simpl in Hn, Hf. apply NoDup_cons in Hn as [_ Hn]. by apply Forall_cons in Hf as [_ Hf].
    + rewrite delete_past by (by apply lookup_ge_None). by split.
Qed.

Lemma prewarm_unshared n now : forall p, unshared {| mp := p; held := [] |} ->
  unshared {| mp := prewarm n now p; held := [] |} /\ next (prewarm n now p) = (next p + n)%nat /\
  useRefCount (prewarm n now p) = useRefCount p.
Proof.
  induction n as [|n IH]; intros p Hp; [split; [done|]; split; [simpl; lia|done]|].
  set (q := snd (new_object now p)). change (prewarm (S n) now p) with (prewarm n now (Put (next p) now q)).
  destruct (Put_pool (next p) now q) as [Hpool Hnext]. destruct Hp as [Hn Hf]. simpl in Hn, Hf. rewrite app_nil_r in Hn, Hf.
  assert (Hq : unshared {| mp := Put (next p) now q; held := [] |}).
  { unfold unshared. simpl. rewrite app_nil_r, Hnext. destruct Hpool as [-> | ->]; simpl.
    - split.
      + apply NoDup_app. split; [done|]. split; [|apply NoDup_singleton]. intros o Ho Hin. apply list_elem_of_singleton in Hin. subst.
        rewrite Forall_forall in Hf. specialize (Hf _ Ho). lia.
      + apply Forall_app. split; [|apply Forall_singleton; lia]. eapply Forall_impl; [exact Hf|]. simpl. lia.
    - split; [done|]. eapply Forall_impl; [exact Hf|]. simpl. lia. }
  destruct (IH _ Hq) as (H1 & H2 & H3). split; [done|]. rewrite H2, H3, Hnext. split; [simpl; lia|].
  unfold Put. destruct (objects q !! next p), (useRefCount q) eqn:E; simpl; repeat case_bool; simpl; done.
Qed.

Lemma start_unshared has_reset o now : unshared (start has_reset o now) /\ next (mp (start has_reset o now)) = Z.to_nat (PrewarmSize o) /\
  useRefCount (mp (start has_reset o now)) = UseRefCounting o.
Proof.
  unfold start, NewMessagePool. simpl.
  match goal with |- unshared {| mp := prewarm ?n ?t ?p; held := _ |} /\ _ => pose proof (prewarm_unshared n t p) as H end.
  destruct H as (H1 & H2 & H3); [split; constructor|]. rewrite H2, H3. by split_and!.
Qed.

Lemma run_unshared es : forall u u', unshared u -> run es u = Some u' -> unshared u'.
Proof.
  induction es as [|[now e] es IH]; intros u u' Hu Hr; [by injection Hr as <-|]. cbn [run] in Hr.
  destruct (step now e u) as [u1|] eqn:Hs; [|done]. eapply IH; [|exact Hr]. by eapply step_unshared.
Qed.

(** As long as users give each message back once, a message that [Get] hands out is held by nobody else and not in the pool. *)
Theorem messages_not_shared has_reset o t es now pick u : run es (start has_reset o t) = Some u ->
  let '(obj, p) := Get pick now (mp u) in (obj ∉ held u) /\ (obj ∉ pool p) /\ NoDup (held u).
Proof.
  intros Hr. pose proof (run_unshared _ _ _ (proj1 (start_unshared has_reset o t)) Hr) as Hu.
  destruct (Get pick now (mp u)) as [obj p] eqn:Hg. assert (Hs : step now (EGet pick) u = Some {| mp := p; held := held u ++ [obj] |})
    by (cbn [step]; by rewrite Hg).
  destruct (step_unshared _ _ _ _ Hu Hs) as [Hn _]. simpl in Hn. rewrite app_assoc in Hn. apply NoDup_app in Hn as (Hn & Hd & _).
  assert (Hout : obj ∉ pool p ++ held u) by (intros Hin; apply (Hd _ Hin); by left).
  split; [intros Hin; apply Hout, elem_of_app; by right|]. split; [intros Hin; apply Hout, elem_of_app; by left|].
  by apply NoDup_app in Hn as (_ & _ & ?).
Qed.

(** With reference counts: an object made by [Get] counts its maker as well as its
    user, so that its count never reaches zero. *)
Definition leaking (np : nat) (u : users) : Prop :=
  useRefCount (mp u) = true /\ (np <= next (mp u))%nat /\ Forall (fun o => (o < np)%nat) (pool (mp u)) /\
  forall o, (np <= o < next (mp u))%nat -> exists po, objects (mp u) !! o = Some po /\ refCount po = if decide (o ∈ held u) then 2 else 1.

Lemma Put_objects_ne obj now p o : o <> obj -> objects (Put obj now p) !! o = objects p !! o.
Proof.
  intros Hne. unfold Put. destruct (objects p !! obj), (useRefCount p); simpl; repeat case_bool; simpl;
    rewrite ?lookup_insert_ne, ?lookup_delete_ne; done.
Qed.

Lemma Put_refcount obj now p : useRefCount (Put obj now p) = useRefCount p.
Proof. unfold Put. destruct (objects p !! obj), (useRefCount p) eqn:E; simpl; repeat case_bool; done. Qed.

Lemma Get_objects_ne pick now p o : o <> (Get pick now p).1 -> objects (Get pick now p).2 !! o = objects p !! o.
Proof.
  unfold Get. destruct (take_item pick (pool p)) as [[obj rest]|]; unfold run_reset; simpl; destruct (_ && _); simpl;
    destruct (useRefCount p); simpl; try (destruct (objects p !! obj)); simpl; rewrite ?lookup_insert_eq; simpl; intros Hne;
    rewrite ?lookup_insert_ne by done; done.
Qed.

Lemma Get_refcount pick now p : useRefCount (Get pick now p).2 = useRefCount p.
Proof.
  unfold Get. destruct (take_item pick (pool p)) as [[obj rest]|]; unfold run_reset; simpl; destruct (_ && _); simpl;
    destruct (useRefCount p) eqn:E; simpl; try (destruct (objects p !! obj)); simpl; rewrite ?lookup_insert_eq; simpl; done.
Qed.

(** What [Get] does to an object that it makes, and [Put] to one with count two. *)
Lemma Get_made pick now p : useRefCount p = true -> take_item pick (pool p) = None ->
  exists po, objects (Get pick now p).2 !! next p = Some po /\ refCount po = 2.
Proof.
  intros Hc Ht. unfold Get. rewrite Ht. unfold run_reset. simpl. destruct (_ && _); simpl; rewrite Hc, lookup_insert_eq; simpl;
    rewrite lookup_insert_eq; by eexists.
Qed.

Lemma Put_made obj now p po : useRefCount p = true -> objects p !! obj = Some po -> refCount po = 2 ->
  pool (Put obj now p) = pool p /\ exists po', objects (Put obj now p) !! obj = Some po' /\ refCount po' = 1.
Proof.
  intros Hc Ho Hr. unfold Put. rewrite Ho, Hc, Hr. change (i32 (2 - 1)) with 1. simpl. split; [done|]. rewrite lookup_insert_eq. by eexists.
Qed.

Lemma step_leaking np now e u u' : unshared u -> leaking np u -> step now e u = Some u' -> leaking np u'.
Proof.
  intros Hu (Hc & Hnp & Hpool & Ho) Hs. destruct u as [p l]. destruct e as [pick|i| |i]; cbn [step mp held] in *.
  - pose proof (Get_pool pick now p) as Hg. pose proof (Get_refcount pick now p) as Hrc. pose proof (Get_objects_ne pick now p) as Hne.
    pose proof (Get_made pick now p Hc) as Hmade. unfold leaking.
    destruct (Get pick now p) as [obj p']. cbn [fst snd] in *. injection Hs as <-. cbn [mp held].
    destruct Hg as [(o & rest & Ht & -> & -> & ->)|(Ht & -> & -> & ->)].
    + apply take_item_perm in Ht. rewrite Ht in Hpool. apply Forall_cons in Hpool as [Hlt Hpool].
      split_and!; [congruence|done|done|]. intros o' Ho'. rewrite Hne by lia. destruct (Ho o' Ho') as (po & Hpo & Hr). exists po.
      split; [done|]. rewrite Hr. destruct (decide (o' ∈ l)), (decide (o' ∈ l ++ [o])) as [Hin|Hin]; try done.
      * exfalso. apply Hin, elem_of_app. by left.
      * apply elem_of_app in Hin as [?|Hin]; [done|]. apply list_elem_of_singleton in Hin. lia.
    + split_and!; [congruence|lia|done|]. intros o' Ho'. destruct (decide (o' = next p)) as [->|Hneq].
      * destruct (Hmade Ht) as (po & Hpo & Hr).
        exists po. split; [done|]. rewrite Hr, decide_True; [done|]. apply elem_of_app. right. by left.
      * rewrite Hne by done. destruct (Ho o') as (po & Hpo & Hr); [lia|]. exists po. split; [done|]. rewrite Hr.
        destruct (decide (o' ∈ l)), (decide (o' ∈ l ++ [next p])) as [Hin|Hin]; try done.
        -- exfalso. apply Hin, elem_of_app. by left.
        -- apply elem_of_app in Hin as [?|Hin]; [done|]. by apply list_elem_of_singleton in Hin.
  - destruct (l !! i) as [obj|] eqn:Hi; [|done]. injection Hs as <-. unfold leaking. cbn [mp held]. rewrite Put_refcount.
    destruct (Put_pool obj now p) as [Hp ->]. split; [done|]. split; [done|].
    pose proof (list_elem_of_lookup_2 _ _ _ Hi) as Hin. destruct Hu as [Hn Hf]. cbn [mp held] in *.
    apply NoDup_app in Hn as (_ & _ & Hn). rewrite (delete_Permutation _ _ _ Hi) in Hn. apply NoDup_cons in Hn as [Hout _].
    assert (Hobj : (obj < next p)%nat) by (rewrite Forall_forall in Hf; apply Hf, elem_of_app; by right).
    assert (Hiff : forall o, o <> obj -> o ∈ delete i l <-> o ∈ l).
    { intros o Hne. rewrite (delete_Permutation _ _ _ Hi) at 2. rewrite elem_of_cons. intuition congruence. }
    destruct (decide (np <= obj)%nat) as [Hge|Hlt].
    + destruct (Ho obj) as (po & Hpo & Hr); [lia|]. rewrite decide_True in Hr by done.
      destruct (Put_made obj now p po Hc Hpo Hr) as [-> (po' & Hpo' & Hr')]. split; [done|]. intros o Hlo.
      destruct (decide (o = obj)) as [->|Hne].
      * exists po'. split; [done|]. by rewrite decide_False.
      * rewrite Put_objects_ne by done. destruct (Ho o Hlo) as (q & Hq & Hrq). exists q. split; [done|]. rewrite Hrq.
        apply decide_ext. by rewrite Hiff.
    + split.
      * destruct Hp as [-> | ->]; [|done]. apply Forall_app. split; [done|]. apply Forall_singleton. lia.
      * intros o Hlo. rewrite Put_objects_ne by lia. destruct (Ho o Hlo) as (q & Hq & Hrq). exists q. split; [done|]. rewrite Hrq.
        apply decide_ext. rewrite Hiff by lia. done.
  - injection Hs as <-. unfold leaking. cbn [mp held]. split; [done|]. split; [done|]. split; [done|]. intros o Hlo.
    destruct (Ho o Hlo) as (po & Hpo & Hr). exists po. split; [|done]. unfold cleanup. simpl. apply map_lookup_filter_Some. split; [done|].
    simpl. unfold expired. rewrite Hc. assert (Hpos : refCount po <=? 0 = false) by (rewrite Hr; by case_decide).
    rewrite Hpos. simpl. by rewrite !andb_false_r.
  - injection Hs as <-. unfold leaking. cbn [mp held]. split; [done|]. split; [done|]. split; [by apply Forall_delete|]. done.
Qed.

Lemma start_leaking has_reset o now : UseRefCounting o = true -> leaking (Z.to_nat (PrewarmSize o)) (start has_reset o now).
Proof.
  intros Ho. destruct (start_unshared has_reset o now) as ([_ Hf] & Hn & Hc). unfold leaking. rewrite Hn, Hc.
  split; [done|]. split; [lia|]. split; [|intros; lia]. cbn [start held] in Hf. rewrite app_nil_r, Hn in Hf. exact Hf.
Qed.

Lemma run_leaking np es : forall u u', unshared u -> leaking np u -> run es u = Some u' -> leaking np u'.
Proof.
  induction es as [|[now e] es IH]; intros u u' Hu Hl Hr; [by injection Hr as <-|]. cbn [run] in Hr.
  destruct (step now e u) as [u1|] eqn:Hs; [|done]. eapply IH; [| |exact Hr]; [by eapply step_unshared|by eapply step_leaking].
Qed.

(** With reference counts, a message that [Get] had to make never comes back to the
    pool, whoever puts it back, and is never forgotten: its count starts at one, [Get] adds one and
    [Put] takes one away. *)
Theorem created_messages_leak has_reset o t es u m : UseRefCounting o = true -> run es (start has_reset o t) = Some u ->
  (Z.to_nat (PrewarmSize o) <= m < next (mp u))%nat ->
  (m ∉ pool (mp u)) /\ exists po, objects (mp u) !! m = Some po /\ refCount po = if decide (m ∈ held u) then 2 else 1.
Proof.
  intros Ho Hr Hm. destruct (start_unshared has_reset o t) as [Hu _].
  destruct (run_leaking _ _ _ _ Hu (start_leaking has_reset o t Ho) Hr) as (_ & _ & Hp & Hobj). split; [|by apply Hobj].
  intros Hin. rewrite Forall_forall in Hp. specialize (Hp _ Hin). simpl in Hp. lia.
Qed.

(** A program that gets two messages from a pool warmed up with one and gives them back. *)
Abbreviation small := {| MaxPoolSize := 2; CleanupInterval := 0; TTL := 5; PrewarmSize := 1; UseRefCounting := true; ResetOnGet := true |}.
Abbreviation two_messages := [(1, EGet (Some 0%nat)); (2, EGet None); (3, EPut 0%nat); (4, EPut 0%nat); (9, ECleanup)].

(** The maximal size is two: the warmed-up message is destroyed, the other one leaks. *)
Example small_pool_overflows :
  (u ← run two_messages (start true small 0); Some (pool (mp u), map_to_list (objects (mp u)), resets (mp u))) =
  Some ([], [(1%nat, {| createdAt := 2; lastUsed := 2; refCount := 1 |})], [0%nat; 1%nat]).
Proof. vm_compute. reflexivity. Qed.

Lemma messages_not_shared_witness : exists u, run two_messages (start true small 0) = Some u /\
  let '(obj, p) := Get None 10 (mp u) in (obj ∉ held u) /\ (obj ∉ pool p) /\ NoDup (held u).
Proof.
  eexists. split; [vm_compute; reflexivity|]. apply (messages_not_shared true small 0 two_messages 10 None). vm_compute. reflexivity.
Defined.

Lemma created_messages_leak_witness : exists u, run two_messages (start true small 0) = Some u /\
  (1%nat ∉ pool (mp u)) /\ exists po, objects (mp u) !! 1%nat = Some po /\ refCount po = if decide (1%nat ∈ held u) then 2 else 1.
Proof.
  eexists. split; [vm_compute; reflexivity|].
  apply (created_messages_leak true small 0 two_messages _ 1%nat); [reflexivity|vm_compute; reflexivity|]. vm_compute. lia.
Defined.

End MessagesFacts.
