(* ===== verification/Scanner.v ===== *)
(** The vulnerability scanner of [src/internal/security/scanner.go]: detectors,
    the scan of one target or file, and [Scan] with its goroutines, its semaphore
    and its channel of results as a step function. *)
From S2P Require Import Prelude GoString.

(** * Severities and vulnerabilities *)

Definition SeverityCritical : string := "CRITICAL".
Definition SeverityHigh : string := "HIGH".
Definition SeverityMedium : string := "MEDIUM".
Definition SeverityLow : string := "LOW".
Definition SeverityInfo : string := "INFO".

Definition severityLevel (s : string) : Z :=
  if (s =? SeverityCritical)%string then 5 else if (s =? SeverityHigh)%string then 4
  else if (s =? SeverityMedium)%string then 3 else if (s =? SeverityLow)%string then 2
  else if (s =? SeverityInfo)%string then 1 else 0.

Definition VulnTypeTLS : string := "TLS_CONFIGURATION".
Definition VulnTypeConfiguration : string := "CONFIGURATION".
Definition VulnTypeExposure : string := "INFORMATION_EXPOSURE".

Record Vulnerability : Type := {
  ID : string; VType : string; Title : string; Description : string; VSeverity : string; Target : string;
  Evidence : string; Remediation : string; References : list string }.

(** What a detector is given: the name of a target, or the content of a file. *)
Inductive target : Type := TString (s : string) | TBytes (s : string).

(** A detector reads the world (network, clock) and may panic. *)
Record Detector (W : Type) : Type := {
  Name : string; Summary : string; Detect : target -> W -> outcome (result string (list Vulnerability)) * W }.
Arguments Name {W} d.
Arguments Summary {W} d.
Arguments Detect {W} d.

(** The default HTTP client, of which only the timeout depends on the configuration. *)
Record ScanConfig : Type := {
  Timeout : Z; Concurrency : Z; TargetHosts : list string; TargetPorts : list Z; TargetFiles : list string;
  ExcludeDetectors : list string; IncludeDetectors : list string; MinSeverity : string; HTTPClient : option Z }.

Record ScanResult : Type := {
  RTarget : string; Vulnerabilities : list Vulnerability; StartTime : Z; EndTime : Z; Duration : Z; Error : option string }.

Record Scanner (W : Type) : Type := { detectors : list (Detector W); config : ScanConfig }.
Arguments detectors {W} s.
Arguments config {W} s.

(** What the scanner asks the world for. [ctx_err] is the error of the context once it is done. *)
Class Env (W : Type) : Type := {
  clock : W -> Z * W;
  ctx_err : W -> option string;
  DialTimeout : string -> W -> option string * W;
  ReadFile : string -> W -> result string string * W }.

Section Scanner.
Context {W : Type} `{Env W}.
Implicit Types (s : Scanner W) (d : Detector W) (w : W).

Definition NewScanner (c : ScanConfig) : Scanner W :=
  let timeout := if Timeout c <=? 0 then 30 * Second else Timeout c in
  {| detectors := [];
     config := {| Timeout := timeout; Concurrency := if Concurrency c <=? 0 then 10 else Concurrency c;
                  TargetHosts := TargetHosts c; TargetPorts := TargetPorts c; TargetFiles := TargetFiles c;
                  ExcludeDetectors := ExcludeDetectors c; IncludeDetectors := IncludeDetectors c;
                  MinSeverity := MinSeverity c;
                  HTTPClient := match HTTPClient c with None => Some timeout | Some t => Some t end |} |}.

Definition RegisterDetector d s : Scanner W := {| detectors := detectors s ++ [d]; config := config s |}.

Definition getActiveDetectors s : list (Detector W) :=
  let c := config s in
  match IncludeDetectors c, ExcludeDetectors c with
  | [], [] => detectors s
  | included, excluded =>
      filter (fun d => (Name d ∉ excluded) /\ (included = [] \/ Name d ∈ included)) (detectors s)
  end.

(** The vulnerabilities that are not below the minimal severity. *)
Definition severe (min : string) (vs : list Vulnerability) : list Vulnerability :=
  if (min =? "")%string then vs else filter (fun v => severityLevel min <= severityLevel (VSeverity v)) vs.

Definition set_error (e : string) (r : ScanResult) : ScanResult :=
  {| RTarget := RTarget r; Vulnerabilities := Vulnerabilities r; StartTime := StartTime r; EndTime := EndTime r;
     Duration := Duration r; Error := Some e |}.
Definition add_found (vs : list Vulnerability) (r : ScanResult) : ScanResult :=
  {| RTarget := RTarget r; Vulnerabilities := Vulnerabilities r ++ vs; StartTime := StartTime r; EndTime := EndTime r;
     Duration := Duration r; Error := Error r |}.

(** The loop over the detectors: [break] leaves the select only. *)
Fixpoint detect_all (min : string) (ds : list (Detector W)) (t : target) (r : ScanResult) w : outcome ScanResult * W :=
  match ds with
  | [] => (Returns r, w)
  | d :: ds =>
      match ctx_err w with
      | Some e => detect_all min ds t (set_error e r) w
      | None =>
          match Detect d t w with
          | (Panics, w) => (Panics, w)
          | (Returns (Err _), w) => detect_all min ds t r w
          | (Returns (Ok vs), w) => detect_all min ds t (add_found (severe min vs) r) w
          end
      end
  end.

Definition start_result (name : string) (now : Z) : ScanResult :=
  {| RTarget := name; Vulnerabilities := []; StartTime := now; EndTime := 0; Duration := 0; Error := None |}.

Definition end_result (r : ScanResult) w : ScanResult * W :=
  let '(now, w) := clock w in
  ({| RTarget := RTarget r; Vulnerabilities := Vulnerabilities r; StartTime := StartTime r; EndTime := now;
      Duration := time_sub now (StartTime r); Error := Error r |}, w).

(** Ends the result of a scan that did not panic. *)
Definition finish (o : outcome ScanResult * W) : outcome ScanResult * W :=
  match o with
  | (Panics, w) => (Panics, w)
  | (Returns r, w) => let '(r, w) := end_result r w in (Returns r, w)
  end.

Definition scanTarget s (ds : list (Detector W)) (name : string) w : outcome ScanResult * W :=
  let '(now, w) := clock w in
  match DialTimeout name w with
  | (Some e, w) => finish (Returns (set_error ("无法连接到目标: " ++ e) (start_result name now)), w)
  | (None, w) => finish (detect_all (MinSeverity (config s)) ds (TString name) (start_result name now) w)
  end.

Definition scanFile s (ds : list (Detector W)) (path : string) w : outcome ScanResult * W :=
  let '(now, w) := clock w in
  match ReadFile path w with
  | (Err e, w) => finish (Returns (set_error ("无法读取文件: " ++ e) (start_result path now)), w)
  | (Ok content, w) => finish (detect_all (MinSeverity (config s)) ds (TBytes content) (start_result path now) w)
  end.

(** ** Scan

    One goroutine for each pair of a host and a port and for each file. *)
Inductive task : Type := ScanTarget (name : string) | ScanFile (path : string).

Definition tasks (c : ScanConfig) : list task :=
  ((fun hp => ScanTarget (hp.1 ++ ":" ++ itoa hp.2)) <$> cprod (TargetHosts c) (TargetPorts c)) ++ (ScanFile <$> TargetFiles c).

Definition scan_task s (ds : list (Detector W)) (t : task) w : outcome ScanResult * W :=
  match t with ScanTarget name => scanTarget s ds name w | ScanFile path => scanFile s ds path w end.

(** A goroutine scans, sends its result, then its deferred calls give the semaphore
    back and tell the wait group. *)
Inductive pc : Type := Scanning | Sending (r : ScanResult) | Releasing | Leaving | Gone.

Record state : Type := {
  todo : list task; procs : list (task * pc); semaphore : nat; buffer : list ScanResult; closed : bool;
  results : list ScanResult; returned : bool; crashed : bool }.

Inductive event : Type :=
| Spawn | Work (i : nat) (w : W) | Send (i : nat) | Release (i : nat) | Leave (i : nat) | CloseChannel | Receive | Return.

Definition set_procs (l : list (task * pc)) (st : state) : state :=
  {| todo := todo st; procs := l; semaphore := semaphore st; buffer := buffer st; closed := closed st;
     results := results st; returned := returned st; crashed := crashed st |}.

Definition gone (p : task * pc) : bool := match p.2 with Gone => true | _ => false end.

(** [cap] is the capacity of the semaphore and of the channel. The results are
    collected after all goroutines have been started; a panic ends the program. *)
Definition step s (ds : list (Detector W)) (e : event) (st : state) : option state :=
  let cap := Z.to_nat (Concurrency (config s)) in
  if crashed st then None else
  match e with
  | Spawn =>
      match todo st with
      | t :: ts =>
          if decide (semaphore st < cap)%nat
          then Some {| todo := ts; procs := procs st ++ [(t, Scanning)]; semaphore := S (semaphore st); buffer := buffer st;
                       closed := closed st; results := results st; returned := returned st; crashed := false |}
          else None
      | [] => None
      end
  | Work i w =>
      p ← procs st !! i;
      match p with
      | (t, Scanning) =>
          match (scan_task s ds t w).1 with
          | Returns r => Some (set_procs (<[i := (t, Sending r)]> (procs st)) st)
          | Panics => Some {| todo := todo st; procs := procs st; semaphore := semaphore st; buffer := buffer st;
                              closed := closed st; results := results st; returned := returned st; crashed := true |}
          end
      | _ => None
      end
  | Send i =>
      p ← procs st !! i;
      match p with
      | (t, Sending r) =>
          if decide (length (buffer st) < cap)%nat
          then Some {| todo := todo st; procs := <[i := (t, Releasing)]> (procs st); semaphore := semaphore st;
                       buffer := buffer st ++ [r]; closed := closed st; results := results st; returned := returned st; crashed := false |}
          else None
      | _ => None
      end
  | Release i =>
      p ← procs st !! i;
      match p with
      | (t, Releasing) =>
          Some {| todo := todo st; procs := <[i := (t, Leaving)]> (procs st); semaphore := pred (semaphore st);
                  buffer := buffer st; closed := closed st; results := results st; returned := returned st; crashed := false |}
      | _ => None
      end
  | Leave i => p ← procs st !! i; match p with (t, Leaving) => Some (set_procs (<[i := (t, Gone)]> (procs st)) st) | _ => None end
  | CloseChannel =>
      match todo st with
      | [] => if forallb gone (procs st) && negb (closed st)
              then Some {| todo := []; procs := procs st; semaphore := semaphore st; buffer := buffer st; closed := true;
                           results := results st; returned := returned st; crashed := false |}
              else None
      | _ => None
      end
  | Receive =>
      match todo st, buffer st with
      | [], r :: rs => Some {| todo := []; procs := procs st; semaphore := semaphore st; buffer := rs; closed := closed st;
                               results := results st ++ [r]; returned := returned st; crashed := false |}
      | _, _ => None
      end
  | Return =>
      match todo st, buffer st with
      | [], [] => if closed st && negb (returned st)
                  then Some {| todo := []; procs := procs st; semaphore := semaphore st; buffer := []; closed := true;
                               results := results st; returned := true; crashed := false |}
                  else None
      | _, _ => None
      end
  end.

Fixpoint run s (ds : list (Detector W)) (es : list event) (st : state) : option state :=
  match es with [] => Some st | e :: es => st' ← step s ds e st; run s ds es st' end.

Definition start (ts : list task) : state :=
  {| todo := ts; procs := []; semaphore := 0; buffer := []; closed := false; results := []; returned := false; crashed := false |}.

(** [Scan], while the events [es] happen; [None]: it has not returned. *)
Definition Scan s (es : list event) : option (outcome (result string (list ScanResult))) :=
  match getActiveDetectors s with
  | [] => Some (Returns (Err "没有可用的检测器"))
  | ds =>
      st ← run s ds es (start (tasks (config s)));
      if crashed st then Some Panics else if returned st then Some (Returns (Ok (results st))) else None
  end.

End Scanner.

(** * Facts: one target *)
Module ScanFacts.

Section Facts.
Context {W : Type} `{Env W}.
Implicit Types (s : Scanner W) (d : Detector W) (w : W) (ds : list (Detector W)).

(** The detectors that run are those that are not excluded, and that are included if any are. *)
Lemma active_iff s d : d ∈ getActiveDetectors s <->
  d ∈ detectors s /\ (Name d ∉ ExcludeDetectors (config s)) /\ (IncludeDetectors (config s) = [] \/ Name d ∈ IncludeDetectors (config s)).
Proof.
  unfold getActiveDetectors. destruct (IncludeDetectors (config s)) as [|x xs], (ExcludeDetectors (config s)) as [|y ys];
    rewrite ?list_elem_of_filter; try tauto. split; [|tauto]. intros Hd. split; [done|]. split; [by intros ?%elem_of_nil|by left].
Qed.

(** What a scan may report: a vulnerability that a detector found, severe enough. *)
Definition justified (min : string) ds (t : target) (v : Vulnerability) : Prop :=
  exists d w vs, d ∈ ds /\ (Detect d t w).1 = Returns (Ok vs) /\ v ∈ vs /\ (min = ""%string \/ severityLevel min <= severityLevel (VSeverity v)).

Lemma severe_spec min vs v : v ∈ severe min vs -> v ∈ vs /\ (min = ""%string \/ severityLevel min <= severityLevel (VSeverity v)).
Proof.
  unfold severe. destruct (String.eqb_spec min "") as [->|]; [tauto|]. intros [??]%list_elem_of_filter. tauto.
Qed.

Lemma detect_all_justified min all t ds : forall r r' w w', (forall d, d ∈ ds -> d ∈ all) ->
  Forall (justified min all t) (Vulnerabilities r) -> detect_all min ds t r w = (Returns r', w') ->
  Forall (justified min all t) (Vulnerabilities r') /\ RTarget r' = RTarget r.
Proof.
  induction ds as [|d ds IH]; intros r r' w w' Hall Hr He; [by injection He as <- _|]. cbn [detect_all] in He.
  assert (Hds : forall d', d' ∈ ds -> d' ∈ all) by (intros d' Hd'; apply Hall; by right).
  destruct (ctx_err w) as [e|]; [by apply (IH (set_error e r) _ _ _ Hds Hr He)|]. destruct (Detect d t w) as [[[vs|e]|] w1] eqn:Hd; [|exact (IH _ _ _ _ Hds Hr He)|done].
  eapply IH in He; [exact He|done|]. simpl. apply Forall_app. split; [done|]. rewrite Forall_forall. intros v Hv.
  apply severe_spec in Hv as [Hv Hmin]. exists d, w, vs. rewrite Hd. split; [apply Hall; by left|done].
Qed.

Definition target_name (t : task) : string := match t with ScanTarget n => n | ScanFile n => n end.

(** What a scan reports was found by one of the detectors on that target and is not below the minimal severity. *)
Lemma scan_task_justified s ds t w r : (scan_task s ds t w).1 = Returns r ->
  RTarget r = target_name t /\ exists x, Forall (justified (MinSeverity (config s)) ds x) (Vulnerabilities r).
Proof.
  assert (Hend : forall o r w, (finish (o, w)).1 = Returns r -> exists r0, o = Returns r0 /\ RTarget r = RTarget r0 /\ Vulnerabilities r = Vulnerabilities r0).
  { intros o r0 w0. unfold finish, end_result. destruct o as [r1|]; [|done]. destruct (clock w0). intros [= <-]. by exists r1. }
  destruct t as [name|path]; unfold scan_task, scanTarget, scanFile; destruct (clock w) as [now w1].
  - destruct (DialTimeout name w1) as [[e|] w2].
    + intros (r0 & Hr0 & -> & ->)%Hend. injection Hr0 as <-. split; [done|]. exists (TString ""). constructor.
    + destruct (detect_all _ ds _ _ w2) as [o w3] eqn:Hd. intros (r0 & -> & -> & ->)%Hend.
      apply (detect_all_justified _ ds) in Hd as [Hf ->]; [|done|constructor]. split; [done|]. by eexists.
  - destruct (ReadFile path w1) as [[c|e] w2]; [|intros (r0 & Hr0 & -> & ->)%Hend; injection Hr0 as <-; split; [done|]; exists (TString ""); constructor].
    destruct (detect_all _ ds _ _ w2) as [o w3] eqn:Hd. intros (r0 & -> & -> & ->)%Hend.
    apply (detect_all_justified _ ds) in Hd as [Hf ->]; [|done|constructor]. split; [done|]. by eexists.
Qed.

End Facts.
End ScanFacts.

(** * Facts: the goroutines of a scan *)
Module RunFacts.

Section Facts.
Context {W : Type} `{Env W}.
Context (s : Scanner W) (ds : list (Detector W)).
Notation cap := (Z.to_nat (Concurrency (config s))).
Implicit Type st : state.

(** A goroutine that holds the semaphore, and one that has sent its result. *)
Definition holds (p : task * pc) : Z := match p.2 with Scanning | Sending _ | Releasing => 1 | Leaving | Gone => 0 end.
Definition sent (p : task * pc) : Z := match p.2 with Scanning | Sending _ => 0 | Releasing | Leaving | Gone => 1 end.

(** A result that the scan of a task can have. *)
Definition result_of (t : task) (r : ScanResult) : Prop := exists w, (scan_task s ds t w).1 = Returns r.

Definition pending_ok (p : task * pc) : Prop := match p.2 with Sending r => result_of p.1 r | _ => True end.

(** The results received and in the channel are those of the goroutines that sent one. *)
Definition accounted st : Prop :=
  exists l, results st ++ buffer st = l.*2 /\ Forall (fun x : task * ScanResult => result_of x.1 x.2) l /\
    l.*1 ≡ₚ (filter (fun p => sent p = 1) (procs st)).*1.

(** Nothing is collected before all goroutines run. *)
Definition phases st : Prop :=
  (todo st <> [] -> results st = [] /\ closed st = false) /\
  (closed st = true -> Forall (fun p => p.2 = Gone) (procs st)) /\
  (returned st = true -> closed st = true /\ todo st = [] /\ buffer st = []).

Definition counted st : Prop :=
  Z.of_nat (semaphore st) = sum_of holds (procs st) /\ (semaphore st <= cap)%nat /\ (length (buffer st) <= cap)%nat /\
  Z.of_nat (length (results st) + length (buffer st)) = sum_of sent (procs st).

Definition sound (ts : list task) st : Prop :=
  (procs st).*1 ++ todo st = ts /\ Forall pending_ok (procs st) /\ accounted st /\ phases st /\ counted st.

Lemma fst_insert (l : list (task * pc)) i t p q : l !! i = Some (t, p) -> (<[i := (t, q)]> l).*1 = l.*1.
Proof. intros Hi. rewrite list_fmap_insert. simpl. apply list_insert_id. by rewrite list_lookup_fmap, Hi. Qed.

Lemma sent_insert (l : list (task * pc)) i t p q : l !! i = Some (t, p) -> sent (t, p) = 0 -> sent (t, q) = 1 ->
  (filter (fun p => sent p = 1) (<[i := (t, q)]> l)).*1 ≡ₚ t :: (filter (fun p => sent p = 1) l).*1.
Proof.
  intros Hi Hp Hq. assert (Hlt : (i < length l)%nat) by (apply lookup_lt_is_Some; by eexists).
  rewrite <- (take_drop_middle l i (t, p) Hi) at 2. rewrite insert_take_drop by done.
  rewrite !filter_app, !filter_cons, Hp, Hq. simpl. rewrite !fmap_app. simpl. symmetry. apply Permutation_middle.
Qed.

Lemma same_insert (l : list (task * pc)) i t p q : l !! i = Some (t, p) -> sent (t, q) = sent (t, p) ->
  (filter (fun p => sent p = 1) (<[i := (t, q)]> l)).*1 = (filter (fun p => sent p = 1) l).*1.
Proof.
  intros Hi Hq. assert (Hlt : (i < length l)%nat) by (apply lookup_lt_is_Some; by eexists).
  rewrite <- (take_drop_middle l i (t, p) Hi) at 2. rewrite insert_take_drop by done.
  rewrite !filter_app, !filter_cons, Hq. case_decide; by rewrite ?fmap_app.
Qed.

Lemma running st i t p : phases st -> procs st !! i = Some (t, p) -> p <> Gone -> closed st = false /\ returned st = false.
Proof.
  intros (_ & H2 & H3) Hi Hp. assert (Hc : closed st = false).
  { destruct (closed st); [|done]. specialize (H2 eq_refl). by apply (Forall_lookup_1 _ _ _ _ H2) in Hi. }
  split; [done|]. destruct (returned st); [|done]. specialize (H3 eq_refl). intuition congruence.
Qed.

Lemma holds_nonneg l : 0 <= sum_of holds l.
Proof. apply sum_of_nonneg, Forall_true. intros [? []]; unfold holds; simpl; lia. Qed.

Lemma holds_pos l i p : l !! i = Some p -> holds p = 1 -> 1 <= sum_of holds l.
Proof.
  intros Hi Hp. pose proof (sum_of_insert holds l i p (p.1, Gone) Hi) as Hg. pose proof (holds_nonneg (<[i := (p.1, Gone)]> l)) as Hn.
  rewrite Hp in Hg. change (holds (p.1, Gone)) with 0 in Hg. lia.
Qed.

Lemma scan_start_sound ts : sound ts (start ts).
Proof.
  split_and!; simpl; [done|constructor|by exists []|by split_and!|]. unfold counted. simpl. unfold sum_of, sumZ. simpl. lia.
Qed.

(** A step of one goroutine, from [p] to [q], with what it does to the semaphore and the channel. *)
Lemma move_sound ts st i t p q sem buf c : sound ts st -> procs st !! i = Some (t, p) -> p <> Gone -> pending_ok (t, q) ->
  Z.of_nat sem = Z.of_nat (semaphore st) + (holds (t, q) - holds (t, p)) -> (sem <= semaphore st)%nat ->
  (sent (t, q) = sent (t, p) /\ buf = buffer st \/
   sent (t, p) = 0 /\ sent (t, q) = 1 /\ (length (buffer st) < cap)%nat /\ exists r, result_of t r /\ buf = buffer st ++ [r]) ->
  sound ts {| todo := todo st; procs := <[i := (t, q)]> (procs st); semaphore := sem; buffer := buf; closed := closed st;
              results := results st; returned := returned st; crashed := c |}.
Proof.
  intros (Ht & Hpend & (l & Hl & Hr & Hperm) & Hph & C1 & C2 & C3 & C4) Hi Hp Hq Hsem Hle Hbuf.
  destruct (running _ _ _ _ Hph Hi Hp) as [Hncl Hnret]. split_and!; simpl.
  - by erewrite fst_insert.
  - by apply Forall_insert.
  - destruct Hbuf as [[Hs ->]|(Hs0 & Hs1 & Hlt & r & Hres & ->)].
    + exists l. split_and!; [done..|]. simpl. by erewrite same_insert.
    + exists (l ++ [(t, r)]). simpl. rewrite !fmap_app, app_assoc. split; [by rewrite Hl|].
      split; [apply Forall_app; by repeat constructor|]. erewrite sent_insert by done. rewrite <- Hperm. symmetry. apply Permutation_cons_append.
  - destruct Hph as (H1 & H2 & H3). split_and!; simpl; [done|intros; congruence|intros; congruence].
  - unfold counted. simpl. rewrite !(sum_of_insert _ _ _ _ _ Hi).
    destruct Hbuf as [[Hs ->]|(Hs0 & Hs1 & Hlt & r & Hres & ->)]; [|rewrite length_app; simpl]; lia.
Qed.

Lemma scan_step_sound ts e st st' : sound ts st -> step s ds e st = Some st' -> sound ts st'.
Proof.
  intros Hsound Hs. pose proof Hsound as (Ht & Hpend & Hacc & Hph & Hcnt). unfold step in Hs. destruct (crashed st) eqn:Hcr; [done|]. destruct e as [|i w|i|i|i| | |].
  - destruct (todo st) as [|t tds] eqn:Htodo; [done|]. case_decide as Hsem; [|done]. injection Hs as <-.
    destruct Hph as (H1 & H2 & H3), Hcnt as (C1 & C2 & C3 & C4). rewrite Htodo in H1. destruct H1 as [Hres Hcl]; [done|]. split_and!; simpl.
    + rewrite fmap_app, <- app_assoc. exact Ht.
    + apply Forall_app. by repeat constructor.
    + destruct Hacc as (l & Hl & Hr & Hperm). exists l. split; [done|]. split; [done|]. simpl. rewrite filter_app, fmap_app, filter_cons.
      simpl. by rewrite app_nil_r.
    + split_and!; simpl; [by intros _|intros; congruence|intros Hret; specialize (H3 Hret); intuition congruence].
    + unfold counted. simpl. rewrite !sum_of_app. unfold sum_of, sumZ, holds, sent in *. simpl. lia.
  - destruct (procs st !! i) as [[t [|r| | |]]|] eqn:Hi; cbn in Hs; [|done..].
    destruct (scan_task s ds t w).1 as [r|] eqn:Hr; injection Hs as <-; [|done].
    eapply move_sound; [done|exact Hi|done|by exists w|unfold holds; simpl; lia|lia|by left].
  - destruct (procs st !! i) as [[t [|r| | |]]|] eqn:Hi; cbn in Hs; [done| |done..]. case_decide as Hbuf; [|done]. injection Hs as <-.
    eapply move_sound; [done|exact Hi|done|done|unfold holds; simpl; lia|lia|]. right. split_and!; [done..|]. exists r. split; [|done].
    by apply (Forall_lookup_1 _ _ _ _ Hpend) in Hi.
  - destruct (procs st !! i) as [[t [|r| | |]]|] eqn:Hi; cbn in Hs; [done|done| |done..]. injection Hs as <-.
    pose proof (holds_pos _ _ _ Hi eq_refl) as Hpos. destruct Hcnt as (C1 & _).
    eapply move_sound; [done|exact Hi|done|done|unfold holds; simpl; lia|lia|by left].
  - destruct (procs st !! i) as [[t [|r| | |]]|] eqn:Hi; cbn in Hs; [done..| |done|done]. injection Hs as <-.
    eapply move_sound; [done|exact Hi|done|done|unfold holds; simpl; lia|lia|by left].
  - destruct (todo st) eqn:Htodo; [|done]. destruct (forallb gone (procs st)) eqn:Hg; [|done]. destruct (closed st) eqn:Hc; [done|].
    injection Hs as <-. destruct Hph as (H1 & H2 & H3). split_and!; simpl; [done..| |done]. split_and!; simpl; [done| |].
    + intros _. rewrite Forall_forall. intros [t p] Hp. rewrite forallb_forall in Hg. specialize (Hg _ (proj1 (list_elem_of_In _ _) Hp)).
      by destruct p.
    + intros Hret. specialize (H3 Hret). intuition congruence.
  - destruct (todo st) eqn:Htodo; [|done]. destruct (buffer st) as [|r rs] eqn:Hb; [done|]. injection Hs as <-.
    destruct Hph as (H1 & H2 & H3), Hcnt as (C1 & C2 & C3 & C4). split_and!; simpl; [done|done| | |].
    + destruct Hacc as (l & Hl & Hrl & Hperm). exists l. split_and!; [|done..]. simpl. rewrite <- Hl, Hb, <- app_assoc. done.
    + split_and!; simpl; [done|done|]. intros Hret. specialize (H3 Hret). rewrite Hb in H3. naive_solver.
    + unfold counted. simpl. rewrite Hb in C3, C4. simpl in *. rewrite length_app. simpl. lia.
  - destruct (todo st) eqn:Htodo; [|done]. destruct (buffer st) as [|r rs] eqn:Hb; [|done]. destruct (closed st) eqn:Hc; [|done].
    destruct (returned st); [done|]. injection Hs as <-. destruct Hph as (H1 & H2 & H3). split_and!; simpl; [done|done| | |].
    + destruct Hacc as (l & Hl & Hrl & Hperm). exists l. rewrite Hb in Hl. by split_and!.
    + split_and!; simpl; [done|by intros _; apply H2|done].
    + unfold counted in *. rewrite Hb in Hcnt. exact Hcnt.
Qed.

Lemma scan_run_sound ts es : forall st st', sound ts st -> run s ds es st = Some st' -> sound ts st'.
Proof.
  induction es as [|e es IH]; intros st st' Hst Hr; [by injection Hr as <-|]. cbn [run] in Hr.
  destruct (step s ds e st) as [st1|] eqn:Hs; [|done]. eapply IH; [|exact Hr]. by eapply scan_step_sound.
Qed.

(** ** More targets than twice the concurrency *)

Lemma length_procs (l : list (task * pc)) : Z.of_nat (length l) <= sum_of holds l + sum_of sent l.
Proof.
  induction l as [|[t p] l IH]; [done|]. rewrite !sum_of_cons. assert (1 <= holds (t, p) + sent (t, p)) by (destruct p; unfold holds, sent; simpl; lia).
  simpl length. lia.
Qed.

Lemma spawned_bound ts st : sound ts st -> todo st <> [] -> Z.of_nat (length (procs st)) <= Z.of_nat (semaphore st) + Z.of_nat cap.
Proof.
  intros (_ & _ & _ & (H1 & _) & C1 & _ & C3 & C4) Ht. destruct (H1 Ht) as [Hres _]. rewrite Hres in C4. simpl in C4.
  pose proof (length_procs (procs st)). lia.
Qed.

Lemma step_todo e st st' : step s ds e st = Some st' ->
  todo st' = todo st \/ (exists t, todo st = t :: todo st') /\ (semaphore st < cap)%nat.
Proof.
  unfold step. destruct (crashed st); [done|]. destruct e as [|i w|i|i|i| | |].
  - destruct (todo st) as [|t ts]; [done|]. case_decide; [|done]. intros [= <-]. right. split; [by exists t|done].
  - destruct (procs st !! i) as [[t []]|]; cbn; try done. case_match; intros [= <-]; by left.
  - destruct (procs st !! i) as [[t []]|]; cbn; try done. case_decide; [|done]. intros [= <-]; by left.
  - destruct (procs st !! i) as [[t []]|]; cbn; try done. intros [= <-]; by left.
  - destruct (procs st !! i) as [[t []]|]; cbn; try done. intros [= <-]; by left.
  - destruct (todo st); [|done]. case_bool; [|done]. intros [= <-]; by left.
  - destruct (todo st); [|done]. destruct (buffer st); [done|]. intros [= <-]; by left.
  - destruct (todo st); [|done]. destruct (buffer st); [|done]. case_bool; [|done]. intros [= <-]; by left.
Qed.

Lemma spawning_never_ends ts es : (2 * cap < length ts)%nat -> forall st st', sound ts st -> todo st <> [] ->
  run s ds es st = Some st' -> todo st' <> [].
Proof.
  intros Hmany. induction es as [|e es IH]; intros st st' Hst Ht Hr; [by injection Hr as <-|]. cbn [run] in Hr.
  destruct (step s ds e st) as [st1|] eqn:Hs; [|done]. assert (Hst1 : sound ts st1) by (by eapply scan_step_sound).
  apply (IH _ _ Hst1); [|exact Hr]. intros Hnil. apply step_todo in Hs as [Heq|[[t Heq] Hsem]]; [congruence|].
  pose proof (spawned_bound _ _ Hst Ht) as Hb. destruct Hst as (Hts & _). apply (f_equal length) in Hts.
  rewrite length_app, length_fmap, Heq, Hnil in Hts. simpl in Hts. lia.
Qed.

(** ** Every run is finite, and can go on until it returns *)

Definition rank (p : task * pc) : Z := match p.2 with Scanning => 5 | Sending _ => 4 | Releasing => 2 | Leaving => 1 | Gone => 0 end.
Definition missing (b : bool) : Z := if b then 0 else 1.
Definition potential st : Z :=
  6 * Z.of_nat (length (todo st)) + sum_of rank (procs st) + Z.of_nat (length (buffer st)) +
  missing (closed st) + missing (returned st) + missing (crashed st).

Lemma potential_nonneg st : 0 <= potential st.
Proof.
  unfold potential, missing. assert (0 <= sum_of rank (procs st)) by (apply sum_of_nonneg, Forall_true; intros [? []]; unfold rank; simpl; lia).
  repeat case_bool; lia.
Qed.

Lemma step_potential e st st' : step s ds e st = Some st' -> potential st' = potential st - 1.
Proof.
  unfold step. destruct (crashed st) eqn:Hcr; [done|]. destruct e as [|i w|i|i|i| | |].
  - destruct (todo st) eqn:Ht; [done|]. case_decide; [|done]. intros [= <-]. unfold potential. simpl. rewrite Ht, Hcr, sum_of_app.
    unfold sum_of at 2, sumZ, rank. simpl. lia.
  - destruct (procs st !! i) as [[t [|r| | |]]|] eqn:Hi; cbn; [|done..]. case_match; intros [= <-]; unfold potential; simpl; [|rewrite Hcr; simpl; lia].
    rewrite (sum_of_insert _ _ _ _ _ Hi), Hcr. unfold rank at 2 3. simpl. lia.
  - destruct (procs st !! i) as [[t [|r| | |]]|] eqn:Hi; cbn; [done| |done..]. case_decide; [|done]. intros [= <-]. unfold potential. simpl.
    rewrite (sum_of_insert _ _ _ _ _ Hi), Hcr, length_app. unfold rank at 2 3. simpl. lia.
  - destruct (procs st !! i) as [[t [|r| | |]]|] eqn:Hi; cbn; [done|done| |done..]. intros [= <-]. unfold potential. simpl.
    rewrite (sum_of_insert _ _ _ _ _ Hi), Hcr. unfold rank at 2 3. simpl. lia.
  - destruct (procs st !! i) as [[t [|r| | |]]|] eqn:Hi; cbn; [done..| |done|done]. intros [= <-]. unfold potential. simpl.
    rewrite (sum_of_insert _ _ _ _ _ Hi), Hcr. unfold rank at 2 3. simpl. lia.
  - destruct (todo st) eqn:Ht; [|done]. destruct (forallb gone (procs st)); [|done]. destruct (closed st) eqn:Hc; [done|]. intros [= <-].
    unfold potential. simpl. rewrite Ht, Hcr, Hc. simpl. lia.
  - destruct (todo st) eqn:Ht; [|done]. destruct (buffer st) eqn:Hb; [done|]. intros [= <-]. unfold potential. simpl. rewrite Ht, Hcr, Hb. simpl. lia.
  - destruct (todo st) eqn:Ht; [|done]. destruct (buffer st) eqn:Hb; [|done]. destruct (closed st) eqn:Hc; [|done].
    destruct (returned st) eqn:Hr; [done|]. intros [= <-]. unfold potential. simpl. rewrite Ht, Hcr, Hb, Hc, Hr. simpl. lia.
Qed.

Lemma run_potential es : forall st st', run s ds es st = Some st' -> potential st' = potential st - Z.of_nat (length es).
Proof.
  induction es as [|e es IH]; intros st st' Hr; [injection Hr as <-; simpl; lia|]. cbn [run] in Hr.
  destruct (step s ds e st) as [st1|] eqn:Hs; [|done]. apply IH in Hr. apply step_potential in Hs. simpl length. lia.
Qed.

Definition can_step st : Prop := exists e, is_Some (step s ds e st).

(** A goroutine that holds a result to send, or is gone. *)
Definition idle (p : task * pc) : bool := match p.2 with Sending _ | Gone => true | _ => false end.

Lemma busy_moves `{!Inhabited W} st : crashed st = false -> forallb idle (procs st) = true \/ can_step st.
Proof.
  intros Hcr. destruct (forallb idle (procs st)) eqn:Hall; [by left|right].
  assert (Hex : exists p, p ∈ procs st /\ idle p = false).
  { induction (procs st) as [|p l IH]; [done|]. simpl in Hall. destruct (idle p) eqn:Hp; [|exists p; split; [by left|done]].
    destruct (IH Hall) as (q & Hq & Hqi). exists q. split; [by right|done]. }
  destruct Hex as ([t p] & Hp & Hidle). apply list_elem_of_lookup in Hp as [i Hi].
  destruct p as [|r| | |]; [|done| | |done]; [exists (Work i inhabitant)|exists (Release i)|exists (Leave i)];
    unfold step; rewrite Hcr, Hi; cbn; [|by eexists|by eexists]. case_match; by eexists.
Qed.

(** A result can be sent when there is room. *)
Lemma sending_moves st : crashed st = false -> (length (buffer st) < cap)%nat -> forallb idle (procs st) = true ->
  forallb gone (procs st) = true \/ can_step st.
Proof.
  intros Hcr Hb Hidle. destruct (forallb gone (procs st)) eqn:Hall; [by left|right].
  assert (Hex : exists p, p ∈ procs st /\ exists r, p.2 = Sending r).
  { induction (procs st) as [|[t p] l IH]; [done|]. simpl in Hall, Hidle. apply andb_true_iff in Hidle as [Hp Hl].
    destruct p as [|r| | |]; [done|exists (t, Sending r); split; [by left|by exists r]|done|done|].
    destruct (IH Hl Hall) as (q & Hq & Hqi). exists q. split; [by right|done]. }
  destruct Hex as ([t p] & Hp & r & Hr). simpl in Hr. subst p. apply list_elem_of_lookup in Hp as [i Hi].
  exists (Send i). unfold step. rewrite Hcr, Hi. cbn. rewrite decide_True by done. by eexists.
Qed.

Lemma idle_procs (l : list (task * pc)) : forallb idle l = true -> Z.of_nat (length l) = sum_of holds l + sum_of sent l.
Proof.
  induction l as [|[t p] l IH]; [done|]. simpl. rewrite andb_true_iff. intros [Hp Hl]. rewrite !sum_of_cons. specialize (IH Hl).
  assert (holds (t, p) + sent (t, p) = 1) by (by destruct p). lia.
Qed.

Lemma gone_holds (l : list (task * pc)) : forallb gone l = true -> sum_of holds l = 0.
Proof.
  intros Hl. apply sum_of_zero. rewrite Forall_forall. intros [t p] Hp. rewrite forallb_forall in Hl.
  specialize (Hl _ (proj1 (list_elem_of_In _ _) Hp)). by destruct p.
Qed.

Lemma progress `{!Inhabited W} ts st : (0 < cap)%nat -> (length ts <= 2 * cap)%nat -> sound ts st -> crashed st = false -> returned st = false ->
  can_step st.
Proof.
  intros Hcap Hfew (Hts & _ & _ & (H1 & H2 & H3) & C1 & C2 & C3 & C4) Hcr Hret.
  destruct (busy_moves st Hcr) as [Hidle|?]; [|done]. pose proof (idle_procs _ Hidle) as Hlen.
  apply (f_equal length) in Hts. rewrite length_app, length_fmap in Hts. destruct (todo st) as [|t tds] eqn:Htodo.
  - destruct (buffer st) as [|r rs] eqn:Hb; [|exists Receive; unfold step; rewrite Hcr, Htodo, Hb; by eexists].
    destruct (closed st) eqn:Hcl; [exists Return; unfold step; rewrite Hcr, Htodo, Hb, Hcl, Hret; by eexists|].
    destruct (sending_moves st Hcr) as [Hg|?]; [by rewrite Hb|done| |done].
    exists CloseChannel. unfold step. rewrite Hcr, Htodo, Hg, Hcl. by eexists.
  - destruct (H1 ltac:(done)) as [Hres _]. rewrite Hres in C4. simpl in C4, Hts.
    destruct (decide (semaphore st < cap)%nat) as [Hs|Hs].
    { exists Spawn. unfold step. rewrite Hcr, Htodo, decide_True by done. by eexists. }
    destruct (decide (length (buffer st) < cap)%nat) as [Hb|Hb]; [|lia].
    destruct (sending_moves st Hcr Hb Hidle) as [Hg|?]; [|done]. apply gone_holds in Hg. lia.
Qed.

Lemma scan_run_app es es' : forall st, run s ds (es ++ es') st = (st' ← run s ds es st; run s ds es' st').
Proof. induction es as [|e es IH]; intros st; [done|]. simpl. destruct (step s ds e st); [apply IH|done]. Qed.

Lemma run_on `{!Inhabited W} ts : (0 < cap)%nat -> (length ts <= 2 * cap)%nat -> forall n st, (Z.to_nat (potential st) <= n)%nat -> sound ts st ->
  exists es st', run s ds es st = Some st' /\ (crashed st' = true \/ returned st' = true).
Proof.
  intros Hcap Hfew. induction n as [|n IH]; intros st Hn Hst; (destruct (crashed st) eqn:Hcr; [exists [], st; auto|]);
    (destruct (returned st) eqn:Hret; [exists [], st; auto|]); destruct (progress ts st) as (e & st' & Hs); try done;
    pose proof (step_potential _ _ _ Hs) as Hp; pose proof (potential_nonneg st'); [lia|].
  destruct (IH st') as (es & st2 & Hr & Hend); [lia|by eapply scan_step_sound|]. exists (e :: es), st2. simpl. by rewrite Hs.
Qed.

End Facts.
End RunFacts.

(** * Facts: Scan *)
Module ScannerFacts.
Import RunFacts.

Section Facts.
Context {W : Type} `{Env W} `{!Inhabited W}.
Implicit Types (s : Scanner W).

Lemma Scan_run s es : getActiveDetectors s <> [] -> Scan s es =
  (st ← run s (getActiveDetectors s) es (start (tasks (config s)));
   if crashed st then Some Panics else if returned st then Some (Returns (Ok (results st))) else None).
Proof. unfold Scan. by destruct (getActiveDetectors s). Qed.

Lemma Scan_results s es rs : Scan s es = Some (Returns (Ok rs)) ->
  exists l, rs = l.*2 /\ l.*1 ≡ₚ tasks (config s) /\
    Forall (fun x => exists w, (scan_task s (getActiveDetectors s) x.1 w).1 = Returns x.2) l.
Proof.
  intros Hscan. assert (Hact : getActiveDetectors s <> []) by (intros Hnil; unfold Scan in Hscan; by rewrite Hnil in Hscan).
  rewrite Scan_run in Hscan by done. destruct (run _ _ es _) as [st|] eqn:Hr; [|done]. cbn in Hscan.
  destruct (crashed st); [done|]. destruct (returned st) eqn:Hret; [|done]. injection Hscan as <-.
  destruct (scan_run_sound s _ _ _ _ _ (scan_start_sound _ _ _) Hr) as (Hts & _ & (l & Hl & Hres & Hperm) & (_ & H2 & H3) & _).
  destruct (H3 Hret) as (Hcl & Htodo & Hb). rewrite Hb, app_nil_r in Hl. rewrite Htodo, app_nil_r in Hts. exists l. split; [done|].
  split; [|done]. rewrite Hperm, <- Hts. rewrite filter_all; [done|]. eapply Forall_impl; [exact (H2 Hcl)|]. by intros [t []].
Qed.

(** C20: when [Scan] returns results, they are one for every pair of a host and a port and one for every file, each what the scan of that target gives with the active detectors. *)
Theorem scan_answers_every_target s es rs : Scan s es = Some (Returns (Ok rs)) ->
  exists l, rs = l.*2 /\ l.*1 ≡ₚ tasks (config s) /\
    Forall (fun x => exists w, (scan_task s (getActiveDetectors s) x.1 w).1 = Returns x.2) l.
Proof. apply Scan_results. Qed.

(** With more targets than twice the configured concurrency, [Scan] never returns: the results are collected only after all goroutines have been started, and by then the channel is full. *)
Theorem many_targets_deadlock s : getActiveDetectors s <> [] ->
  (2 * Z.to_nat (Concurrency (config s)) < length (tasks (config s)))%nat -> forall es o, Scan s es <> Some (Returns o).
Proof.
  intros Hact Hmany es o. rewrite Scan_run by done. destruct (run _ _ es _) as [st|] eqn:Hr; [|done]. cbn.
  destruct (crashed st); [done|]. destruct (returned st) eqn:Hret; [|done]. exfalso.
  assert (Hst : sound s (getActiveDetectors s) (tasks (config s)) st) by (eapply scan_run_sound; [apply scan_start_sound|exact Hr]).
  destruct Hst as (_ & _ & _ & (_ & _ & H3) & _). destruct (H3 Hret) as (_ & Htodo & _). revert Htodo.
  eapply spawning_never_ends; [done|apply scan_start_sound| |exact Hr]. simpl. by destruct (tasks (config s)); [simpl in Hmany; lia|].
Qed.

(** C21: with at most twice as many targets as the concurrency, however the goroutines interleave, [Scan] takes a bounded number of steps and can always go on until it returns or a detector panics. *)
Theorem few_targets_return s es st : getActiveDetectors s <> [] -> 0 < Concurrency (config s) ->
  (length (tasks (config s)) <= 2 * Z.to_nat (Concurrency (config s)))%nat ->
  run s (getActiveDetectors s) es (start (tasks (config s))) = Some st ->
  Z.of_nat (length es) <= 6 * Z.of_nat (length (tasks (config s))) + 3 /\ exists es', is_Some (Scan s (es ++ es')).
Proof.
  intros Hact Hpos Hfew Hr. split.
  - pose proof (run_potential _ _ _ _ _ Hr) as Hp. pose proof (potential_nonneg st). unfold potential in Hp at 2. simpl in Hp.
    unfold sum_of, sumZ in Hp. simpl in Hp. lia.
  - assert (Hst : sound s (getActiveDetectors s) (tasks (config s)) st) by (eapply scan_run_sound; [apply scan_start_sound|exact Hr]).
    destruct (run_on s (getActiveDetectors s) (tasks (config s))) with (n := Z.to_nat (potential st)) (st := st) as (es' & st' & Hr' & Hend); [lia|lia|done|done|].
    exists es'. rewrite Scan_run, scan_run_app, Hr by done. cbn. rewrite Hr'. cbn. destruct Hend as [-> | ->]; [by eexists|]. case_bool; by eexists.
Qed.

End Facts.
End ScannerFacts.

(** * A scan of two, and of three, hosts with a concurrency of one *)
Module Example_scan.

Definition quiet_env : Env unit :=
  {| clock := fun w => (0, w); ctx_err := fun _ => None; DialTimeout := fun _ w => (None, w); ReadFile := fun _ w => (Ok "", w) |}.
#[local] Existing Instance quiet_env.

Abbreviation finding sev t := {|
  ID := "X"; VType := VulnTypeTLS; Title := ""; Description := ""; VSeverity := sev; Target := t; Evidence := ""; Remediation := ""; References := [] |}.

(** Finds a severe and a harmless problem in every host. *)
Definition nosy : Detector unit := {|
  Name := "Nosy"; Summary := "";
  Detect := fun t w => (Returns match t with TString h => Ok [finding SeverityHigh h; finding SeverityInfo h] | TBytes _ => Err "unsupported" end, w) |}.

Definition scan_of (hosts : list string) : Scanner unit :=
  RegisterDetector nosy (NewScanner {|
    Timeout := 0; Concurrency := 1; TargetHosts := hosts; TargetPorts := [443]; TargetFiles := []; ExcludeDetectors := [];
    IncludeDetectors := ["Nosy"]; MinSeverity := SeverityLow; HTTPClient := None |}).

Definition two_goroutines : list event :=
  [Spawn; Work 0 (); Send 0; Release 0; Spawn; Leave 0; Work 1 (); Receive; Send 1; Release 1; Leave 1; CloseChannel; Receive; Return].

Abbreviation answer h := {| RTarget := h; Vulnerabilities := [finding SeverityHigh h]; StartTime := 0; EndTime := 0; Duration := 0; Error := None |}.

Example two_hosts : Scan (scan_of ["a"; "b"]) two_goroutines = Some (Returns (Ok [answer "a:443"; answer "b:443"])).
Proof. vm_compute. reflexivity. Qed.

Import ScannerFacts.

Lemma scan_answers_every_target_witness : exists l, [answer "a:443"; answer "b:443"] = l.*2 /\ l.*1 ≡ₚ [ScanTarget "a:443"; ScanTarget "b:443"] /\
  Forall (fun x => exists w, (scan_task (scan_of ["a"; "b"]) (getActiveDetectors (scan_of ["a"; "b"])) x.1 w).1 = Returns x.2) l.
Proof. apply (scan_answers_every_target (scan_of ["a"; "b"]) two_goroutines). vm_compute. reflexivity. Defined.

Lemma many_targets_deadlock_witness : forall es o, Scan (scan_of ["a"; "b"; "c"]) es <> Some (Returns o).
Proof. apply (many_targets_deadlock (scan_of ["a"; "b"; "c"])); [done|]. vm_compute. lia. Defined.

Lemma few_targets_return_witness : exists es', is_Some (Scan (scan_of ["a"; "b"]) ([Spawn; Work 0 ()] ++ es')).
Proof.
  eapply (few_targets_return (scan_of ["a"; "b"]) [Spawn; Work 0 ()]); [done|reflexivity|vm_compute; lia|vm_compute; reflexivity].
Defined.

End Example_scan.
