(* ===== verification/FieldEncryption.v ===== *)
(** Encryption of the sensitive fields of a message:
    [src/internal/security/field_encryption.go].

    A message is a tree of structs, pointers and strings; no two pointers of a
    message lead to the same struct, and no struct embeds another. *)
From S2P Require Import Prelude GoString GoCrypto.

Definition ErrInvalidKey : string := "无效的加密密钥".
Definition ErrEncryptionFailed : string := "字段加密失败".
Definition ErrDecryptionFailed : string := "字段解密失败".
Definition ErrInvalidCiphertext : string := "无效的密文格式".
Definition ErrInvalidMessageType : string := "无效的消息类型，无法处理".
Definition ErrFieldNotFound : string := "找不到指定的字段".

Definition EncryptFull : string := "encrypt".
Definition EncryptMask : string := "mask".
Definition EncryptTransport : string := "transport".

(** * Types and values *)

(** A struct has a name and fields with their [secure] tags; what a pointer leads to
    is not part of the type's tree. *)
Inductive gotype : Type :=
| GString
| GStruct (name : string) (fields : list (string * string * gotype))
| GOther (name : string).

Inductive value : Type :=
| VString (s : string)
| VStruct (name : string) (fields : list (string * string * value))
| VPtr (pointee : option value)
| VOther (name : string).

Fixpoint type_of (v : value) : gotype :=
  match v with
  | VString _ => GString
  | VStruct n fs => GStruct n ((fix go fs := match fs with [] => [] | (f, t, v) :: fs => (f, t, type_of v) :: go fs end) fs)
  | VPtr _ => GOther "*"
  | VOther n => GOther n
  end.

(** Field names that start with an upper-case letter are exported. *)
Definition exported (name : string) : bool :=
  match name with String c _ => (65 <=? nat_of_ascii c)%nat && (nat_of_ascii c <=? 90)%nat | EmptyString => false end.

Definition FieldByName (name : string) (fs : list (string * string * value)) : option value :=
  option_map snd (List.find (fun f => (f.1.1 =? name)%string) fs).

(** [getFieldValue] from a value that can be addressed or not, and that was reached
    through an unexported field or not; a pointer's target can be addressed. *)
Fixpoint getFieldValue (path : list string) (addr ro : bool) (v : value) : option (value * (bool * bool)) :=
  match path with
  | [] => Some (v, (addr, ro))
  | name :: path =>
      match v with
      | VPtr (Some (VStruct _ fs)) => field ← FieldByName name fs; getFieldValue path true (ro || negb (exported name)) field
      | VStruct _ fs => field ← FieldByName name fs; getFieldValue path addr (ro || negb (exported name)) field
      | _ => None
      end
  end.

Fixpoint update_field (name : string) (f : value -> value) (fs : list (string * string * value)) : list (string * string * value) :=
  match fs with
  | [] => []
  | (n, t, v) :: fs => if (n =? name)%string then (n, t, f v) :: fs else (n, t, v) :: update_field name f fs
  end.

(** [fieldVal.SetString] on the value that a path leads to. *)
Fixpoint set_string (path : list string) (s : string) (v : value) : value :=
  match path with
  | [] => VString s
  | name :: path =>
      match v with
      | VPtr (Some (VStruct n fs)) => VPtr (Some (VStruct n (update_field name (set_string path s) fs)))
      | VStruct n fs => VStruct n (update_field name (set_string path s) fs)
      | v => v
      end
  end.

(** * The search for tagged fields

    Paths are slices of strings: [append] writes into the array of its argument when
    that has room. *)
Module Search.

Record slice : Type := { array : nat; len : nat }.
Abbreviation heap := (list (list string)).

(** The nil slice: the array 0 has no room. *)
Definition nil_slice : slice := {| array := 0; len := 0 |}.
Definition empty_heap : heap := [[]].

Definition elements (h : heap) (s : slice) : list string := take (len s) (default [] (h !! array s)).

Section Search.
(** The capacity of the array that [append] allocates when one of capacity [c] is full. *)
Variable grow : nat -> nat.

Definition append (s : slice) (x : string) (h : heap) : slice * heap :=
  let a := default [] (h !! array s) in
  if decide (len s < length a)%nat then ({| array := array s; len := S (len s) |}, <[array s := <[len s := x]> a]> h)
  else ({| array := length h; len := S (len s) |}, h ++ [take (len s) a ++ x :: replicate (grow (length a) - S (len s)) ""]).

(** [findFields]: the tagged fields with their paths, and the heap with the arrays. *)
Fixpoint findFields (t : gotype) (prefix : slice) (h : heap) : list (slice * string) * heap :=
  match t with
  | GStruct _ fs =>
      (fix loop (fs : list (string * string * gotype)) (h : heap) : list (slice * string) * heap :=
         match fs with
         | [] => ([], h)
         | (name, tag, t) :: fs =>
             let '(here, h) := if (tag =? "")%string then ([], h) else let '(path, h) := append prefix name h in ([(path, tag)], h) in
             let '(inner, h) :=
               match t with
               | GStruct _ _ => let '(newPrefix, h) := append prefix name h in findFields t newPrefix h
               | _ => ([], h)
               end in
             let '(rest, h) := loop fs h in (here ++ inner ++ rest, h)
         end) fs h
  | _ => ([], h)
  end.

(** The fields as they read once the search is over. *)
Definition findSecureFields (t : gotype) : list (list string * string) :=
  let '(fields, h) := findFields t nil_slice empty_heap in (fun f => (elements h f.1, f.2)) <$> fields.

End Search.

(** The growth of the Go runtime for small slices. *)
Definition doubling (c : nat) : nat := match c with O => 1 | _ => 2 * c end.

End Search.

(** * The encryptor *)

(** The Go library's SHA-256 and AES-GCM, on strings of bytes. *)
Class Cipher : Type := {
  sha256 : string -> string;
  seal : string -> string -> string -> string;
  open : string -> string -> string -> option string }.

Class CipherLaws `{Cipher} : Prop := { open_seal k n d : open k n (seal k n d) = Some d }.

Definition NonceSize : nat := 12.

(** [typeFields] is keyed by the name of the type. *)
Record fieldEncryptor : Type := { key : string; typeFields : gmap string (list (list string * string)) }.

Section Encryptor.
Context `{Cipher} (grow : nat -> nat).

Definition NewFieldEncryptor (k : string) : result string fieldEncryptor :=
  if (k =? "")%string then Err ErrInvalidKey else Ok {| key := sha256 k; typeFields := ∅ |}.

Definition SetKey (k : string) (fe : fieldEncryptor) : result string unit * fieldEncryptor :=
  if (k =? "")%string then (Err ErrInvalidKey, fe) else (Ok tt, {| key := sha256 k; typeFields := typeFields fe |}).

(** A path with an option after a colon in its last part. *)
Definition parse_field (path : string) : list string * string :=
  let parts := Split path "." in
  let lastPart := List.last parts "" in
  match cut ":" lastPart with
  | None => (parts, EncryptFull)
  | Some (name, option) =>
      (removelast parts ++ [name],
       if (option =? EncryptFull)%string || (option =? EncryptMask)%string || (option =? EncryptTransport)%string then option
       else EncryptFull)
  end.

(** [RegisterType] for the type of this name, or a pointer to it. *)
Definition RegisterType (type : string) (fieldPaths : list string) (fe : fieldEncryptor) : fieldEncryptor :=
  {| key := key fe; typeFields := <[type := parse_field <$> fieldPaths]> (typeFields fe) |}.

(** [nonces] is what the random source gives; when it fails, so does the call. *)
Definition encryptValue (fe : fieldEncryptor) (nonces : list string) (plaintext : string) : result string string * list string :=
  match nonces with
  | [] => (Err ErrEncryptionFailed, [])
  | nonce :: nonces => (Ok ("enc:" ++ base64_encode (bytes_of (nonce ++ seal (key fe) nonce plaintext)))%string, nonces)
  end.

Definition decryptValue (fe : fieldEncryptor) (ciphertext : string) : result string string :=
  if negb (HasPrefix ciphertext "enc:") then Ok ciphertext
  else match base64_decode (drop_string 4 ciphertext) with
       | None => Err ErrInvalidCiphertext
       | Some decoded =>
           let decoded := string_of_bytes decoded in
           if (String.length decoded <? NonceSize)%nat then Err ErrInvalidCiphertext
           else match open (key fe) (String.substring 0 NonceSize decoded) (drop_string NonceSize decoded) with
                | None => Err ErrDecryptionFailed
                | Some plaintext => Ok plaintext
                end
       end.

Definition maskValue (value : string) : string :=
  let length := String.length value in
  if (length <=? 4)%nat then "****"
  else (String.substring 0 2 value ++ repeat_char (length - 4 - 2) "*" ++ drop_string (length - 4) value)%string.

(** The fields of the type: those registered, or those with tags, which are kept
    when there are any. *)
Definition fields_of (name : string) (t : gotype) (fe : fieldEncryptor) : list (list string * string) * fieldEncryptor :=
  match typeFields fe !! name with
  | Some fields => (fields, fe)
  | None =>
      let fields := Search.findSecureFields grow t in
      (fields, if bool_decide (fields = []) then fe else {| key := key fe; typeFields := <[name := fields]> (typeFields fe) |})
  end.

(** The loop of [Encrypt]; an error leaves the fields before it encrypted. *)
Fixpoint encrypt_fields (fe : fieldEncryptor) (fields : list (list string * string)) (addr : bool) (nonces : list string) (v : value)
  : result string unit * value * list string :=
  match fields with
  | [] => (Ok tt, v, nonces)
  | (path, opt) :: fields =>
      if (opt =? EncryptTransport)%string then encrypt_fields fe fields addr nonces v
      else match getFieldValue path addr false v with
           | Some (VString plaintext, (true, false)) =>
               if (plaintext =? "")%string then encrypt_fields fe fields addr nonces v
               else if (opt =? EncryptFull)%string then
                 match encryptValue fe nonces plaintext with
                 | (Err e, nonces) => (Err e, v, nonces)
                 | (Ok ciphertext, nonces) => encrypt_fields fe fields addr nonces (set_string path ciphertext v)
                 end
               else if (opt =? EncryptMask)%string then encrypt_fields fe fields addr nonces (set_string path (maskValue plaintext) v)
               else encrypt_fields fe fields addr nonces (set_string path "" v)
           | _ => encrypt_fields fe fields addr nonces v
           end
  end.

Fixpoint decrypt_fields (fe : fieldEncryptor) (fields : list (list string * string)) (addr : bool) (v : value) : result string unit * value :=
  match fields with
  | [] => (Ok tt, v)
  | (path, opt) :: fields =>
      if (opt =? EncryptTransport)%string || (opt =? EncryptMask)%string then decrypt_fields fe fields addr v
      else match getFieldValue path addr false v with
           | Some (VString ciphertext, (true, false)) =>
               if (ciphertext =? "")%string || negb (HasPrefix ciphertext "enc:") then decrypt_fields fe fields addr v
               else match decryptValue fe ciphertext with
                    | Err e => (Err e, v)
                    | Ok plaintext => decrypt_fields fe fields addr (set_string path plaintext v)
                    end
           | _ => decrypt_fields fe fields addr v
           end
  end.

(** A message is nil, a value, or a pointer, through which it can be set. *)
Definition message : Type := option value.

Definition Encrypt (msg : message) (nonces : list string) (fe : fieldEncryptor) : result string unit * message * list string * fieldEncryptor :=
  match msg with
  | None => (Ok tt, msg, nonces, fe)
  | Some (VStruct name fs) =>
      let '(fields, fe) := fields_of name (type_of (VStruct name fs)) fe in
      let '(r, v, nonces) := encrypt_fields fe fields false nonces (VStruct name fs) in (r, Some v, nonces, fe)
  | Some (VPtr (Some (VStruct name fs))) =>
      let '(fields, fe) := fields_of name (type_of (VStruct name fs)) fe in
      let '(r, v, nonces) := encrypt_fields fe fields true nonces (VStruct name fs) in (r, Some (VPtr (Some v)), nonces, fe)
  | Some _ => (Err ErrInvalidMessageType, msg, nonces, fe)
  end.

Definition Decrypt (msg : message) (fe : fieldEncryptor) : result string unit * message * fieldEncryptor :=
  match msg with
  | None => (Ok tt, msg, fe)
  | Some (VStruct name fs) =>
      let '(fields, fe) := fields_of name (type_of (VStruct name fs)) fe in
      let '(r, v) := decrypt_fields fe fields false (VStruct name fs) in (r, Some v, fe)
  | Some (VPtr (Some (VStruct name fs))) =>
      let '(fields, fe) := fields_of name (type_of (VStruct name fs)) fe in
      let '(r, v) := decrypt_fields fe fields true (VStruct name fs) in (r, Some (VPtr (Some v)), fe)
  | Some _ => (Err ErrInvalidMessageType, msg, fe)
  end.

(** * The interceptors

    [handler] and [invoker] are the calls they wrap; the invoker fills in the reply,
    which starts as the caller's object. The request object is the caller's own. *)
Definition UnaryServerInterceptor (handler : message -> result string message) (req : message) (nonces : list string) (fe : fieldEncryptor)
  : result string message * list string * fieldEncryptor :=
  match Decrypt req fe with
  | (Err e, _, fe) => (Err e, nonces, fe)
  | (Ok _, req, fe) =>
      match handler req with
      | Err e => (Err e, nonces, fe)
      | Ok resp =>
          match Encrypt resp nonces fe with
          | (Err e, _, nonces, fe) => (Err e, nonces, fe)
          | (Ok _, resp, nonces, fe) => (Ok resp, nonces, fe)
          end
      end
  end.

(** The error, and what is then in the caller's request and reply. *)
Definition UnaryClientInterceptor (invoker : message -> result string message) (req reply : message) (nonces : list string) (fe : fieldEncryptor)
  : result string unit * message * message * list string * fieldEncryptor :=
  match Encrypt req nonces fe with
  | (Err e, req, nonces, fe) => (Err e, req, reply, nonces, fe)
  | (Ok _, req, nonces, fe) =>
      match invoker req with
      | Err e => (Err e, req, reply, nonces, fe)
      | Ok reply =>
          let '(r, reply, fe) := Decrypt reply fe in (r, req, reply, nonces, fe)
      end
  end.

End Encryptor.

(** * Facts: reading and setting fields *)
Module ValueFacts.

Lemma find_update_same name f fs v : FieldByName name fs = Some v -> FieldByName name (update_field name f fs) = Some (f v).
Proof.
  unfold FieldByName. induction fs as [|[[n t] u] fs IH]; [done|]. simpl. destruct (String.eqb_spec n name) as [->|Hn]; simpl.
  - intros [= ->]. by rewrite String.eqb_refl.
  - intros H. rewrite (proj2 (String.eqb_neq n name) Hn). by apply IH.
Qed.

Lemma find_update_ne n m f fs : n <> m -> FieldByName n (update_field m f fs) = FieldByName n fs.
Proof.
  intros Hne. unfold FieldByName. induction fs as [|[[k t] u] fs IH]; [done|]. simpl. destruct (String.eqb_spec k m) as [->|Hk]; simpl.
  - by rewrite (proj2 (String.eqb_neq m n) ltac:(congruence)).
  - destruct (k =? n)%string; [done|exact IH].
Qed.

Lemma update_field_id name f fs v : FieldByName name fs = Some v -> f v = v -> update_field name f fs = fs.
Proof.
  unfold FieldByName. induction fs as [|[[n t] u] fs IH]; [done|]. simpl. destruct (n =? name)%string; simpl.
  - intros [= ->] ->. done.
  - intros H Hf. f_equal. by apply IH.
Qed.

Lemma update_field_twice name f g fs v : FieldByName name fs = Some v ->
  update_field name f (update_field name g fs) = update_field name (fun _ => f (g v)) fs.
Proof.
  unfold FieldByName. induction fs as [|[[n t] u] fs IH]; [done|]. simpl. destruct (n =? name)%string eqn:E; simpl; rewrite E; simpl.
  - by intros [= ->].
  - intros H. f_equal. by apply IH.
Qed.

Lemma update_field_comm n m f g fs : n <> m -> update_field n f (update_field m g fs) = update_field m g (update_field n f fs).
Proof.
  intros Hne. induction fs as [|[[k t] u] fs IH]; [done|]. simpl.
  destruct (k =? m)%string eqn:Em, (k =? n)%string eqn:En; simpl; rewrite ?Em, ?En; try done; [|by rewrite IH].
  apply String.eqb_eq in Em, En. congruence.
Qed.

Lemma update_field_ext name f g fs v : FieldByName name fs = Some v -> f v = g v -> update_field name f fs = update_field name g fs.
Proof.
  unfold FieldByName. induction fs as [|[[n t] u] fs IH]; [done|]. simpl. destruct (n =? name)%string; simpl.
  - by intros [= ->] ->.
  - intros H Hf. f_equal. by apply IH.
Qed.

(** The values that can have fields, seen through a pointer or not. *)
Definition is_text (path : list string) (v : value) : Prop := exists addr ro x fl, getFieldValue path addr ro v = Some (VString x, fl).

Inductive struct_like : value -> list (string * string * value) -> (list (string * string * value) -> value) -> Prop :=
| by_value n fs : struct_like (VStruct n fs) fs (VStruct n)
| by_pointer n fs : struct_like (VPtr (Some (VStruct n fs))) fs (fun fs => VPtr (Some (VStruct n fs))).

Lemma set_struct v fs mk name path s : struct_like v fs mk -> set_string (name :: path) s v = mk (update_field name (set_string path s) fs).
Proof. by destruct 1. Qed.

Lemma mk_struct v fs mk fs' : struct_like v fs mk -> struct_like (mk fs') fs' mk.
Proof. destruct 1; constructor. Qed.

Lemma text_struct name path v : is_text (name :: path) v -> exists fs mk field, struct_like v fs mk /\ FieldByName name fs = Some field /\ is_text path field.
Proof.
  intros (addr & ro & x & fl & Hget). destruct v as [s|n fs|[[s|n fs|p|o]|]|o]; try done; simpl in Hget;
    (destruct (FieldByName name fs) as [field|] eqn:Hf; [|done]); simpl in Hget; exists fs; eexists; exists field;
    (split; [constructor|]); (split; [done|]); by do 4 eexists.
Qed.

Lemma get_struct_some v fs mk name path addr ro field : struct_like v fs mk -> FieldByName name fs = Some field ->
  exists addr', getFieldValue (name :: path) addr ro v = getFieldValue path addr' (ro || negb (exported name)) field /\
    forall fs' field', FieldByName name fs' = Some field' ->
      getFieldValue (name :: path) addr ro (mk fs') = getFieldValue path addr' (ro || negb (exported name)) field'.
Proof.
  intros Hst Hf. destruct Hst as [n fs|n fs]; eexists; simpl; rewrite Hf; (split; [reflexivity|]); intros fs' field' ->; reflexivity.
Qed.

Lemma get_set_same p : forall v addr ro x fl s, getFieldValue p addr ro v = Some (VString x, fl) ->
  getFieldValue p addr ro (set_string p s v) = Some (VString s, fl).
Proof.
  induction p as [|name p IH]; intros v addr ro x fl s Hget; [by injection Hget as -> <-|].
  assert (Ht : is_text (name :: p) v) by (by exists addr, ro, x, fl). apply text_struct in Ht as (fs & mk & field & Hst & Hf & _).
  rewrite (set_struct _ _ _ _ _ _ Hst). destruct (get_struct_some _ _ _ _ p addr ro _ Hst Hf) as (addr' & He & He').
  rewrite (He' _ _ (find_update_same _ _ _ _ Hf)). rewrite He in Hget. by eapply IH.
Qed.

(** Setting one string leaves the others. *)
Lemma get_set_ne q : forall p v addr ro s, p <> q -> is_text q v ->
  (exists u u' fl, getFieldValue p addr ro v = Some (u, fl) /\ getFieldValue p addr ro (set_string q s v) = Some (u', fl) /\
     (forall x, u <> VString x) /\ (forall x, u' <> VString x)) \/
  getFieldValue p addr ro (set_string q s v) = getFieldValue p addr ro v.
Proof.
  induction q as [|m q IH]; intros p v addr ro s Hne Hq.
  - destruct Hq as (a & r & x & fl & [= -> _]). destruct p as [|n p]; [done|]. by right.
  - apply text_struct in Hq as (fs & mk & field & Hst & Hf & Hq). rewrite (set_struct _ _ _ _ _ _ Hst).
    destruct p as [|n p].
    + left. exists v, (mk (update_field m (set_string q s) fs)), (addr, ro). split; [done|]. split; [done|]. by destruct Hst.
    + destruct (decide (n = m)) as [->|Hnm].
      * destruct (get_struct_some _ _ _ _ p addr ro _ Hst Hf) as (addr' & -> & He').
        rewrite (He' _ _ (find_update_same _ _ _ _ Hf)). apply IH; [congruence|done].
      * right. destruct Hst; simpl; by rewrite find_update_ne.
Qed.

Lemma set_id p : forall v addr ro x fl, getFieldValue p addr ro v = Some (VString x, fl) -> set_string p x v = v.
Proof.
  induction p as [|name p IH]; intros v addr ro x fl Hget; [by injection Hget as -> _|].
  assert (Ht : is_text (name :: p) v) by (by exists addr, ro, x, fl). apply text_struct in Ht as (fs & mk & field & Hst & Hf & _).
  rewrite (set_struct _ _ _ _ _ _ Hst). destruct (get_struct_some _ _ _ _ p addr ro _ Hst Hf) as (addr' & He & _). rewrite He in Hget.
  rewrite (update_field_id _ _ _ _ Hf) by (by eapply IH). by destruct Hst.
Qed.

Lemma set_set p s t : forall v, is_text p v -> set_string p s (set_string p t v) = set_string p s v.
Proof.
  induction p as [|name p IH]; intros v Ht; [done|]. apply text_struct in Ht as (fs & mk & field & Hst & Hf & Ht).
  rewrite (set_struct _ _ _ _ _ _ Hst), (set_struct _ _ _ _ _ _ (mk_struct _ _ _ _ Hst)), (set_struct _ _ _ _ _ _ Hst).
  f_equal. rewrite (update_field_twice _ _ _ _ _ Hf), (IH _ Ht). by eapply update_field_ext.
Qed.

Lemma set_comm p s : forall q t v, p <> q -> is_text p v -> is_text q v ->
  set_string p s (set_string q t v) = set_string q t (set_string p s v).
Proof.
  induction p as [|n p IH]; intros [|m q] t v Hne Hp Hq; [done| | |].
  - destruct Hp as (a & r & x & fl & [= -> _]). by destruct Hq as (? & ? & ? & ? & ?).
  - destruct Hq as (a & r & x & fl & [= -> _]). by destruct Hp as (? & ? & ? & ? & ?).
  - apply text_struct in Hp as (fs & mk & field & Hst & Hf & Hp). apply text_struct in Hq as (fs' & mk' & field' & Hst' & Hf' & Hq).
    assert (fs' = fs) as -> by (destruct Hst; by inversion Hst').
    rewrite (set_struct _ _ _ m _ _ Hst), (set_struct _ _ _ n _ _ Hst), !(set_struct _ _ _ _ _ _ (mk_struct _ _ _ _ Hst)). f_equal.
    destruct (decide (n = m)) as [->|Hnm]; [|by apply update_field_comm].
    assert (field' = field) as -> by congruence. rewrite !(update_field_twice _ _ _ _ _ Hf).
    eapply update_field_ext; [exact Hf|]. simpl. apply IH; [congruence|done|done].
Qed.

End ValueFacts.

(** * Facts: encryption of the fields of a message *)
Module EncryptionFacts.
Import ValueFacts.

(** The string that a call can read and set at a path. *)
Definition leaf (path : list string) (addr : bool) (v : value) : option string :=
  match getFieldValue path addr false v with Some (VString s, (true, false)) => Some s | _ => None end.

Lemma leaf_get path addr v s : leaf path addr v = Some s -> getFieldValue path addr false v = Some (VString s, (true, false)).
Proof. unfold leaf. by destruct (getFieldValue path addr false v) as [[[] [[] []]]|]; try done; intros [= ->]. Qed.

Lemma leaf_text path addr v s : leaf path addr v = Some s -> is_text path v.
Proof. intros Hl. apply leaf_get in Hl. by do 4 eexists. Qed.

Lemma leaf_set_same p addr v x s : leaf p addr v = Some x -> leaf p addr (set_string p s v) = Some s.
Proof. intros Hl. unfold leaf. by rewrite (get_set_same _ _ _ _ _ _ s (leaf_get _ _ _ _ Hl)). Qed.

Lemma leaf_set_ne p q addr v s : p <> q -> is_text q v -> leaf p addr (set_string q s v) = leaf p addr v.
Proof.
  intros Hne Hq. unfold leaf. destruct (get_set_ne q p v addr false s Hne Hq) as [(u & u' & fl & -> & -> & Hu & Hu')| ->]; [|done].
  destruct u as [x| | |], u' as [x'| | |]; try done; exfalso; [by eapply Hu|by eapply Hu|by eapply Hu|by eapply Hu|by eapply Hu'..].
Qed.

Section Facts.
Context `{CipherLaws}.
Implicit Type fe : fieldEncryptor.

Definition ciphertext fe (nonce x : string) : string := ("enc:" ++ base64_encode (bytes_of (nonce ++ seal (key fe) nonce x)))%string.

Lemma decrypt_ciphertext fe nonce x : String.length nonce = NonceSize -> decryptValue fe (ciphertext fe nonce x) = Ok x.
Proof.
  intros Hn. unfold decryptValue, ciphertext. assert (HasPrefix ("enc:" ++ base64_encode (bytes_of (nonce ++ seal (key fe) nonce x))) "enc:" = true) as ->
    by apply prefix_app. change (drop_string 4 ?s) with (drop_string (String.length "enc:") s). rewrite drop_string_app, base64_roundtrip by apply bytes_of_range.
  rewrite string_of_bytes_of, length_append, Hn, (proj2 (Nat.ltb_ge _ _)) by lia. rewrite <- Hn, substring_app, drop_string_app, open_seal. done.
Qed.

Lemma ciphertext_marked fe nonce x : (ciphertext fe nonce x =? "")%string = false /\ HasPrefix (ciphertext fe nonce x) "enc:" = true.
Proof. split; [done|]. apply prefix_app. Qed.

(** The loops, by the string at the first path. *)
Lemma encrypt_cons fe path opt fields addr nonces v :
  encrypt_fields fe ((path, opt) :: fields) addr nonces v =
  if (opt =? EncryptTransport)%string then encrypt_fields fe fields addr nonces v
  else match leaf path addr v with
       | Some x =>
           if (x =? "")%string then encrypt_fields fe fields addr nonces v
           else if (opt =? EncryptFull)%string then
             match nonces with
             | [] => (Err ErrEncryptionFailed, v, [])
             | nonce :: nonces => encrypt_fields fe fields addr nonces (set_string path (ciphertext fe nonce x) v)
             end
           else if (opt =? EncryptMask)%string then encrypt_fields fe fields addr nonces (set_string path (maskValue x) v)
           else encrypt_fields fe fields addr nonces (set_string path "" v)
       | None => encrypt_fields fe fields addr nonces v
       end.
Proof.
  unfold leaf. cbn [encrypt_fields]. destruct (opt =? EncryptTransport)%string; [done|].
  destruct (getFieldValue path addr false v) as [[[] [[] []]]|]; try done. case_bool; [done|]. case_bool; [|done]. by destruct nonces.
Qed.

Lemma decrypt_cons fe path opt fields addr v :
  decrypt_fields fe ((path, opt) :: fields) addr v =
  if (opt =? EncryptTransport)%string || (opt =? EncryptMask)%string then decrypt_fields fe fields addr v
  else match leaf path addr v with
       | Some c =>
           if (c =? "")%string || negb (HasPrefix c "enc:") then decrypt_fields fe fields addr v
           else match decryptValue fe c with Err e => (Err e, v) | Ok x => decrypt_fields fe fields addr (set_string path x v) end
       | None => decrypt_fields fe fields addr v
       end.
Proof.
  unfold leaf. cbn [decrypt_fields]. case_bool; [done|]. by destruct (getFieldValue path addr false v) as [[[] [[] []]]|].
Qed.

(** A string at another path passes through the encryption of the fields. *)
Lemma encrypt_elsewhere fe fields addr p : p ∉ fields.*1 -> forall nonces v r v' nonces',
  encrypt_fields fe fields addr nonces v = (r, v', nonces') ->
  leaf p addr v' = leaf p addr v /\
  (forall x s, leaf p addr v = Some x -> encrypt_fields fe fields addr nonces (set_string p s v) = (r, set_string p s v', nonces')).
Proof.
  induction fields as [|[q opt] fields IH]; intros Hp nonces v r v' nonces' He; [by injection He as <- <- <-|].
  apply not_elem_of_cons in Hp as [Hpq Hp]. simpl in Hpq. rewrite encrypt_cons in He.
  assert (Hstep : forall x t nonces, leaf q addr v = Some x -> encrypt_fields fe fields addr nonces (set_string q t v) = (r, v', nonces') ->
    leaf p addr v' = leaf p addr v /\
    (forall y s, leaf p addr v = Some y -> encrypt_fields fe fields addr nonces (set_string q t (set_string p s v)) = (r, set_string p s v', nonces'))).
  { intros x t ns Hx Ht. destruct (IH Hp _ _ _ _ _ Ht) as [H1 H2]. rewrite leaf_set_ne in H1 by (done || by eapply leaf_text).
    split; [done|]. intros y s Hy. rewrite <- set_comm by (done || by eapply leaf_text). eapply (H2 y).
    by rewrite leaf_set_ne by (done || by eapply leaf_text). }
  assert (Hq : forall y s, leaf p addr v = Some y -> leaf q addr (set_string p s v) = leaf q addr v)
    by (intros y s Hy; apply leaf_set_ne; [congruence|by eapply leaf_text]).
  destruct (opt =? EncryptTransport)%string eqn:Et.
  { destruct (IH Hp _ _ _ _ _ He) as [H1 H2]. split; [done|]. intros x s Hx. rewrite encrypt_cons, Et. by eapply H2. }
  destruct (leaf q addr v) as [x|] eqn:Hx; [destruct (x =? "")%string eqn:Ex|].
  - destruct (IH Hp _ _ _ _ _ He) as [H1 H2]. split; [done|]. intros y s Hy. rewrite encrypt_cons, Et, (Hq y), Ex by done. by eapply H2.
  - destruct (opt =? EncryptFull)%string eqn:Ef; [destruct nonces as [|nonce nonces]|destruct (opt =? EncryptMask)%string eqn:Em].
    + injection He as <- <- <-. split; [done|]. intros y s Hy. by rewrite encrypt_cons, Et, (Hq y), Ex, Ef by done.
    + destruct (Hstep x _ _ eq_refl He) as [H1 H2]. split; [done|]. intros y s Hy. rewrite encrypt_cons, Et, (Hq y), Ex, Ef by done. by eapply H2.
    + destruct (Hstep x _ _ eq_refl He) as [H1 H2]. split; [done|]. intros y s Hy. rewrite encrypt_cons, Et, (Hq y), Ex, Ef, Em by done. by eapply H2.
    + destruct (Hstep x _ _ eq_refl He) as [H1 H2]. split; [done|]. intros y s Hy. rewrite encrypt_cons, Et, (Hq y), Ex, Ef, Em by done. by eapply H2.
  - destruct (IH Hp _ _ _ _ _ He) as [H1 H2]. split; [done|]. intros y s Hy. rewrite encrypt_cons, Et, (Hq y) by done. by eapply H2.
Qed.

(** What arrives of a value: its masked fields are masked, and fields with an option that
    is none of the three are erased. *)
Fixpoint received (fields : list (list string * string)) (addr : bool) (v : value) : value :=
  match fields with
  | [] => v
  | (p, opt) :: fields =>
      if (opt =? EncryptTransport)%string || (opt =? EncryptFull)%string then received fields addr v
      else match leaf p addr v with
           | Some x => if (x =? "")%string then received fields addr v
                       else received fields addr (set_string p (if (opt =? EncryptMask)%string then maskValue x else "") v)
           | None => received fields addr v
           end
  end.

(** Options that lose nothing. *)
Definition lossless (fields : list (list string * string)) : Prop :=
  Forall (fun f => f.2 = EncryptFull \/ f.2 = EncryptTransport) fields.

Lemma received_lossless fields addr v : lossless fields -> received fields addr v = v.
Proof. induction 1 as [|[p opt] fields Hopt _ IH]; [done|]. simpl in *. by destruct Hopt as [-> | ->]. Qed.

Lemma decrypt_encrypt_fields fe fields addr : NoDup fields.*1 -> forall nonces v,
  (length fields <= length nonces)%nat -> Forall (fun n => String.length n = NonceSize) nonces ->
  exists v' nonces', encrypt_fields fe fields addr nonces v = (Ok tt, v', nonces') /\
    decrypt_fields fe fields addr v' = (Ok tt, received fields addr v).
Proof.
  intros Hnd. induction fields as [|[p opt] fields IH]; intros nonces v Hlen Hns; [by do 2 eexists|].
  apply NoDup_cons in Hnd as [Hp Hnd]. specialize (IH Hnd). simpl in Hlen, Hp.
  assert (Hsame : exists v' ns', encrypt_fields fe fields addr nonces v = (Ok tt, v', ns') /\
    decrypt_fields fe fields addr v' = (Ok tt, received fields addr v) /\ leaf p addr v' = leaf p addr v).
  { destruct (IH nonces v) as (v' & ns' & He & Hd); [lia|done|]. exists v', ns'. destruct (encrypt_elsewhere fe fields addr p Hp _ _ _ _ _ He). done. }
  rewrite encrypt_cons. cbn [received]. destruct (opt =? EncryptTransport)%string eqn:Et.
  { destruct Hsame as (v' & ns' & He & Hd & _). exists v', ns'. split; [done|]. by rewrite decrypt_cons, Et. }
  destruct (leaf p addr v) as [x|] eqn:Hx; [destruct (x =? "")%string eqn:Ex|].
  1,3: destruct Hsame as (v' & ns' & He & Hd & Hl); exists v', ns'; (split; [done|]); rewrite decrypt_cons, Et, Hl, ?Ex;
    rewrite ?orb_true_l; cbn [orb]; by repeat case_bool.
  destruct (opt =? EncryptFull)%string eqn:Ef.
  - apply String.eqb_eq in Ef as ->. destruct nonces as [|nonce nonces]; [simpl in Hlen; lia|]. apply Forall_cons in Hns as [Hn Hns]. simpl in Hlen.
    destruct (IH nonces v) as (v' & ns' & He & Hd); [lia|done|]. destruct (encrypt_elsewhere fe fields addr p Hp _ _ _ _ _ He) as [Hl Hset].
    exists (set_string p (ciphertext fe nonce x) v'), ns'. split; [by eapply Hset|].
    assert (Hv' : leaf p addr v' = Some x) by congruence. rewrite decrypt_cons, (leaf_set_same _ _ _ _ _ Hv').
    destruct (ciphertext_marked fe nonce x) as [-> ->]. simpl. rewrite decrypt_ciphertext by done.
    rewrite set_set by (by eapply leaf_text). rewrite (set_id _ _ _ _ _ _ (leaf_get _ _ _ _ Hv')). exact Hd.
  - cbn [orb]. destruct (opt =? EncryptMask)%string eqn:Em.
    + destruct (IH nonces (set_string p (maskValue x) v)) as (v' & ns' & He & Hd); [lia|done|]. exists v', ns'. split; [done|].
      by rewrite decrypt_cons, Et, Em.
    + destruct (IH nonces (set_string p "" v)) as (v' & ns' & He & Hd); [lia|done|]. exists v', ns'. split; [done|].
      destruct (encrypt_elsewhere fe fields addr p Hp _ _ _ _ _ He) as [Hl _]. by rewrite decrypt_cons, Et, Em, Hl, (leaf_set_same _ _ _ _ _ Hx).
Qed.

(** The name of a struct stays. *)
Lemma encrypt_fields_struct fe fields addr : forall nonces n fs r v' nonces', Forall (fun f => f.1 <> []) fields ->
  encrypt_fields fe fields addr nonces (VStruct n fs) = (r, v', nonces') -> exists fs', v' = VStruct n fs'.
Proof.
  induction fields as [|[p opt] fields IH]; intros nonces n fs r v' nonces' Hp He; [injection He as _ <- _; by eexists|].
  apply Forall_cons in Hp as [Hp Hps]. simpl in Hp. assert (Hset : forall s, exists fs', set_string p s (VStruct n fs) = VStruct n fs')
    by (intros s; destruct p; [done|by eexists]).
  rewrite encrypt_cons in He. repeat case_match; try (by eapply IH); try (injection He as _ <- _; by eexists);
    match type of He with encrypt_fields _ _ _ _ (set_string _ ?t _) = _ => destruct (Hset t) as [fs' Heq]; rewrite Heq in He end; by eapply IH.
Qed.

(** A message given by a pointer, with the fields of its type, registered before or found
    by their tags, at different paths; [fe'] remembers them. *)
Definition pointed grow fe (n : string) (fs : list (string * string * value)) (fields : list (list string * string)) fe' : Prop :=
  fields_of grow n (type_of (VStruct n fs)) fe = (fields, fe') /\ NoDup fields.*1 /\ Forall (fun f => f.1 <> []) fields.

Abbreviation pointer_to v := (Some (VPtr (Some v))).

(** The fields are the same the second time, also when the values have changed. *)
Lemma fields_again grow fe n t t' fields fe' : fields_of grow n t fe = (fields, fe') -> (fields = [] -> t' = t) ->
  fields_of grow n t' fe' = (fields, fe') /\ key fe' = key fe.
Proof.
  unfold fields_of. intros Hf Hemp. destruct (typeFields fe !! n) as [l|] eqn:Hl; [injection Hf as <- <-; by rewrite Hl|].
  injection Hf as Hf <-. case_bool_decide as He.
  - rewrite Hl. rewrite (Hemp ltac:(congruence)), Hf. rewrite He in Hf. subst fields. by rewrite bool_decide_true.
  - cbn [typeFields key]. by rewrite lookup_insert_eq, Hf.
Qed.

Lemma encrypt_key fe fe' fields addr : key fe' = key fe -> forall nonces v, encrypt_fields fe' fields addr nonces v = encrypt_fields fe fields addr nonces v.
Proof.
  intros Hk. induction fields as [|[p opt] fields IH]; intros nonces v; [done|]. rewrite !encrypt_cons.
  assert (Hc : forall n x, ciphertext fe' n x = ciphertext fe n x) by (intros; unfold ciphertext; by rewrite Hk).
  repeat case_match; try done; by rewrite ?Hc, IH.
Qed.

Lemma Encrypt_Decrypt grow fe n fs fields fe' nonces : pointed grow fe n fs fields fe' -> (length fields <= length nonces)%nat ->
  Forall (fun n => String.length n = NonceSize) nonces ->
  exists msg' nonces', Encrypt grow (pointer_to (VStruct n fs)) nonces fe = (Ok tt, msg', nonces', fe') /\
    Decrypt grow msg' fe' = (Ok tt, pointer_to (received fields true (VStruct n fs)), fe').
Proof.
  intros (Hf & Hnd & Hp) Hlen Hns. destruct (decrypt_encrypt_fields fe' fields true Hnd nonces (VStruct n fs) Hlen Hns) as (v' & ns' & He & Hd).
  destruct (encrypt_fields_struct _ _ _ _ _ _ _ _ _ Hp He) as [fs' ->].
  exists (pointer_to (VStruct n fs')), ns'. unfold Encrypt, Decrypt. rewrite Hf, He. split; [done|].
  destruct (fields_again grow fe n (type_of (VStruct n fs)) (type_of (VStruct n fs')) fields fe' Hf) as [-> _]; [|by rewrite Hd].
  intros ->. by injection He as <- _.
Qed.

End Facts.
End EncryptionFacts.

(** * Facts: the search for tagged fields *)
Module SearchFacts.
Import Search.

(** What the search means: the tagged fields of a type with their paths, in order. *)
Fixpoint secure_paths (t : gotype) (prefix : list string) : list (list string * string) :=
  match t with
  | GStruct _ fs =>
      (fix loop (fs : list (string * string * gotype)) : list (list string * string) :=
         match fs with
         | [] => []
         | (name, tag, t) :: fs =>
             (if (tag =? "")%string then [] else [(prefix ++ [name], tag)]) ++ secure_paths t (prefix ++ [name]) ++ loop fs
         end) fs
  | _ => []
  end.

(** How deep the structs of a type are nested. *)
Fixpoint depth (t : gotype) : nat :=
  match t with
  | GStruct _ fs =>
      (fix loop (fs : list (string * string * gotype)) : nat := match fs with [] => 1%nat | (_, _, t) :: fs => Nat.max (S (depth t)) (loop fs) end) fs
  | _ => 0
  end.

Lemma gotype_fields_ind (P : gotype -> Prop) : P GString -> (forall n, P (GOther n)) -> (forall n, P (GStruct n [])) ->
  (forall n name tag t fs, P t -> P (GStruct n fs) -> P (GStruct n ((name, tag, t) :: fs))) -> forall t, P t.
Proof.
  intros Hs Ho Hn Hc. fix IH 1. intros [|n fs|n]; [exact Hs| |apply Ho].
  induction fs as [|[[name tag] t] fs IHfs]; [apply Hn|]. apply Hc; [apply IH|exact IHfs].
Qed.

Lemma findFields_cons grow n name tag t fs p h :
  findFields grow (GStruct n ((name, tag, t) :: fs)) p h =
  let '(here, h) := if (tag =? "")%string then ([], h) else let '(path, h) := append grow p name h in ([(path, tag)], h) in
  let '(inner, h) := match t with
                     | GStruct _ _ => let '(newPrefix, h) := append grow p name h in findFields grow t newPrefix h
                     | _ => ([], h)
                     end in
  let '(rest, h) := findFields grow (GStruct n fs) p h in (here ++ inner ++ rest, h).
Proof. reflexivity. Qed.

Lemma secure_paths_cons n name tag t fs P :
  secure_paths (GStruct n ((name, tag, t) :: fs)) P =
  (if (tag =? "")%string then [] else [(P ++ [name], tag)]) ++ secure_paths t (P ++ [name]) ++ secure_paths (GStruct n fs) P.
Proof. reflexivity. Qed.

Lemma depth_cons n name tag t fs : depth (GStruct n ((name, tag, t) :: fs)) = Nat.max (S (depth t)) (depth (GStruct n fs)).
Proof. reflexivity. Qed.

Lemma struct_depth n fs : (1 <= depth (GStruct n fs))%nat.
Proof. induction fs as [|[[name tag] t] fs IH]; [simpl; lia|]. rewrite depth_cons. lia. Qed.

Definition valid (h : heap) (s : slice) : Prop := (array s < length h)%nat.

(** A slice without room, which reads [P]. *)
Definition full (h : heap) (s : slice) (P : list string) : Prop := h !! array s = Some P /\ len s = length P.

Lemma slice_elements_app h h' s : valid h s -> elements (h ++ h') s = elements h s.
Proof. intros Hv. unfold elements. by rewrite lookup_app_l. Qed.

Lemma full_app h h' s P : full h s P -> full (h ++ h') s P.
Proof. intros [Hl Hn]. split; [by apply lookup_app_l_Some|done]. Qed.

Section Facts.
Variable grow : nat -> nat.

(** On a full slice, [append] allocates. *)
Lemma append_full p x h P : full h p P -> exists s h', append grow p x h = (s, h ++ h') /\ valid (h ++ h') s /\
  elements (h ++ h') s = P ++ [x] /\ ((grow (length P) <= S (length P))%nat -> full (h ++ h') s (P ++ [x])).
Proof.
  intros [Hl Hn]. unfold append. rewrite Hl. simpl. rewrite decide_False by lia. do 2 eexists. split; [reflexivity|].
  rewrite Hn, take_ge by lia. split; [unfold valid; simpl; rewrite length_app; simpl; lia|]. split.
  - unfold elements. simpl. rewrite list_lookup_middle by done. simpl. rewrite cons_middle, app_assoc, take_app_le by (rewrite length_app; simpl; lia).
    apply take_ge. rewrite length_app. simpl. lia.
  - intros Hg. split; simpl; [|rewrite length_app; simpl; lia]. rewrite list_lookup_middle by done.
    by replace (grow (length P) - S (length P))%nat with 0%nat by lia.
Qed.

Definition read (h : heap) (f : slice * string) : list string * string := (elements h f.1, f.2).

Lemma read_app h h' (l : list (slice * string)) : Forall (fun f => valid h f.1) l -> read (h ++ h') <$> l = read h <$> l.
Proof. intros Hl. apply list_fmap_ext. intros i f Hf. unfold read. rewrite slice_elements_app; [done|]. by apply (Forall_lookup_1 _ _ _ _ Hl) in Hf. Qed.

Lemma valid_app h h' (l : list (slice * string)) : Forall (fun f => valid h f.1) l -> Forall (fun f => valid (h ++ h') f.1) l.
Proof. intros Hl. eapply Forall_impl; [exact Hl|]. intros f Hf. unfold valid in *. rewrite length_app. lia. Qed.

(** As long as no prefix on the way has room, the search only allocates and finds
    every tagged field. *)
Lemma findFields_spec t : forall p h P, full h p P ->
  (forall i, (length P <= i < length P + depth t - 1)%nat -> (grow i <= S i)%nat) ->
  exists fields h', findFields grow t p h = (fields, h ++ h') /\ Forall (fun f => valid (h ++ h') f.1) fields /\
    read (h ++ h') <$> fields = secure_paths t P.
Proof.
  induction t as [|n|n|n name tag t fs IHt IHfs] using gotype_fields_ind; intros p h P Hf Hgrow;
    try (exists [], []; rewrite app_nil_r; by split_and!).
  rewrite findFields_cons, secure_paths_cons. rewrite depth_cons in Hgrow.
  assert (Hhere : exists here h1, (if (tag =? "")%string then ([], h) else let '(path, h) := append grow p name h in ([(path, tag)], h)) = (here, h ++ h1) /\
    Forall (fun f => valid (h ++ h1) f.1) here /\ read (h ++ h1) <$> here = if (tag =? "")%string then [] else [(P ++ [name], tag)]).
  { case_bool; [exists [], []; rewrite app_nil_r; by split_and!|]. destruct (append_full p name h P Hf) as (s & h' & -> & Hv & He & _).
    exists [(s, tag)], h'. split; [done|]. split; [by constructor|]. simpl. unfold read. simpl. by rewrite He. }
  destruct Hhere as (here & h1 & -> & Hv1 & Hr1). pose proof (full_app _ h1 _ _ Hf) as Hf1.
  assert (Hinner : exists inner h2, match t with GStruct _ _ => let '(newPrefix, h) := append grow p name (h ++ h1) in findFields grow t newPrefix h | _ => ([], h ++ h1) end =
    (inner, (h ++ h1) ++ h2) /\ Forall (fun f => valid ((h ++ h1) ++ h2) f.1) inner /\ read ((h ++ h1) ++ h2) <$> inner = secure_paths t (P ++ [name])).
  { assert (Hnone : (forall m gs, t <> GStruct m gs) \/ exists m gs, t = GStruct m gs) by (destruct t; eauto).
    destruct Hnone as [Hd|(m & gs & Ht)].
    - exists [], []. rewrite !app_nil_r. destruct t as [|m gs|]; [done|by destruct (Hd m gs)|done].
    - destruct (append_full p name (h ++ h1) P Hf1) as (s & h' & Happ & Hv & He & Hfull).
      assert (Hm : match t with GStruct _ _ => let '(newPrefix, h) := append grow p name (h ++ h1) in findFields grow t newPrefix h | _ => ([], h ++ h1) end =
        findFields grow t s ((h ++ h1) ++ h')) by (clear - Ht Happ; subst t; by rewrite Happ).
      assert (1 <= depth t)%nat by (rewrite Ht; apply struct_depth).
      destruct (IHt s ((h ++ h1) ++ h') (P ++ [name])) as (inner & h2 & Hi & Hv2 & Hr2).
      + apply Hfull, Hgrow. lia.
      + intros i. rewrite length_app. simpl. intros Hi. apply Hgrow. lia.
      + exists inner, (h' ++ h2). rewrite Hm, Hi, !app_assoc in *. by split_and!. }
  destruct Hinner as (inner & h2 & -> & Hv2 & Hr2). pose proof (full_app _ h2 _ _ Hf1) as Hf2.
  destruct (IHfs p ((h ++ h1) ++ h2) P Hf2) as (rest & h3 & -> & Hv3 & Hr3); [intros i Hi; apply Hgrow; lia|].
  exists (here ++ inner ++ rest), (h1 ++ h2 ++ h3). assert (Heq : h ++ h1 ++ h2 ++ h3 = ((h ++ h1) ++ h2) ++ h3) by (by rewrite !app_assoc).
  rewrite Heq. split; [done|]. split.
  - apply Forall_app. split; [by do 2 apply valid_app|]. apply Forall_app. split; [by apply valid_app|done].
  - rewrite !fmap_app, Hr3, (read_app _ h3 here), (read_app _ h2 here), (read_app _ h3 inner), Hr1, Hr2; [done|done|done|by apply valid_app].
Qed.

End Facts.

Lemma doubling_exact i : (i < 2)%nat -> (doubling i <= S i)%nat.
Proof. destruct i as [|[|i]]; simpl; lia. Qed.

(** C25: the tags of a type whose structs are nested at most three deep are all found, each with its own path. *)
Theorem tags_found t : (depth t <= 3)%nat -> findSecureFields doubling t = secure_paths t [].
Proof.
  intros Hd. unfold findSecureFields. destruct (findFields_spec doubling t nil_slice empty_heap []) as (fields & h' & -> & _ & Hr); [done| |exact Hr].
  intros i Hi. apply doubling_exact. simpl in Hi. lia.
Qed.

(** Four deep, the prefix has room: the paths of the fields share its array, and the
    last one written is the path of all. *)
Abbreviation deep fs := (GStruct "A" [("B", "", GStruct "B" [("C", "", GStruct "C" [("D", "", GStruct "D" fs)])])]).

Example deep_tags_clobbered :
  findSecureFields doubling (deep [("Card", "encrypt", GString); ("Name", "encrypt", GString)]) =
  [(["B"; "C"; "D"; "Name"], "encrypt"); (["B"; "C"; "D"; "Name"], "encrypt")] /\
  secure_paths (deep [("Card", "encrypt", GString); ("Name", "encrypt", GString)]) [] =
  [(["B"; "C"; "D"; "Card"], "encrypt"); (["B"; "C"; "D"; "Name"], "encrypt")].
Proof. by vm_compute. Qed.

Lemma tags_found_witness :
  findSecureFields doubling (GStruct "A" [("X", "encrypt", GString); ("B", "", GStruct "B" [("C", "mask", GStruct "C" [("D", "encrypt", GString)])])]) =
  [(["X"], "encrypt"); (["B"; "C"], "mask"); (["B"; "C"; "D"], "encrypt")].
Proof. apply (tags_found (GStruct "A" [("X", "encrypt", GString); ("B", "", GStruct "B" [("C", "mask", GStruct "C" [("D", "encrypt", GString)])])])). vm_compute. lia. Defined.

End SearchFacts.

(** * Facts: messages and calls *)
Module MessageFacts.
Import ValueFacts EncryptionFacts.

Abbreviation pointer_to v := (Some (VPtr (Some v))).

(** The mask keeps six bytes of seven or more. *)
Lemma mask_long s : (6 < String.length s)%nat ->
  maskValue s = (String.substring 0 2 s ++ repeat_char (String.length s - 6) "*" ++ drop_string (String.length s - 4) s)%string.
Proof. intros Hs. unfold maskValue. rewrite (proj2 (Nat.leb_gt _ _)) by lia. by replace (String.length s - 4 - 2)%nat with (String.length s - 6)%nat by lia. Qed.

(** Of a value of six bytes it masks nothing. *)
Lemma mask_six s : String.length s = 6%nat -> maskValue s = s.
Proof. intros Hs. do 6 (destruct s as [|? s]; [done|]). by destruct s. Qed.

Section Facts.
Context `{CipherLaws} (grow : nat -> nat).
Implicit Type fe : fieldEncryptor.

(** C13: of a message given by a pointer whose fields are at different paths, encrypting in place and decrypting what has arrived gives the message back, whatever the nonces, up to the fields with the mask option, which arrive masked, and those with an option that is none of the three, which arrive empty; both calls succeed. *)
Theorem message_roundtrip fe n fs fields fe' nonces : pointed grow fe n fs fields fe' -> (length fields <= length nonces)%nat ->
  Forall (fun n => String.length n = NonceSize) nonces ->
  exists msg' nonces', Encrypt grow (pointer_to (VStruct n fs)) nonces fe = (Ok tt, msg', nonces', fe') /\
    Decrypt grow msg' fe' = (Ok tt, pointer_to (received fields true (VStruct n fs)), fe').
Proof. apply Encrypt_Decrypt. Qed.

(** A registered message whose fields lose nothing. *)
Definition protected fe (msg : message) (fields : list (list string * string)) : Prop :=
  exists n fs, msg = pointer_to (VStruct n fs) /\ pointed grow fe n fs fields fe /\ lossless fields.

Lemma protected_roundtrip fe msg fields nonces : protected fe msg fields -> (length fields <= length nonces)%nat ->
  Forall (fun n => String.length n = NonceSize) nonces ->
  exists msg' nonces', Encrypt grow msg nonces fe = (Ok tt, msg', nonces', fe) /\ Decrypt grow msg' fe = (Ok tt, msg, fe).
Proof.
  intros (n & fs & -> & Hp & Hl) Hlen Hns. destruct (Encrypt_Decrypt grow fe n fs fields fe nonces Hp Hlen Hns) as (msg' & ns' & He & Hd).
  rewrite received_lossless in Hd by done. eauto.
Qed.

(** With the two interceptors around a call the handler works on the request as the caller built it and the caller gets the response as the handler built it, while what travels is encrypted. *)
Theorem calls_are_transparent fe handler req resp reply fields fields' nonces nonces' : protected fe req fields -> handler req = Ok resp ->
  protected fe resp fields' -> (length fields <= length nonces)%nat -> Forall (fun n => String.length n = NonceSize) nonces ->
  (length fields' <= length nonces')%nat -> Forall (fun n => String.length n = NonceSize) nonces' ->
  exists sent left, Encrypt grow req nonces fe = (Ok tt, sent, left, fe) /\
    UnaryClientInterceptor grow (fun m => (UnaryServerInterceptor grow handler m nonces' fe).1.1) req reply nonces fe = (Ok tt, sent, resp, left, fe).
Proof.
  intros Hreq Hh Hresp Hl Hn Hl' Hn'. destruct (protected_roundtrip fe req fields nonces Hreq Hl Hn) as (sent & left & He & Hd).
  destruct (protected_roundtrip fe resp fields' nonces' Hresp Hl' Hn') as (sent' & left' & He' & Hd').
  exists sent, left. split; [done|]. unfold UnaryClientInterceptor, UnaryServerInterceptor. rewrite He, Hd, Hh, He'. cbn. by rewrite Hd'.
Qed.

(** What becomes of a string that is encrypted once. *)
Lemma encrypt_at fe fields addr p x : forall nonces v v' nonces', NoDup fields.*1 -> (p, EncryptFull) ∈ fields ->
  leaf p addr v = Some x -> x <> "" -> encrypt_fields fe fields addr nonces v = (Ok tt, v', nonces') ->
  exists nonce, nonce ∈ nonces /\ leaf p addr v' = Some (ciphertext fe nonce x).
Proof.
  induction fields as [|[q opt] fields IH]; intros nonces v v' ns' Hnd Hin Hx Hne He; [by apply elem_of_nil in Hin|].
  apply NoDup_cons in Hnd as [Hq Hnd]. rewrite encrypt_cons in He. apply elem_of_cons in Hin as [[= <- <-]|Hin].
  - change (EncryptFull =? EncryptTransport)%string with false in He. change (EncryptFull =? EncryptFull)%string with true in He.
    rewrite Hx, (proj2 (String.eqb_neq x "") Hne) in He. destruct nonces as [|nonce nonces]; [done|].
    exists nonce. split; [by left|]. destruct (encrypt_elsewhere fe fields addr p Hq _ _ _ _ _ He) as [-> _]. by eapply leaf_set_same.
  - assert (Hpq : p <> q) by (intros ->; apply Hq, list_elem_of_fmap; by exists (q, EncryptFull)).
    assert (Hrest : forall ns w, leaf p addr w = leaf p addr v -> (forall n, n ∈ ns -> n ∈ nonces) -> encrypt_fields fe fields addr ns w = (Ok tt, v', ns') ->
      exists nonce, nonce ∈ nonces /\ leaf p addr v' = Some (ciphertext fe nonce x)).
    { intros ns w Hw Hns Hr. rewrite Hx in Hw. destruct (IH ns w v' ns' Hnd Hin Hw Hne Hr) as (n & Hn & Hl). exists n. eauto. }
    assert (Hset : forall t y, leaf q addr v = Some y -> leaf p addr (set_string q t v) = leaf p addr v)
      by (intros t y Hy; apply leaf_set_ne; [done|by eapply leaf_text]).
    destruct (opt =? EncryptTransport)%string; [by eapply Hrest|]. destruct (leaf q addr v) as [y|] eqn:Hy; [|by eapply Hrest].
    destruct (y =? "")%string; [by eapply Hrest|]. destruct (opt =? EncryptFull)%string; [|destruct (opt =? EncryptMask)%string].
    + destruct nonces as [|n nonces]; [done|]. eapply (Hrest nonces); [by eapply Hset|by right|exact He].
    + eapply Hrest; [by eapply Hset| |exact He]. done.
    + eapply Hrest; [by eapply Hset| |exact He]. done.
Qed.

(** In a struct that is not given by a pointer no field of its own can be set. *)
Lemma by_value_fields fe n fs fields nonces : Forall (fun f => length f.1 = 1%nat) fields ->
  encrypt_fields fe fields false nonces (VStruct n fs) = (Ok tt, VStruct n fs, nonces).
Proof.
  intros Hlen. induction Hlen as [|[p opt] fields Hp _ IH]; [done|]. rewrite encrypt_cons, IH. case_bool; [done|].
  destruct p as [|name [|]]; [done| |done]. unfold leaf. simpl. by destruct (FieldByName name fs) as [[]|].
Qed.


(** A tag that is none of the three options erases the field. *)
Lemma unknown_option_erases fe p opt fields addr nonces v x : leaf p addr v = Some x -> x <> "" ->
  opt <> EncryptFull -> opt <> EncryptMask -> opt <> EncryptTransport ->
  encrypt_fields fe ((p, opt) :: fields) addr nonces v = encrypt_fields fe fields addr nonces (set_string p "" v).
Proof.
  intros Hx Hne H1 H2 H3. rewrite encrypt_cons, Hx, (proj2 (String.eqb_neq _ _) Hne), (proj2 (String.eqb_neq _ _) H1),
    (proj2 (String.eqb_neq _ _) H2), (proj2 (String.eqb_neq _ _) H3). done.
Qed.

End Facts.

(** ** An example: a cipher that shifts nothing *)
Definition toy_cipher : Cipher :=
  {| sha256 := fun k => k; seal := fun k _ d => (k ++ d)%string;
     open := fun k _ c => if HasPrefix c k then Some (drop_string (String.length k) c) else None |}.
#[local] Existing Instance toy_cipher.
#[local] Instance toy_laws : CipherLaws.
Proof. constructor. intros k n d. simpl. unfold HasPrefix. by rewrite prefix_app, drop_string_app. Qed.

Definition user (name card : string) : message :=
  Some (VPtr (Some (VStruct "User" [("Name", "", VString name); ("Pay", "", VStruct "Pay" [("Card", "encrypt", VString card)])]))).

Definition toy_encryptor : fieldEncryptor := RegisterType "User" ["Pay.Card:encrypt"] {| key := "k"; typeFields := ∅ |}.
Abbreviation nonce12 := "nonce-nonce-".

Lemma user_pointed name card : pointed Search.doubling toy_encryptor "User" [("Name", "", VString name); ("Pay", "", VStruct "Pay" [("Card", "encrypt", VString card)])]
  [(["Pay"; "Card"], "encrypt")] toy_encryptor.
Proof. split; [reflexivity|]. split; [apply NoDup_singleton|by repeat constructor]. Qed.

Lemma user_protected name card : protected Search.doubling toy_encryptor (user name card) [(["Pay"; "Card"], "encrypt")].
Proof. do 2 eexists. split; [reflexivity|]. split; [apply user_pointed|]. constructor; [by left|done]. Qed.

(** A type that is not registered, with a masked field. *)
Abbreviation contact phone card := [("Phone", "mask", VString phone); ("Card", "encrypt", VString card)].
Abbreviation contact_fields := [(["Phone"], "mask"); (["Card"], "encrypt")].
Abbreviation fresh_encryptor := {| key := "k"; typeFields := ∅ |}.
Abbreviation used_encryptor := {| key := "k"; typeFields := <["Contact" := contact_fields]> ∅ |}.

Lemma contact_pointed phone card : pointed Search.doubling fresh_encryptor "Contact" (contact phone card) contact_fields used_encryptor.
Proof. split; [reflexivity|]. split; [|by repeat constructor]. repeat constructor; set_solver. Qed.

Lemma message_roundtrip_witness : exists msg' nonces',
  Encrypt Search.doubling (pointer_to (VStruct "Contact" (contact "5551234" "4711"))) [nonce12; nonce12] fresh_encryptor = (Ok tt, msg', nonces', used_encryptor) /\
  Decrypt Search.doubling msg' used_encryptor = (Ok tt, pointer_to (VStruct "Contact" (contact "55*1234" "4711")), used_encryptor).
Proof.
  apply (message_roundtrip Search.doubling fresh_encryptor "Contact" (contact "5551234" "4711") contact_fields used_encryptor [nonce12; nonce12] (contact_pointed _ _));
    [simpl; lia|by repeat constructor].
Defined.

Lemma calls_are_transparent_witness : exists sent left, Encrypt Search.doubling (user "Ann" "4711") [nonce12] toy_encryptor = (Ok tt, sent, left, toy_encryptor) /\
  UnaryClientInterceptor Search.doubling (fun m => (UnaryServerInterceptor Search.doubling (fun _ => Ok (user "Bob" "0815")) m [nonce12] toy_encryptor).1.1)
    (user "Ann" "4711") None [nonce12] toy_encryptor = (Ok tt, sent, user "Bob" "0815", left, toy_encryptor).
Proof.
  apply (calls_are_transparent Search.doubling toy_encryptor (fun _ => Ok (user "Bob" "0815")) _ _ None _ _ [nonce12] [nonce12] (user_protected _ _) eq_refl (user_protected _ _));
    [simpl; lia|by repeat constructor|simpl; lia|by repeat constructor].
Defined.


(** The caller's own request stays encrypted: sending it again encrypts it twice, and
    the server decrypts it once. *)
Example retried_request : exists sent, (Encrypt Search.doubling (user "Ann" "4711") [nonce12] toy_encryptor).1.1.2 = sent /\
  UnaryServerInterceptor Search.doubling Ok ((Encrypt Search.doubling sent [nonce12] toy_encryptor).1.1.2) [] toy_encryptor =
  (Err ErrEncryptionFailed, [], toy_encryptor) /\
  (Decrypt Search.doubling (Encrypt Search.doubling sent [nonce12] toy_encryptor).1.1.2 toy_encryptor).1.2 = sent /\ sent <> user "Ann" "4711".
Proof. eexists. split; [reflexivity|]. split; [vm_compute; reflexivity|]. split; [vm_compute; reflexivity|]. by vm_compute. Qed.

End MessageFacts.
