(* ===== verification/Isolation.v ===== *)
(** Service isolation: [src/internal/security/isolation.go]. The isolator checks
    the rules of an access control and then runs its decorators: rate limit,
    segregation groups, circuit breaker. *)
From S2P Require Import Prelude GoString.

Definition ErrServiceNotAllowed : string := "服务调用不被允许".
Definition ErrRateLimitExceeded : string := "超过服务调用速率限制".
Definition ErrServiceUnavailable : string := "目标服务不可用".
Definition ErrInvalidSegregationKey : string := "无效的隔离键".

(** * Identities *)

Record ServiceIdentity : Type := {
  Name : string; Namespace : string; Version : string; Roles : list string; Metadata : gmap string string }.

Definition identity_string (s : ServiceIdentity) : string := (Namespace s ++ "." ++ Name s ++ "-v" ++ Version s)%string.

(** [strings.Split(s, "-v")] *)
Fixpoint split_v (cur s : string) : list string :=
  match s with
  | EmptyString => [cur]
  | String "-" (String "v" s) => cur :: split_v EmptyString s
  | String c s => split_v (cur ++ String c EmptyString)%string s
  end.

(** * The default access control *)
Module Rules.

Record CallRecord : Type := { From : ServiceIdentity; To : ServiceIdentity; Method : string; Timestamp : Z; Duration : Z; Error : option string }.

Record DefaultAccessControl : Type := {
  rules : gmap string (gmap string (list string)); callRecords : list CallRecord; maxRecords : Z }.

Definition NewDefaultAccessControl : DefaultAccessControl := {| rules := ∅; callRecords := []; maxRecords := 1000 |}.

Definition set_rules (r : gmap string (gmap string (list string))) (ac : DefaultAccessControl) : DefaultAccessControl :=
  {| rules := r; callRecords := callRecords ac; maxRecords := maxRecords ac |}.
Definition set_records (l : list CallRecord) (ac : DefaultAccessControl) : DefaultAccessControl :=
  {| rules := rules ac; callRecords := l; maxRecords := maxRecords ac |}.

Definition AddRule (from to : ServiceIdentity) (methods : list string) (ac : DefaultAccessControl) : DefaultAccessControl :=
  let fromKey := identity_string from in
  let toRules := default ∅ (rules ac !! fromKey) in
  set_rules (<[fromKey := <[identity_string to := methods]> toRules]> (rules ac)) ac.

Definition RemoveRule (from to : ServiceIdentity) (ac : DefaultAccessControl) : DefaultAccessControl :=
  let fromKey := identity_string from in
  match rules ac !! fromKey with
  | None => ac
  | Some toRules =>
      let toRules := delete (identity_string to) toRules in
      set_rules (if decide (toRules = ∅) then delete fromKey (rules ac) else <[fromKey := toRules]> (rules ac)) ac
  end.

(** A method of a rule covers a call: the same, everything, or a prefix before a star. *)
Definition covers (method m : string) : bool :=
  (m =? "*")%string || (m =? method)%string || (HasSuffix m "*" && HasPrefix method (TrimSuffix m "*")).

Definition AllowCall (from to : ServiceIdentity) (method : string) (ac : DefaultAccessControl) : bool :=
  match rules ac !! identity_string from with
  | None => false
  | Some toRules =>
      match toRules !! identity_string to with
      | None => false
      | Some methods => match methods with [] => true | _ => existsb (covers method) methods end
      end
  end.

(** [callRecords[1:]] of an empty slice panics. *)
Definition RecordCall (record : CallRecord) (ac : DefaultAccessControl) : outcome DefaultAccessControl :=
  if maxRecords ac <=? Z.of_nat (length (callRecords ac)) then
    match callRecords ac with
    | [] => Panics
    | _ :: recent => Returns (set_records (recent ++ [record]) ac)
    end
  else Returns (set_records (callRecords ac ++ [record]) ac).

Definition GetRecords (ac : DefaultAccessControl) : list CallRecord := callRecords ac.

(** The identity that a key stands for, by its parts. *)
Definition parse_key (toKey : string) : option ServiceIdentity :=
  match Split toKey "." with
  | ns :: rest :: _ =>
      let '(name, version) := match split_v EmptyString rest with n :: v :: _ => (n, v) | _ => (rest, "") end in
      Some {| Name := name; Namespace := ns; Version := version; Roles := []; Metadata := ∅ |}
  | _ => None
  end.

(** [order] is the order in which the map is visited. *)
Definition GetAllowed (order : gmap string (list string) -> list string) (from : ServiceIdentity) (ac : DefaultAccessControl)
  : list ServiceIdentity :=
  match rules ac !! identity_string from with
  | None => []
  | Some toRules => omap parse_key (order toRules)
  end.

(** The new maximum is kept also when the slice panics. *)
Definition SetMaxRecords (max : Z) (ac : DefaultAccessControl) : outcome unit * DefaultAccessControl :=
  let ac := {| rules := rules ac; callRecords := callRecords ac; maxRecords := max |} in
  let n := Z.of_nat (length (callRecords ac)) in
  if max <? n then
    if n <? n - max then (Panics, ac) else (Returns tt, set_records (drop (Z.to_nat (n - max)) (callRecords ac)) ac)
  else (Returns tt, ac).

End Rules.

(** * The isolator and its decorators *)

(** The values of a context that are strings. *)
Abbreviation context := (gmap string string).

Class AccessControl (A : Type) : Type := {
  AllowCall : ServiceIdentity -> ServiceIdentity -> string -> A -> bool;
  RecordCall : Rules.CallRecord -> A -> outcome A;
  GetAllowed : ServiceIdentity -> A -> list ServiceIdentity }.

Class RateLimiter (L : Type) : Type := { Allow : string -> L -> bool * L; Record_ : string -> L -> L }.

Inductive CircuitBreakerState : Type := CircuitClosed | CircuitOpen | CircuitHalfOpen.

Class CircuitBreaker (B : Type) : Type := {
  AllowRequest : string -> B -> bool * B;
  RecordSuccess : string -> B -> B;
  RecordFailure : string -> string -> B -> B;
  GetState : string -> B -> CircuitBreakerState }.

Section Isolator.
Context {A L B : Type} `{AccessControl A} `{RateLimiter L} `{CircuitBreaker B}.

(** What the decorators share: a limiter, a breaker and the isolator's keys. *)
Record world : Type := { limiter : L; breaker : B; segregationKeys : gmap string string }.

Record ServiceDecorator : Type := {
  DName : string; Decorate : context -> ServiceIdentity -> string -> world -> context * option string * world }.

Record ServiceIsolator : Type := { accessControl : A; decorators : list ServiceDecorator; services : gmap string ServiceIdentity }.

Definition NewServiceIsolator (ac : A) (ds : list ServiceDecorator) : ServiceIsolator :=
  {| accessControl := ac; decorators := ds; services := ∅ |}.

Definition RegisterService (s : ServiceIdentity) (si : ServiceIsolator) : ServiceIsolator :=
  {| accessControl := accessControl si; decorators := decorators si; services := <[identity_string s := s]> (services si) |}.
Definition DeregisterService (s : ServiceIdentity) (si : ServiceIsolator) : ServiceIsolator :=
  {| accessControl := accessControl si; decorators := decorators si; services := delete (identity_string s) (services si) |}.

(** The exact name, or else the first in the map's order that contains it. *)
Definition GetService (order : gmap string ServiceIdentity -> list (string * ServiceIdentity)) (serviceName : string) (si : ServiceIsolator)
  : option ServiceIdentity :=
  match services si !! serviceName with
  | Some s => Some s
  | None => option_map snd (List.find (fun kv => Contains kv.1 serviceName) (order (services si)))
  end.

Definition set_keys (m : gmap string string) (w : world) : world := {| limiter := limiter w; breaker := breaker w; segregationKeys := m |}.
Definition RegisterSegregationKey (key group : string) (w : world) : world := set_keys (<[key := group]> (segregationKeys w)) w.
Definition RemoveSegregationKey (key : string) (w : world) : world := set_keys (delete key (segregationKeys w)) w.
Definition GetSegregationGroup (key : string) (w : world) : result string string :=
  match segregationKeys w !! key with None => Err ErrInvalidSegregationKey | Some group => Ok group end.

Definition AddDecorator (d : ServiceDecorator) (si : ServiceIsolator) : ServiceIsolator :=
  {| accessControl := accessControl si; decorators := decorators si ++ [d]; services := services si |}.

(** The loop over the decorators stops at the first error. *)
Fixpoint decorate_all (ds : list ServiceDecorator) (ctx : context) (to : ServiceIdentity) (method : string) (w : world)
  : context * option string * world :=
  match ds with
  | [] => (ctx, None, w)
  | d :: ds =>
      match Decorate d ctx to method w with
      | (ctx, Some err, w) => (ctx, Some err, w)
      | (ctx, None, w) => decorate_all ds ctx to method w
      end
  end.

Definition PrepareCall (ctx : context) (from to : ServiceIdentity) (method : string) (si : ServiceIsolator) (w : world)
  : context * option string * world :=
  if negb (AllowCall from to method (accessControl si)) then (ctx, Some ErrServiceNotAllowed, w)
  else decorate_all (decorators si) ctx to method w.

Definition isolator_RecordCall (r : Rules.CallRecord) (si : ServiceIsolator) : outcome ServiceIsolator :=
  match RecordCall r (accessControl si) with
  | Panics => Panics
  | Returns ac => Returns {| accessControl := ac; decorators := decorators si; services := services si |}
  end.

Definition GetAllowedServices (from : ServiceIdentity) (si : ServiceIsolator) : list ServiceIdentity := GetAllowed from (accessControl si).

(** ** Decorators *)

Definition call_key (target : ServiceIdentity) (method : string) : string := (identity_string target ++ "-" ++ method)%string.

Definition RateLimitDecorator : ServiceDecorator :=
  {| DName := "RateLimitDecorator";
     Decorate := fun ctx target method w =>
       let key := call_key target method in
       let '(ok, l) := Allow key (limiter w) in
       let w l := {| limiter := l; breaker := breaker w; segregationKeys := segregationKeys w |} in
       if negb ok then (ctx, Some ErrRateLimitExceeded, w l) else (ctx, None, w (Record_ key l)) |}.

Definition SegregationDecorator : ServiceDecorator :=
  {| DName := "SegregationDecorator";
     Decorate := fun ctx target _ w =>
       match ctx !! "segregation_key" with
       | None => (ctx, None, w)
       | Some key =>
           match GetSegregationGroup key w with
           | Err e => (ctx, Some e, w)
           | Ok targetGroup =>
               match Metadata target !! "segregation_group" with
               | Some g => if (g =? targetGroup)%string then (ctx, None, w) else (ctx, Some ErrServiceNotAllowed, w)
               | None => (ctx, None, w)
               end
           end
       end |}.

Definition CircuitBreakerDecorator : ServiceDecorator :=
  {| DName := "CircuitBreakerDecorator";
     Decorate := fun ctx target method w =>
       let key := call_key target method in
       let '(ok, b) := AllowRequest key (breaker w) in
       let w := {| limiter := limiter w; breaker := b; segregationKeys := segregationKeys w |} in
       if negb ok then (ctx, Some ErrServiceUnavailable, w) else (<["circuit_breaker_key" := key]> ctx, None, w) |}.

Definition RecordResult (ctx : context) (err : option string) (w : world) : world :=
  match ctx !! "circuit_breaker_key" with
  | None => w
  | Some key =>
      {| limiter := limiter w; breaker := match err with None => RecordSuccess key (breaker w) | Some e => RecordFailure key e (breaker w) end;
         segregationKeys := segregationKeys w |}
  end.

End Isolator.
Arguments world : clear implicits.
Arguments ServiceDecorator : clear implicits.
Arguments ServiceIsolator : clear implicits.

(** The default access control as the interface. *)
Definition default_control (order : gmap string (list string) -> list string) : AccessControl Rules.DefaultAccessControl :=
  {| AllowCall := Rules.AllowCall; RecordCall := Rules.RecordCall; GetAllowed := Rules.GetAllowed order |}.

(** * Facts: rules *)
Module RulesFacts.
Import Rules.

(** The rule for a pair of keys. *)
Definition rule (ac : DefaultAccessControl) (f t : string) : option (list string) := toRules ← rules ac !! f; toRules !! t.

Lemma rule_AddRule from to ms ac f t :
  rule (AddRule from to ms ac) f t = if decide ((identity_string from, identity_string to) = (f, t)) then Some ms else rule ac f t.
Proof.
  unfold rule, AddRule. simpl. destruct (decide (identity_string from = f)) as [<-|Hf].
  - rewrite lookup_insert_eq. simpl. destruct (decide (identity_string to = t)) as [<-|Ht].
    + by rewrite lookup_insert_eq, decide_True.
    + rewrite lookup_insert_ne, decide_False by congruence. destruct (rules ac !! identity_string from); [done|]. apply lookup_empty.
  - by rewrite lookup_insert_ne, decide_False by congruence.
Qed.

Lemma rule_RemoveRule from to ac f t :
  rule (RemoveRule from to ac) f t = if decide ((identity_string from, identity_string to) = (f, t)) then None else rule ac f t.
Proof.
  unfold rule, RemoveRule. destruct (rules ac !! identity_string from) as [r|] eqn:Hr.
  - simpl. assert (Hd : forall t, delete (identity_string to) r !! t = if decide (identity_string to = t) then None else r !! t).
    { intros t'. case_decide as Ht; [subst; apply lookup_delete_eq|by rewrite lookup_delete_ne]. }
    destruct (decide (identity_string from = f)) as [<-|Hf].
    + rewrite Hr. simpl. specialize (Hd t). destruct (decide (delete (identity_string to) r = ∅)) as [He|He].
      * rewrite lookup_delete_eq. simpl. rewrite He, lookup_empty in Hd. repeat case_decide; congruence.
      * rewrite lookup_insert_eq. simpl. rewrite Hd. repeat case_decide; congruence.
    + rewrite (decide_False (P := (identity_string from, identity_string to) = (f, t))) by congruence. case_decide; [by rewrite lookup_delete_ne|by rewrite lookup_insert_ne].
  - case_decide as Hk; [|done]. injection Hk as <- <-. by rewrite Hr.
Qed.

Lemma covers_iff method m : covers method m = true <-> m = method \/ exists p s, m = (p ++ "*")%string /\ method = (p ++ s)%string.
Proof.
  assert (Htrim : forall p, TrimSuffix (p ++ "*") "*" = p).
  { intros p. unfold TrimSuffix. assert (HasSuffix (p ++ "*") "*" = true) as ->.
    { induction p as [|c p IH]; [done|]. change ((String c p ++ "*")%string) with (String c (p ++ "*")). cbn [HasSuffix]. rewrite IH. apply orb_true_r. }
    rewrite length_append, Nat.add_sub. apply substring_app. }
  unfold covers. rewrite !orb_true_iff, andb_true_iff, !String.eqb_eq. split.
  - intros [[->| ->]|[Hs Hp]]; [right; by exists "", method|by left|]. apply HasSuffix_spec in Hs as [p ->]. rewrite Htrim in Hp.
    apply HasPrefix_spec in Hp as [s ->]. right. by exists p, s.
  - intros [->|(p & s & -> & ->)]; [by left; right|]. right. rewrite Htrim. split; [|apply prefix_app].
    induction p as [|c p IH]; [done|]. change ((String c p ++ "*")%string) with (String c (p ++ "*")). cbn [HasSuffix]. rewrite IH. apply orb_true_r.
Qed.

(** ** The operations against a map of pairs *)

Inductive op : Type :=
| AddOp (from to : ServiceIdentity) (methods : list string) | RemoveOp (from to : ServiceIdentity) | RecordOp (r : CallRecord) | MaxOp (n : Z).

Definition apply (o : op) (ac : DefaultAccessControl) : outcome DefaultAccessControl :=
  match o with
  | AddOp from to ms => Returns (AddRule from to ms ac)
  | RemoveOp from to => Returns (RemoveRule from to ac)
  | RecordOp r => RecordCall r ac
  | MaxOp n => match SetMaxRecords n ac with (Panics, _) => Panics | (Returns _, ac) => Returns ac end
  end.

Fixpoint run (os : list op) (ac : DefaultAccessControl) : outcome DefaultAccessControl :=
  match os with [] => Returns ac | o :: os => match apply o ac with Panics => Panics | Returns ac => run os ac end end.

(** The specification: pairs of keys with the methods granted. *)
Abbreviation spec := (gmap (string * string) (list string)).
Definition spec_apply (m : spec) (o : op) : spec :=
  match o with
  | AddOp from to ms => <[(identity_string from, identity_string to) := ms]> m
  | RemoveOp from to => delete (identity_string from, identity_string to) m
  | _ => m
  end.

Definition spec_allows (m : spec) (from to : ServiceIdentity) (method : string) : Prop :=
  exists ms, m !! (identity_string from, identity_string to) = Some ms /\
    (ms = [] \/ method ∈ ms \/ exists p s, (p ++ "*")%string ∈ ms /\ method = (p ++ s)%string).

Definition agrees (ac : DefaultAccessControl) (m : spec) : Prop := forall f t, rule ac f t = m !! (f, t).

Lemma RecordCall_rules r ac ac' : RecordCall r ac = Returns ac' -> rules ac' = rules ac.
Proof. unfold RecordCall. case_bool; [destruct (callRecords ac); [done|]|]; by intros [= <-]. Qed.

Lemma SetMaxRecords_rules n ac : rules (SetMaxRecords n ac).2 = rules ac.
Proof. unfold SetMaxRecords. by repeat case_bool. Qed.

Lemma apply_agrees o ac ac' m : agrees ac m -> apply o ac = Returns ac' -> agrees ac' (spec_apply m o).
Proof.
  intros Ha He f t. destruct o as [from to ms|from to|r|n]; simpl in He.
  - injection He as <-. rewrite rule_AddRule. simpl. case_decide as Hk; [by rewrite Hk, lookup_insert_eq|]. by rewrite lookup_insert_ne.
  - injection He as <-. rewrite rule_RemoveRule. simpl. case_decide as Hk; [by rewrite Hk, lookup_delete_eq|]. by rewrite lookup_delete_ne.
  - unfold rule. rewrite (RecordCall_rules _ _ _ He). apply Ha.
  - pose proof (SetMaxRecords_rules n ac) as Hr. destruct (SetMaxRecords n ac) as [[|] ac1]; [|done]. injection He as <-.
    unfold rule. simpl in Hr. rewrite Hr. apply Ha.
Qed.

Lemma run_agrees os : forall ac ac' m, agrees ac m -> run os ac = Returns ac' -> agrees ac' (foldl spec_apply m os).
Proof.
  induction os as [|o os IH]; intros ac ac' m Ha Hr; [by injection Hr as <-|]. simpl in Hr.
  destruct (apply o ac) as [ac1|] eqn:He; [|done]. simpl. eapply IH; [|exact Hr]. by eapply apply_agrees.
Qed.

Lemma AllowCall_rule from to method ac : AllowCall from to method ac = true <->
  exists ms, rule ac (identity_string from) (identity_string to) = Some ms /\ (ms = [] \/ exists m, m ∈ ms /\ covers method m = true).
Proof.
  unfold AllowCall, rule. destruct (rules ac !! identity_string from) as [r|]; simpl.
  2:{ split; [done|]. by intros (? & ? & _). }
  destruct (r !! identity_string to) as [ms|]; [|split; [done|by intros (? & ? & _)]].
  assert (Hm : existsb (covers method) ms = true <-> exists m, m ∈ ms /\ covers method m = true).
  { rewrite existsb_exists. split; intros (m & Hin & Hc); exists m; (split; [by apply list_elem_of_In|done]). }
  split.
  - intros Ha. exists ms. split; [done|]. destruct ms; [by left|]. right. by apply Hm.
  - intros (ms' & [= <-] & [->|Hex]); [done|]. apply Hm in Hex. by destruct ms.
Qed.

(** C12: whatever rules were added, removed and calls recorded, a call is allowed exactly when the last rule for the pair of services is still there and has no methods, names the method, or has a prefix of it before a star. *)
Theorem rules_refine_map os ac from to method : run os NewDefaultAccessControl = Returns ac ->
  AllowCall from to method ac = true <-> spec_allows (foldl spec_apply ∅ os) from to method.
Proof.
  intros Hr. pose proof (run_agrees os NewDefaultAccessControl ac ∅) as Ha. specialize (Ha ltac:(intros f t; unfold rule; simpl; by rewrite !lookup_empty) Hr).
  rewrite AllowCall_rule, Ha. unfold spec_allows. split; intros (ms & Hl & Hc); exists ms; (split; [done|]).
  - destruct Hc as [->|(m & Hin & Hm)]; [by left|right]. apply covers_iff in Hm as [->|(p & s & -> & ->)]; [by left|]. right. by exists p, s.
  - destruct Hc as [->|[Hin|(p & s & Hin & ->)]]; [by left|right..].
    + exists method. split; [done|]. apply covers_iff. by left.
    + exists (p ++ "*")%string. split; [done|]. apply covers_iff. right. by exists p, s.
Qed.

(** ** Records *)

Lemma records_step r ac h : 0 < maxRecords ac -> callRecords ac = drop (length h - Z.to_nat (maxRecords ac)) h ->
  exists ac', RecordCall r ac = Returns ac' /\ maxRecords ac' = maxRecords ac /\
    callRecords ac' = drop (length (h ++ [r]) - Z.to_nat (maxRecords ac)) (h ++ [r]).
Proof.
  intros Hmax Hrec. unfold RecordCall. rewrite Hrec, length_drop, length_app. simpl. case_bool; bool_to_prop.
  - assert (Hlt : (length h - Z.to_nat (maxRecords ac) < length h)%nat) by lia.
    destruct (lookup_lt_is_Some_2 _ _ Hlt) as [x Hx]. rewrite (drop_S _ _ _ Hx). eexists. split; [reflexivity|]. split; [done|].
    simpl. rewrite drop_app_le by lia. do 2 f_equal. lia.
  - eexists. split; [reflexivity|]. split; [done|]. simpl. rewrite !drop_app_le by lia. do 2 f_equal. lia.
Qed.

(** With a positive maximum, recording calls never fails and the records kept are the most recent ones, at most as many as the maximum. *)
Theorem records_are_recent rs ac : callRecords ac = [] -> 0 < maxRecords ac ->
  exists ac', run (RecordOp <$> rs) ac = Returns ac' /\ GetRecords ac' = drop (length rs - Z.to_nat (maxRecords ac)) rs.
Proof.
  intros Hnil Hmax. assert (H : forall rs h ac, 0 < maxRecords ac -> callRecords ac = drop (length h - Z.to_nat (maxRecords ac)) h ->
    exists ac', run (RecordOp <$> rs) ac = Returns ac' /\ callRecords ac' = drop (length (h ++ rs) - Z.to_nat (maxRecords ac)) (h ++ rs)).
  { clear. induction rs as [|r rs IH]; intros h ac Hmax Hrec; [exists ac; by rewrite app_nil_r|]. simpl.
    destruct (records_step r ac h Hmax Hrec) as (ac1 & -> & Hm1 & Hr1). destruct (IH (h ++ [r]) ac1) as (ac' & Hr & Hc); [lia|by rewrite Hm1|].
    exists ac'. split; [done|]. rewrite Hm1, <- app_assoc in Hc. exact Hc. }
  destruct (H rs [] ac Hmax) as (ac' & Hr & Hc); [by rewrite Hnil|]. by exists ac'.
Qed.

(** With a maximum of zero, the next call that is recorded panics; a negative one
    panics at once when there are records, and afterwards. *)
Lemma zero_maximum_panics r ac : let '(o, ac') := SetMaxRecords 0 ac in o = Returns tt /\ RecordCall r ac' = Panics.
Proof.
  unfold SetMaxRecords. simpl. case_bool; bool_to_prop.
  - rewrite (proj2 (Z.ltb_ge _ _)) by lia. split; [done|]. unfold RecordCall. simpl.
    rewrite Z.sub_0_r, Nat2Z.id, drop_all. done.
  - assert (callRecords ac = []) as Hn by (apply length_zero_iff_nil; lia). split; [done|]. unfold RecordCall. simpl. by rewrite Hn.
Qed.

(** ** Keys *)

(** No separator inside: the key of such an identity comes apart again. *)
Fixpoint no_v (s : string) : bool :=
  match s with EmptyString => true | String "-" (String "v" _) => false | String _ s => no_v s end.

Definition plain (s : ServiceIdentity) : Prop :=
  contains_byte "." (Namespace s) = false /\ contains_byte "." (Name s) = false /\ contains_byte "." (Version s) = false /\
  no_v (Name s) = true /\ no_v (Version s) = true.

Lemma split_v_cons c cur s : (c <> "-"%char \/ (forall t, s <> String "v" t)) -> split_v cur (String c s) = split_v (cur ++ String c "")%string s.
Proof.
  intros Hc. destruct s as [|d s]; cbn [split_v]; [by destruct c as [[] [] [] [] [] [] [] []]|].
  destruct (ascii_dec c "-") as [->|Hne].
  - destruct (ascii_dec d "v") as [->|Hd]; [destruct Hc as [Hc|Hc]; [done|by destruct (Hc s)]|]. by destruct d as [[] [] [] [] [] [] [] []].
  - clear Hc. by destruct c as [[] [] [] [] [] [] [] []].
Qed.

Lemma no_v_cons c s : no_v (String c s) = true -> (c <> "-"%char \/ (forall t, s <> String "v" t)) /\ no_v s = true.
Proof.
  intros Hn. destruct (ascii_dec c "-") as [->|Hne].
  - destruct s as [|d s]; [split; [by right|done]|]. destruct (ascii_dec d "v") as [->|Hd]; [done|]. split; [right; congruence|].
    by destruct d as [[] [] [] [] [] [] [] []].
  - split; [by left|]. destruct s as [|d s]; [done|]. by destruct c as [[] [] [] [] [] [] [] []].
Qed.

Lemma split_v_none s : no_v s = true -> forall cur, split_v cur s = [(cur ++ s)%string].
Proof.
  induction s as [|c s IH]; intros Hn cur; [simpl; by rewrite string_app_nil_r|]. apply no_v_cons in Hn as [Hc Hn].
  rewrite split_v_cons, IH by done. by rewrite <- string_app_assoc.
Qed.

Lemma split_v_app s t : no_v s = true -> forall cur, split_v cur (s ++ "-v" ++ t)%string = (cur ++ s)%string :: split_v "" t.
Proof.
  induction s as [|c s IH]; intros Hn cur; [simpl; by rewrite string_app_nil_r|]. apply no_v_cons in Hn as [Hc Hn].
  change (String c s ++ "-v" ++ t)%string with (String c (s ++ "-v" ++ t)). rewrite split_v_cons, IH; [by rewrite <- string_app_assoc|done|].
  destruct Hc as [Hc|Hc]; [by left|right]. intros u Hu. destruct s as [|d s]; [done|]. injection Hu as -> _. by destruct (Hc s).
Qed.

Lemma contains_app c a b : contains_byte c (a ++ b) = contains_byte c a || contains_byte c b.
Proof.
  induction a as [|d a IH]; [done|]. change (String d a ++ b)%string with (String d (a ++ b)). rewrite !contains_byte_cons, IH.
  by destruct (Ascii.eqb d c).
Qed.

Lemma parse_plain s : plain s -> parse_key (identity_string s) =
  Some {| Name := Name s; Namespace := Namespace s; Version := Version s; Roles := []; Metadata := ∅ |}.
Proof.
  intros (Hns & Hn & Hv & Hn' & Hv'). unfold parse_key, identity_string.
  change (Namespace s ++ "." ++ Name s ++ "-v" ++ Version s)%string with (Namespace s ++ String "." (Name s ++ "-v" ++ Version s))%string.
  rewrite Split_app, Split_none by (try done; by rewrite !contains_app, Hn, Hv). by rewrite split_v_app, split_v_none.
Qed.

(** A service that a rule allows is listed with its namespace, name and version, as long as these have no dot and the name and version no separator. *)
Theorem allowed_services_listed order from to ms ac : plain to -> (forall m, order m ≡ₚ (map_to_list m).*1) ->
  rule ac (identity_string from) (identity_string to) = Some ms ->
  {| Name := Name to; Namespace := Namespace to; Version := Version to; Roles := []; Metadata := ∅ |} ∈ GetAllowed order from ac.
Proof.
  intros Hp Hord Hr. unfold rule in Hr. unfold GetAllowed. destruct (rules ac !! identity_string from) as [r|]; [|done]. simpl in Hr.
  apply list_elem_of_omap. exists (identity_string to). split; [|by apply parse_plain]. rewrite Hord. apply list_elem_of_fmap.
  exists (identity_string to, ms). split; [done|]. by apply elem_of_map_to_list.
Qed.

(** A version with a dot is cut off, and identities with dots share their rules. *)
Abbreviation service ns n v := {| Name := n; Namespace := ns; Version := v; Roles := []; Metadata := ∅ |}.

Example dotted_version : GetAllowed (fun m => (map_to_list m).*1) (service "a" "b" "1")
  (AddRule (service "a" "b" "1") (service "pay" "card" "1.2") [] NewDefaultAccessControl) = [service "pay" "card" "1"].
Proof. vm_compute. reflexivity. Qed.

Example shared_key : AllowCall (service "a.b" "c" "1") (service "x" "y" "1") "m"
  (AddRule (service "a" "b.c" "1") (service "x" "y" "1") [] NewDefaultAccessControl) = true.
Proof. vm_compute. reflexivity. Qed.

(** Witnesses. *)
Abbreviation some_ops := [AddOp (service "a" "b" "1") (service "pay" "card" "1") ["Get*"]; AddOp (service "x" "y" "1") (service "pay" "card" "1") [];
  RemoveOp (service "x" "y" "1") (service "pay" "card" "1")].

Lemma rules_refine_map_witness : exists ac, run some_ops NewDefaultAccessControl = Returns ac /\
  (AllowCall (service "a" "b" "1") (service "pay" "card" "1") "GetCard" ac = true <->
   spec_allows (foldl spec_apply ∅ some_ops) (service "a" "b" "1") (service "pay" "card" "1") "GetCard").
Proof. eexists. split; [vm_compute; reflexivity|]. apply (rules_refine_map some_ops). vm_compute. reflexivity. Defined.

Abbreviation a_call m := {| From := service "a" "b" "1"; To := service "x" "y" "1"; Method := m; Timestamp := 0; Duration := 1; Error := None |}.
Abbreviation two_records := {| rules := ∅; callRecords := []; maxRecords := 2 |}.

Lemma records_are_recent_witness : exists ac', run (RecordOp <$> [a_call "p"; a_call "q"; a_call "r"]) two_records = Returns ac' /\
  GetRecords ac' = [a_call "q"; a_call "r"].
Proof. apply (records_are_recent [a_call "p"; a_call "q"; a_call "r"] two_records); [reflexivity|reflexivity]. Defined.

Lemma allowed_services_listed_witness : service "pay" "card" "1" ∈ GetAllowed (fun m => (map_to_list m).*1) (service "a" "b" "1")
  (AddRule (service "a" "b" "1") (service "pay" "card" "1") ["Get*"] NewDefaultAccessControl).
Proof.
  apply (allowed_services_listed (fun m => (map_to_list m).*1) _ (service "pay" "card" "1") ["Get*"]); [by repeat split|done|]. vm_compute. reflexivity.
Defined.

End RulesFacts.

(** * Facts: prepared calls *)
Module IsolatorFacts.

Section Facts.
Context {A L B : Type} `{AccessControl A} `{RateLimiter L} `{CircuitBreaker B}.
Implicit Types (w : world L B) (si : ServiceIsolator A L B) (d : ServiceDecorator L B).

(** The decorators let a call through one after the other. *)
Inductive passes (to : ServiceIdentity) (method : string) : list (ServiceDecorator L B) -> context -> world L B -> context -> world L B -> Prop :=
| passes_nil ctx w : passes to method [] ctx w ctx w
| passes_cons d ds ctx w ctx1 w1 ctx2 w2 : Decorate d ctx to method w = (ctx1, None, w1) -> passes to method ds ctx1 w1 ctx2 w2 ->
    passes to method (d :: ds) ctx w ctx2 w2.

Lemma passes_rest to method d ds ctx w ctx1 e w1 ctx2 w2 : passes to method (d :: ds) ctx w ctx2 w2 ->
  Decorate d ctx to method w = (ctx1, e, w1) -> e = None /\ passes to method ds ctx1 w1 ctx2 w2.
Proof. inversion 1 as [|? ? ? ? c1 v1 ? ? Hd Hp]; subst. rewrite Hd. by intros [= <- <- <-]. Qed.

Lemma decorate_all_passes to method ds : forall ctx w ctx' w', decorate_all ds ctx to method w = (ctx', None, w') <-> passes to method ds ctx w ctx' w'.
Proof.
  induction ds as [|d ds IH]; intros ctx w ctx' w'; cbn [decorate_all].
  - split; [intros [= <- <-]; constructor|]. by inversion 1; subst.
  - destruct (Decorate d ctx to method w) as [[ctx1 [e|]] w1] eqn:Hd.
    + split; [done|]. intros Hp. by destruct (passes_rest _ _ _ _ _ _ _ _ _ _ _ Hp Hd).
    + rewrite IH. split; [intros Hp; eapply passes_cons; [exact Hd|exact Hp]|]. intros Hp. by destruct (passes_rest _ _ _ _ _ _ _ _ _ _ _ Hp Hd).
Qed.

Lemma decorate_all_fails to method ds : forall ctx w ctx' e w', decorate_all ds ctx to method w = (ctx', Some e, w') <->
  exists ds1 d ds2 ctx1 w1, ds = ds1 ++ d :: ds2 /\ passes to method ds1 ctx w ctx1 w1 /\ Decorate d ctx1 to method w1 = (ctx', Some e, w').
Proof.
  induction ds as [|d ds IH]; intros ctx w ctx' e w'; cbn [decorate_all].
  - split; [done|]. intros (ds1 & ? & ? & ? & ? & Heq & _). destruct ds1; discriminate Heq.
  - destruct (Decorate d ctx to method w) as [[ctx1 [e1|]] w1] eqn:Hd.
    + split.
      * intros [= <- <- <-]. exists [], d, ds, ctx, w. split_and!; [done|constructor|done].
      * intros ([|d' ds1] & d2 & ds2 & ctx2 & w2 & Heq & Hp & Hf); [injection Heq as <- <-; inversion Hp; subst; congruence|].
        injection Heq as <- _. by destruct (passes_rest _ _ _ _ _ _ _ _ _ _ _ Hp Hd).
    + rewrite IH. split.
      * intros (ds1 & d2 & ds2 & ctx2 & w2 & -> & Hp & Hf). exists (d :: ds1), d2, ds2, ctx2, w2. split; [done|]. split; [eapply passes_cons; [exact Hd|exact Hp]|done].
      * intros ([|d' ds1] & d2 & ds2 & ctx2 & w2 & Heq & Hp & Hf); [injection Heq as <- <-; inversion Hp; subst; congruence|].
        injection Heq as <- ->. destruct (passes_rest _ _ _ _ _ _ _ _ _ _ _ Hp Hd) as [_ Hp']. by exists ds1, d2, ds2, ctx2, w2.
Qed.

(** A call is prepared without an error exactly when the access control allows it and every decorator, in order, lets it through; one that is not allowed reaches no decorator; another error is that of the first decorator that refuses, and those after it do not run. *)
Theorem PrepareCall_cases ctx from to method si w ctx' r w' : PrepareCall ctx from to method si w = (ctx', r, w') <->
  if AllowCall from to method (accessControl si) then
    match r with
    | None => passes to method (decorators si) ctx w ctx' w'
    | Some e => exists ds1 d ds2 ctx1 w1, decorators si = ds1 ++ d :: ds2 /\ passes to method ds1 ctx w ctx1 w1 /\ Decorate d ctx1 to method w1 = (ctx', Some e, w')
    end
  else ctx' = ctx /\ r = Some ErrServiceNotAllowed /\ w' = w.
Proof.
  unfold PrepareCall. destruct (AllowCall from to method (accessControl si)); simpl.
  - destruct r; [apply decorate_all_fails|apply decorate_all_passes].
  - split; [by intros [= <- <- <-]|]. by intros (-> & -> & ->).
Qed.

(** The group of a context's key, if it has one, is the target's, if it has one. *)
Definition same_group (ctx : context) (to : ServiceIdentity) (keys : gmap string string) : Prop :=
  forall k, ctx !! "segregation_key" = Some k -> exists g, keys !! k = Some g /\ forall g', Metadata to !! "segregation_group" = Some g' -> g' = g.

Lemma segregation_passes ctx to method w ctx' w' : Decorate SegregationDecorator ctx to method w = (ctx', None, w') <->
  ctx' = ctx /\ w' = w /\ same_group ctx to (segregationKeys w).
Proof.
  simpl. unfold same_group, GetSegregationGroup. destruct (ctx !! "segregation_key") as [k|].
  - destruct (segregationKeys w !! k) as [g|] eqn:Hg.
    + destruct (Metadata to !! "segregation_group") as [g'|].
      * destruct (String.eqb_spec g' g) as [->|Hne].
        -- split; [|by intros (-> & -> & _)]. intros [= <- <-]. split_and!; [done..|]. intros k' [= <-]. exists g. split; [done|]. by intros g' [= <-].
        -- split; [done|]. intros (_ & _ & Hs). destruct (Hs k eq_refl) as (g2 & Hg2 & Hall). rewrite (Hall g' eq_refl) in Hne. congruence.
      * split; [|by intros (-> & -> & _)]. intros [= <- <-]. split_and!; [done..|]. intros k' [= <-]. exists g. split; [done|]. by intros g' ?.
    + split; [done|]. intros (_ & _ & Hs). destruct (Hs k eq_refl) as (g & Hg' & _). congruence.
  - split; [|by intros (-> & -> & _)]. intros [= <- <-]. by split_and!.
Qed.

Lemma rate_limit_passes ctx to method w ctx' w' : Decorate RateLimitDecorator ctx to method w = (ctx', None, w') <->
  ctx' = ctx /\ (Allow (call_key to method) (limiter w)).1 = true /\
  w' = {| limiter := Record_ (call_key to method) (Allow (call_key to method) (limiter w)).2; breaker := breaker w; segregationKeys := segregationKeys w |}.
Proof.
  simpl. destruct (Allow (call_key to method) (limiter w)) as [[] l]; simpl.
  - split; [by intros [= <- <-]|]. by intros (-> & _ & ->).
  - split; [done|]. by intros (_ & ? & _).
Qed.

Lemma breaker_passes ctx to method w ctx' w' : Decorate CircuitBreakerDecorator ctx to method w = (ctx', None, w') <->
  ctx' = <["circuit_breaker_key" := call_key to method]> ctx /\ (AllowRequest (call_key to method) (breaker w)).1 = true /\
  w' = {| limiter := limiter w; breaker := (AllowRequest (call_key to method) (breaker w)).2; segregationKeys := segregationKeys w |}.
Proof.
  simpl. destruct (AllowRequest (call_key to method) (breaker w)) as [[] b]; simpl.
  - split; [by intros [= <- <-]|]. by intros (-> & _ & ->).
  - split; [done|]. by intros (_ & ? & _).
Qed.

(** The four conditions under which a call goes, and what it then leaves. *)
Definition admitted (ctx : context) (from to : ServiceIdentity) (method : string) (ac : A) (w : world L B) : Prop :=
  let key := call_key to method in
  AllowCall from to method ac = true /\ (Allow key (limiter w)).1 = true /\ same_group ctx to (segregationKeys w) /\
  (AllowRequest key (breaker w)).1 = true.

(** C31: through the rate limit, the segregation groups and the circuit breaker a call goes exactly when the access control allows it, the limiter has room for its key, its group is the target's and the breaker admits its key; the limiter has then counted it, and the result of the call, recorded with the context returned, reaches the breaker under the same key. *)
Theorem three_gates ctx from to method ac sv w ctx' w' :
  let si := {| accessControl := ac; decorators := [RateLimitDecorator; SegregationDecorator; CircuitBreakerDecorator]; services := sv |} in
  let key := call_key to method in
  ((PrepareCall ctx from to method si w).1.2 = None <-> admitted ctx from to method ac w) /\
  (PrepareCall ctx from to method si w = (ctx', None, w') ->
    limiter w' = Record_ key (Allow key (limiter w)).2 /\ segregationKeys w' = segregationKeys w /\
    forall err, breaker (RecordResult ctx' err w') =
      match err with None => RecordSuccess key (AllowRequest key (breaker w)).2 | Some e => RecordFailure key e (AllowRequest key (breaker w)).2 end).
Proof.
  intros si key.
  assert (Hthrough : forall ctx' w', PrepareCall ctx from to method si w = (ctx', None, w') -> admitted ctx from to method ac w /\
    ctx' = <["circuit_breaker_key" := key]> ctx /\
    w' = {| limiter := Record_ key (Allow key (limiter w)).2; breaker := (AllowRequest key (breaker w)).2; segregationKeys := segregationKeys w |}).
  { clear ctx' w'. intros ctx' w' Hp. apply PrepareCall_cases in Hp. unfold admitted. simpl accessControl in Hp.
    destruct (AllowCall from to method ac); [|naive_solver]. simpl decorators in Hp.
    inversion Hp as [|d1 ds1 ? ? ctx1 w1 ? ? E1 Hp1]; subst. inversion Hp1 as [|d2 ds2 ? ? ctx2 w2 ? ? E2 Hp2]; subst.
    inversion Hp2 as [|d3 ds3 ? ? ctx3 w3 ? ? E3 Hp3]; subst. inversion Hp3; subst.
    apply rate_limit_passes in E1 as (-> & Hl & ->). apply segregation_passes in E2 as (-> & -> & Hg). by apply breaker_passes in E3 as (-> & Hb & ->). }
  split; [split|].
  - destruct (PrepareCall ctx from to method si w) as [[c e] v] eqn:Hp. simpl. intros ->. by apply (Hthrough c v).
  - intros (Ha & Hl & Hg & Hb). enough (exists c v, PrepareCall ctx from to method si w = (c, None, v)) as (c & v & ->) by done.
    do 2 eexists. apply PrepareCall_cases. simpl accessControl. rewrite Ha.
    eapply passes_cons; [by apply rate_limit_passes|]. eapply passes_cons; [by apply segregation_passes|].
    eapply passes_cons; [by apply breaker_passes|]. constructor.
  - intros (_ & -> & ->)%Hthrough. split_and!; [done..|]. intros err. unfold RecordResult. by rewrite lookup_insert_eq.
Qed.

End Facts.

(** ** An instance: a limiter that counts down and a breaker that counts failures *)
#[local] Instance countdown : RateLimiter Z := {| Allow := fun _ n => (0 <? n, n); Record_ := fun _ n => n - 1 |}.
#[local] Instance fail_counter : CircuitBreaker Z :=
  {| AllowRequest := fun _ n => (n <? 3, n); RecordSuccess := fun _ _ => 0; RecordFailure := fun _ _ n => n + 1;
     GetState := fun _ n => if n <? 3 then CircuitClosed else CircuitOpen |}.
#[local] Instance listing : AccessControl Rules.DefaultAccessControl := default_control (fun m => (map_to_list m).*1).

Abbreviation card := {| Name := "card"; Namespace := "pay"; Version := "1"; Roles := []; Metadata := {["segregation_group" := "blue"]} |}.
Abbreviation shop := {| Name := "shop"; Namespace := "web"; Version := "2"; Roles := []; Metadata := ∅ |}.
Abbreviation shop_rules := (Rules.AddRule shop card ["Get*"] Rules.NewDefaultAccessControl).
Abbreviation blue := {| limiter := 5; breaker := 1; segregationKeys := {["k1" := "blue"]} |}.
Abbreviation blue_context := ({["segregation_key" := "k1"]} : context).

Abbreviation after_gates := {| limiter := 4; breaker := 1; segregationKeys := {["k1" := "blue"]} |}.
Abbreviation admitted_context := (<["circuit_breaker_key" := "pay.card-v1-GetCard"]> blue_context).

Lemma three_gates_witness :
  admitted blue_context shop card "GetCard" shop_rules blue /\ 4 = Record_ "pay.card-v1-GetCard" (Allow "pay.card-v1-GetCard" 5).2 /\
  breaker (RecordResult admitted_context (Some "timeout"%string) after_gates) = RecordFailure "pay.card-v1-GetCard" "timeout" 1.
Proof.
  destruct (three_gates blue_context shop card "GetCard" shop_rules ∅ blue admitted_context after_gates) as [[Hgo _] Hafter].
  split; [apply Hgo; vm_compute; reflexivity|]. destruct Hafter as (H1 & _ & H2); [vm_compute; reflexivity|].
  split; [exact H1|exact (H2 (Some "timeout"%string))].
Defined.

End IsolatorFacts.
