(* ===== verification/Plugin.v ===== *)
(** The plugin manager: [src/plugin/plugin.go]. Plugins act on a world that the
    model leaves open; a map of plugins is visited in an order that is an argument
    of every call, since Go may choose another one each time. *)
From S2P Require Import Prelude GoString.

Section Plugin.
(** The world that plugins act on, dial options, and the four kinds of interceptors. *)
Context {W O US SS UC SC : Type}.

Definition action : Type := W -> option string * W.

Record LifecycleHook : Type := { BeforeStart : action; AfterStart : action; BeforeStop : action; AfterStop : action }.

Record InterceptorPlugin : Type := {
  UnaryServerInterceptor : option US; StreamServerInterceptor : option SS;
  UnaryClientInterceptor : option UC; StreamClientInterceptor : option SC }.

(** A plugin, with the further interfaces that it has. *)
Record Plugin : Type := {
  Name : string; Init_ : action; Close_ : action;
  RegisterWithServer : option action; ModifyClientOptions : option (list O -> list O);
  interceptors : option InterceptorPlugin; hook : option LifecycleHook }.

Record Manager : Type := { plugins : gmap string Plugin; initOrder : list string; initComplete : bool }.

Definition NewManager : Manager := {| plugins := ∅; initOrder := []; initComplete := false |}.

Definition Register (p : Plugin) (m : Manager) : option string * Manager :=
  if initComplete m then (Some "cannot register plugin after initialization", m)
  else match plugins m !! Name p with
       | Some _ => (Some ("plugin " ++ Name p ++ " already registered"), m)
       | None => (None, {| plugins := <[Name p := p]> (plugins m); initOrder := initOrder m; initComplete := initComplete m |})
       end%string.

Definition Get (name : string) (m : Manager) : option Plugin := plugins m !! name.

(** An order of visiting: the plugins with their keys. *)
Definition visit : Type := list (string * Plugin).

Definition GetAll (order : visit) : list Plugin := order.*2.

Inductive PluginType : Type := ServerType | ClientType | InterceptorType | OtherType.

Definition has_type (t : PluginType) (p : Plugin) : bool :=
  match t with
  | ServerType => bool_decide (is_Some (RegisterWithServer p))
  | ClientType => bool_decide (is_Some (ModifyClientOptions p))
  | InterceptorType => bool_decide (is_Some (interceptors p))
  | OtherType => false
  end.

Definition GetByType (t : PluginType) (order : visit) : list Plugin := List.filter (has_type t) order.*2.

(** The loop of [Init]: an error leaves the plugins before it in [initOrder]. *)
Fixpoint init_loop (order : visit) (m : Manager) (w : W) : option string * Manager * W :=
  match order with
  | [] => (None, {| plugins := plugins m; initOrder := initOrder m; initComplete := true |}, w)
  | (name, p) :: order =>
      match Init_ p w with
      | (Some err, w) => (Some ("failed to initialize plugin " ++ name ++ ": " ++ err)%string, m, w)
      | (None, w) => init_loop order {| plugins := plugins m; initOrder := initOrder m ++ [name]; initComplete := initComplete m |} w
      end
  end.

Definition Init (order : visit) (m : Manager) (w : W) : option string * Manager * W :=
  if initComplete m then (Some "plugins already initialized", m, w) else init_loop order m w.

(** Close the plugins of these names, collecting the errors. *)
Fixpoint close_loop (ps : gmap string Plugin) (names : list string) (errs : list string) (w : W) : list string * W :=
  match names with
  | [] => (errs, w)
  | name :: names =>
      match ps !! name with
      | None => close_loop ps names errs w
      | Some p =>
          match Close_ p w with
          | (Some err, w) => close_loop ps names (errs ++ [("failed to close plugin " ++ name ++ ": " ++ err)%string]) w
          | (None, w) => close_loop ps names errs w
          end
      end
  end.

(** The errors are those that the returned error prints. *)
Definition Close (m : Manager) (w : W) : option (list string) * Manager * W :=
  if negb (initComplete m) then (None, m, w)
  else
    let '(errs, w) := close_loop (plugins m) (rev (initOrder m)) [] w in
    (match errs with [] => None | _ => Some errs end, {| plugins := plugins m; initOrder := []; initComplete := false |}, w).

Fixpoint register_loop (order : visit) (w : W) : option string * W :=
  match order with
  | [] => (None, w)
  | (name, p) :: order =>
      match RegisterWithServer p with
      | None => register_loop order w
      | Some reg =>
          match reg w with
          | (Some err, w) => (Some ("failed to register server plugin " ++ name ++ ": " ++ err)%string, w)
          | (None, w) => register_loop order w
          end
      end
  end.

Definition ApplyServerPlugins (order : visit) (m : Manager) (w : W) : option string * W :=
  if negb (initComplete m) then (Some "plugins not initialized", w) else register_loop order w.

Definition ApplyClientPlugins (order : visit) (m : Manager) (opts : list O) : list O :=
  if negb (initComplete m) then opts
  else foldl (fun opts kp => match ModifyClientOptions kp.2 with None => opts | Some f => f opts end) opts order.

Definition GetInterceptors (order : visit) (m : Manager) : list US * list SS * list UC * list SC :=
  if negb (initComplete m) then ([], [], [], [])
  else
    let ips := omap interceptors order.*2 in
    (omap UnaryServerInterceptor ips, omap StreamServerInterceptor ips, omap UnaryClientInterceptor ips, omap StreamClientInterceptor ips).

(** ** The lifecycle manager *)

Fixpoint run_hooks (stage : string) (f : LifecycleHook -> action) (ps : list Plugin) (w : W) : option string * W :=
  match ps with
  | [] => (None, w)
  | p :: ps =>
      match hook p with
      | None => run_hooks stage f ps w
      | Some h =>
          match f h w with
          | (Some err, w) => (Some ("plugin " ++ Name p ++ " " ++ stage ++ " hook failed: " ++ err)%string, w)
          | (None, w) => run_hooks stage f ps w
          end
      end
  end.

Definition ExecuteBeforeStart (order : visit) : action := run_hooks "BeforeStart" BeforeStart (GetAll order).
Definition ExecuteAfterStart (order : visit) : action := run_hooks "AfterStart" AfterStart (GetAll order).
Definition ExecuteBeforeStop (order : visit) : action := run_hooks "BeforeStop" BeforeStop (rev (GetAll order)).
Definition ExecuteAfterStop (order : visit) : action := run_hooks "AfterStop" AfterStop (rev (GetAll order)).

(** * Facts *)

(** An order visits every plugin once. *)
Definition visits (order : visit) (m : Manager) : Prop := order ≡ₚ map_to_list (plugins m).

(** The worlds that initialising, and closing, plugins one after the other gives. *)
Definition init_world (ps : list Plugin) (w : W) : W := foldl (fun w p => (Init_ p w).2) w ps.
Definition close_world (ps : list Plugin) (w : W) : W := foldl (fun w p => (Close_ p w).2) w ps.

Lemma init_loop_spec order : forall m w r m' w', init_loop order m w = (r, m', w') ->
  plugins m' = plugins m /\
  exists done_ rest, order = done_ ++ rest /\ initOrder m' = initOrder m ++ done_.*1 /\
    match r with
    | None => rest = [] /\ initComplete m' = true /\ w' = init_world done_.*2 w
    | Some _ => initComplete m' = initComplete m /\ exists kp rest', rest = kp :: rest' /\ w' = init_world (done_.*2 ++ [kp.2]) w
    end.
Proof.
  induction order as [|[n p] order IH]; intros m w r m' w' Hi; cbn [init_loop] in Hi.
  - injection Hi as <- <- <-. split; [done|]. exists [], []. simpl. rewrite app_nil_r. by split_and!.
  - destruct (Init_ p w) as [[e|] w1] eqn:Hp.
    + injection Hi as <- <- <-. split; [done|]. exists [], ((n, p) :: order). simpl. rewrite app_nil_r. split_and!; [done..|].
      exists (n, p), order. split; [done|]. unfold init_world. simpl. by rewrite Hp.
    + apply IH in Hi as (Hps & ds & rest & -> & Hio & Hr). split; [done|]. exists ((n, p) :: ds), rest. simpl in Hio.
      rewrite Hio, <- app_assoc. split_and!; [done..|]. unfold init_world in *. simpl. rewrite Hp. exact Hr.
Qed.

Lemma fmap_rev_list {A B} (f : A -> B) l : f <$> rev l = rev (f <$> l).
Proof. apply map_rev. Qed.

Lemma close_loop_world ps names ks : (forall kp, kp ∈ ks -> ps !! kp.1 = Some kp.2) -> names = ks.*1 ->
  forall errs w, (close_loop ps names errs w).2 = close_world ks.*2 w.
Proof.
  intros Hps ->. induction ks as [|[n p] ks IH]; intros errs w; [done|]. cbn [close_loop fmap list_fmap fst].
  assert (Hn : ps !! n = Some p) by (apply (Hps (n, p)); by left). rewrite Hn. unfold close_world in *. simpl. assert (Hks : forall kp, kp ∈ ks -> ps !! kp.1 = Some kp.2) by (intros kp Hk; apply Hps; by right).
  destruct (Close_ p w) as [[e|] w1]; simpl; by apply IH.
Qed.

Lemma visits_lookup order m kp : visits order m -> kp ∈ order -> plugins m !! kp.1 = Some kp.2.
Proof. intros Hv Hin. rewrite Hv in Hin. destruct kp. by apply elem_of_map_to_list in Hin. Qed.

(** Once all plugins of a fresh manager have been initialised, closing it closes exactly these, each once, in the reverse order, also when some of them fail to close, and the manager can be initialised again. *)
Theorem closed_in_reverse order m w m1 w1 : initOrder m = [] -> initComplete m = false -> visits order m ->
  Init order m w = (None, m1, w1) ->
  exists errs, Close m1 w1 = (errs, m, close_world (rev order.*2) w1) /\ w1 = init_world order.*2 w.
Proof.
  intros Hio Hic Hv Hi. unfold Init in Hi. rewrite Hic in Hi.
  destruct (init_loop_spec _ _ _ _ _ _ Hi) as (Hps & ds & rest & Hord & Hio' & -> & Hic' & Hw). rewrite app_nil_r in Hord. subst ds.
  unfold Close. rewrite Hic', Hps, Hio', Hio. simpl.
  pose proof (close_loop_world (plugins m) (rev order.*1) (rev order)) as Hc. specialize (Hc ltac:(intros kp Hk; eapply visits_lookup; [done|by apply list_elem_of_In, in_rev, list_elem_of_In])).
  specialize (Hc ltac:(by rewrite fmap_rev_list) [] w1). destruct (close_loop (plugins m) (rev order.*1) [] w1) as [errs w2]. simpl in Hc. subst w2.
  exists (match errs with [] => None | _ => Some errs end). split; [|done]. rewrite fmap_rev_list. f_equal. f_equal. destruct m; simpl in *. by subst.
Qed.

(** When a plugin fails to initialise, those before it stay initialised: [Close] then does nothing, and if the manager is initialised again they are initialised, and later closed, twice. *)
Theorem failed_init_not_undone order order' m w e m1 w1 m2 w2 w3 : initOrder m = [] -> initComplete m = false ->
  visits order m -> visits order' m ->
  Init order m w = (Some e, m1, w1) -> Init order' m1 w2 = (None, m2, w3) ->
  exists before kp after, order = before ++ kp :: after /\ Close m1 w1 = (None, m1, w1) /\
    exists errs, Close m2 w3 = (errs, m, close_world (rev (before.*2 ++ order'.*2)) w3).
Proof.
  intros Hio Hic Hv Hv' Hi Hi'. unfold Init in Hi, Hi'. rewrite Hic in Hi.
  destruct (init_loop_spec _ _ _ _ _ _ Hi) as (Hps & before & rest & Hord & Hio1 & Hic1 & (kp & after & -> & Hw)).
  rewrite Hic in Hic1. rewrite Hic1 in Hi'. destruct (init_loop_spec _ _ _ _ _ _ Hi') as (Hps2 & ds & rest & Hord' & Hio2 & -> & Hic2 & Hw2).
  rewrite app_nil_r in Hord'. subst ds. exists before, kp, after. split; [done|]. unfold Close. rewrite Hic1, Hic2. split; [done|]. simpl.
  rewrite Hps2, Hps, Hio2, Hio1, Hio. simpl. rewrite <- !fmap_app.
  pose proof (close_loop_world (plugins m) (rev (before ++ order').*1) (rev (before ++ order'))) as Hc. specialize (Hc ltac:(
    intros k Hk; apply list_elem_of_In, in_rev, list_elem_of_In, elem_of_app in Hk as [Hk|Hk]; [eapply visits_lookup; [exact Hv|rewrite Hord; apply elem_of_app; by left]|by eapply visits_lookup])).
  specialize (Hc ltac:(by rewrite fmap_rev_list) [] w3). destruct (close_loop (plugins m) (rev (before ++ order').*1) [] w3) as [errs w4]. simpl in Hc. subst w4.
  exists (match errs with [] => None | _ => Some errs end). rewrite fmap_rev_list. f_equal. f_equal. destruct m; simpl in *. by subst.
Qed.

End Plugin.

(** * Two plugins that write what happens into a log *)
Module Logs.

Definition log (x : string) : @action (list string) := fun w => (None, w ++ [x]).

Abbreviation plugin n init := {|
  Name := n; Init_ := init; Close_ := log ("close " ++ n); RegisterWithServer := None; ModifyClientOptions := @None (list unit -> list unit);
  interceptors := @None (@InterceptorPlugin unit unit unit unit);
  hook := Some {| BeforeStart := log ("start " ++ n); AfterStart := log ""; BeforeStop := log ("stop " ++ n); AfterStop := log "" |} |}.

Definition a := plugin "a" (log "init a").
(** Fails the first time. *)
Definition b := plugin "b" (fun w => if bool_decide (length w = 1%nat) then (Some "not yet"%string, w ++ ["no b"%string]) else (None, w ++ ["init b"%string])).

Definition manager := (Register b (Register a NewManager).2).2.
Abbreviation both := [("a"%string, a); ("b"%string, b)].

Lemma both_visits : visits both manager.
Proof. unfold visits. vm_compute map_to_list. reflexivity || apply Permutation_swap. Qed.

Lemma closed_in_reverse_witness : exists errs,
  Close {| plugins := plugins manager; initOrder := ["a"; "b"]; initComplete := true |} ["x"; "init a"; "init b"] =
    (errs, manager, close_world [b; a] ["x"; "init a"; "init b"]) /\ ["x"; "init a"; "init b"]%string = init_world [a; b] ["x"%string].
Proof.
  apply (closed_in_reverse both manager ["x"%string]); [reflexivity|reflexivity|apply both_visits|vm_compute; reflexivity].
Defined.

Lemma failed_init_not_undone_witness : exists before kp after, both = before ++ kp :: after /\
  Close {| plugins := plugins manager; initOrder := ["a"]; initComplete := false |} ["init a"; "no b"] =
    (None, {| plugins := plugins manager; initOrder := ["a"]; initComplete := false |}, ["init a"; "no b"]) /\
  exists errs, Close {| plugins := plugins manager; initOrder := ["a"; "a"; "b"]; initComplete := true |} ["init a"; "no b"; "init a"; "init b"] =
    (errs, manager, close_world (rev (before.*2 ++ [a; b])) ["init a"; "no b"; "init a"; "init b"]).
Proof.
  apply (failed_init_not_undone both both manager [] "failed to initialize plugin b: not yet" _ _ _ ["init a"; "no b"]%string);
    [reflexivity|reflexivity|apply both_visits|apply both_visits|vm_compute; reflexivity|vm_compute; reflexivity].
Defined.

(** What the last run closes: [a] twice. *)
Example closed_twice : (Close {| plugins := plugins manager; initOrder := ["a"; "a"; "b"]; initComplete := true |} []).2 = ["close b"; "close a"; "close a"]%string.
Proof. vm_compute. reflexivity. Qed.

(** The stop hooks run in the reverse of the order in which the map happens to be
    visited, which need not be the order of the start hooks or of [Init]. *)
Example stop_order : (ExecuteBeforeStart both []).2 = ["start a"; "start b"]%string /\
  (ExecuteBeforeStop [("b"%string, b); ("a"%string, a)] []).2 = ["stop a"; "stop b"]%string.
Proof. split; vm_compute; reflexivity. Qed.

End Logs.
