(* ===== verification/Compression.v ===== *)
(** The adaptive compressor: [src/internal/compression/adaptive.go]. It keeps the
    first bytes of a message back until it knows whether the message is worth
    compressing; a header of four bytes tells the reader what was done. *)
From S2P Require Import Prelude Float64 GoCrypto.

Definition ErrNotFound : string := "encoding not found".

(** * Writers, readers and codecs

    An [io.Writer] with its state; [close] if it is also an [io.Closer]. *)
Class Writer (W : Type) : Type := {
  write : list Z -> W -> Z * option string * W;
  close : option (W -> option string * W) }.

(** An [io.Reader], by the bytes it delivers and the error that follows them,
    [None] at the end of the input. *)
Record Reader : Type := { data : list Z; fails : option string }.

(** [io.LimitReader] *)
Definition LimitReader (r : Reader) (n : Z) : Reader :=
  {| data := take (Z.to_nat n) (data r); fails := if Z.of_nat (length (data r)) <? n then fails r else None |}.

(** [io.ReadFull] of a header, and what the reader then delivers. *)
Definition ReadFull (n : nat) (r : Reader) : result string (list Z * Reader) :=
  if (n <=? length (data r))%nat then Ok (take n (data r), {| data := drop n (data r); fails := fails r |})
  else Err (match fails r with Some e => e | None => match data r with [] => "EOF" | _ => "unexpected EOF" end end).

(** A codec that is registered with gRPC, on a writer [W]; [C] is the state of its
    own writer. *)
Record Codec (W C : Type) : Type := {
  codec_compress : W -> result string C * W;
  codec_write : list Z -> C -> W -> Z * option string * C * W;
  codec_close : C -> W -> option string * C * W;
  codec_decompress : Reader -> result string Reader }.
Arguments codec_compress {W C} c.
Arguments codec_write {W C} c.
Arguments codec_close {W C} c.
Arguments codec_decompress {W C} c.

(** * The compressor *)

Record AdaptiveCompressor : Type := { name : string; underlyingAlgorithm : string; thresholdBytes : Z; minRatio : float64 }.

Definition Name (c : AdaptiveCompressor) : string := name c.

(** The compressor that [init] registers. *)
Definition registered : AdaptiveCompressor :=
  {| name := "adaptive"; underlyingAlgorithm := "gzip"; thresholdBytes := 1024; minRatio := of_int 0 |}.

Definition NewAdaptiveCompressor (algorithm : string) (threshold : Z) (ratio : float64) : AdaptiveCompressor :=
  {| name := "adaptive"; underlyingAlgorithm := algorithm; thresholdBytes := if threshold <=? 0 then 1024 else threshold;
     minRatio := if fle ratio (of_int 0) || fge ratio (of_int 1) then lit 7 10 else ratio |}.

Definition SetThreshold (n : Z) (c : AdaptiveCompressor) : AdaptiveCompressor :=
  {| name := name c; underlyingAlgorithm := underlyingAlgorithm c; thresholdBytes := n; minRatio := minRatio c |}.
Definition SetUnderlyingAlgorithm (a : string) (c : AdaptiveCompressor) : AdaptiveCompressor :=
  {| name := name c; underlyingAlgorithm := a; thresholdBytes := thresholdBytes c; minRatio := minRatio c |}.
Definition SetMinRatio (r : float64) (c : AdaptiveCompressor) : AdaptiveCompressor :=
  {| name := name c; underlyingAlgorithm := underlyingAlgorithm c; thresholdBytes := thresholdBytes c; minRatio := r |}.

Section Writer.
Context {W C : Type} `{Writer W} (GetCompressor : string -> option (Codec W C)).

(** What the adaptive writer passes its data on to. *)
Inductive inner : Type := Compressing (codec : Codec W C) (c : C) | NoOp.

Record adaptiveWriter : Type := {
  threshold : Z; algorithm : string; buffer : list Z; compressor : option inner; shouldCompress : bool; compressed : bool }.

(** [make] with a negative capacity panics. *)
Definition Compress (c : AdaptiveCompressor) : outcome adaptiveWriter :=
  if thresholdBytes c + 4 <? 0 then Panics
  else Returns {| threshold := thresholdBytes c; algorithm := underlyingAlgorithm c; buffer := []; compressor := None;
                  shouldCompress := true; compressed := false |}.

Definition set_inner (i : inner) (aw : adaptiveWriter) : adaptiveWriter :=
  {| threshold := threshold aw; algorithm := algorithm aw; buffer := buffer aw; compressor := Some i;
     shouldCompress := shouldCompress aw; compressed := compressed aw |}.

(** The header: the length in big-endian order, its first byte then overwritten. *)
Definition plain_header (n : nat) : list Z := match be_bytes 4 (u32 (Z.of_nat n)) with _ :: t => 0 :: t | [] => [] end.

Definition Write (p : list Z) (aw : adaptiveWriter) (w : W) : Z * option string * adaptiveWriter * W :=
  match compressor aw with
  | Some (Compressing codec c) => let '(n, err, c, w) := codec_write codec p c w in (n, err, set_inner (Compressing codec c) aw, w)
  | Some NoOp => let '(n, err, w) := write p w in (n, err, aw, w)
  | None =>
      if Z.of_nat (length (buffer aw) + length p) <? threshold aw then
        (Z.of_nat (length p), None,
         {| threshold := threshold aw; algorithm := algorithm aw; buffer := buffer aw ++ p; compressor := None;
            shouldCompress := shouldCompress aw; compressed := compressed aw |}, w)
      else if shouldCompress aw then
        match GetCompressor (algorithm aw) with
        | None => (0, Some ErrNotFound, aw, w)
        | Some codec =>
            match write [1; 0; 0; 0] w with
            | (_, Some e, w) => (0, Some e, aw, w)
            | (_, None, w) =>
                match codec_compress codec w with
                | (Err e, w) => (0, Some e, aw, w)
                | (Ok c, w) =>
                    match codec_write codec (buffer aw) c w with
                    | (_, Some e, c, w) => (0, Some e, set_inner (Compressing codec c) aw, w)
                    | (_, None, c, w) =>
                        let '(n, err, c, w) := codec_write codec p c w in
                        (n, err, {| threshold := threshold aw; algorithm := algorithm aw; buffer := buffer aw;
                                    compressor := Some (Compressing codec c); shouldCompress := shouldCompress aw; compressed := true |}, w)
                    end
                end
            end
        end
      else
        match write (plain_header (length (buffer aw) + length p)) w with
        | (_, Some e, w) => (0, Some e, aw, w)
        | (_, None, w) =>
            match write (buffer aw) w with
            | (_, Some e, w) => (0, Some e, aw, w)
            | (_, None, w) =>
                match write p w with
                | (n, Some e, w) => (Z.of_nat (length (buffer aw)) + n, Some e, aw, w)
                | (_, None, w) => (Z.of_nat (length p), None, set_inner NoOp aw, w)
                end
            end
        end
  end.

Definition noop_Close (w : W) : option string * W := match close with Some f => f w | None => (None, w) end.

Definition Close (aw : adaptiveWriter) (w : W) : option string * adaptiveWriter * W :=
  match compressor aw with
  | Some (Compressing codec c) => let '(err, c, w) := codec_close codec c w in (err, set_inner (Compressing codec c) aw, w)
  | Some NoOp => let '(err, w) := noop_Close w in (err, aw, w)
  | None =>
      match write (plain_header (length (buffer aw))) w with
      | (_, Some e, w) => (Some e, aw, w)
      | (_, None, w) => match write (buffer aw) w with (_, Some e, w) => (Some e, aw, w) | (_, None, w) => (None, aw, w) end
      end
  end.

Definition Decompress (c : AdaptiveCompressor) (r : Reader) : result string Reader :=
  match ReadFull 4 r with
  | Err e => Err e
  | Ok (header, r) =>
      if negb (default 0 (header !! 0%nat) =? 1) then Ok (LimitReader r (of_be_bytes header))
      else match GetCompressor (underlyingAlgorithm c) with
           | None => Err ErrNotFound
           | Some codec => codec_decompress codec r
           end
  end.

(** A message written in chunks and closed; [None] if any call fails. *)
Fixpoint write_all (chunks : list (list Z)) (aw : adaptiveWriter) (w : W) : option (adaptiveWriter * W) :=
  match chunks with
  | [] => Some (aw, w)
  | p :: chunks => match Write p aw w with (_, None, aw, w) => write_all chunks aw w | _ => None end
  end.

Definition send (c : AdaptiveCompressor) (chunks : list (list Z)) (w : W) : option W :=
  match Compress c with
  | Panics => None
  | Returns aw =>
      match write_all chunks aw w with
      | None => None
      | Some (aw, w) => match Close aw w with (None, _, w) => Some w | _ => None end
      end
  end.

End Writer.
Arguments inner : clear implicits.
Arguments adaptiveWriter : clear implicits.

(** * The estimate of the compression ratio

    [counts] are the entries of the map of frequencies in the order in which they are
    visited; the logarithm is the library's. *)
Section Ratio.
Variable Log2 : float64 -> float64.

Definition frequencies (l : list Z) : gmap Z Z := foldl (fun m b => <[b := default 0 (m !! b) + 1]> m) ∅ l.

Definition calculateEntropy (counts : gmap Z Z -> list Z) (l : list Z) : float64 :=
  match l with
  | [] => of_int 0
  | _ =>
      let dataLen := of_int (Z.of_nat (length l)) in
      foldl (fun entropy count => let p := fdiv (of_int count) dataLen in fsub entropy (fmul p (Log2 p))) (of_int 0) (counts (frequencies l))
  end.

Definition DetectCompressionRatio (counts : gmap Z Z -> list Z) (l : list Z) : float64 :=
  match l with
  | [] => of_int 1
  | _ => let ratio := fdiv (calculateEntropy counts l) (of_int 8) in if flt ratio (lit 1 10) then lit 1 10 else ratio
  end.
End Ratio.

(** * Facts *)

(** A writer in memory takes everything. *)
#[export] Instance memory : Writer (list Z) := {| write := fun p w => (Z.of_nat (length p), None, w ++ p); close := None |}.

Module Facts.

Section Facts.
Context {C : Type}.
Implicit Type codec : Codec (list Z) C.

(** Chunks written to a codec's writer, then closed. *)
Fixpoint feed codec (chunks : list (list Z)) (c : C) (w : list Z) : option (C * list Z) :=
  match chunks with
  | [] => Some (c, w)
  | p :: chunks => match codec_write codec p c w with (_, None, c, w) => feed codec chunks c w | _ => None end
  end.

Definition finish codec (c : C) (w : list Z) : option (list Z) := match codec_close codec c w with (None, _, w) => Some w | _ => None end.

(** What a registered codec promises: on a writer that takes everything, writing
    succeeds and appends bytes from which its reader delivers what was written. *)
Class CodecLaws codec : Prop := {
  codec_roundtrip chunks w : exists c0 w0 c w1 z, codec_compress codec w = (Ok c0, w0) /\ feed codec chunks c0 w0 = Some (c, w1) /\
    finish codec c w1 = Some (w ++ z) /\
    codec_decompress codec {| data := z; fails := None |} = Ok {| data := concat chunks; fails := None |} }.

Context (GetCompressor : string -> option (Codec (list Z) C)).
Notation writer := (adaptiveWriter (list Z) C).
Notation write_all := (write_all GetCompressor).
Notation Write := (Write GetCompressor).

(** Once the compressor is there, everything goes to it. *)
Lemma write_all_compressing codec chunks : forall aw c w, compressor aw = Some (Compressing codec c) ->
  match feed codec chunks c w with
  | Some (c', w') => exists aw' : writer, write_all chunks aw w = Some (aw', w') /\ compressor aw' = Some (Compressing codec c')
  | None => write_all chunks aw w = None
  end.
Proof.
  induction chunks as [|p chunks IH]; intros aw c w Hc; cbn [feed Compression.write_all]; [by exists aw|].
  unfold Compression.Write. rewrite Hc. destruct (codec_write codec p c w) as [[[n [e|]] c1] w1]; [done|]. by apply IH.
Qed.

(** Of a longer length, the header keeps what fits into three bytes. *)
Lemma long_header n : Z.of_nat n < 2 ^ 32 -> exists h, plain_header n = 0 :: h /\ length h = 3%nat /\ of_be_bytes (0 :: h) = Z.of_nat n mod 2 ^ 24.
Proof.
  intros Hn. unfold plain_header, u32. rewrite Z.mod_small by lia. rewrite be_bytes_digits.
  pose proof (of_digits_digits 256 4 (Z.of_nat n) ltac:(lia)) as Hd. pose proof (digits_length 256 4 (Z.of_nat n)) as Hlen.
  assert (Hr : Forall (fun v => 0 <= v < 256) (digits 256 4 (Z.of_nat n))) by (rewrite <- be_bytes_digits; apply be_bytes_range).
  destruct (digits 256 4 (Z.of_nat n)) as [|a0 [|b [|c [|d [|]]]]] eqn:E; try done. exists [b; c; d]. split; [done|]. split; [done|].
  rewrite Z.mod_small in Hd by lia. unfold of_digits, of_be_bytes in *. simpl in *. repeat (apply Forall_cons in Hr as [? Hr]).
  rewrite <- Hd. apply (Z.mod_unique_pos _ _ a0); lia.
Qed.

Lemma plain_header_spec n : Z.of_nat n < 2 ^ 24 -> length (plain_header n) = 4%nat /\ plain_header n !! 0%nat = Some 0 /\ of_be_bytes (plain_header n) = Z.of_nat n.
Proof.
  intros Hn. destruct (long_header n) as (h & -> & Hl & Hb); [lia|]. rewrite Hb, Z.mod_small by lia. simpl. by rewrite Hl.
Qed.

#[local] Opaque plain_header.

(** A message that stayed below the threshold is written with its length. *)
Lemma read_plain a l : Z.of_nat (length l) < 2 ^ 24 ->
  Decompress GetCompressor a {| data := plain_header (length l) ++ l; fails := None |} = Ok {| data := l; fails := None |}.
Proof.
  intros Hn. destruct (plain_header_spec _ Hn) as (Hl & H0 & Hb). unfold Decompress, ReadFull. cbn [data fails]. rewrite length_app, Hl.
  rewrite (proj2 (Nat.leb_le _ _)) by lia. rewrite <- Hl, take_app_length, drop_app_length, H0. change (negb (default 0 (Some 0) =? 1)) with true. cbv iota. unfold LimitReader. cbn [data fails].
  rewrite Hb, Nat2Z.id, take_ge by lia. by rewrite Z.ltb_irrefl.
Qed.

Lemma read_compressed a codec z : GetCompressor (underlyingAlgorithm a) = Some codec ->
  Decompress GetCompressor a {| data := [1; 0; 0; 0] ++ z; fails := None |} = codec_decompress codec {| data := z; fails := None |}.
Proof. intros Hc. unfold Decompress, ReadFull. simpl. by rewrite Hc. Qed.

(** The chunks go to the buffer as long as they stay below the threshold. *)
Lemma write_all_cases chunks : forall (aw : writer) w, compressor aw = None -> shouldCompress aw = true ->
  (exists aw', write_all chunks aw w = Some (aw', w) /\ compressor aw' = None /\ buffer aw' = buffer aw ++ concat chunks /\
     (buffer aw = buffer aw' \/ Z.of_nat (length (buffer aw')) < threshold aw)) \/
  (exists kept p rest (aw1 : writer), chunks = kept ++ p :: rest /\ write_all kept aw w = Some (aw1, w) /\ compressor aw1 = None /\ shouldCompress aw1 = true /\
     buffer aw1 = buffer aw ++ concat kept /\ algorithm aw1 = algorithm aw /\ threshold aw1 = threshold aw /\
     threshold aw <= Z.of_nat (length (buffer aw1) + length p) /\ write_all chunks aw w = write_all (p :: rest) aw1 w).
Proof.
  induction chunks as [|p chunks IH]; intros aw w Hc Hs.
  - left. exists aw. rewrite app_nil_r. split_and!; [done..|by left].
  - destruct (Z.ltb_spec (Z.of_nat (length (buffer aw) + length p)) (threshold aw)) as [Hlt|Hge].
    + set (aw1 := {| threshold := threshold aw; algorithm := algorithm aw; buffer := buffer aw ++ p; compressor := None;
                     shouldCompress := shouldCompress aw; compressed := compressed aw |} : writer).
      assert (Hw : forall l, write_all (p :: l) aw w = write_all l aw1 w).
      { intros l. cbn [Compression.write_all]. unfold Compression.Write at 1. rewrite Hc, (proj2 (Z.ltb_lt _ _) Hlt). done. }
      destruct (IH aw1 w eq_refl Hs) as [(aw' & Ha & Hca & Hb & Hsz)|(kept & q & rest & aw2 & -> & Hk & Hca & Hsa & Hb & Halg & Hthr & Hge & Ha)].
      * left. exists aw'. rewrite Hw, Ha. simpl concat. simpl in Hb. rewrite <- app_assoc in Hb. split_and!; [done..|]. right.
        destruct Hsz as [Hsz|Hsz]; [|done]. rewrite <- Hsz. simpl. by rewrite length_app.
      * right. exists (p :: kept), q, rest, aw2. simpl app. rewrite !Hw. simpl concat. simpl in Hb. rewrite <- app_assoc in Hb. by split_and!.
    + right. exists [], p, chunks, aw. simpl. rewrite app_nil_r. by split_and!.
Qed.

(** C32: what the adaptive writer makes of a message, in whatever chunks it is written, its reader turns back into the message, whether it was compressed or not: for a threshold of at most sixteen megabytes and a registered codec that keeps its promise. *)
Theorem message_comes_back a codec chunks : GetCompressor (underlyingAlgorithm a) = Some codec -> CodecLaws codec -> - 4 <= thresholdBytes a <= 2 ^ 24 ->
  exists z, send GetCompressor a chunks [] = Some z /\ Decompress GetCompressor a {| data := z; fails := None |} = Ok {| data := concat chunks; fails := None |}.
Proof.
  intros Hcodec Hlaws Hthr. unfold send, Compress. rewrite (proj2 (Z.ltb_ge _ _)) by lia.
  match goal with |- context [Compression.write_all _ _ ?aw _] => set (aw0 := aw : writer) end.
  destruct (write_all_cases chunks aw0 [] eq_refl eq_refl) as [(aw' & Ha & Hc & Hb & Hsz)|(kept & p & rest & aw1 & -> & _ & Hc & Hs & Hb & Halg & Hthr1 & Hge & Ha)].
  - rewrite Ha. unfold Close. rewrite Hc. simpl. rewrite Hb. simpl. eexists. split; [reflexivity|]. apply read_plain. simpl in Hb. rewrite <- Hb.
    destruct Hsz as [Hsz|Hsz]; [rewrite <- Hsz; simpl; lia|]. simpl in Hsz. lia.
  - rewrite Ha. cbn [Compression.write_all]. unfold Compression.Write. rewrite Hc, Hthr1, (proj2 (Z.ltb_ge _ _)), Hs, Halg by (simpl in Hge |- *; lia).
    simpl algorithm. rewrite Hcodec. simpl write. cbv iota beta.
    destruct (codec_roundtrip (codec := codec) (buffer aw1 :: p :: rest) [1; 0; 0; 0]) as (c0 & w0 & c & w1 & z & Hc0 & Hfeed & Hfin & Hz).
    simpl app. rewrite Hc0. cbn [feed] in Hfeed. destruct (codec_write codec (buffer aw1) c0 w0) as [[[n1 [e1|]] c1] w2]; [done|].
    destruct (codec_write codec p c1 w2) as [[[n2 [e2|]] c2] w3]; [done|].
    match goal with |- context [Compression.write_all _ rest ?aw w3] => pose proof (write_all_compressing codec rest aw c2 w3 eq_refl) as Hrest end.
    rewrite Hfeed in Hrest. destruct Hrest as (aw' & -> & Hc'). unfold Close. rewrite Hc'. unfold finish in Hfin.
    destruct (codec_close codec c w1) as [[[e|] c'] w']; [done|]. injection Hfin as ->. eexists. split; [reflexivity|].
    change (1 :: 0 :: 0 :: 0 :: z) with ([1; 0; 0; 0] ++ z). rewrite (read_compressed a codec z Hcodec), Hz. simpl in Hb. simpl.
    by rewrite Hb, concat_app.
Qed.

(** With a larger threshold the header cannot hold the length of a long message that
    was not compressed: the reader stops early, without an error. *)
Lemma long_message_cut a l : 2 ^ 24 <= Z.of_nat (length l) < Z.min (thresholdBytes a) (2 ^ 32) ->
  exists z, send GetCompressor a [l] [] = Some z /\
    Decompress GetCompressor a {| data := z; fails := None |} = Ok {| data := take (Z.to_nat (Z.of_nat (length l) mod 2 ^ 24)) l; fails := None |}.
Proof.
  intros Hl. unfold send, Compress. rewrite (proj2 (Z.ltb_ge _ _)) by lia. simpl Compression.write_all. unfold Compression.Write. simpl.
  rewrite (proj2 (Z.ltb_lt _ _)) by lia. simpl. eexists. split; [reflexivity|]. unfold Close. simpl.
  set (n := Z.of_nat (length l)) in *. destruct (long_header (length l) ltac:(fold n; lia)) as (h & Hp & Hlh & Hv). fold n in Hv.
  unfold Decompress, ReadFull. cbn [data fails]. rewrite Hp. destruct h as [|x [|y [|z [|]]]]; try done.
  cbn [app length Nat.leb take drop lookup list_lookup]. change (negb (default 0 (Some 0) =? 1)) with true. cbv iota.
  unfold LimitReader. cbn [data fails]. change (take 0 l) with (@nil Z). change (drop 0 l) with l. rewrite Hv. do 2 f_equal. rewrite (proj2 (Z.ltb_ge _ _)); [done|]. fold n.
  pose proof (Z.mod_pos_bound n (2 ^ 24)). lia.
Qed.

(** The ratio is never below a tenth. *)
Lemma ratio_bound Log2 counts l : flt (DetectCompressionRatio Log2 counts l) (lit 1 10) = false.
Proof. unfold DetectCompressionRatio. destruct l; [by vm_compute|]. case_bool; [by vm_compute|done]. Qed.

End Facts.

(** ** A codec that marks the end of the message *)
Definition chunk_codec : Codec (list Z) unit := {|
  codec_compress := fun w => (Ok tt, w);
  codec_write := fun p c w => (Z.of_nat (length p), None, c, w ++ p);
  codec_close := fun c w => (None, c, w ++ [42]);
  codec_decompress := fun r => Ok {| data := removelast (data r); fails := fails r |} |}.

#[local] Instance chunk_laws : CodecLaws chunk_codec.
Proof.
  constructor. intros chunks w. assert (Hf : forall l w, feed chunk_codec l tt w = Some (tt, w ++ concat l)).
  { induction l as [|p l IH]; intros v; simpl; [by rewrite app_nil_r|]. by rewrite IH, app_assoc. }
  exists tt, w, tt, (w ++ concat chunks), (concat chunks ++ [42]). split; [done|]. split; [apply Hf|]. unfold finish. simpl.
  rewrite app_assoc, removelast_last. done.
Qed.

Definition small : AdaptiveCompressor := SetThreshold 4 registered.

Lemma message_comes_back_witness : exists z, send (fun _ => Some chunk_codec) small [[7; 8]; [9]; [10; 11]] [] = Some z /\
  Decompress (fun _ => Some chunk_codec) small {| data := z; fails := None |} = Ok {| data := [7; 8; 9; 10; 11]; fails := None |}.
Proof. apply (message_comes_back (fun _ => Some chunk_codec) small chunk_codec [[7; 8]; [9]; [10; 11]]); [reflexivity|apply chunk_laws|by vm_compute]. Defined.

Example compressed_and_plain : send (fun _ => Some chunk_codec) small [[7; 8]; [9]; [10; 11]] [] = Some [1; 0; 0; 0; 7; 8; 9; 10; 11; 42] /\
  send (fun _ => Some chunk_codec) small [[7; 8]; [9]] [] = Some [0; 0; 0; 3; 7; 8; 9].
Proof. by vm_compute. Qed.

End Facts.
