(* ===== verification/Serialization.v ===== *)
(** Pooled buffers ([src/internal/mempool/buffer.go]) and the readers and writers
    over them ([src/internal/serialization/zerocopy.go]).

    A buffer is an object of a store, known by its address; the pool keeps
    addresses. Protocol buffers are parameters. *)
From S2P Require Import Prelude Mempool.

(** * Readers

    An [io.Reader] is the list of what its source will deliver: bytes, and the error
    that comes with the last of them. A read takes at most as many bytes as its
    buffer holds; at the end it says [EOF] for ever. *)
Definition EOF : string := "EOF".
Abbreviation source := (list (list Z * option string)).

Definition Read (size : nat) (s : source) : list Z * option string * source :=
  match s with
  | [] => ([], Some EOF, [])
  | (bs, err) :: s =>
      if (length bs <=? size)%nat then (bs, err, match err with None => s | Some e => [([], Some e)] end)
      else (take size bs, None, (drop size bs, err) :: s)
  end.

(** * Buffers *)
Module Buffers.

Record PooledBuffer : Type := { contents : list Z; capacity : Z; pool : bool }.

(** [heap]: the buffers made so far; [items]: those in the [sync.Pool]. [grow] is the
    capacity of a [bytes.Buffer] after more than its capacity was written. *)
Record AdvancedBufferPool : Type := { heap : list PooledBuffer; items : list nat; initialSize : Z; maxSize : Z }.

Definition NewAdvancedBufferPool (initial max : Z) : AdvancedBufferPool := {| heap := []; items := []; initialSize := initial; maxSize := max |}.

Definition set_buffer (i : nat) (b : PooledBuffer) (p : AdvancedBufferPool) : AdvancedBufferPool :=
  {| heap := <[i := b]> (heap p); items := items p; initialSize := initialSize p; maxSize := maxSize p |}.

Definition Reset (b : PooledBuffer) : PooledBuffer := {| contents := []; capacity := capacity b; pool := pool b |}.

Definition update (f : PooledBuffer -> PooledBuffer) (i : nat) (p : AdvancedBufferPool) : AdvancedBufferPool :=
  {| heap := alter f i (heap p); items := items p; initialSize := initialSize p; maxSize := maxSize p |}.

(** Gets the item that [pick] says, or a new buffer; it is emptied and remembers the pool. *)
Definition Get (pick : option nat) (p : AdvancedBufferPool) : nat * AdvancedBufferPool :=
  let reuse b := {| contents := []; capacity := capacity b; pool := true |} in
  match take_item pick (items p) with
  | Some (i, rest) => (i, {| heap := alter reuse i (heap p); items := rest; initialSize := initialSize p; maxSize := maxSize p |})
  | None => (length (heap p), {| heap := heap p ++ [{| contents := []; capacity := initialSize p; pool := true |}]; items := items p;
                                 initialSize := initialSize p; maxSize := maxSize p |})
  end.

Definition Put (i : nat) (p : AdvancedBufferPool) : AdvancedBufferPool :=
  match heap p !! i with
  | None => p
  | Some b => if maxSize p <? capacity b then p
              else {| heap := alter Reset i (heap p); items := items p ++ [i]; initialSize := initialSize p; maxSize := maxSize p |}
  end.

Definition Release (i : nat) (p : AdvancedBufferPool) : AdvancedBufferPool :=
  match heap p !! i with Some b => if pool b then Put i p else p | None => p end.

Section Growth.
Variable grow : Z -> nat -> Z.

(** [bytes.Buffer.Write] *)
Definition Write (bs : list Z) (b : PooledBuffer) : PooledBuffer :=
  let n := (length (contents b) + length bs)%nat in
  {| contents := contents b ++ bs; capacity := if Z.of_nat n <=? capacity b then capacity b else grow (capacity b) n; pool := pool b |}.

(** The loop of [ReadFrom], with 4096 bytes at a time. *)
Fixpoint ReadFrom (fuel : nat) (s : source) (n : Z) (b : PooledBuffer) : option (Z * option string * PooledBuffer * source) :=
  match fuel with
  | O => None
  | S fuel =>
      let '(bs, err, s) := Read 4096 s in
      let n := i64 (n + Z.of_nat (length bs)) in
      let b := if bool_decide (bs = []) then b else Write bs b in
      match err with
      | Some e => if (e =? EOF)%string then Some (n, None, b, s) else Some (n, Some e, b, s)
      | None => ReadFrom fuel s n b
      end
  end.

(** Enough turns: one for each read. *)
Definition fuel_for (s : source) : nat := S (sum_list_with (fun x => S (length x.1)) s).
End Growth.

(** [WriteTo]: one write of everything; the buffer keeps its contents. [write] is the
    writer's answer. *)
Definition WriteTo (write : list Z -> Z * option string) (b : PooledBuffer) : Z * option string :=
  match contents b with [] => (0, None) | bs => write bs end.

(** The pool for protocol buffers keeps every buffer and does not give it a pool. *)
Module Proto.
Definition Get (pick : option nat) (p : AdvancedBufferPool) : nat * AdvancedBufferPool :=
  match take_item pick (items p) with
  | Some (i, rest) => (i, {| heap := alter Reset i (heap p); items := rest; initialSize := initialSize p; maxSize := maxSize p |})
  | None => (length (heap p), {| heap := heap p ++ [{| contents := []; capacity := initialSize p; pool := false |}]; items := items p;
                                 initialSize := initialSize p; maxSize := maxSize p |})
  end.
Definition Put (i : nat) (p : AdvancedBufferPool) : AdvancedBufferPool :=
  {| heap := alter Reset i (heap p); items := items p ++ [i]; initialSize := initialSize p; maxSize := maxSize p |}.
End Proto.

End Buffers.

(** * Readers and writers of messages *)
Module ZeroCopy.
Import Buffers.

Section Messages.
Context {M : Type} (Marshal : M -> result string (list Z)) (Unmarshal : list Z -> result string M) (grow : Z -> nat -> Z).

(** A writer holds the address of its buffer until it is released. *)
Definition ZeroCopyWriter : Type := option nat.

Definition NewZeroCopyWriter (pick : option nat) (p : AdvancedBufferPool) : ZeroCopyWriter * AdvancedBufferPool :=
  let '(i, p) := Get pick p in (Some i, p).

(** A released writer has a nil buffer: using it panics. *)
Definition WriteProto (msg : M) (w : ZeroCopyWriter) (p : AdvancedBufferPool) : outcome (option string * AdvancedBufferPool) :=
  match Marshal msg with
  | Err e => Returns (Some e, p)
  | Ok bs => match w with None => Panics | Some i => Returns (None, update (Write grow bs) i p) end
  end.

Definition Bytes (w : ZeroCopyWriter) (p : AdvancedBufferPool) : outcome (list Z) :=
  match w with None => Panics | Some i => match heap p !! i with None => Panics | Some b => Returns (contents b) end end.

Definition writer_Reset (w : ZeroCopyWriter) (p : AdvancedBufferPool) : outcome AdvancedBufferPool :=
  match w with None => Panics | Some i => Returns (update Reset i p) end.

Definition writer_Release (w : ZeroCopyWriter) (p : AdvancedBufferPool) : outcome (ZeroCopyWriter * AdvancedBufferPool) :=
  match w with None => Panics | Some i => Returns (None, Release i p) end.

Record ZeroCopyReader : Type := { data : list Z; pos : Z }.

Definition NewZeroCopyReader (d : list Z) : ZeroCopyReader := {| data := d; pos := 0 |}.

(** Slicing from outside the data panics; the position stays. *)
Definition ReadProto (r : ZeroCopyReader) : outcome (result string M) :=
  if (0 <=? pos r) && (pos r <=? Z.of_nat (length (data r))) then Returns (Unmarshal (drop (Z.to_nat (pos r)) (data r))) else Panics.

Definition Skip (n : Z) (r : ZeroCopyReader) : ZeroCopyReader :=
  if i64 (pos r + n) <=? Z.of_nat (length (data r)) then {| data := data r; pos := i64 (pos r + n) |}
  else {| data := data r; pos := Z.of_nat (length (data r)) |}.

End Messages.

(** ** Numbers *)
Section Varint.
Context (AppendVarint : list Z -> Z -> list Z) (grow : Z -> nat -> Z).

Definition WriteVarint (value : Z) (w : ZeroCopyWriter) (p : AdvancedBufferPool) : outcome AdvancedBufferPool :=
  match w with None => Panics | Some i => Returns (update (Write grow (AppendVarint [] value)) i p) end.
End Varint.

(** ** Chunks *)

(** [buf] is the buffer up to [end]; its bytes before [pos] have been returned. *)
Record ChunkedReader : Type := { reader : source; size : nat; buf : list Z; cpos : nat }.

Definition NewChunkedReader (s : source) (bufferSize : Z) : ChunkedReader :=
  {| reader := s; size := if bufferSize <=? 0 then 4096 else Z.to_nat bufferSize; buf := []; cpos := 0 |}.

Definition ReadNext (r : ChunkedReader) : result string (list Z) * ChunkedReader :=
  let '(err, r) :=
    if (length (buf r) <=? cpos r)%nat then
      let '(bs, err, s) := Read (size r) (reader r) in (err, {| reader := s; size := size r; buf := bs; cpos := 0 |})
    else (None, r) in
  match err with
  | Some e => (Err e, r)
  | None => (Ok (drop (cpos r) (buf r)), {| reader := reader r; size := size r; buf := buf r; cpos := length (buf r) |})
  end.

(** [ReadAll] collects in a pooled buffer and copies. *)
Definition ReadAll (grow : Z -> nat -> Z) (pick : option nat) (r : ChunkedReader) (p : AdvancedBufferPool)
  : option (result string (list Z) * ChunkedReader * AdvancedBufferPool) :=
  let '(i, p) := Get pick p in
  b ← heap p !! i;
  let left := drop (cpos r) (buf r) in
  let b := if bool_decide (left = []) then b else Write grow left b in
  '(n, err, b, s) ← ReadFrom grow (fuel_for (reader r)) (reader r) 0 b;
  let r := {| reader := s; size := size r; buf := buf r; cpos := Nat.max (cpos r) (length (buf r)) |} in
  let p := Release i (set_buffer i b p) in
  Some (match err with Some e => Err e | None => Ok (contents b) end, r, p).

End ZeroCopy.

(** * Facts *)
Module Facts.
Import Buffers ZeroCopy.

(** What a source delivers before its first error, and that error unless it is the end. *)
Fixpoint all_of (s : source) : list Z * option string :=
  match s with
  | [] => ([], None)
  | (bs, None) :: s => (bs ++ (all_of s).1, (all_of s).2)
  | (bs, Some e) :: _ => (bs, if (e =? EOF)%string then None else Some e)
  end.

(** Reads left, until the source has failed. *)
Definition reads (s : source) : nat := sum_list_with (fun x => S (length x.1)) s.

Lemma Read_spec size s : (0 < size)%nat -> let '(bs, err, s') := Read size s in
  (length bs <= size)%nat /\
  match err with
  | None => all_of s = (bs ++ (all_of s').1, (all_of s').2) /\ (reads s' < reads s)%nat
  | Some e => all_of s = (bs, if (e =? EOF)%string then None else Some e)
  end.
Proof.
  intros Hsize. destruct s as [|[bs err] s]; simpl; [split; [lia|reflexivity]|]. destruct (Nat.leb_spec (length bs) size).
  - destruct err as [e|]; simpl; [split; [lia|done]|]. split; [lia|]. split; [done|]. unfold reads. simpl. lia.
  - split; [rewrite length_take; lia|]. split.
    + destruct err as [e|]; simpl; [by rewrite take_drop|]. by rewrite app_assoc, take_drop.
    + unfold reads. simpl. rewrite length_drop. lia.
Qed.

Section Facts.
Variable grow : Z -> nat -> Z.

Lemma Write_contents bs b : contents (Write grow bs b) = contents b ++ bs /\ pool (Write grow bs b) = pool b.
Proof. done. Qed.

Lemma ReadFrom_spec fuel : forall s n b, (reads s < fuel)%nat ->
  exists n' b' s', ReadFrom grow fuel s n b = Some (n', (all_of s).2, b', s') /\ contents b' = contents b ++ (all_of s).1 /\ pool b' = pool b.
Proof.
  induction fuel as [|fuel IH]; intros s n b Hf; [lia|]. cbn [ReadFrom]. pose proof (Read_spec 4096 s ltac:(lia)) as Hr.
  destruct (Read 4096 s) as [[bs err] s']. destruct Hr as [_ Hr].
  set (b1 := if bool_decide (bs = []) then b else Write grow bs b).
  assert (Hb1 : contents b1 = contents b ++ bs /\ pool b1 = pool b).
  { unfold b1. case_bool_decide as He; [by rewrite He, app_nil_r|done]. }
  destruct err as [e|].
  - rewrite Hr. simpl. destruct Hb1 as [Hc Hp]. case_bool; do 3 eexists; by split_and!.
  - destruct Hr as [Hall Hlt]. destruct (IH s' (i64 (n + Z.of_nat (length bs))) b1) as (n' & b' & s2 & Hrf & Hc & Hp); [lia|].
    rewrite Hall. simpl. exists n', b', s2. destruct Hb1 as [Hc1 Hp1]. split_and!; [exact Hrf| |congruence]. by rewrite Hc, Hc1, app_assoc.
Qed.

(** A pool whose items are buffers. *)
Definition sane (p : AdvancedBufferPool) : Prop := Forall (fun i => (i < length (heap p))%nat) (items p).

Lemma Get_empty pick p : sane p -> exists b, heap (Get pick p).2 !! (Get pick p).1 = Some b /\ contents b = [] /\ pool b = true.
Proof.
  intros Hs. unfold Get. destruct (take_item pick (items p)) as [[i rest]|] eqn:Ht; simpl.
  - assert (Hi : (i < length (heap p))%nat).
    { unfold sane in Hs. rewrite Forall_forall in Hs. apply Hs. apply take_item_perm in Ht. rewrite Ht. by left. }
    destruct (lookup_lt_is_Some_2 _ _ Hi) as [b Hb]. rewrite list_lookup_alter_eq, Hb. simpl. by eexists.
  - rewrite lookup_app_r, Nat.sub_diag by lia. simpl. by eexists.
Qed.

(** C35: [ReadAll] always returns: the bytes that were read but not yet handed out, followed by all that the source delivers up to its end, or the source's error. *)
Theorem ReadAll_complete pick r p : sane p ->
  exists r' p', ReadAll grow pick r p =
    Some (match (all_of (reader r)).2 with None => Ok (drop (cpos r) (buf r) ++ (all_of (reader r)).1) | Some e => Err e end, r', p').
Proof.
  intros Hs. unfold ReadAll. destruct (Get_empty pick p Hs) as (b & Hb & Hc & _). destruct (Get pick p) as [i p1]. simpl in Hb. rewrite Hb. cbn [mbind option_bind].
  set (b1 := if bool_decide (drop (cpos r) (buf r) = []) then b else Write grow (drop (cpos r) (buf r)) b).
  assert (Hb1 : contents b1 = drop (cpos r) (buf r)).
  { unfold b1. case_bool_decide as He; [by rewrite He, Hc|]. simpl. by rewrite Hc. }
  destruct (ReadFrom_spec (fuel_for (reader r)) (reader r) 0 b1) as (n & b' & s' & Hrf & Hc' & _); [unfold fuel_for, reads; lia|].
  rewrite Hrf. cbn. rewrite Hc', Hb1. by do 2 eexists.
Qed.

(** Chunk after chunk, until an error. *)
Fixpoint drain (fuel : nat) (r : ChunkedReader) : option (list (list Z) * string) :=
  match fuel with
  | O => None
  | S fuel =>
      match ReadNext r with
      | (Err e, _) => Some ([], e)
      | (Ok chunk, r) => '(chunks, e) ← drain fuel r; Some (chunk :: chunks, e)
      end
  end.

(** A source that gives no bytes together with an error. *)
Definition clean (s : source) : Prop := Forall (fun x => x.2 <> None -> x.1 = []) s.

Lemma Read_clean size s : clean s -> let '(bs, err, s') := Read size s in clean s' /\ (err <> None -> bs = []).
Proof.
  intros Hc. destruct s as [|[bs err] s]; simpl; [split; [done|done]|]. apply Forall_cons in Hc as [Hx Hc]. simpl in Hx.
  destruct (Nat.leb_spec (length bs) size).
  - split; [|done]. destruct err; [by constructor|done].
  - split; [|done]. constructor; [|done]. simpl. intros He. rewrite (Hx He). by rewrite drop_nil.
Qed.

(** Reading chunk after chunk until an error, one gets in order exactly what the source delivers, in pieces of at most the buffer's size, when the source gives its errors apart from its bytes; the error is the end of the input if there was no other. *)
Theorem chunks_complete s n : clean s -> exists chunks e, drain (S (reads s)) (NewChunkedReader s n) = Some (chunks, e) /\
  concat chunks = (all_of s).1 /\ (e = EOF <-> (all_of s).2 = None) /\ Forall (fun c => (length c <= size (NewChunkedReader s n))%nat) chunks.
Proof.
  set (k := size (NewChunkedReader s n)). assert (Hk : (0 < k)%nat) by (unfold k, NewChunkedReader; simpl; case_bool; bool_to_prop; lia).
  enough (H : forall k fuel s b pos, (0 < k)%nat -> (reads s < fuel)%nat -> clean s -> (length b <= pos)%nat ->
    exists chunks e, drain fuel {| reader := s; size := k; buf := b; cpos := pos |} = Some (chunks, e) /\
      concat chunks = (all_of s).1 /\ (e = EOF <-> (all_of s).2 = None) /\ Forall (fun c => (length c <= k)%nat) chunks).
  { intros Hc. apply (H k (S (reads s)) s [] 0%nat); [done|lia|done|done]. }
  clear. intros k. induction fuel as [|fuel IH]; intros s b pos Hk Hf Hc Hpos; [lia|]. cbn [drain]. unfold ReadNext. simpl. rewrite (proj2 (Nat.leb_le _ _) Hpos).
  pose proof (Read_spec k s Hk) as Hr. pose proof (Read_clean k s Hc) as Hcl. destruct (Read k s) as [[bs err] s']. destruct Hr as [Hlen Hr].
  destruct Hcl as [Hc' Hnil]. destruct err as [e|]; cbn.
  - rewrite Hr, (Hnil ltac:(done)). exists [], e. split_and!; [done..| |constructor]. simpl. destruct (String.eqb_spec e EOF); by split.
  - destruct Hr as [Hall Hlt]. destruct (IH s' bs (length bs)) as (chunks & e & -> & H1 & H2 & H3); [done|lia|done|done|]. cbn.
    exists (bs :: chunks), e. rewrite Hall. simpl. rewrite H1. split_and!; [done..|tauto|by constructor].
Qed.

(** Bytes that come together with the end of the input: the reader reports the end
    first, and would hand them out afterwards. *)
Example last_bytes_after_eof : let r := NewChunkedReader [([1; 2], Some EOF)] 16 in
  (ReadNext r).1 = Err EOF /\ (ReadNext (ReadNext r).2).1 = Ok [1; 2].
Proof. by vm_compute. Qed.

(** A second [WriteTo] writes the same bytes again. *)
Lemma WriteTo_keeps write b bs : contents b = bs -> bs <> [] -> WriteTo write b = write bs.
Proof. intros Hb Hne. unfold WriteTo. rewrite Hb. by destruct bs. Qed.

(** Skipping backwards leaves the data: the next message panics. *)
Lemma skip_back_panics {M} (U : list Z -> result string M) d n : - 2 ^ 63 <= n < 0 -> ReadProto U (Skip n (NewZeroCopyReader d)) = Panics.
Proof.
  intros Hn. assert (Hskip : Skip n (NewZeroCopyReader d) = {| data := d; pos := n |}).
  { unfold Skip. cbn [pos data NewZeroCopyReader]. rewrite Z.add_0_l, i64_small by (unfold is_i64; lia). by rewrite (proj2 (Z.leb_le _ _)) by lia. }
  rewrite Hskip. unfold ReadProto. cbn [pos data]. by rewrite (proj2 (Z.leb_gt 0 n)) by lia.
Qed.

End Facts.

(** A buffer that is released twice is given to two users. *)
Example released_twice : let p := NewAdvancedBufferPool 8 64 in
  let '(i, p) := Get None p in let p := Release i (Release i p) in
  let '(j, p) := Get (Some 0%nat) p in (Get (Some 0%nat) p).1 = j.
Proof. by vm_compute. Qed.

Abbreviation some_source := [([1; 2; 3], None); ([4], Some EOF)].

Lemma ReadAll_complete_witness : exists r' p', ReadAll (fun c n => 2 * c + Z.of_nat n) None
  {| reader := some_source; size := 2; buf := [7; 8]; cpos := 1 |} (NewAdvancedBufferPool 8 64) = Some (Ok [8; 1; 2; 3; 4], r', p').
Proof.
  apply (ReadAll_complete (fun c n => 2 * c + Z.of_nat n) None {| reader := some_source; size := 2; buf := [7; 8]; cpos := 1 |} (NewAdvancedBufferPool 8 64)). constructor.
Defined.

Lemma chunks_complete_witness : exists chunks e, drain 5 (NewChunkedReader [([1; 2; 3], None)] 2) = Some (chunks, e) /\
  concat chunks = [1; 2; 3] /\ (e = EOF <-> None = @None string) /\ Forall (fun c => (length c <= 2)%nat) chunks.
Proof. apply (chunks_complete [([1; 2; 3], None)] 2). by repeat constructor. Defined.

End Facts.
