(* ===== verification/Etcd.v ===== *)
(** The registry on etcd: [src/registry/etcd/registry.go]. Etcd and JSON are
    parameters with their documented behaviour; the session and its lease are part
    of the client's state. *)
From S2P Require Import Prelude GoString Cluster.

(** * The client of etcd *)

(** A put carries the lease of the session, with which it disappears: what follows
    is about the time that the session lives. *)
Class Etcd (E : Type) : Type := {
  Put : string -> string -> E -> option string * E;
  Delete : string -> E -> option string * E;
  GetPrefix : string -> E -> result string (list string) * E;
  CloseSession : E -> option string * E }.

(** Documented: the keys and values that the server holds; a call that succeeds has
    its effect, one that fails may have had it. *)
Class EtcdLaws (E : Type) `{Etcd E} : Type := {
  content : E -> gmap string string;
  put_content k v e : let '(r, e') := Put k v e in
    content e' = <[k := v]> (content e) \/ (r <> None /\ content e' = content e);
  delete_content k e : let '(r, e') := Delete k e in
    content e' = delete k (content e) \/ (r <> None /\ content e' = content e);
  get_content p e : let '(r, e') := GetPrefix p e in content e' = content e /\
    forall vs, r = Ok vs -> vs ≡ₚ (map_to_list (filter (fun kv => HasPrefix kv.1 p = true) (content e))).*2 }.

(** JSON for an instance whose name, address and group are UTF-8 texts: of other
    strings [json.Marshal] replaces the bytes that are none, and what is read back is
    another instance. *)
Class InstanceJSON : Type := {
  Marshal : ServiceInstance -> result string string;
  Unmarshal : string -> result string ServiceInstance }.

Class InstanceJSONLaws `{InstanceJSON} : Prop := { unmarshal_marshal si s : Marshal si = Ok s -> Unmarshal s = Ok si }.

Section Etcd.
Context {E : Type} `{Etcd E} `{InstanceJSON}.
Implicit Type e : E.

Definition instanceKey (si : ServiceInstance) : string := ("/" ++ Name si ++ "/" ++ Address si)%string.
Definition serviceKey (name : string) : string := ("/" ++ name)%string.

Definition etcd_Register (si : ServiceInstance) e : result string unit * E :=
  match Marshal si with
  | Err x => (Err x, e)
  | Ok val => match Put (instanceKey si) val e with (Some x, e) => (Err x, e) | (None, e) => (Ok tt, e) end
  end.

Definition etcd_UnRegister (si : ServiceInstance) e : result string unit * E :=
  match Delete (instanceKey si) e with (Some x, e) => (Err x, e) | (None, e) => (Ok tt, e) end.

Fixpoint unmarshal_all (vs : list string) : result string (list ServiceInstance) :=
  match vs with
  | [] => Ok []
  | v :: vs => (let? si := Unmarshal v in let? sis := unmarshal_all vs in Ok (si :: sis))%go
  end.

Definition etcd_ListServices (name : string) e : result string (list ServiceInstance) * E :=
  match GetPrefix (serviceKey name) e with
  | (Err x, e) => (Err x, e)
  | (Ok vs, e) => (unmarshal_all vs, e)
  end.

(** The subscriptions' contexts are cancelled with the registry. *)
Definition etcd_Close e : result string unit * E :=
  match CloseSession e with (Some x, e) => (Err x, e) | (None, e) => (Ok tt, e) end.

#[export] Instance etcd_registry : Registry E :=
  {| Register := etcd_Register; UnRegister := etcd_UnRegister; ListServices := etcd_ListServices; CloseRegistry := etcd_Close |}.

(** ** Subscriptions

    What a watch delivers: an error, the end, or a number of events; each event
    becomes an empty one on the channel. *)
Inductive watch_response : Type := WatchError | Canceled | Events (n : nat).

Fixpoint forwarded (rs : list watch_response) : nat :=
  match rs with
  | [] | Canceled :: _ => 0
  | WatchError :: rs => forwarded rs
  | Events n :: rs => (n + forwarded rs)%nat
  end.
End Etcd.

(** * Facts *)
Module Facts.

Section Facts.
Context {E : Type} `{EtcdLaws E} `{InstanceJSONLaws}.

Inductive op : Type := Reg (si : ServiceInstance) | UnReg (si : ServiceInstance).

(** A sequence of operations that all succeed. *)
Fixpoint run (os : list op) (e : E) : option E :=
  match os with
  | [] => Some e
  | o :: os => match (match o with Reg si => etcd_Register si e | UnReg si => etcd_UnRegister si e end) with
               | (Ok _, e) => run os e
               | (Err _, _) => None
               end
  end.

(** The specification: the instances by their keys. *)
Definition spec_apply (m : gmap string ServiceInstance) (o : op) : gmap string ServiceInstance :=
  match o with Reg si => <[instanceKey si := si]> m | UnReg si => delete (instanceKey si) m end.

Definition stored (e : E) (m : gmap string ServiceInstance) : Prop :=
  (forall k, is_Some (content e !! k) <-> is_Some (m !! k)) /\
  forall k v si, content e !! k = Some v -> m !! k = Some si -> Unmarshal v = Ok si.

Lemma step_stored o e e' m : stored e m ->
  (match o with Reg si => etcd_Register si e | UnReg si => etcd_UnRegister si e end) = (Ok tt, e') -> stored e' (spec_apply m o).
Proof.
  intros [Hdom Hval] Hs. destruct o as [si|si].
  - unfold etcd_Register in Hs. destruct (Marshal si) as [v|x] eqn:Hm; [|done]. pose proof (put_content (instanceKey si) v e) as Hp.
    destruct (Put (instanceKey si) v e) as [[x|] e1]; [done|]. injection Hs as ->. destruct Hp as [Hp|[? _]]; [|done]. unfold stored. rewrite Hp. simpl. split.
    + intros k. destruct (decide (instanceKey si = k)) as [<-|Hk]; [rewrite !lookup_insert_eq; split; by eexists|]. by rewrite !lookup_insert_ne.
    + intros k w sj. destruct (decide (instanceKey si = k)) as [<-|Hk]; [|rewrite !lookup_insert_ne by done; apply Hval].
      rewrite !lookup_insert_eq. intros [= <-] [= <-]. by apply unmarshal_marshal.
  - unfold etcd_UnRegister in Hs. pose proof (delete_content (instanceKey si) e) as Hp. destruct (Delete (instanceKey si) e) as [[x|] e1]; [done|].
    injection Hs as ->. destruct Hp as [Hp|[? _]]; [|done]. unfold stored. rewrite Hp. simpl. split.
    + intros k. destruct (decide (instanceKey si = k)) as [<-|Hk]; [rewrite !lookup_delete_eq; done|]. by rewrite !lookup_delete_ne.
    + intros k w sj. destruct (decide (instanceKey si = k)) as [<-|Hk]; [by rewrite lookup_delete_eq|]. rewrite !lookup_delete_ne by done. apply Hval.
Qed.

Lemma run_stored os : forall e e' m, stored e m -> run os e = Some e' -> stored e' (foldl spec_apply m os).
Proof.
  induction os as [|o os IH]; intros e e' m Hs Hr; [by injection Hr as <-|]. cbn [run] in Hr.
  destruct (match o with Reg si => etcd_Register si e | UnReg si => etcd_UnRegister si e end) as [[[]|x] e1] eqn:Ho; [|done].
  simpl. eapply IH; [|exact Hr]. by eapply step_stored.
Qed.

(** Decoding the values of a map, whatever its order. *)
Lemma unmarshal_values (l : list (string * string)) (m : gmap string ServiceInstance) :
  (forall k v, (k, v) ∈ l -> exists si, m !! k = Some si /\ Unmarshal v = Ok si) ->
  exists sis, unmarshal_all l.*2 = Ok sis /\ Forall2 (fun kv si => m !! kv.1 = Some si) l sis.
Proof.
  induction l as [|[k v] l IH]; intros Hl; [exists []; split; [done|constructor]|]. destruct (Hl k v) as (si & Hk & Hv); [by left|].
  destruct IH as (sis & Hs & Hf); [intros k' v' Hin; apply Hl; by right|]. exists (si :: sis).
  change ((k, v) :: l).*2 with (v :: l.*2). cbn [unmarshal_all]. rewrite Hv. cbn [result_bind]. rewrite Hs. split; [done|]. by constructor.
Qed.

Lemma unmarshal_all_perm l l' : l ≡ₚ l' -> forall sis, unmarshal_all l = Ok sis -> exists sis', unmarshal_all l' = Ok sis' /\ sis ≡ₚ sis'.
Proof.
  induction 1 as [|v l l' _ IH|v w l|l l' l2 _ IH1 _ IH2]; intros sis Hs.
  - by exists sis.
  - simpl in *. destruct (Unmarshal v) as [si|]; [|done]. simpl in *. destruct (unmarshal_all l) as [s1|]; [|done]. injection Hs as <-.
    destruct (IH s1 eq_refl) as (s2 & -> & Hp). exists (si :: s2). split; [done|]. by constructor.
  - simpl in *. destruct (Unmarshal w) as [sw|]; [|done]. destruct (Unmarshal v) as [sv|]; [|done]. simpl in *.
    destruct (unmarshal_all l) as [s1|]; [|done]. injection Hs as <-. exists (sv :: sw :: s1). split; [done|]. apply Permutation_swap.
  - destruct (IH1 _ Hs) as (s1 & E1 & P1). destruct (IH2 _ E1) as (s2 & E2 & P2). exists s2. split; [done|]. by etransitivity.
Qed.

(** C19: after registrations and removals that succeeded, what a listing of a service returns are exactly the instances registered and not removed since whose key starts with the service's: those of the service, and of every service whose name goes on from its name. *)
Theorem listing_is_registered os e0 e name sis e' : content e0 = ∅ -> run os e0 = Some e -> etcd_ListServices name e = (Ok sis, e') ->
  forall si, si ∈ sis <-> exists k, foldl spec_apply ∅ os !! k = Some si /\ HasPrefix k (serviceKey name) = true.
Proof.
  intros Hempty Hr Hl. assert (Hst : stored e (foldl spec_apply ∅ os)).
  { eapply run_stored; [|exact Hr]. unfold stored. rewrite Hempty. split; [intros k; by rewrite !lookup_empty|]. intros k v si. by rewrite lookup_empty. }
  destruct Hst as [Hdom Hval]. set (m := foldl spec_apply ∅ os) in *. unfold etcd_ListServices in Hl. pose proof (get_content (serviceKey name) e) as Hg.
  destruct (GetPrefix (serviceKey name) e) as [[vs|x] e1]; [|done]. destruct Hg as [_ Hg]. specialize (Hg vs eq_refl). injection Hl as Hs <-.
  set (l := map_to_list (filter (fun kv => HasPrefix kv.1 (serviceKey name) = true) (content e))) in *.
  assert (Hl : forall k v, (k, v) ∈ l <-> content e !! k = Some v /\ HasPrefix k (serviceKey name) = true)
    by (intros k v; unfold l; by rewrite elem_of_map_to_list, map_lookup_filter_Some).
  destruct (unmarshal_values l m) as (sis' & Hu & Hf).
  { intros k v [Hk _]%Hl. destruct (proj1 (Hdom k)) as [si Hsi]; [by eexists|]. exists si. split; [done|]. by eapply Hval. }
  destruct (unmarshal_all_perm _ _ Hg _ Hs) as (s2 & Hu2 & Hp). rewrite Hu in Hu2. injection Hu2 as <-. intros si. rewrite Hp. split.
  - intros Hin. apply list_elem_of_lookup in Hin as [i Hi]. destruct (Forall2_lookup_r _ _ _ _ _ Hf Hi) as ([k v] & Hkv & Hk).
    apply list_elem_of_lookup_2, Hl in Hkv as [_ Hpre]. by exists k.
  - intros (k & Hk & Hpre). destruct (proj2 (Hdom k)) as [v Hv]; [by eexists|]. assert (Hin : (k, v) ∈ l) by (by apply Hl).
    apply list_elem_of_lookup in Hin as [i Hi]. destruct (Forall2_lookup_l _ _ _ _ _ Hf Hi) as (sj & Hj & Hm). simpl in Hm.
    rewrite Hk in Hm. injection Hm as <-. by eapply list_elem_of_lookup_2.
Qed.

(** The key of an instance starts with that of every service whose name its own starts with. *)
Lemma instance_prefix name rest addr w g : HasPrefix (instanceKey {| Name := name ++ rest; Address := addr; Weight := w; Group := g |}) (serviceKey name) = true.
Proof.
  assert (Heq : instanceKey {| Name := name ++ rest; Address := addr; Weight := w; Group := g |} = (serviceKey name ++ (rest ++ "/" ++ addr))%string).
  { unfold instanceKey, serviceKey. cbn [Name Address]. by rewrite <- !string_app_assoc. }
  rewrite Heq. apply prefix_app.
Qed.

End Facts.

(** ** An instance: etcd as a map, JSON as text that keeps its instance *)
#[local] Instance map_etcd : Etcd (gmap string string) := {|
  Put := fun k v e => (None, <[k := v]> e); Delete := fun k e => (None, delete k e);
  GetPrefix := fun p e => (Ok (map_to_list (filter (fun kv => HasPrefix kv.1 p = true) e)).*2, e); CloseSession := fun e => (None, e) |}.

#[local] Instance map_laws : EtcdLaws (gmap string string).
Proof.
  refine {| content := fun e => e |}; simpl; [by left|by left|]. intros p e. split; [done|]. by intros vs [= <-].
Defined.

(** Name and address, separated by a space; weight one and no group. *)
#[local] Instance toy_json : InstanceJSON := {|
  Marshal := fun si => if contains_byte " " (Name si) || negb (Weight si =? 1) || negb (Group si =? "")%string then Err "unsupported" else Ok (Name si ++ String " " (Address si))%string;
  Unmarshal := fun s => match cut " " s with Some (n, a) => Ok {| Name := n; Address := a; Weight := 1; Group := "" |} | None => Err "syntax" end |}.

#[local] Instance toy_json_laws : InstanceJSONLaws.
Proof.
  constructor. intros [n a w g] s. simpl. destruct (contains_byte " " n) eqn:Hn; [done|]. destruct (Z.eqb_spec w 1) as [->|]; [|done].
  destruct (String.eqb_spec g "") as [->|]; [|done]. intros [= <-]. by rewrite cut_app.
Qed.

Abbreviation inst n a := {| Name := n; Address := a; Weight := 1; Group := "" |}.
Abbreviation two_services := [Reg (inst "user" "10.0.0.1:80"); Reg (inst "user-admin" "10.0.0.2:80"); Reg (inst "shop" "10.0.0.3:80"); UnReg (inst "shop" "10.0.0.3:80")].

(** A client of the service [user] is given the instance of [user-admin]. *)
Example prefix_of_another : (e ← run two_services ∅; Some ((etcd_ListServices "user" e).1)) =
  Some (Ok [inst "user-admin" "10.0.0.2:80"; inst "user" "10.0.0.1:80"]) \/
  (e ← run two_services ∅; Some ((etcd_ListServices "user" e).1)) = Some (Ok [inst "user" "10.0.0.1:80"; inst "user-admin" "10.0.0.2:80"]).
Proof. vm_compute. first [by left|by right]. Qed.

Lemma listing_is_registered_witness : exists e sis, run two_services (∅ : gmap string string) = Some e /\ (etcd_ListServices "user" e).1 = Ok sis /\
  forall si, si ∈ sis <-> exists k, foldl spec_apply ∅ two_services !! k = Some si /\ HasPrefix k (serviceKey "user") = true.
Proof.
  eexists. eexists. split; [vm_compute; reflexivity|]. split; [vm_compute; reflexivity|].
  eapply (listing_is_registered two_services (∅ : gmap string string)); [reflexivity|vm_compute; reflexivity|vm_compute; reflexivity].
Defined.

End Facts.
