(* ===== verification/Resolver.v ===== *)
(** The client's resolver over a registry: [src/resolver.go]. *)
From S2P Require Import Prelude LoadBalance Cluster.

(** * The connection that the resolver updates

    gRPC's [resolver.ClientConn]: it may refuse a state. The addresses are those
    that the pickers of [LoadBalance] read. *)
Class ClientConn (CC : Type) : Type := {
  UpdateState : list LoadBalance.Address -> CC -> option string * CC;
  ReportError : string -> CC -> CC }.

(** * The builder *)

Record ResolverBuilder : Type := {
  timeout : Z; refreshPeriod : Z; retryAttempts : Z; retryDelay : Z; cacheTTL : Z; fallbackResolver : string; fallbackAddrs : list string }.

(** The options: functions on the builder. *)
Definition ResolverWithTimeout (t : Z) (b : ResolverBuilder) : ResolverBuilder :=
  {| timeout := t; refreshPeriod := refreshPeriod b; retryAttempts := retryAttempts b; retryDelay := retryDelay b; cacheTTL := cacheTTL b;
     fallbackResolver := fallbackResolver b; fallbackAddrs := fallbackAddrs b |}.
Definition ResolverWithRefreshPeriod (p : Z) (b : ResolverBuilder) : ResolverBuilder :=
  {| timeout := timeout b; refreshPeriod := p; retryAttempts := retryAttempts b; retryDelay := retryDelay b; cacheTTL := cacheTTL b;
     fallbackResolver := fallbackResolver b; fallbackAddrs := fallbackAddrs b |}.
Definition ResolverWithRetry (attempts delay : Z) (b : ResolverBuilder) : ResolverBuilder :=
  {| timeout := timeout b; refreshPeriod := refreshPeriod b; retryAttempts := attempts; retryDelay := delay; cacheTTL := cacheTTL b;
     fallbackResolver := fallbackResolver b; fallbackAddrs := fallbackAddrs b |}.
Definition ResolverWithCache (ttl : Z) (b : ResolverBuilder) : ResolverBuilder :=
  {| timeout := timeout b; refreshPeriod := refreshPeriod b; retryAttempts := retryAttempts b; retryDelay := retryDelay b; cacheTTL := ttl;
     fallbackResolver := fallbackResolver b; fallbackAddrs := fallbackAddrs b |}.
Definition ResolverWithFallback (kind : string) (addrs : list string) (b : ResolverBuilder) : ResolverBuilder :=
  {| timeout := timeout b; refreshPeriod := refreshPeriod b; retryAttempts := retryAttempts b; retryDelay := retryDelay b; cacheTTL := cacheTTL b;
     fallbackResolver := kind; fallbackAddrs := addrs |}.

Definition NewResolverBuilder (opts : list (ResolverBuilder -> ResolverBuilder)) : ResolverBuilder :=
  foldl (fun b opt => opt b)
    {| timeout := 3 * Second; refreshPeriod := 30 * Second; retryAttempts := 3; retryDelay := 500 * Millisecond; cacheTTL := 5 * Minute;
       fallbackResolver := ""; fallbackAddrs := [] |} opts.

Definition Scheme : string := "registry".

(** * The addresses: [attributes.New("weight", w).WithValue("group", g)] *)

Definition resolved_address (a : string) (w : Z) (g : string) : LoadBalance.Address :=
  {| Addr := a; Attributes := <["group" := AttrString g]> {["weight" := AttrUint32 w]} |}.

Definition addresses (l : list ServiceInstance) : list LoadBalance.Address :=
  (fun s => resolved_address (Address s) (Weight s) (Group s)) <$> l.
Definition fallback_addresses (l : list string) : list LoadBalance.Address :=
  (fun a => resolved_address a 1 "fallback") <$> l.

(** * The resolver *)

(** [None] is the zero time. *)
Record resolverCache : Type := { services : list ServiceInstance; timestamp : option Z }.

Definition cache_get (c : resolverCache) : option (list ServiceInstance) :=
  match services c, timestamp c with [], _ => None | _, None => None | l, Some _ => Some l end.
Definition cache_set (now : Z) (l : list ServiceInstance) : resolverCache := {| services := l; timestamp := Some now |}.
Definition isValid (now ttl : Z) (c : resolverCache) : bool :=
  match services c, timestamp c with [], _ => false | _, None => false | _, Some t => time_sub now t <? ttl end.

Section Resolver.
Context {R CC : Type} `{Registry R} `{ClientConn CC}.

Record grpcResolver : Type := {
  builder : ResolverBuilder; endpoint : string; registry : R; clientConn : CC;
  closed : bool; lastServices : gset string; cache : resolverCache }.

Definition set_conn (cc : CC) (g : grpcResolver) : grpcResolver :=
  {| builder := builder g; endpoint := endpoint g; registry := registry g; clientConn := cc; closed := closed g;
     lastServices := lastServices g; cache := cache g |}.
Definition set_registry (r : R) (g : grpcResolver) : grpcResolver :=
  {| builder := builder g; endpoint := endpoint g; registry := r; clientConn := clientConn g; closed := closed g;
     lastServices := lastServices g; cache := cache g |}.
Definition set_cache (c : resolverCache) (g : grpcResolver) : grpcResolver :=
  {| builder := builder g; endpoint := endpoint g; registry := registry g; clientConn := clientConn g; closed := closed g;
     lastServices := lastServices g; cache := c |}.


Definition hasServiceChanged (l : list ServiceInstance) (g : grpcResolver) : bool :=
  negb (length l =? size (lastServices g))%nat || existsb (fun s => bool_decide (Address s ∉ lastServices g)) l.

Definition recordServices (l : list ServiceInstance) (g : grpcResolver) : grpcResolver :=
  {| builder := builder g; endpoint := endpoint g; registry := registry g; clientConn := clientConn g; closed := closed g;
     lastServices := list_to_set (Address <$> l); cache := cache g |}.

Definition report (e : string) (g : grpcResolver) : grpcResolver := set_conn (ReportError e (clientConn g)) g.

(** Updates the connection; on an error reports it, otherwise records the services. *)
Definition publish (l : list ServiceInstance) (g : grpcResolver) : result string unit * grpcResolver :=
  match UpdateState (addresses l) (clientConn g) with
  | (Some e, cc) => (Err e, report e (set_conn cc g))
  | (None, cc) => (Ok tt, recordServices l (set_conn cc g))
  end.

(** Tells the connection the fallback addresses, whose error is returned. *)
Definition fall_back (g : grpcResolver) : result string unit * grpcResolver :=
  match UpdateState (fallback_addresses (fallbackAddrs (builder g))) (clientConn g) with
  | (Some e, cc) => (Err e, set_conn cc g)
  | (None, cc) => (Ok tt, set_conn cc g)
  end.

(** The loop of attempts. [closing n] says whether the resolver is closed while it
    waits for attempt [n]; [more] attempts follow this one. *)
Inductive listed : Type := Services (l : list ServiceInstance) | Stopped | Failed (e : string).

Fixpoint attempts (more n : nat) (closing : nat -> bool) (name : string) (r : R) : listed * R :=
  if (0 <? n)%nat && closing n then (Stopped, r)
  else match ListServices name r with
       | (Ok l, r) => (Services l, r)
       | (Err e, r) => match more with O => (Failed e, r) | S more => attempts more (S n) closing name r end
       end.

(** [resolve]: [now] is the time at the check of the cache, [later] when it is set. *)
Definition resolve (now later : Z) (closing : nat -> bool) (g : grpcResolver) : result string unit * grpcResolver :=
  let b := builder g in
  let cached := if isValid now (cacheTTL b) (cache g) then cache_get (cache g) else None in
  match cached with
  | Some l => if negb (hasServiceChanged l g) then (Ok tt, g) else publish l g
  | None =>
      let '(res, r) := if retryAttempts b <? 0 then (Services [], registry g)
                       else attempts (Z.to_nat (retryAttempts b)) 0 closing (endpoint g) (registry g) in
      let g := set_registry r g in
      match res with
      | Stopped => (Err "resolver has been closed", g)
      | Failed e =>
          let g := report e g in
          match fallbackAddrs b with [] => (Err e, g) | _ => fall_back g end
      | Services l =>
          let g := set_cache (cache_set later l) g in
          if negb (hasServiceChanged l g) && negb (bool_decide (l = [])) then (Ok tt, g)
          else match l with
               | [] =>
                   let g := report ("no available instances for service: " ++ endpoint g) g in
                   match fallbackAddrs b with [] => publish [] g | _ => fall_back g end
               | _ => publish l g
               end
      end
  end.

Definition new_resolver (b : ResolverBuilder) (name : string) (r : R) (cc : CC) : grpcResolver :=
  {| builder := b; endpoint := name; registry := r; clientConn := cc; closed := false; lastServices := ∅;
     cache := {| services := []; timestamp := None |} |}.

(** [Build]: an error of the first resolution is returned unless there are fallback
    addresses, which are then given to the connection, whatever it answers. *)
Definition Build (b : ResolverBuilder) (name : string) (now later : Z) (closing : nat -> bool) (r : R) (cc : CC)
  : result string grpcResolver * R * CC :=
  match resolve now later closing (new_resolver b name r cc) with
  | (Ok _, g) => (Ok g, registry g, clientConn g)
  | (Err e, g) =>
      match fallbackAddrs b with
      | [] => (Err e, registry g, clientConn g)
      | _ => let g := (fall_back g).2 in (Ok g, registry g, clientConn g)
      end
  end.

Definition ResolveNow (now later : Z) (closing : nat -> bool) (g : grpcResolver) : grpcResolver := (resolve now later closing g).2.

(** The goroutines: the periodic refresh drops the error, the watcher reports it. *)
Definition refresh := ResolveNow.
Definition notified (now later : Z) (closing : nat -> bool) (g : grpcResolver) : grpcResolver :=
  match resolve now later closing g with (Err e, g) => report e g | (Ok _, g) => g end.

(** Subscribing again, at most [more] times; [subscribe n] is the registry's answer. *)
Inductive subscription : Type := Subscribed | Gone | GaveUp.
Fixpoint retrySubscribe (more n : nat) (closing subscribe : nat -> bool) (g : grpcResolver) : subscription * grpcResolver :=
  match more with
  | O => (GaveUp, report ("failed to subscribe service after retries: " ++ endpoint g) g)
  | S more => if closing n then (Gone, g) else if subscribe n then (Subscribed, g) else retrySubscribe more (S n) closing subscribe g
  end.

(** Closing a closed channel panics. *)
Definition Close (g : grpcResolver) : outcome grpcResolver :=
  if closed g then Panics
  else Returns {| builder := builder g; endpoint := endpoint g; registry := registry g; clientConn := clientConn g; closed := true;
                  lastServices := lastServices g; cache := cache g |}.

(** What makes the resolver resolve. *)
Inductive cause : Type := Asked | Ticked | Notified.
Definition handle (c : cause) (now later : Z) (closing : nat -> bool) (g : grpcResolver) : grpcResolver :=
  match c with Asked => ResolveNow now later closing g | Ticked => refresh now later closing g | Notified => notified now later closing g end.

End Resolver.
Arguments grpcResolver : clear implicits.

(** * Facts *)
Module Facts.

Section Facts.
Context {R CC : Type} `{Registry R} `{ClientConn CC}.
Implicit Type g : grpcResolver R CC.

(** Failures of the registry before it answers. *)
Inductive answers (name : string) : nat -> R -> list ServiceInstance -> R -> Prop :=
| answers_now r l r' : ListServices name r = (Ok l, r') -> answers name 0 r l r'
| answers_later k r e r1 l r' : ListServices name r = (Err e, r1) -> answers name k r1 l r' -> answers name (S k) r l r'.

Lemma attempts_answer name k r l r' closing : answers name k r l r' -> (forall n, closing n = false) -> forall more n, (k <= more)%nat ->
  attempts more n closing name r = (Services l, r').
Proof.
  intros Ha Hc. induction Ha as [r l r' Hl|k r e r1 l r' Hl Ha IH]; intros more n Hk; destruct more; cbn [attempts];
    rewrite Hc, andb_false_r, Hl; try done; [lia|]. apply IH. lia.
Qed.

Lemma recorded_unchanged g l : NoDup (Address <$> l) -> lastServices g = list_to_set (Address <$> l) -> hasServiceChanged l g = false.
Proof.
  intros Hnd Hl. unfold hasServiceChanged. rewrite Hl, size_list_to_set, length_fmap, Nat.eqb_refl by done. simpl.
  destruct (existsb _ l) eqn:He; [|done]. apply existsb_exists in He as (s & Hin & Hs). apply bool_decide_eq_true in Hs. exfalso. apply Hs.
  apply elem_of_list_to_set, list_elem_of_fmap. exists s. split; [done|]. by apply list_elem_of_In.
Qed.

(** When the cache has run out and the registry answers, after failures that the retries make up for, with instances of which one is new, the connection is told exactly their addresses with weights and groups, in order; they are then remembered and cached. *)
Theorem resolve_publishes now later closing g k l r' cc' : isValid now (cacheTTL (builder g)) (cache g) = false ->
  answers (endpoint g) k (registry g) l r' -> Z.of_nat k <= retryAttempts (builder g) -> (forall n, closing n = false) ->
  (exists s, s ∈ l /\ Address s ∉ lastServices g) -> UpdateState (addresses l) (clientConn g) = (None, cc') ->
  resolve now later closing g =
    (Ok tt, {| builder := builder g; endpoint := endpoint g; registry := r'; clientConn := cc'; closed := closed g;
               lastServices := list_to_set (Address <$> l); cache := cache_set later l |}).
Proof.
  intros Hv Ha Hk Hc (s & Hs & Hnew) Hup. unfold resolve. rewrite Hv, (proj2 (Z.ltb_ge _ _)) by lia.
  rewrite (attempts_answer _ _ _ _ _ _ Ha Hc) by lia. assert (Hch : forall g', lastServices g' = lastServices g -> hasServiceChanged l g' = true).
  { intros g' Hg'. unfold hasServiceChanged. rewrite Hg'. apply orb_true_iff. right. apply existsb_exists. exists s. split; [by apply list_elem_of_In|]. by apply bool_decide_eq_true. }
  rewrite Hch by done. simpl. destruct l as [|s0 l]; [by apply elem_of_nil in Hs|]. unfold publish. simpl clientConn. by rewrite Hup.
Qed.

(** As long as the cached instances are valid and were published, every resolution, also one that a change in the registry causes, leaves everything as it is: the registry is not even asked. *)
Theorem notifications_ignored_while_cached g l t events : cache g = cache_set t l -> l <> [] -> NoDup (Address <$> l) ->
  lastServices g = list_to_set (Address <$> l) -> Forall (fun e => time_sub e.1.1.2 t < cacheTTL (builder g)) events ->
  foldl (fun g (e : cause * Z * Z * (nat -> bool)) => let '(c, now, later, closing) := e in handle c now later closing g) g events = g.
Proof.
  intros Hcache Hne Hnd Hlast. induction 1 as [|[[[c now] later] closing] events Ht _ IH]; [done|]. simpl in Ht |- *.
  enough (handle c now later closing g = g) as -> by done.
  assert (Hr : resolve now later closing g = (Ok tt, g)).
  { unfold resolve, isValid, cache_get. rewrite Hcache. unfold cache_set. simpl. destruct l as [|s l]; [done|]. simpl in Ht.
    rewrite (proj2 (Z.ltb_lt _ _) Ht), (recorded_unchanged g (s :: l) Hnd Hlast). done. }
  destruct c; unfold handle, ResolveNow, refresh, notified, ResolveNow; by rewrite Hr.
Qed.

(** A change of a weight or a group only is not published either, once the cache has run out. *)
Lemma weight_change_ignored now later closing g k l r' : isValid now (cacheTTL (builder g)) (cache g) = false ->
  answers (endpoint g) k (registry g) l r' -> Z.of_nat k <= retryAttempts (builder g) -> (forall n, closing n = false) ->
  l <> [] -> NoDup (Address <$> l) -> lastServices g = list_to_set (Address <$> l) ->
  resolve now later closing g = (Ok tt, set_cache (cache_set later l) (set_registry r' g)).
Proof.
  intros Hv Ha Hk Hc Hne Hnd Hlast. unfold resolve. rewrite Hv, (proj2 (Z.ltb_ge _ _)) by lia. rewrite (attempts_answer _ _ _ _ _ _ Ha Hc) by lia.
  rewrite recorded_unchanged by done. simpl. by rewrite bool_decide_eq_false_2.
Qed.

(** The registry fails as often as it is asked. *)
Inductive fails (name : string) : nat -> R -> R -> Prop :=
| fails_once r e r' : ListServices name r = (Err e, r') -> fails name 0 r r'
| fails_again k r e r1 r' : ListServices name r = (Err e, r1) -> fails name k r1 r' -> fails name (S k) r r'.

Lemma attempts_fail name k r r' closing : fails name k r r' -> (forall n, closing n = false) -> forall n, exists e,
  attempts k n closing name r = (Failed e, r').
Proof.
  intros Hf Hc. induction Hf as [r e r' Hl|k r e r1 r' Hl Hf IH]; intros n; cbn [attempts]; rewrite Hc, andb_false_r, Hl; [by eexists|apply IH].
Qed.

(** After a failure of the registry the connection has the fallback addresses; when the registry is back with the instances known before, nothing is published: the connection stays with the fallback addresses. *)
Theorem fallback_sticks g g1 now1 later1 now2 later2 closing l r1 r2 k : isValid now1 (cacheTTL (builder g)) (cache g) = false ->
  isValid now2 (cacheTTL (builder g)) (cache g) = false -> 0 <= retryAttempts (builder g) -> (forall n, closing n = false) ->
  fallbackAddrs (builder g) <> [] -> l <> [] -> NoDup (Address <$> l) -> lastServices g = list_to_set (Address <$> l) ->
  fails (endpoint g) (Z.to_nat (retryAttempts (builder g))) (registry g) r1 ->
  resolve now1 later1 closing g = (Ok tt, g1) -> answers (endpoint g) k r1 l r2 -> Z.of_nat k <= retryAttempts (builder g) ->
  (exists e, UpdateState (fallback_addresses (fallbackAddrs (builder g))) (ReportError e (clientConn g)) = (None, clientConn g1)) /\
  resolve now2 later2 closing g1 = (Ok tt, set_cache (cache_set later2 l) (set_registry r2 g1)).
Proof.
  intros Hv1 Hv2 Hr Hc Hfb Hne Hnd Hlast Hf Hres Ha Hk. unfold resolve in Hres. rewrite Hv1, (proj2 (Z.ltb_ge _ _)) in Hres by lia.
  destruct (attempts_fail _ _ _ _ _ Hf Hc 0) as [e He]. rewrite He in Hres.
  assert (Hg1 : exists cc, UpdateState (fallback_addresses (fallbackAddrs (builder g))) (ReportError e (clientConn g)) = (None, cc) /\ g1 = set_conn cc (report e (set_registry r1 g))).
  { destruct (fallbackAddrs (builder g)) as [|a fb] eqn:Efb; [done|]. unfold fall_back in Hres. simpl builder in Hres. rewrite Efb in Hres. simpl clientConn in Hres.
    destruct (UpdateState _ _) as [[x|] cc]; [done|]. injection Hres as <-. by exists cc. }
  destruct Hg1 as (cc & Hup & ->). split; [by exists e|]. by apply (weight_change_ignored now2 later2 closing _ k l r2).
Qed.

End Facts.

(** ** An instance: a registry with scripted answers, a connection that keeps what
    it is told *)
#[local] Instance scripted : Registry (list (result string (list ServiceInstance))) := {|
  Register := fun _ r => (Ok tt, r); UnRegister := fun _ r => (Ok tt, r);
  ListServices := fun _ r => match r with [] => (Err "unavailable", []) | a :: r => (a, r) end; CloseRegistry := fun r => (Ok tt, r) |}.

#[local] Instance keeps : ClientConn (list LoadBalance.Address * list string) := {|
  UpdateState := fun l cc => (None, (l, cc.2)); ReportError := fun e cc => (cc.1, cc.2 ++ [e]) |}.

Abbreviation inst a w := {| Name := "user"; Address := a; Weight := w; Group := "" |}.
Abbreviation addr a w := (resolved_address a w "").
Abbreviation opened attempts script :=
  (new_resolver (NewResolverBuilder [ResolverWithRetry attempts 0; ResolverWithFallback "static" ["backup:1"]]) "user" script (@nil LoadBalance.Address, @nil string)).

Lemma resolve_publishes_witness : exists g', resolve 7 8 (fun _ => false) (opened 3 [Err "down"; Ok [inst "a:1" 2; inst "b:1" 5]]) = (Ok tt, g') /\
  clientConn g' = ([addr "a:1" 2; addr "b:1" 5], []).
Proof.
  eexists. split.
  - apply (resolve_publishes 7 8 (fun _ => false) (opened 3 [Err "down"; Ok [inst "a:1" 2; inst "b:1" 5]]) 1 [inst "a:1" 2; inst "b:1" 5] []
             ([addr "a:1" 2; addr "b:1" 5], [])); [done| |done|done| |done].
    + eapply answers_later; [reflexivity|]. apply answers_now. reflexivity.
    + exists (inst "a:1" 2). split; [by left|]. apply not_elem_of_empty.
  - reflexivity.
Defined.

(** The same resolver, having resolved. *)
Abbreviation resolved script := (resolve 7 8 (fun _ => false) (opened 0 (Ok [inst "a:1" 2; inst "b:1" 5] :: script))).2.

Lemma recorded_all script : lastServices (resolved script) = list_to_set (Address <$> [inst "a:1" 2; inst "b:1" 5]).
Proof. reflexivity. Qed.

(** The registry has lost both instances and has a new one; a watch event and a tick
    within five minutes change nothing. *)
Lemma notifications_ignored_while_cached_witness :
  foldl (fun g (e : cause * Z * Z * (nat -> bool)) => let '(c, now, later, closing) := e in handle c now later closing g) (resolved [Ok [inst "c:1" 1]])
    [(Notified, 9, 9, fun _ => false); (Ticked, 8 + 30 * Second, 8 + 30 * Second, fun _ => false)] = resolved [Ok [inst "c:1" 1]].
Proof.
  apply (notifications_ignored_while_cached _ [inst "a:1" 2; inst "b:1" 5] 8); [reflexivity|done| |reflexivity|].
  - apply (bool_decide_unpack _). vm_compute. exact I.
  - repeat constructor.
Defined.

(** After the cache has run out, the registry fails once, and is back. *)
Lemma fallback_sticks_witness : exists g1, resolve (10 * Minute) (10 * Minute) (fun _ => false) (resolved [Err "down"; Ok [inst "a:1" 2; inst "b:1" 5]]) = (Ok tt, g1) /\
  (exists g2, resolve (20 * Minute) (20 * Minute) (fun _ => false) g1 = (Ok tt, g2) /\ (clientConn g2).1 = [resolved_address "backup:1" 1 "fallback"]).
Proof.
  eexists. split; [vm_compute; reflexivity|]. eexists. split.
  - refine (proj2 (fallback_sticks (resolved [Err "down"; Ok [inst "a:1" 2; inst "b:1" 5]]) _ (10 * Minute) (10 * Minute) (20 * Minute) (20 * Minute) (fun _ => false)
      [inst "a:1" 2; inst "b:1" 5] [Ok [inst "a:1" 2; inst "b:1" 5]] [] 0 _ _ _ _ _ _ _ _ _ _ _ _)); try done.
    + apply (bool_decide_unpack _). vm_compute. exact I.
    + vm_compute. eapply fails_once. reflexivity.
    + vm_compute. apply answers_now. reflexivity.
  - reflexivity.
Defined.

End Facts.
