(* ===== verification/Server.v ===== *)
(** The gRPC server: [src/server.go]. [Start] and [Close] take the mutex for parts of
    their work only, so a run is a sequence of steps of any number of calls. *)
From S2P Require Import Prelude Cluster.

(** * The configuration *)

Inductive grpc_option : Type :=
| KeepaliveParams (idle age grace time timeout : Z)
| EnforcementPolicy (min_time : Z) (permit : bool)
| MaxConcurrentStreams (n : Z)
| InitialWindowSize (n : Z)
| InitialConnWindowSize (n : Z)
| MaxRecvMsgSize (n : Z)
| MaxSendMsgSize (n : Z)
| Creds (tls : string).

Record config : Type := mkConfig {
  name : string; registerTimeout : Z; weight : Z; group : string; shutdownTimeout : Z; maxConnAge : Z; maxConnIdle : Z;
  gracefulStop : bool; tls : option string; maxConcurrentStreams : Z; initialWindowSize : Z; initialConnWindowSize : Z }.

(** [listener] is the address it is bound to; [stopped]: [Stop] or [GracefulStop] was
    called on the gRPC server. *)
Record Server (R : Type) : Type := mkServer {
  conf : config; registry : option R; grpc_options : list grpc_option; listener : option string; running : bool; stopped : bool }.
Arguments mkServer {R} _ _ _ _ _ _.
Arguments conf {R} s.
Arguments registry {R} s.
Arguments grpc_options {R} s.
Arguments listener {R} s.
Arguments running {R} s.
Arguments stopped {R} s.

Inductive server_error : Type :=
| ErrServerAlreadyRunning
| ErrServerListening (e : string)
| ErrServerRegister (e : string)
| ErrFailedServe (e : string)
| ErrServerClose (e : string).

Section Server.
Context {R : Type}.
Implicit Type s : Server R.

Definition set_conf c s : Server R := mkServer c (registry s) (grpc_options s) (listener s) (running s) (stopped s).
Definition set_registry r s : Server R := mkServer (conf s) r (grpc_options s) (listener s) (running s) (stopped s).
Definition set_listener l s : Server R := mkServer (conf s) (registry s) (grpc_options s) l (running s) (stopped s).
Definition set_running b s : Server R := mkServer (conf s) (registry s) (grpc_options s) (listener s) b (stopped s).
Definition set_stopped s : Server R := mkServer (conf s) (registry s) (grpc_options s) (listener s) (running s) true.

Definition ServerWithRegistry (r : R) s : Server R := set_registry (Some r) s.
Definition ServerWithRegisterTimeout (d : Z) s : Server R :=
  let '(mkConfig n _ w g st ma mi gs t ms iw ic) := conf s in set_conf (mkConfig n d w g st ma mi gs t ms iw ic) s.
Definition ServerWithWeight (w : Z) s : Server R :=
  let '(mkConfig n rt _ g st ma mi gs t ms iw ic) := conf s in set_conf (mkConfig n rt w g st ma mi gs t ms iw ic) s.
Definition ServerWithGroup (g : string) s : Server R :=
  let '(mkConfig n rt w _ st ma mi gs t ms iw ic) := conf s in set_conf (mkConfig n rt w g st ma mi gs t ms iw ic) s.
Definition ServerWithTLS (creds : string) s : Server R :=
  let '(mkConfig n rt w g st ma mi gs _ ms iw ic) := conf s in set_conf (mkConfig n rt w g st ma mi gs (Some creds) ms iw ic) s.
Definition ServerWithGracefulStop (graceful : bool) s : Server R :=
  let '(mkConfig n rt w g st ma mi _ t ms iw ic) := conf s in set_conf (mkConfig n rt w g st ma mi graceful t ms iw ic) s.
Definition ServerWithShutdownTimeout (d : Z) s : Server R :=
  let '(mkConfig n rt w g _ ma mi gs t ms iw ic) := conf s in set_conf (mkConfig n rt w g d ma mi gs t ms iw ic) s.
Definition ServerWithConnectionAge (d : Z) s : Server R :=
  let '(mkConfig n rt w g st _ mi gs t ms iw ic) := conf s in set_conf (mkConfig n rt w g st d mi gs t ms iw ic) s.
Definition ServerWithConnectionIdle (d : Z) s : Server R :=
  let '(mkConfig n rt w g st ma _ gs t ms iw ic) := conf s in set_conf (mkConfig n rt w g st ma d gs t ms iw ic) s.
Definition ServerWithStreamConfig (ms iw ic : Z) s : Server R :=
  let '(mkConfig n rt w g st ma mi gs t _ _ _) := conf s in set_conf (mkConfig n rt w g st ma mi gs t ms iw ic) s.

(** The options of the gRPC server. There are never interceptors: no option adds one. *)
Definition server_options (c : config) : list grpc_option :=
  [KeepaliveParams (maxConnIdle c) (maxConnAge c) (5 * Second) (60 * Second) (10 * Second);
   EnforcementPolicy (5 * Second) true;
   MaxConcurrentStreams (maxConcurrentStreams c);
   InitialWindowSize (initialWindowSize c);
   InitialConnWindowSize (initialConnWindowSize c);
   MaxRecvMsgSize (1024 * 1024 * 4); MaxSendMsgSize (1024 * 1024 * 4)] ++
  match tls c with Some t => [Creds t] | None => [] end.

Definition NewServer (nm : string) (opts : list (Server R -> Server R)) : Server R :=
  let s := foldl (fun s opt => opt s)
    (mkServer (mkConfig nm (10 * Second) 0 "" (30 * Second) Hour (5 * Minute) true None 100 (1024 * 1024) (1024 * 1024 * 10))
       None [] None false false) opts in
  mkServer (conf s) (registry s) (server_options (conf s)) (listener s) (running s) (stopped s).

Definition IsRunning s : bool := running s.

(** * Calls of [Start] and [Close], and the signal handlers *)

(** [Failing] runs the deferred function, [Undoing] is its critical section. *)
Inductive start_pc : Type :=
| Beginning | Listening | Registering | CallingServe | Serving
| Failing (e : server_error) | Undoing (e : server_error)
| StartReturned (r : result server_error unit).

(** From [ClosingRegistry] on the call holds the mutex. *)
Inductive close_pc : Type :=
| CloseBegin | ClosingRegistry | Stopping | Resetting | CloseReturned (r : result server_error unit).

(** [Handling j]: waits for the call [j] of [Close] or for the timer. *)
Inductive signal_pc : Type := Waiting | Handling (j : nat) | Handled.

Inductive thread : Type :=
| StartCall (addr : string) (pc : start_pc)
| CloseCall (pc : close_pc)
| SignalHandler (pc : signal_pc).

Record system : Type := mkSystem { server : Server R; locked : bool; threads : list thread }.

Definition initial s : system := mkSystem s false [].

(** What happens: a call is made; thread [i] goes on; the listener's answer; [Serve]
    returns; a signal comes; a handler's timer fires. *)
Inductive event : Type :=
| NewStart (addr : string) | NewClose
| Go (i : nat) | Listened (i : nat) (r : result string string) | ServeEnds (i : nat) (err : option string)
| Signal (i : nat) | TimerFires (i : nat).

Context `{Registry R}.

Definition instance_at (a : string) (c : config) : ServiceInstance :=
  {| Name := name c; Address := a; Weight := weight c; Group := group c |}.

Definition goto (i : nat) (t : thread) (s : Server R) (y : system) : system := mkSystem s (locked y) (<[i := t]> (threads y)).

(** Registering and announcing: the listener's address is read again for the
    instance and for the line that is printed. *)
Definition register (i : nat) (addr : string) (y : system) : outcome system :=
  let s := server y in
  let announce s := mkSystem s (locked y) (<[i := StartCall addr CallingServe]> (threads y) ++
                                           if gracefulStop (conf s) then [SignalHandler Waiting] else []) in
  match listener s with
  | None => Panics
  | Some a =>
      match registry s with
      | None => Returns (announce s)
      | Some r =>
          match Register (instance_at a (conf s)) r with
          | (Ok _, r) => Returns (announce (set_registry (Some r) s))
          | (Err e, r) => Returns (goto i (StartCall addr (Failing (ErrServerRegister e))) (set_registry (Some r) s) y)
          end
      end
  end.

Definition go_start (i : nat) (addr : string) (pc : start_pc) (y : system) : option (outcome system) :=
  let s := server y in
  match pc with
  | Beginning =>
      if locked y then None
      else if running s then Some (Returns (goto i (StartCall addr (StartReturned (Err ErrServerAlreadyRunning))) s y))
      else Some (Returns (goto i (StartCall addr Listening) (set_running true s) y))
  | Registering => Some (register i addr y)
  | CallingServe =>
      if stopped s then Some (Returns (goto i (StartCall addr (Failing (ErrFailedServe "grpc: the server has been stopped"))) s y))
      else Some (Returns (goto i (StartCall addr Serving) s y))
  | Failing e =>
      match listener s with None => Some Panics | Some _ => Some (Returns (goto i (StartCall addr (Undoing e)) s y)) end
  | Undoing e =>
      if locked y then None else Some (Returns (goto i (StartCall addr (StartReturned (Err e))) (set_running false s) y))
  | Listening | Serving | StartReturned _ => None
  end.

Definition lock (y : system) : system := mkSystem (server y) true (threads y).
Definition unlock (y : system) : system := mkSystem (server y) false (threads y).

(** The error of [UnRegister] is printed. *)
Definition go_close (i : nat) (pc : close_pc) (y : system) : option (outcome system) :=
  let s := server y in
  match pc with
  | CloseBegin =>
      if locked y then None
      else if negb (running s) then Some (Returns (goto i (CloseCall (CloseReturned (Ok tt))) s y))
      else match registry s with
           | None => Some (Returns (lock (goto i (CloseCall Stopping) s y)))
           | Some r =>
               match listener s with
               | None => Some Panics
               | Some a =>
                   let r := (UnRegister {| Name := name (conf s); Address := a; Weight := 0; Group := "" |} r).2 in
                   Some (Returns (lock (goto i (CloseCall ClosingRegistry) (set_registry (Some r) s) y)))
               end
           end
  | ClosingRegistry =>
      match registry s with
      | None => Some Panics
      | Some r =>
          match CloseRegistry r with
          | (Ok _, r) => Some (Returns (goto i (CloseCall Stopping) (set_registry (Some r) s) y))
          | (Err e, r) => Some (Returns (unlock (goto i (CloseCall (CloseReturned (Err (ErrServerClose e)))) (set_registry (Some r) s) y)))
          end
      end
  | Stopping => Some (Returns (goto i (CloseCall Resetting) (set_stopped s) y))
  | Resetting => Some (Returns (unlock (goto i (CloseCall (CloseReturned (Ok tt))) (set_running false s) y)))
  | CloseReturned _ => None
  end.

Definition close_returned (y : system) (j : nat) : bool :=
  match threads y !! j with Some (CloseCall (CloseReturned _)) => true | _ => false end.

Definition step (e : event) (y : system) : option (outcome system) :=
  match e with
  | NewStart addr => Some (Returns (mkSystem (server y) (locked y) (threads y ++ [StartCall addr Beginning])))
  | NewClose => Some (Returns (mkSystem (server y) (locked y) (threads y ++ [CloseCall CloseBegin])))
  | Go i =>
      match threads y !! i with
      | Some (StartCall addr pc) => go_start i addr pc y
      | Some (CloseCall pc) => go_close i pc y
      | Some (SignalHandler (Handling j)) =>
          if close_returned y j then Some (Returns (goto i (SignalHandler Handled) (server y) y)) else None
      | _ => None
      end
  | Listened i r =>
      match threads y !! i with
      | Some (StartCall addr Listening) =>
          match r with
          | Ok a => Some (Returns (goto i (StartCall addr Registering) (set_listener (Some a) (server y)) y))
          | Err e => Some (Returns (goto i (StartCall addr (Undoing (ErrServerListening e))) (set_listener None (server y)) y))
          end
      | _ => None
      end
  | ServeEnds i err =>
      match threads y !! i with
      | Some (StartCall addr Serving) =>
          match err with
          | None => if stopped (server y) then Some (Returns (goto i (StartCall addr (StartReturned (Ok tt))) (server y) y)) else None
          | Some e => if stopped (server y) then None else Some (Returns (goto i (StartCall addr (Failing (ErrFailedServe e))) (server y) y))
          end
      | _ => None
      end
  | Signal i =>
      match threads y !! i with
      | Some (SignalHandler Waiting) =>
          Some (Returns (mkSystem (server y) (locked y) (<[i := SignalHandler (Handling (length (threads y)))]> (threads y) ++ [CloseCall CloseBegin])))
      | _ => None
      end
  | TimerFires i =>
      match threads y !! i with
      | Some (SignalHandler (Handling _)) => Some (Returns (goto i (SignalHandler Handled) (set_stopped (server y)) y))
      | _ => None
      end
  end.

Fixpoint run (es : list event) (y : system) : option (outcome system) :=
  match es with
  | [] => Some (Returns y)
  | e :: es => match step e y with Some (Returns y) => run es y | r => r end
  end.

End Server.
Arguments system : clear implicits.

(** * Facts *)
Module Facts.

Section Facts.
Context {R : Type} `{Registry R}.
Implicit Types (s : Server R) (y : system R).

(** A call of [Start] that has set the flag and not returned; a call of [Close] that holds the mutex. *)
Definition under_way (t : thread) : bool :=
  match t with StartCall _ (Beginning | StartReturned _) => false | StartCall _ _ => true | _ => false end.
Definition holding (t : thread) : bool :=
  match t with CloseCall (ClosingRegistry | Stopping | Resetting) => true | _ => false end.
Definition resetting (t : thread) : bool := match t with CloseCall Resetting => true | _ => false end.

Definition count (p : thread -> bool) (l : list thread) : nat := length (base.filter (fun t => p t = true) l).

#[local] Arguments count : simpl never.

Lemma count_nil p : count p [] = 0%nat.
Proof. done. Qed.

Lemma count_cons p t l : count p (t :: l) = (Nat.b2n (p t) + count p l)%nat.
Proof. unfold count. rewrite filter_cons. by destruct (p t). Qed.

Lemma threads_count_app p l l' : count p (l ++ l') = (count p l + count p l')%nat.
Proof. unfold count. by rewrite filter_app, length_app. Qed.

Lemma threads_count_insert p i t t' l : l !! i = Some t -> (count p (<[i := t']> l) + Nat.b2n (p t) = count p l + Nat.b2n (p t'))%nat.
Proof.
  revert i. induction l as [|t0 l IH]; intros [|i] Hi; simpl in Hi; [done|done| |].
  - injection Hi as ->. change (<[0%nat := t']> (t :: l)) with (t' :: l). rewrite !count_cons. lia.
  - change (<[S i := t']> (t0 :: l)) with (t0 :: <[i := t']> l). rewrite !count_cons. specialize (IH i Hi). lia.
Qed.

Lemma count_exists p l : count p l <> 0%nat -> exists i t, l !! i = Some t /\ p t = true.
Proof.
  induction l as [|t l IH]; [done|]. rewrite count_cons. destruct (p t) eqn:Ht; [by exists 0%nat, t|].
  intros (i & t' & Hi & Hp)%IH. by exists (S i), t'.
Qed.

(** Until the gRPC server is stopped, the flag says whether a call of [Start] is under way, and there is at most one; one call of [Close] at most holds the mutex. *)
Definition inv y : Prop :=
  count holding (threads y) = Nat.b2n (locked y) /\
  (stopped (server y) = false -> count under_way (threads y) = Nat.b2n (running (server y)) /\ count resetting (threads y) = 0%nat).

Ltac counts Hi Hu :=
  try match goal with |- context [<[?i := ?t']> (threads ?y)] =>
    pose proof (threads_count_insert holding i _ t' _ Hi); pose proof (threads_count_insert under_way i _ t' _ Hi); pose proof (threads_count_insert resetting i _ t' _ Hi)
  end; rewrite ?threads_count_app, ?count_cons, ?count_nil; cbn in *;
  repeat match goal with
  | Hl : locked ?y = _ |- context [locked ?y] => rewrite Hl
  | Hl : running ?s = _ |- context [running ?s] => rewrite Hl
  | Hl : context [Nat.b2n (locked ?y)] |- _ => destruct (locked y); cbn in *
  | Hl : context [Nat.b2n (running ?s)] |- _ => destruct (running s); cbn in *
  end; cbn;
  (split; [try lia|let Hst := fresh "Hst" in intros Hst; try specialize (Hu Hst); try (split; lia); try congruence]).

Lemma server_step_inv e y y' : inv y -> step e y = Some (Returns y') -> inv y'.
Proof.
  intros [Hh Hu] Hs. unfold inv.
  destruct e as [a| |i|i r|i err|i|i]; cbn [step] in Hs.
  - injection Hs as <-. cbn. counts Hh Hu.
  - injection Hs as <-. cbn. counts Hh Hu.
  - destruct (threads y !! i) as [[a pc|pc|[|j|]]|] eqn:Hi; try done.
    + unfold go_start, register in Hs. destruct pc; simpl in Hs; repeat case_match; simplify_eq; cbn; counts Hi Hu.
    + unfold go_close in Hs. destruct pc; simpl in Hs; repeat case_match; simplify_eq; cbn; counts Hi Hu.
    + case_match; simplify_eq. cbn. counts Hi Hu.
  - destruct (threads y !! i) as [[a []|pc|]|] eqn:Hi; try done. destruct r; injection Hs as <-; cbn; counts Hi Hu.
  - destruct (threads y !! i) as [[a []|pc|]|] eqn:Hi; try done. destruct err; case_match; simplify_eq; cbn; counts Hi Hu.
  - destruct (threads y !! i) as [[| |[]]|] eqn:Hi; try done. injection Hs as <-. cbn. counts Hi Hu.
  - destruct (threads y !! i) as [[| |[]]|] eqn:Hi; try done. injection Hs as <-. cbn. counts Hi Hu.
Qed.

Lemma run_inv es : forall y y', inv y -> run es y = Some (Returns y') -> inv y'.
Proof.
  induction es as [|e es IH]; intros y y' Hy Hr; cbn [run] in Hr; [by injection Hr as <-|].
  destruct (step e y) as [[y1|]|] eqn:Hs; try done. eapply IH; [|exact Hr]. by eapply server_step_inv.
Qed.

Lemma initial_inv s : running s = false -> inv (initial s).
Proof. intros Hr. split; [done|]. intros _. split; [|done]. cbn. by rewrite Hr. Qed.

(** C4: however the calls of [Start] and [Close] and the signals interleave, as long as nothing has stopped the gRPC server at most one call of [Start] is past its check, and the flag tells whether there is one; at most one call of [Close] holds the mutex. *)
Theorem one_start_at_a_time s es y : running s = false -> Server.run es (initial s) = Some (Returns y) ->
  (stopped (server y) = false -> count under_way (threads y) = if running (server y) then 1%nat else 0%nat) /\
  count holding (threads y) = if locked y then 1%nat else 0%nat.
Proof.
  intros Hr Hrun. destruct (run_inv es _ _ (initial_inv s Hr) Hrun) as [Hh Hu]. split; [|done]. intros Hst. by destruct (Hu Hst).
Qed.

(** Threads that need nothing from outside to go on. *)
Definition own_step y (t : thread) : bool :=
  match t with
  | StartCall _ (Listening | Serving | StartReturned _) | CloseCall (CloseReturned _) => false
  | SignalHandler (Handling j) => close_returned y j
  | SignalHandler _ => false
  | _ => true
  end.

Lemma holder_moves y i t : threads y !! i = Some t -> holding t = true -> step (Go i) y <> None.
Proof. intros Hi Ht. cbn [step]. rewrite Hi. destruct t as [|[]|]; try done; cbn; repeat case_match; done. Qed.

(** C24: no deadlock: in every reachable state a call or handler that waits for nothing outside can go on, or another call holds the mutex and can go on. *)
Theorem no_deadlock s es y i t : running s = false -> Server.run es (initial s) = Some (Returns y) -> threads y !! i = Some t -> own_step y t = true ->
  step (Go i) y <> None \/ exists j u, threads y !! j = Some u /\ holding u = true /\ step (Go j) y <> None.
Proof.
  intros Hr Hrun Hi Ho. destruct (run_inv es _ _ (initial_inv s Hr) Hrun) as [Hh _]. destruct (locked y) eqn:Hl.
  - right. destruct (count_exists holding (threads y)) as (j & u & Hj & Hu); [by rewrite Hh|]. exists j, u. split_and!; [done|done|]. by eapply holder_moves.
  - left. cbn [step]. rewrite Hi. destruct t as [a pc|pc|pc]; [destruct pc|destruct pc|destruct pc]; try done; cbn in *; rewrite ?Hl, ?Ho; repeat case_match; done.
Qed.

(** A call of [Close] that comes after [Start] has set the flag and before it listens panics when there is a registry: the address of no listener is read. *)
Theorem close_during_start_panics s r a : registry s = Some r -> running s = false -> listener s = None ->
  Server.run [NewStart a; Go 0; NewClose; Go 1] (initial s) = Some Panics.
Proof. intros Hreg Hrun Hl. cbn. rewrite Hrun. cbn. by rewrite Hreg, Hl. Qed.

(** The life of a server: it starts, serves and is closed by call [k]. *)
Definition lifetime (a b : string) (k : nat) : list event :=
  [NewStart a; Go 0; Listened 0 (Ok b); Go 0; Go 0; NewClose; Go k; Go k; Go k; ServeEnds 0 None; Go k].

(** A server that starts, serves and is closed has registered the address its listener is bound to under its name, weight and group, removed that name and address, and closed the registry, in this order and nothing else; both calls return without an error, and the server is not running. *)
Theorem lifetime_registers_and_removes s a b r r1 r2 : registry s = Some r -> running s = false -> stopped s = false ->
  Register {| Name := name (conf s); Address := b; Weight := weight (conf s); Group := group (conf s) |} r = (Ok tt, r1) ->
  CloseRegistry (UnRegister {| Name := name (conf s); Address := b; Weight := 0; Group := "" |} r1).2 = (Ok tt, r2) ->
  exists y, Server.run (lifetime a b (if gracefulStop (conf s) then 2 else 1)) (initial s) = Some (Returns y) /\
    registry (server y) = Some r2 /\ running (server y) = false /\ stopped (server y) = true /\ locked y = false /\
    threads y !! 0%nat = Some (StartCall a (StartReturned (Ok tt))) /\
    threads y !! (if gracefulStop (conf s) then 2 else 1)%nat = Some (CloseCall (CloseReturned (Ok tt))).
Proof.
  intros Hreg Hrun Hst Hr Hc. destruct (gracefulStop (conf s)) eqn:Hg; unfold lifetime;
    repeat (cbn; unfold register, instance_at; rewrite ?Hreg, ?Hrun, ?Hst, ?Hr, ?Hc, ?Hg); by eexists.
Qed.

Lemma lookup_at_end {A} (l : list A) t rest : (l ++ t :: rest) !! length l = Some t.
Proof. by apply list_lookup_middle. Qed.

Lemma insert_at_end {A} (l : list A) t t' rest : <[length l := t']> (l ++ t :: rest) = l ++ t' :: rest.
Proof. by rewrite insert_app_r_alt, Nat.sub_diag. Qed.

Ltac at_end := repeat (cbn; rewrite ?lookup_at_end; cbn; rewrite ?insert_at_end).

(** A server cannot be started again: after a stop, [Start] registers the instance, then fails, because the gRPC server is stopped for good, and leaves the instance registered; the server is not running, so [Close] does not remove the instance either. *)
Theorem restart_leaves_registration y a b r r1 : locked y = false -> running (server y) = false -> stopped (server y) = true ->
  registry (server y) = Some r -> Register (instance_at b (conf (server y))) r = (Ok tt, r1) ->
  exists y' rest, Server.run [NewStart a; Go (length (threads y)); Listened (length (threads y)) (Ok b); Go (length (threads y)); Go (length (threads y));
                       Go (length (threads y)); Go (length (threads y))] y = Some (Returns y') /\
    threads y' = threads y ++ StartCall a (StartReturned (Err (ErrFailedServe "grpc: the server has been stopped"))) :: rest /\
    registry (server y') = Some r1 /\
    exists y2, Server.run [NewClose; Go (length (threads y'))] y' = Some (Returns y2) /\ server y2 = server y' /\
      threads y2 = threads y' ++ [CloseCall (CloseReturned (Ok tt))].
Proof.
  intros Hl Hrun Hst Hreg Hr.
  eexists _, (if gracefulStop (conf (server y)) then [SignalHandler Waiting] else []). split.
  - cbn. at_end. rewrite Hl, Hrun. at_end. unfold register. cbn. rewrite Hreg, Hr. cbn. at_end. rewrite <-app_assoc. at_end. rewrite Hst. at_end. reflexivity.
  - cbn. rewrite !insert_at_end. split; [done|]. split; [done|]. eexists. at_end. split; [reflexivity|]. cbn. by rewrite insert_at_end.
Qed.

(** When [Serve] fails, [Start] returns its error and the instance stays registered: the server is not running, and [Close] does nothing. *)
Lemma failed_serve_stays_registered y i a e b : locked y = false -> stopped (server y) = false -> listener (server y) = Some b ->
  threads y !! i = Some (StartCall a Serving) -> exists y', Server.run [ServeEnds i (Some e); Go i; Go i] y = Some (Returns y') /\
    threads y' !! i = Some (StartCall a (StartReturned (Err (ErrFailedServe e)))) /\ registry (server y') = registry (server y) /\
    exists y2, Server.run [NewClose; Go (length (threads y'))] y' = Some (Returns y2) /\ server y2 = server y'.
Proof.
  intros Hl Hst Hb Hi. assert (Hlt : (i < length (threads y))%nat) by (by eapply lookup_lt_Some).
  eexists. split.
  - cbn. rewrite Hi, Hst. cbn. rewrite list_lookup_insert_eq by done. cbn. rewrite Hb. cbn. rewrite list_lookup_insert_eq by (by rewrite length_insert). cbn. rewrite Hl. reflexivity.
  - cbn. rewrite list_lookup_insert_eq by (by rewrite !length_insert). split; [done|]. split; [done|]. eexists. at_end. rewrite Hl. at_end. done.
Qed.

(** When the registry cannot be closed, [Close] returns its error with the instance already removed and the gRPC server serving on: nobody finds the server, and it still counts as running. *)
Theorem failed_registry_close_keeps_serving y r r2 b e : locked y = false -> running (server y) = true -> registry (server y) = Some r ->
  listener (server y) = Some b -> CloseRegistry (UnRegister {| Name := name (conf (server y)); Address := b; Weight := 0; Group := "" |} r).2 = (Err e, r2) ->
  exists y', Server.run [NewClose; Go (length (threads y)); Go (length (threads y))] y = Some (Returns y') /\
    threads y' = threads y ++ [CloseCall (CloseReturned (Err (ErrServerClose e)))] /\
    registry (server y') = Some r2 /\ running (server y') = true /\ stopped (server y') = stopped (server y).
Proof.
  intros Hl Hrun Hreg Hb Hc. eexists. split.
  - at_end. rewrite Hl, Hrun, Hreg, Hb. at_end. rewrite Hc. at_end. reflexivity.
  - cbn. by rewrite !insert_at_end.
Qed.

End Facts.

(** ** An instance: a registry that keeps what it was asked; its [Close] may fail *)
Inductive asked : Type := Registered (si : ServiceInstance) | Removed (si : ServiceInstance) | Closed.

#[local] Instance log_registry : Registry (bool * list asked) := {|
  Register := fun si (r : bool * list asked) => (Ok tt, (r.1, r.2 ++ [Registered si])); UnRegister := fun si (r : bool * list asked) => (Ok tt, (r.1, r.2 ++ [Removed si]));
  ListServices := fun _ r => (Ok [], r); CloseRegistry := fun (r : bool * list asked) => (if r.1 then Ok tt else Err "unavailable", (r.1, r.2 ++ [Closed])) |}.

Abbreviation user_server ok := (@NewServer (bool * list asked) "user" [ServerWithRegistry (ok, @nil asked); ServerWithWeight 3; ServerWithGroup "blue"]).
Abbreviation at_port p w g := (Build_ServiceInstance "user" p w g).

(** Two calls of [Start], the second before the first listens. *)
Lemma one_start_at_a_time_witness : exists y, Server.run [NewStart ":80"; NewStart ":81"; Go 0; Go 1; Listened 0 (Ok "h:80"); Go 0] (initial (user_server true)) = Some (Returns y) /\
  running (server y) = true /\ count under_way (threads y) = 1%nat /\ threads y !! 1%nat = Some (StartCall ":81" (StartReturned (Err ErrServerAlreadyRunning))).
Proof.
  eexists. split; [vm_compute; reflexivity|]. split; [reflexivity|]. split; [|reflexivity].
  apply (proj1 (one_start_at_a_time (user_server true) [NewStart ":80"; NewStart ":81"; Go 0; Go 1; Listened 0 (Ok "h:80"); Go 0] _ ltac:(reflexivity) ltac:(vm_compute; reflexivity)) eq_refl).
Defined.

(** [Close] holds the mutex while a second [Start] waits for it. *)
Lemma no_deadlock_witness : exists y, Server.run [NewStart ":80"; Go 0; Listened 0 (Ok "h:80"); NewClose; Go 1; NewStart ":80"] (initial (user_server true)) = Some (Returns y) /\
  step (Go 2) y = None /\ exists j u, threads y !! j = Some u /\ holding u = true /\ step (Go j) y <> None.
Proof.
  eexists. split; [vm_compute; reflexivity|]. split; [reflexivity|].
  destruct (no_deadlock (user_server true) [NewStart ":80"; Go 0; Listened 0 (Ok "h:80"); NewClose; Go 1; NewStart ":80"] _ 2 _ eq_refl ltac:(vm_compute; reflexivity) eq_refl eq_refl) as [Hn|Hj];
    [by destruct Hn|exact Hj].
Defined.

Lemma close_during_start_panics_witness : Server.run [NewStart ":80"; Go 0; NewClose; Go 1] (initial (user_server true)) = Some Panics.
Proof. apply (close_during_start_panics (user_server true) (true, []) ":80"); reflexivity. Defined.

Lemma lifetime_registers_and_removes_witness : exists y, Server.run (lifetime ":80" "h:80" 2) (initial (user_server true)) = Some (Returns y) /\
  registry (server y) = Some (true, [Registered (at_port "h:80" 3 "blue"); Removed (at_port "h:80" 0 ""); Closed]).
Proof.
  destruct (lifetime_registers_and_removes (user_server true) ":80" "h:80" (true, []) (true, [Registered (at_port "h:80" 3 "blue")])
    (true, [Registered (at_port "h:80" 3 "blue"); Removed (at_port "h:80" 0 ""); Closed])) as (y & Hy & Hr & _); try reflexivity.
  exists y. split; [exact Hy|exact Hr].
Defined.

(** The same server, closed. *)
Abbreviation closed_server := (mkSystem (set_registry (Some (true, @nil asked)) (set_stopped (set_listener (Some "h:80") (user_server true)))) false []).

Lemma restart_leaves_registration_witness : exists y', Server.run [NewStart ":80"; Go 0; Listened 0 (Ok "h:80"); Go 0; Go 0; Go 0; Go 0] closed_server = Some (Returns y') /\
  registry (server y') = Some (true, [Registered (at_port "h:80" 3 "blue")]).
Proof.
  destruct (restart_leaves_registration closed_server ":80" "h:80" (true, []) (true, [Registered (at_port "h:80" 3 "blue")])) as (y' & rest & Hy & _ & Hr & _); try reflexivity.
  exists y'. split; [exact Hy|exact Hr].
Defined.

Lemma failed_registry_close_keeps_serving_witness : exists y', Server.run [NewClose; Go 0; Go 0]
    (mkSystem (set_running true (set_listener (Some "h:80") (user_server false))) false []) = Some (Returns y') /\
  registry (server y') = Some (false, [Removed (at_port "h:80" 0 ""); Closed]) /\ running (server y') = true /\ stopped (server y') = false.
Proof.
  destruct (failed_registry_close_keeps_serving (mkSystem (set_running true (set_listener (Some "h:80") (user_server false))) false []) (false, [])
    (false, [Removed (at_port "h:80" 0 ""); Closed]) "h:80" "unavailable") as (y' & Hy & _ & Hr & Hrun & Hst); try reflexivity.
  exists y'. split; [exact Hy|]. split; [exact Hr|]. split; [exact Hrun|exact Hst].
Defined.

(** A server registers with weight zero unless it is told otherwise. *)
Example default_weight : weight (conf (NewServer "user" [@ServerWithRegistry (bool * list asked) (true, [])])) = 0.
Proof. reflexivity. Qed.

End Facts.
