(* ===== verification/Client.v ===== *)
(** The gRPC client: [src/client.go]. Dialling goes through the circuit breaker of the
    target ([CircuitBreaker]) and its connection pool ([ConnPool]); the connection
    is given a resolver builder ([Resolver]). The calls of [Dial] come one after
    another here. *)
From S2P Require Import Prelude Float64 GoString CircuitBreaker ConnPool Cluster Resolver.

(** * [time.Duration.String]

    The fraction of [v] over [10 ^ prec], without trailing zeros. *)
Definition fmt_frac (v : Z) (prec : nat) : string :=
  match trim_right_char "0" (zero_padded prec (v mod 10 ^ Z.of_nat prec)) with "" => "" | f => String "." f end.

Definition Duration_String (d : Z) : string :=
  let u := Z.abs d in
  let s := (if (u =? 0)%Z then "0s"
            else if (u <? 1000)%Z then itoa u ++ "ns"
            else if (u <? Millisecond)%Z then itoa (u / 1000)%Z ++ fmt_frac u 3 ++ String "194" (String "181" "s")
            else if (u <? Second)%Z then itoa (u / Millisecond)%Z ++ fmt_frac u 6 ++ "ms"
            else
              let secs := (u / Second)%Z in
              let m := (secs / 60)%Z in
              let h := (m / 60)%Z in
              (if (m >? 0)%Z then (if (h >? 0)%Z then itoa h ++ "h" else "") ++ itoa (m mod 60)%Z ++ "m" else "") ++
              itoa (secs mod 60)%Z ++ fmt_frac u 9 ++ "s")%string in
  (if (d <? 0)%Z then "-" ++ s else s)%string.

(** * The configuration *)

Record RetryConfig : Type := { Enabled : bool; MaxAttempts : Z; MaxBackoff : Z; BaseBackoff : Z }.

Definition DefaultRetryConfig : RetryConfig :=
  {| Enabled := true; MaxAttempts := 3; MaxBackoff := 5 * Second; BaseBackoff := 100 * Millisecond |}.

Record ClientParameters : Type := { Time : Z; KTimeout : Z; PermitWithoutStream : bool }.

(** What is marshalled to JSON for [grpc.WithDefaultServiceConfig]. *)
Record retryPolicy : Type := { maxAttempts : Z; initialBackoff : string; maxBackoff : string; retryableStatusCodes : list string }.
Record serviceConfig : Type := { loadBalancingPolicy : option string; methodConfig : option (string * retryPolicy) }.

(** Transport credentials: [None] are the insecure ones. *)
Inductive dial_option (R : Type) : Type :=
| WithResolvers (r : R) (b : ResolverBuilder)
| WithTransportCredentials (creds : option string)
| WithDefaultServiceConfig (sc : serviceConfig)
| WithKeepaliveParams (k : ClientParameters)
| WithInitialWindowSize (n : Z)
| WithInitialConnWindowSize (n : Z)
| MaxCallRecvMsgSize (n : Z)
| MaxCallSendMsgSize (n : Z)
| UseCompressor (algorithm : string)
| WithBlock
| OtherOption (n : nat).
Arguments WithResolvers {R} r b.
Arguments WithTransportCredentials {R} creds.
Arguments WithDefaultServiceConfig {R} sc.
Arguments WithKeepaliveParams {R} k.
Arguments WithInitialWindowSize {R} n.
Arguments WithInitialConnWindowSize {R} n.
Arguments MaxCallRecvMsgSize {R} n.
Arguments MaxCallSendMsgSize {R} n.
Arguments UseCompressor {R} algorithm.
Arguments WithBlock {R}.
Arguments OtherOption {R} n.

Record config (R : Type) : Type := mkConfig {
  insecure : bool; registry : option R; timeout : Z; balancer : option string; tls : option string; retryConfig : RetryConfig;
  keepaliveParams : ClientParameters; maxConcurrentStreams : Z; initialWindowSize : Z; initialConnWindowSize : Z;
  poolConfig : Pool.Options; enablePool : bool; adaptivePoolConfig : AdaptivePool.AdaptiveOptions; enableAdaptivePool : bool;
  preconnectCount : Z; circuitBreakerConfig : CircuitBreaker.Options; enableCircuitBreaker : bool;
  enableCompression : bool; compressionAlgorithm : string }.
Arguments mkConfig {R}.
Arguments insecure {R} c.
Arguments registry {R} c.
Arguments timeout {R} c.
Arguments balancer {R} c.
Arguments tls {R} c.
Arguments retryConfig {R} c.
Arguments keepaliveParams {R} c.
Arguments maxConcurrentStreams {R} c.
Arguments initialWindowSize {R} c.
Arguments initialConnWindowSize {R} c.
Arguments poolConfig {R} c.
Arguments enablePool {R} c.
Arguments adaptivePoolConfig {R} c.
Arguments enableAdaptivePool {R} c.
Arguments preconnectCount {R} c.
Arguments circuitBreakerConfig {R} c.
Arguments enableCircuitBreaker {R} c.
Arguments enableCompression {R} c.
Arguments compressionAlgorithm {R} c.

(** A pool with the dial options that its factory has. *)
Inductive base_or_adaptive : Type := Plain (p : Pool.connPool) | Adaptive (ap : AdaptivePool.AdaptivePool).
Record target_pool (R : Type) : Type := mkPool { the_pool : base_or_adaptive; factory_options : list (dial_option R) }.
Arguments mkPool {R} _ _.
Arguments the_pool {R} t.
Arguments factory_options {R} t.

Record Client (R : Type) : Type := mkClient {
  conf : config R; pools : gmap string (target_pool R); circuitBreakers : gmap string CircuitBreaker.CircuitBreaker }.
Arguments mkClient {R} _ _ _.
Arguments conf {R} c.
Arguments pools {R} c.
Arguments circuitBreakers {R} c.

Section Options.
Context {R : Type}.

Definition ClientInsecure (c : config R) : config R :=
  let '(mkConfig ins rg ti ba tl rt ka ms iw ic pc ep ac ea pn bc eb co al) := c in mkConfig true rg ti ba tl rt ka ms iw ic pc ep ac ea pn bc eb co al.
Definition ClientWithTLS (creds : string) (c : config R) : config R :=
  let '(mkConfig ins rg ti ba tl rt ka ms iw ic pc ep ac ea pn bc eb co al) := c in mkConfig ins rg ti ba (Some creds) rt ka ms iw ic pc ep ac ea pn bc eb co al.
Definition ClientWithPickerBuilder (name : string) (c : config R) : config R :=
  let '(mkConfig ins rg ti ba tl rt ka ms iw ic pc ep ac ea pn bc eb co al) := c in mkConfig ins rg ti (Some name) tl rt ka ms iw ic pc ep ac ea pn bc eb co al.
Definition ClientWithResolver (r : R) (t : Z) (c : config R) : config R :=
  let '(mkConfig ins rg ti ba tl rt ka ms iw ic pc ep ac ea pn bc eb co al) := c in mkConfig ins (Some r) t ba tl rt ka ms iw ic pc ep ac ea pn bc eb co al.
Definition ClientWithRetry (r : RetryConfig) (c : config R) : config R :=
  let '(mkConfig ins rg ti ba tl rt ka ms iw ic pc ep ac ea pn bc eb co al) := c in mkConfig ins rg ti ba tl r ka ms iw ic pc ep ac ea pn bc eb co al.
Definition ClientWithKeepalive (k : ClientParameters) (c : config R) : config R :=
  let '(mkConfig ins rg ti ba tl rt ka ms iw ic pc ep ac ea pn bc eb co al) := c in mkConfig ins rg ti ba tl rt k ms iw ic pc ep ac ea pn bc eb co al.
Definition ClientWithStreamConfig (maxStreams windowSize connWindowSize : Z) (c : config R) : config R :=
  let '(mkConfig ins rg ti ba tl rt ka ms iw ic pc ep ac ea pn bc eb co al) := c in
  mkConfig ins rg ti ba tl rt ka maxStreams windowSize connWindowSize pc ep ac ea pn bc eb co al.
Definition ClientWithConnectionPool (p : Pool.Options) (c : config R) : config R :=
  let '(mkConfig ins rg ti ba tl rt ka ms iw ic pc ep ac ea pn bc eb co al) := c in mkConfig ins rg ti ba tl rt ka ms iw ic p true ac false pn bc eb co al.
Definition ClientWithAdaptiveConnectionPool (a : AdaptivePool.AdaptiveOptions) (c : config R) : config R :=
  let '(mkConfig ins rg ti ba tl rt ka ms iw ic pc ep ac ea pn bc eb co al) := c in mkConfig ins rg ti ba tl rt ka ms iw ic pc true a true pn bc eb co al.
Definition ClientWithPreconnect (count : Z) (c : config R) : config R :=
  let '(mkConfig ins rg ti ba tl rt ka ms iw ic pc ep ac ea pn bc eb co al) := c in mkConfig ins rg ti ba tl rt ka ms iw ic pc ep ac ea count bc eb co al.
Definition ClientWithCircuitBreaker (b : CircuitBreaker.Options) (c : config R) : config R :=
  let '(mkConfig ins rg ti ba tl rt ka ms iw ic pc ep ac ea pn bc eb co al) := c in mkConfig ins rg ti ba tl rt ka ms iw ic pc ep ac ea pn b true co al.
Definition ClientWithCompression (algorithm : string) (c : config R) : config R :=
  let '(mkConfig ins rg ti ba tl rt ka ms iw ic pc ep ac ea pn bc eb co al) := c in mkConfig ins rg ti ba tl rt ka ms iw ic pc ep ac ea pn bc eb true algorithm.

(** The zero value of the adaptive options. *)
Definition no_adaptive : AdaptivePool.AdaptiveOptions :=
  {| AdaptivePool.BaseOptions := {| Pool.MaxIdle := 0; Pool.MaxActive := 0; Pool.IdleTimeout := 0; Pool.WaitTimeout := 0; Pool.Wait := false |};
     AdaptivePool.HealthCheckInterval := 0; AdaptivePool.HealthCheckTimeout := 0; AdaptivePool.EnableAdaptive := false;
     AdaptivePool.LoadCheckInterval := 0; AdaptivePool.HighLoadThreshold := of_int 0; AdaptivePool.LowLoadThreshold := of_int 0;
     AdaptivePool.ScaleUpFactor := of_int 0; AdaptivePool.ScaleDownFactor := of_int 0; AdaptivePool.MinConnections := 0;
     AdaptivePool.MaxConnections := 0; AdaptivePool.ScaleCooldownPeriod := 0 |}.

Definition NewClient (opts : list (config R -> config R)) : Client R :=
  mkClient (foldl (fun c opt => opt c)
    (mkConfig false None (10 * Second) None None DefaultRetryConfig {| Time := 10 * Second; KTimeout := 3 * Second; PermitWithoutStream := true |}
       100 (1024 * 1024) (1024 * 1024 * 10)
       {| Pool.MaxIdle := 5; Pool.MaxActive := 20; Pool.IdleTimeout := 60 * Second; Pool.WaitTimeout := 3 * Second; Pool.Wait := true |} false
       no_adaptive false 0 CircuitBreaker.DefaultOptions false false "") opts) ∅ ∅.
End Options.

(** * Dialling *)

(** The deadline that [grpc.DialContext] is given. *)
Inductive dial_deadline : Type := FromContext (t : Z) | After (d : Z).

Class Dialer (R D : Type) : Type := DialContext : dial_deadline -> string -> list (dial_option R) -> D -> option string * D.

(** Documented: a default service config that does not parse is an error. The
    backoffs are durations in JSON: digits with a point, followed by [s]. *)
Definition duration_char (c : ascii) : bool := bool_decide (48 <= nat_of_ascii c <= 57)%nat || Ascii.eqb c "." || Ascii.eqb c "-".
Fixpoint forallb_string (p : ascii -> bool) (s : string) : bool := match s with EmptyString => true | String c s => p c && forallb_string p s end.
Definition malformed_duration (s : string) : bool := negb (HasSuffix s "s" && forallb_string duration_char (TrimSuffix s "s")).
Definition malformed_config (sc : serviceConfig) : bool :=
  match methodConfig sc with Some (_, p) => malformed_duration (initialBackoff p) || malformed_duration (maxBackoff p) | None => false end.

Class DialerLaws (R D : Type) `{Dialer R D} : Prop := {
  malformed_config_refused dl target opts d sc : WithDefaultServiceConfig sc ∈ opts -> malformed_config sc = true -> (DialContext dl target opts d).1 <> None }.

Inductive client_error : Type :=
| Rejected (e : CircuitBreaker.cb_error)
| ErrClientDial (target e : string).

(** The connection of a pool, or one of its own. *)
Inductive conn : Type := FromPool (target : string) (id : nat) | Direct.

Section Dialling.
Context {R D : Type} `{Dialer R D}.
Implicit Types (c : Client R) (d : D).

Definition set_pools (p : gmap string (target_pool R)) c : Client R := mkClient (conf c) p (circuitBreakers c).
Definition set_breakers (b : gmap string CircuitBreaker.CircuitBreaker) c : Client R := mkClient (conf c) (pools c) b.

Definition service_config (target : string) (g : config R) : serviceConfig :=
  {| loadBalancingPolicy := balancer g;
     methodConfig := if Enabled (retryConfig g)
                     then Some (target, {| maxAttempts := MaxAttempts (retryConfig g); initialBackoff := Duration_String (BaseBackoff (retryConfig g));
                                           maxBackoff := Duration_String (MaxBackoff (retryConfig g));
                                           retryableStatusCodes := ["UNAVAILABLE"; "RESOURCE_EXHAUSTED"] |})
                     else None |}.

(** The options of [createRealConnection] before the caller's. *)
Definition dial_options (target : string) (g : config R) : list (dial_option R) :=
  match registry g with Some r => [WithResolvers r (NewResolverBuilder [ResolverWithTimeout (timeout g)])] | None => [] end ++
  [WithTransportCredentials (match tls g with Some t => Some t | None => None end)] ++
  (if match balancer g with Some _ => true | None => false end || Enabled (retryConfig g)
   then [WithDefaultServiceConfig (service_config target g)] else []) ++
  [WithKeepaliveParams (keepaliveParams g); WithInitialWindowSize (initialWindowSize g); WithInitialConnWindowSize (initialConnWindowSize g);
   MaxCallRecvMsgSize (1024 * 1024 * 4); MaxCallSendMsgSize (1024 * 1024 * 4)] ++
  (if enableCompression g then [UseCompressor (if String.eqb (compressionAlgorithm g) "" then "gzip" else compressionAlgorithm g)] else []) ++
  [WithBlock].

Definition createRealConnection (g : config R) (deadline : option Z) (target : string) (extra : list (dial_option R)) d
  : option client_error * D :=
  match DialContext (match deadline with Some t => FromContext t | None => After (timeout g) end)
          ("registry:///" ++ target)%string (dial_options target g ++ extra) d with
  | (Some e, d) => (Some (ErrClientDial target e), d)
  | (None, d) => (None, d)
  end.

(** What a call meets: the time at each of its stages, and how a wait for a connection
    of a pool ends. *)
Record meets : Type := { at_allow : Z; at_get : Z; at_dialled : Z; at_woken : Z; at_redialled : Z; at_report : Z; wait_ends : Pool.wait_end;
                         at_preconnect : nat -> Z }.

Section Pools.
Variable factory : D -> option client_error * D.

(** The factory, called by [Get]. *)
Definition call_factory (now : Z) (p : Pool.connPool) d : result Pool.get_error nat * Pool.connPool * D :=
  let '(r, d) := factory d in
  match Pool.Get_factory now (match r with None => true | Some _ => false end) p with
  | (Pool.GotConn id, p) => (Ok id, p, d)
  | (Pool.GetErr e, p) => (Err e, p, d)
  | (_, p) => (Err Pool.ErrFailed, p, d)
  end.

Definition pool_Get (m : meets) (p : Pool.connPool) d : result Pool.get_error nat * Pool.connPool * D :=
  match Pool.Get_first (at_get m) p with
  | (Pool.GotConn id, p) => (Ok id, p, d)
  | (Pool.GetErr e, p) => (Err e, p, d)
  | (Pool.CallFactory, p) => call_factory (at_dialled m) p d
  | (Pool.MustWait, p) =>
      match Pool.Get_waited (at_woken m) (wait_ends m) p with
      | (Pool.GotConn id, p) => (Ok id, p, d)
      | (Pool.GetErr e, p) => (Err e, p, d)
      | (_, p) => call_factory (at_redialled m) p d
      end
  end.

(** The adaptive pool counts the answers. *)
Definition Get (m : meets) (p : base_or_adaptive) d : result Pool.get_error nat * base_or_adaptive * D :=
  match p with
  | Plain p => let '(r, p, d) := pool_Get m p d in (r, Plain p, d)
  | Adaptive ap =>
      let '(r, p, d) := pool_Get m (AdaptivePool.basePool ap) d in
      (r, Adaptive (AdaptivePool.count_Get (match r with Ok id => Pool.GotConn id | Err e => Pool.GetErr e end) (AdaptivePool.with_base p ap)), d)
  end.

(** [Preconnect]: [Get] until one fails, then everything is put back. *)
Fixpoint preconnect_gets (m : meets) (count : nat) (p : base_or_adaptive) d (ids : list nat) : list nat * base_or_adaptive * D :=
  match count with
  | O => (ids, p, d)
  | S n => let m' := {| at_allow := at_allow m; at_get := at_preconnect m count; at_dialled := at_preconnect m count; at_woken := at_preconnect m count;
                        at_redialled := at_preconnect m count; at_report := at_report m; wait_ends := wait_ends m; at_preconnect := at_preconnect m |} in
           match Get m' p d with
           | (Ok id, p, d) => preconnect_gets m n p d (ids ++ [id])
           | (Err _, p, d) => (ids, p, d)
           end
  end.

Definition put (now : Z) (id : nat) (p : base_or_adaptive) : base_or_adaptive :=
  match p with
  | Plain p => Plain (Pool.Put now id p)
  | Adaptive ap => Adaptive (AdaptivePool.with_base (Pool.Put now id (AdaptivePool.basePool ap)) ap)
  end.

Definition preconnect (m : meets) (count : Z) (p : base_or_adaptive) d : base_or_adaptive * D :=
  let '(ids, p, d) := preconnect_gets m (Z.to_nat count) p d [] in
  (foldl (fun p id => put (at_preconnect m 0) id p) p ids, d).
End Pools.

(** A new pool, for the target's first connection. *)
Definition new_pool (m : meets) (g : config R) (factory : D -> option client_error * D) d : base_or_adaptive * D :=
  if enableAdaptivePool g
  then let p := Adaptive (AdaptivePool.NewAdaptivePool (adaptivePoolConfig g) (at_get m)) in
       if preconnectCount g >? 0 then preconnect factory m (preconnectCount g) p d else (p, d)
  else (Plain (Pool.NewPool (poolConfig g)), d).

(** [createConnection]: from the pool if there is one and it gives one, else a new one. *)
Definition createConnection (m : meets) (deadline : option Z) (target : string) (extra : list (dial_option R)) c d
  : result client_error conn * Client R * D :=
  let g := conf c in
  let direct c d := match createRealConnection g deadline target extra d with
                    | (Some e, d) => (Err e, c, d) | (None, d) => (Ok Direct, c, d) end in
  if negb (enablePool g) then direct c d
  else
    let '(p, fopts, d) := match pools c !! target with
                          | Some tp => (the_pool tp, factory_options tp, d)
                          | None => let '(p, d) := new_pool m g (createRealConnection g deadline target extra) d in (p, extra, d)
                          end in
    let '(r, p, d) := Get (createRealConnection g deadline target fopts) m p d in
    let c := set_pools (<[target := mkPool p fopts]> (pools c)) c in
    match r with Ok id => (Ok (FromPool target id), c, d) | Err _ => direct c d end.

(** The breaker of a target, created when it is missing. *)
Definition getCircuitBreaker (now : Z) (target : string) c : CircuitBreaker.CircuitBreaker :=
  default (CircuitBreaker.New target (circuitBreakerConfig (conf c)) now) (circuitBreakers c !! target).
Definition set_breaker (target : string) (b : CircuitBreaker.CircuitBreaker) c : Client R :=
  set_breakers (<[target := b]> (circuitBreakers c)) c.

Context `{GoImpl}.

Definition Dial (m : meets) (deadline : option Z) (target : string) (extra : list (dial_option R)) c d
  : result client_error conn * Client R * D :=
  if enableCircuitBreaker (conf c) then
    match CircuitBreaker.Allow (at_allow m) (getCircuitBreaker (at_allow m) target c) with
    | (Err e, b) => (Err (Rejected e), set_breaker target b c, d)
    | (Ok _, b) =>
        let '(r, c, d) := createConnection m deadline target extra (set_breaker target b c) d in
        let b := getCircuitBreaker (at_report m) target c in
        let b := match r with Err _ => CircuitBreaker.Failure (at_report m) b | Ok _ => CircuitBreaker.Success (at_report m) b end in
        (r, set_breaker target b c, d)
    end
  else createConnection m deadline target extra c d.

(** Calls one after another. *)
Record dial_call : Type := { meeting : meets; ctx_deadline : option Z; dial_target : string; extra_options : list (dial_option R) }.

Fixpoint run (calls : list dial_call) c d : list (result client_error conn) * Client R * D :=
  match calls with
  | [] => ([], c, d)
  | k :: calls =>
      let '(r, c, d) := Dial (meeting k) (ctx_deadline k) (dial_target k) (extra_options k) c d in
      let '(rs, c, d) := run calls c d in (r :: rs, c, d)
  end.

(** [Close]: the pools are closed, in any order, and forgotten with the breakers. *)
Definition close_pool (p : base_or_adaptive) : outcome base_or_adaptive :=
  match p with
  | Plain p => Returns (Plain (Pool.Close p))
  | Adaptive ap => match AdaptivePool.ClosePool ap with Returns ap => Returns (Adaptive ap) | Panics => Panics end
  end.

Fixpoint close_pools (l : list base_or_adaptive) : outcome (list base_or_adaptive) :=
  match l with
  | [] => Returns []
  | p :: l => match close_pool p with
              | Returns p => match close_pools l with Returns l => Returns (p :: l) | Panics => Panics end
              | Panics => Panics
              end
  end.

(** The pools as they are left, and the client. *)
Definition Close c : outcome (list base_or_adaptive * Client R) :=
  match close_pools (the_pool <$> (map_to_list (pools c)).*2) with
  | Returns l => Returns (l, mkClient (conf c) ∅ ∅)
  | Panics => Panics
  end.

End Dialling.

(** * Facts *)
Module Facts.

Example durations : Duration_String <$> [0; 100 * Millisecond; 1500; 5 * Second; 90 * Second + 5; - 2 * Hour] =
  ["0s"; "100ms"; "1.5" ++ String "194" (String "181" "s"); "5s"; "1m30.000000005s"; "-2h0m0s"]%string.
Proof. vm_compute. reflexivity. Qed.

(** ** Backoffs below a second *)

Lemma forallb_string_app p a b : forallb_string p (a ++ b) = forallb_string p a && forallb_string p b.
Proof.
  induction a as [|c a IH]; [done|]. change (p c && forallb_string p (a ++ b) = (p c && forallb_string p a) && forallb_string p b). by rewrite IH, andb_assoc.
Qed.

(** A unit before the last [s]. *)
Lemma unit_malformed a u : duration_char u = false -> malformed_duration (a ++ String u "s") = true.
Proof.
  intros Hu. unfold malformed_duration. apply negb_true_iff, andb_false_iff. right.
  assert (Heq : (a ++ String u "s" = (a ++ String u "") ++ "s")%string) by (by rewrite <- string_app_assoc).
  unfold TrimSuffix. destruct (HasSuffix _ _).
  - rewrite Heq, length_append. change (String.length "s") with 1%nat. rewrite Nat.add_sub, substring_app, forallb_string_app. simpl. by rewrite Hu, andb_false_r.
  - rewrite forallb_string_app. simpl. by rewrite Hu, andb_false_r.
Qed.

Lemma short_duration_malformed d : 0 < d < Second -> malformed_duration (Duration_String d) = true.
Proof.
  intros [H0 H1]. unfold Duration_String. rewrite Z.abs_eq by lia. rewrite (proj2 (Z.ltb_ge d 0)) by lia. rewrite (proj2 (Z.eqb_neq d 0)) by lia.
  rewrite (proj2 (Z.ltb_lt d Second)) by lia. case_bool; [by apply unit_malformed|]. case_bool.
  - rewrite string_app_assoc. change (String "194" (String "181" "s")) with (String "194" "" ++ String "181" "s")%string. rewrite string_app_assoc. by apply unit_malformed.
  - rewrite string_app_assoc. by apply unit_malformed.
Qed.

Section Facts.
Context {R D : Type} `{Dialer R D}.
Implicit Types (c : Client R) (d : D).

(** ** Pools without idle connections *)

Lemma getIdleConn_empty now p : Pool.idle p = [] -> Pool.getIdleConn now p = (None, p).
Proof. intros Hi. unfold Pool.getIdleConn. by rewrite Hi. Qed.

Lemma call_factory_empty f now p d r p' d' : Pool.idle p = [] -> call_factory f now p d = (r, p', d') ->
  Pool.idle p' = [] /\ forall id, r = Ok id -> exists d0, f d0 = (None, d').
Proof.
  intros Hi Hc. unfold call_factory, Pool.Get_factory in Hc. destruct (f d) as [[e|] d1] eqn:Hf; injection Hc as <- <- <-; (split; [done|]); [done|].
  intros id [= <-]. by exists d.
Qed.

Lemma pool_Get_empty f m p d r p' d' : Pool.idle p = [] -> pool_Get f m p d = (r, p', d') ->
  Pool.idle p' = [] /\ forall id, r = Ok id -> exists d0, f d0 = (None, d').
Proof.
  intros Hi Hg. unfold pool_Get, Pool.Get_first, Pool.Get_waited in Hg. destruct (Pool.pool_closed p) eqn:Hcl; [by injection Hg as <- <- <-|].
  rewrite getIdleConn_empty in Hg by done. destruct (Pool.may_create p); [by eapply call_factory_empty in Hg|].
  destruct (negb _); [by injection Hg as <- <- <-|]. destruct (wait_ends m); [|by injection Hg as <- <- <-|by injection Hg as <- <- <-].
  cbn [Pool.pool_closed Pool.add_waiting] in Hg. rewrite Hcl in Hg. rewrite getIdleConn_empty in Hg by done.
  destruct (Pool.may_create _); [by eapply call_factory_empty in Hg|by injection Hg as <- <- <-].
Qed.

Definition base (p : base_or_adaptive) : Pool.connPool := match p with Plain p => p | Adaptive ap => AdaptivePool.basePool ap end.
Definition pool_open (p : base_or_adaptive) : Prop := match p with Plain _ => True | Adaptive ap => AdaptivePool.stopped ap = false end.
Definition pool_ok (p : base_or_adaptive) : Prop := Pool.idle (base p) = [] /\ pool_open p.

Lemma get_without_idle f m p d r p' d' : pool_ok p -> Get f m p d = (r, p', d') -> pool_ok p' /\ forall id, r = Ok id -> exists d0, f d0 = (None, d').
Proof.
  intros [Hi Ho] Hg. destruct p as [p|ap]; simpl in Hg, Hi.
  - destruct (pool_Get f m p d) as [[r1 p1] d1] eqn:Hp. injection Hg as <- <- <-. destruct (pool_Get_empty _ _ _ _ _ _ _ Hi Hp). done.
  - destruct (pool_Get f m _ d) as [[r1 p1] d1] eqn:Hp. injection Hg as <- <- <-. destruct (pool_Get_empty _ _ _ _ _ _ _ Hi Hp) as [Hi1 Hr1].
    split; [|done]. by destruct r1.
Qed.

(** No pool has idle connections, none is closed. *)
Definition no_idle c : Prop := map_Forall (fun _ tp => pool_ok (the_pool tp)) (pools c).

(** The pools start empty: the client does not connect ahead. *)
Definition no_preconnect (g : config R) : Prop := enableAdaptivePool g = false \/ preconnectCount g <= 0.

(** The connection was dialled: the last attempt to connect was to the target, with
    the client's options, and succeeded. *)
Definition dialled (g : config R) (target : string) (d' : D) : Prop :=
  exists dl extra d0, DialContext dl ("registry:///" ++ target)%string (dial_options target g ++ extra) d0 = (None, d').

Lemma createRealConnection_dialled g dl target extra d d' : createRealConnection g dl target extra d = (None, d') -> dialled g target d'.
Proof.
  unfold createRealConnection. intros Hc. destruct (DialContext _ _ _ d) as [[e|] d1] eqn:Hd; [done|injection Hc as <-]. by eexists _, _, _.
Qed.

Lemma createConnection_spec m dl target extra c d r c' d' : no_preconnect (conf c) -> no_idle c ->
  createConnection m dl target extra c d = (r, c', d') ->
  conf c' = conf c /\ circuitBreakers c' = circuitBreakers c /\ no_idle c' /\ (forall x, r = Ok x -> dialled (conf c) target d') /\
  forall t, t <> target -> pools c' !! t = pools c !! t.
Proof.
  intros Hpre Hc Hcr. unfold createConnection in Hcr.
  assert (Hdirect : forall c1 d1, match createRealConnection (conf c) dl target extra d1 with (Some e, d) => (Err e, c1, d) | (None, d) => (Ok Direct, c1, d) end = (r, c', d') ->
    c' = c1 /\ forall x, r = Ok x -> dialled (conf c) target d').
  { intros c1 d1 Hd. destruct (createRealConnection _ _ _ _ d1) as [[e|] d2] eqn:Hr; injection Hd as <- <- <-; [done|].
    split; [done|]. intros _ _. by eapply createRealConnection_dialled. }
  destruct (enablePool (conf c)); simpl in Hcr; [|by destruct (Hdirect _ _ Hcr) as [-> ?]].
  assert (Hp : exists p fopts d1, match pools c !! target with
      | Some tp => (the_pool tp, factory_options tp, d)
      | None => let '(p, d) := new_pool m (conf c) (createRealConnection (conf c) dl target extra) d in (p, extra, d) end = (p, fopts, d1) /\ pool_ok p).
  { destruct (pools c !! target) as [tp|] eqn:Ht; [exists (the_pool tp), (factory_options tp), d; split; [done|by apply (Hc target)]|].
    unfold new_pool. destruct (enableAdaptivePool (conf c)) eqn:Ha.
    - destruct Hpre as [|Hpre]; [congruence|]. destruct (preconnectCount (conf c) >? 0) eqn:Hgt; [lia|]. by eexists _, _, _.
    - by eexists _, _, _. }
  destruct Hp as (p & fopts & d1 & Hp & Hok). rewrite Hp in Hcr. destruct (Get _ m p d1) as [[r1 p1] d2] eqn:Hg.
  destruct (get_without_idle _ _ _ _ _ _ _ Hok Hg) as [Hok1 Hr1].
  assert (Hset : no_idle (set_pools (<[target := mkPool p1 fopts]> (pools c)) c)) by (by apply map_Forall_insert_2).
  assert (Hother : forall t, t <> target -> pools (set_pools (<[target := mkPool p1 fopts]> (pools c)) c) !! t = pools c !! t)
    by (intros t Ht; by apply lookup_insert_ne).
  destruct r1 as [id|e].
  - injection Hcr as <- <- <-. split_and!; [done|done|done| |done]. intros x _. destruct (Hr1 id eq_refl) as [d0 Hd0]. by eapply createRealConnection_dialled.
  - destruct (Hdirect _ _ Hcr) as [-> Hx]. done.
Qed.

Context `{GoImpl}.

Lemma Dial_spec m dl target extra c d r c' d' : no_preconnect (conf c) -> no_idle c -> Dial m dl target extra c d = (r, c', d') ->
  conf c' = conf c /\ no_idle c' /\ (forall x, r = Ok x -> dialled (conf c) target d') /\
  forall t, t <> target -> pools c' !! t = pools c !! t /\ circuitBreakers c' !! t = circuitBreakers c !! t.
Proof.
  intros Hpre Hc Hd. unfold Dial in Hd. destruct (enableCircuitBreaker (conf c)).
  - destruct (CircuitBreaker.Allow _ _) as [[[]|e] b].
    + destruct (createConnection _ _ _ _ _ _) as [[r1 c1] d1] eqn:Hcr. injection Hd as <- <- <-.
      apply createConnection_spec in Hcr as (Hg & Hb & Hi & Hx & Ho); [|done|done]. split_and!; [done|done|done|].
      intros t Ht. split; [by apply Ho|]. simpl. rewrite lookup_insert_ne by done. rewrite Hb. simpl. by rewrite lookup_insert_ne.
    + injection Hd as <- <- <-. split_and!; [done|done|done|]. intros t Ht. split; [done|]. simpl. by rewrite lookup_insert_ne.
  - apply createConnection_spec in Hd as (Hg & Hb & Hi & Hx & Ho); [|done|done]. split_and!; [done|done|done|]. intros t Ht. split; [by apply Ho|by rewrite Hb].
Qed.

Lemma dials_spec calls : forall c d rs c' d', no_preconnect (conf c) -> no_idle c -> Client.run calls c d = (rs, c', d') -> conf c' = conf c /\ no_idle c'.
Proof.
  induction calls as [|k calls IH]; intros c d rs c' d' Hpre Hc Hr; cbn [Client.run] in Hr; [by injection Hr as <- <- <-|].
  destruct (Dial _ _ _ _ c d) as [[r c1] d1] eqn:Hd. apply Dial_spec in Hd as (Hg & Hi & _); [|done|done].
  destruct (Client.run calls c1 d1) as [[rs1 c2] d2] eqn:Hr2. injection Hr as <- <- <-. rewrite <- Hg. eapply IH; [by rewrite Hg|done|done].
Qed.

(** No connection is handed out twice: whatever was dialled before, and with or without a pool, each call of [Dial] that succeeds has dialled its target itself, as its last step. Nothing gives a connection back to its pool. *)
Theorem every_connection_is_dialled opts calls d0 rs c d m dl target extra x c' d' : no_preconnect (conf (NewClient opts)) ->
  Client.run calls (NewClient opts) d0 = (rs, c, d) -> Dial m dl target extra c d = (Ok x, c', d') -> dialled (conf c) target d'.
Proof.
  intros Hpre Hr Hd. apply dials_spec in Hr as [Hg Hi]; [|done|by apply map_Forall_empty].
  apply Dial_spec in Hd as (_ & _ & Hx & _); [by eapply Hx|by rewrite Hg|done].
Qed.

(** Calls to a target change neither the pool nor the breaker of any other. *)
Theorem targets_are_isolated opts calls d0 rs c d m dl target extra r c' d' t : no_preconnect (conf (NewClient opts)) ->
  Client.run calls (NewClient opts) d0 = (rs, c, d) -> Dial m dl target extra c d = (r, c', d') -> t <> target ->
  pools c' !! t = pools c !! t /\ circuitBreakers c' !! t = circuitBreakers c !! t.
Proof.
  intros Hpre Hr Hd Ht. apply dials_spec in Hr as [Hg Hi]; [|done|by apply map_Forall_empty].
  apply Dial_spec in Hd as (_ & _ & _ & Ho); [by apply Ho|by rewrite Hg|done].
Qed.

(** A client whose retries start with a backoff below a second, as by default, never connects: gRPC refuses the service config that the client writes, because Go's text of such a duration is not one of JSON. *)
Theorem short_backoff_never_connects `{!DialerLaws R D} opts calls d0 rs c d m dl target extra r c' d' : no_preconnect (conf (NewClient opts)) ->
  Enabled (retryConfig (conf (NewClient opts))) = true -> 0 < BaseBackoff (retryConfig (conf (NewClient opts))) < Second ->
  Client.run calls (NewClient opts) d0 = (rs, c, d) -> Dial m dl target extra c d = (r, c', d') -> exists e, r = Err e.
Proof.
  intros Hpre He Hb Hr Hd. apply dials_spec in Hr as [Hg Hi]; [|done|by apply map_Forall_empty].
  apply Dial_spec in Hd as (_ & _ & Hx & _); [|by rewrite Hg|done]. destruct r as [x|e]; [|by exists e]. exfalso.
  destruct (Hx x eq_refl) as (dl1 & ex & d1 & Hdial).
  refine (malformed_config_refused dl1 ("registry:///" ++ target)%string (dial_options target (conf c) ++ ex) d1 (service_config target (conf c)) _ _ _); [| |by rewrite Hdial].
  - apply elem_of_app. left. unfold dial_options. rewrite Hg, He, orb_true_r. set_solver.
  - unfold malformed_config, service_config. rewrite Hg, He. simpl. by rewrite short_duration_malformed.
Qed.

(** ** The breaker of an unreachable target *)

(** Nothing in flight, [j] failures in a row. *)
Definition counting (o : CircuitBreaker.Options) (j : Z) (b : CircuitBreaker.CircuitBreaker) : Prop :=
  CircuitBreaker.failing j b /\ CircuitBreaker.opts b = o /\ CircuitBreaker.concurrent b = 0.

Lemma opened_since t b : CircuitBreaker.state b = StateClosed -> CircuitBreaker.state (Failure t b) = StateOpen ->
  CircuitBreaker.lastStateChange (Failure t b) = t.
Proof.
  intros Hb. unfold Failure. cbn zeta. destruct (WindowSize _ >? 0); cbn -[changeState leave u32 in_window];
    rewrite leave_state, Hb; cbn -[changeState leave u32 in_window]; (case_match; [intros _; unfold changeState; by case_decide|cbn; rewrite leave_state, Hb; done]).
Qed.

Lemma allow_counting o j b t : counting o j b -> exists b', Allow t b = (Ok tt, b') /\ CircuitBreaker.failing j b' /\ CircuitBreaker.opts b' = o /\ CircuitBreaker.concurrent b' = 1.
Proof.
  intros ((Hs & Hc & Hf & Hw) & Ho & Hn). eexists. unfold Allow. rewrite Hs, Hn.
  destruct (MaxConcurrent _ >? 0) eqn:Hm; cbn; [rewrite Z.geb_leb, (proj2 (Z.leb_gt _ _)) by lia|]; split_and!; try done; cbn; lia.
Qed.

Lemma fail_counting o j b t : CircuitBreaker.failing j b -> CircuitBreaker.opts b = o -> CircuitBreaker.concurrent b = 1 -> 0 <= j -> j + 1 < 2 ^ 32 ->
  CircuitBreaker.opts (Failure t b) = o /\ CircuitBreaker.concurrent (Failure t b) = 0 /\
  (j + 1 < Threshold o -> counting o (j + 1) (Failure t b)) /\
  (Threshold o <= j + 1 -> CircuitBreaker.state (Failure t b) = StateOpen /\ CircuitBreaker.lastStateChange (Failure t b) = t).
Proof.
  intros Hj Ho Hc Hj0 Hj1. destruct (failure_step t j b Hj Hj0 Hj1) as (Eo & Hlt & Hge). destruct (report_concurrent t b) as (_ & _ & Hn & _).
  assert (Hz : CircuitBreaker.concurrent (Failure t b) = 0) by (rewrite Hn; unfold leave; rewrite Hc; done). rewrite Ho in *.
  split_and!; [done|done| |].
  - intros Hl. split; [by apply Hlt|]. by rewrite Eo.
  - intros Hl. split; [by apply Hge|]. apply opened_since; [apply Hj|by apply Hge].
Qed.

(** Every attempt to connect fails. *)
Definition unreachable : Prop := forall dl t opts d, (DialContext (R:=R) (D:=D) dl t opts d).1 <> None.

Lemma factory_fails g dl target extra d : unreachable ->
  exists e d', createRealConnection g dl target extra d = (Some (ErrClientDial target e), d').
Proof.
  intros Hun. unfold createRealConnection.
  match goal with |- context [DialContext ?a ?b ?o d] => pose proof (Hun a b o d); destruct (DialContext a b o d) as [[e|] d'] end; [by eexists _, _|done].
Qed.

(** Connecting ahead fails at the first connection. *)
Lemma new_pool_unreachable m g dl target extra d : unreachable -> pool_ok (new_pool m g (createRealConnection g dl target extra) d).1.
Proof.
  intros Hun. unfold new_pool. destruct (enableAdaptivePool g); [|done]. destruct (_ >? 0); [|done]. unfold preconnect.
  destruct (Z.to_nat _) as [|n]; cbn [preconnect_gets]; [done|]. destruct (Get _ _ _ d) as [[[id|e] p1] d1] eqn:Hg;
    apply get_without_idle in Hg as [Hok Hr]; try done.
  destruct (Hr id eq_refl) as [d0 Hd0]. destruct (factory_fails g dl target extra d0 Hun) as (e & d2 & He). congruence.
Qed.

Lemma unreachable_fails m dl target extra c d : unreachable -> no_idle c ->
  exists e c' d', createConnection m dl target extra c d = (Err (ErrClientDial target e), c', d') /\
    conf c' = conf c /\ circuitBreakers c' = circuitBreakers c /\ no_idle c'.
Proof.
  intros Hun Hc. unfold createConnection.
  assert (Hd : forall c1 d1, exists e d2, match createRealConnection (conf c) dl target extra d1 with (Some e, d) => (Err e, c1, d) | (None, d) => (Ok Direct, c1, d) end =
    (Err (ErrClientDial target e), c1, d2)).
  { intros c1 d1. destruct (factory_fails (conf c) dl target extra d1 Hun) as (e & d2 & ->). by eexists _, _. }
  destruct (enablePool (conf c)); cbn [negb]; [|destruct (Hd c d) as (e & d2 & ->); by eexists _, _, _].
  match goal with |- context [let '(_, _) := ?x in _] => destruct x as [[p fopts] d1] eqn:Hp end.
  assert (Hok : pool_ok p).
  { destruct (pools c !! target) as [tp|] eqn:Ht; [injection Hp as <- <- <-; by apply (Hc target)|].
    pose proof (new_pool_unreachable m (conf c) dl target extra d Hun) as Hn. destruct (new_pool _ _ _ d) as [p2 d2]. by injection Hp as <- <- <-. }
  destruct (Get _ m p d1) as [[r1 p1] d2] eqn:Hg. destruct (get_without_idle _ _ _ _ _ _ _ Hok Hg) as [Hok1 Hr1].
  destruct r1 as [id|e1]; [destruct (Hr1 id eq_refl) as [d0 Hd0]; destruct (factory_fails (conf c) dl target fopts d0 Hun) as (e & d3 & He); congruence|].
  destruct (Hd (set_pools (<[target := mkPool p1 fopts]> (pools c)) c) d2) as (e & d3 & ->). eexists _, _, _. split; [done|].
  split_and!; [done|done|by apply map_Forall_insert_2].
Qed.

Lemma fails_until_open o target ts : forall j c d, unreachable -> no_idle c -> enableCircuitBreaker (conf c) = true ->
  circuitBreakerConfig (conf c) = o -> Threshold o < 2 ^ 32 -> 0 <= j -> ts <> [] -> j + Z.of_nat (length ts) = Threshold o ->
  (forall t, counting o j (getCircuitBreaker t target c)) -> Forall (fun k => dial_target k = target) ts ->
  exists rs c' d' b, Client.run ts c d = (rs, c', d') /\ Forall (fun r => exists e, r = Err (ErrClientDial target e)) rs /\ conf c' = conf c /\
    circuitBreakers c' !! target = Some b /\ CircuitBreaker.state b = StateOpen /\ CircuitBreaker.opts b = o /\ CircuitBreaker.concurrent b = 0 /\
    Some (CircuitBreaker.lastStateChange b) = at_report <$> (meeting <$> last ts).
Proof.
  induction ts as [|k ts IH]; intros j c d Hun Hp He Ho Hth Hj0 Hne Hlen Hcount Hall; [done|]. apply Forall_cons in Hall as [Hk Hall].
  cbn [length] in Hlen. cbn [Client.run]. unfold Dial at 1. rewrite He, Hk.
  destruct (allow_counting o j _ (at_allow (meeting k)) (Hcount (at_allow (meeting k)))) as (b1 & -> & Hf1 & Ho1 & Hc1).
  destruct (unreachable_fails (meeting k) (ctx_deadline k) target (extra_options k) (set_breaker target b1 c) d Hun Hp) as (e & c0 & d1 & -> & Hg0 & Hcb & Hi0).
  assert (Hb1 : getCircuitBreaker (at_report (meeting k)) target c0 = b1) by (unfold getCircuitBreaker; rewrite Hcb; cbn; by rewrite lookup_insert_eq).
  rewrite Hb1. destruct (fail_counting o j b1 (at_report (meeting k)) Hf1 Ho1 Hc1 Hj0) as (Ho2 & Hc2 & Hlt & Hge); [lia|].
  set (c1 := set_breaker target (Failure (at_report (meeting k)) b1) c0). assert (Hg1 : conf c1 = conf c) by done.
  assert (Hl1 : circuitBreakers c1 !! target = Some (Failure (at_report (meeting k)) b1)) by (by apply lookup_insert_eq).
  destruct ts as [|k' ts].
  - cbn [length] in Hlen. destruct Hge as [Hopen Hsince]; [lia|]. cbn [Client.run]. eexists _, _, _, _. split; [reflexivity|].
    split_and!; try done; [by repeat constructor; eexists|]. cbn. by rewrite Hsince.
  - destruct (IH (j + 1) c1 d1 Hun) as (rs & c2 & d2 & b & Hr & Hrs & Hg & Hl & Hrest); rewrite ?Hg1; try done; [lia|cbn [length] in *; lia| |].
    { intros t. unfold getCircuitBreaker. rewrite Hl1. apply Hlt. cbn [length] in Hlen. lia. }
    rewrite Hr. eexists _, _, _, _. split; [reflexivity|]. split_and!; [constructor; [by eexists|done]|by rewrite Hg, Hg1|done|apply Hrest..].
Qed.

(** C8: an unreachable target is cut off: when as many calls of a new client with circuit breakers, one after another, with or without pools, as the breaker's threshold have failed, a call within the breaker's timeout of the last of them is rejected without an attempt to connect. *)
Theorem unreachable_target_cut_off opts target ts d m dl extra t : unreachable ->
  enableCircuitBreaker (conf (NewClient opts)) = true -> Threshold (circuitBreakerConfig (conf (NewClient opts))) < 2 ^ 32 ->
  ts <> [] -> Z.of_nat (length ts) = Threshold (circuitBreakerConfig (conf (NewClient opts))) -> Forall (fun k => dial_target k = target) ts ->
  (at_report <$> (meeting <$> last ts)) = Some t -> time_sub (at_allow m) t <= Timeout (circuitBreakerConfig (conf (NewClient opts))) ->
  exists rs c d', Client.run ts (NewClient opts) d = (rs, c, d') /\ Forall (fun r => exists e, r = Err (ErrClientDial target e)) rs /\
    exists c', Dial m dl target extra c d' = (Err (Rejected ErrOpenState), c', d').
Proof.
  intros Hun He Hth Hne Hlen Hall Hlast Ht. assert (Hp : no_idle (NewClient opts)) by (by apply map_Forall_empty).
  destruct (fails_until_open (circuitBreakerConfig (conf (NewClient opts))) target ts 0 (NewClient opts) d Hun Hp He eq_refl Hth ltac:(lia) Hne) as (rs & c & d' & b & Hr & Hrs & Hg & Hl & Hopen & Ho & Hc & Hs);
    [lia| |done|].
  { intros t'. unfold getCircuitBreaker. cbn. rewrite lookup_empty. repeat split; cbn; lia. }
  exists rs, c, d'. split_and!; [done|done|]. eexists. unfold Dial. rewrite Hg, He. unfold getCircuitBreaker. rewrite Hl. cbn [default from_option id].
  rewrite Hlast in Hs. injection Hs as Hs. unfold Allow. rewrite Hc, Ho, Hopen, Hs.
  assert (Hq : (time_sub (at_allow m) t >? Timeout (circuitBreakerConfig (conf (NewClient opts)))) = false) by lia.
  destruct (MaxConcurrent _ >? 0) eqn:Hm; cbn [andb]; [rewrite Z.geb_leb, (proj2 (Z.leb_gt _ _)) by lia|]; rewrite Hq; reflexivity.
Qed.

(** [Close] does not panic, and forgets the pools and the breakers: a call after it starts afresh, also to a target whose breaker was open. *)
Lemma Close_forgets opts calls d0 rs c d : no_preconnect (conf (NewClient opts)) -> Client.run calls (NewClient opts) d0 = (rs, c, d) ->
  exists l, Client.Close c = Returns (l, NewClient opts).
Proof.
  intros Hpre Hr. apply dials_spec in Hr as [Hg Hi]; [|done|by apply map_Forall_empty]. unfold Client.Close.
  assert (Hall : Forall pool_open (the_pool <$> (map_to_list (pools c)).*2)).
  { apply Forall_fmap, Forall_fmap, Forall_forall. intros [k tp] Hin%elem_of_map_to_list. by apply (Hi k). }
  assert (Hcl : exists l, close_pools (the_pool <$> (map_to_list (pools c)).*2) = Returns l).
  { induction Hall as [|p l Hp _ [l' IH]]; [by exists []|]. destruct p as [p|ap]; cbn [close_pools close_pool]; [rewrite IH; by eexists|].
    unfold AdaptivePool.ClosePool. rewrite Hp, IH. by eexists. }
  destruct Hcl as [l ->]. exists l. by rewrite Hg.
Qed.
End Facts.

(** ** An instance: dialling counts the attempts that gRPC accepts *)
#[local] Instance accepts : Dialer unit nat := fun _ _ opts d =>
  if existsb (fun o => match o with WithDefaultServiceConfig sc => malformed_config sc | _ => false end) opts then (Some "malformed duration", d) else (None, S d).

#[local] Instance accepts_laws : DialerLaws unit nat.
Proof.
  constructor. intros dl target opts d sc Hin Hm. unfold DialContext, accepts.
  rewrite (proj2 (existsb_exists _ _)); [done|]. exists (WithDefaultServiceConfig sc). split; [by apply list_elem_of_In|done].
Qed.

(** Nothing listens. *)
#[local] Instance refuses : Dialer unit Z := fun _ _ _ d => (Some "connection refused", d + 1).

#[local] Existing Instance amd64.

Abbreviation at_time t := (Build_meets t t t t t t Pool.TimedOut (fun _ => t)).
Abbreviation call t target := (Build_dial_call (at_time t) None target []).
Abbreviation no_retry := {| Enabled := false; MaxAttempts := 0; MaxBackoff := 0; BaseBackoff := 0 |}.
Abbreviation small_pool := {| Pool.MaxIdle := 2; Pool.MaxActive := 1; Pool.IdleTimeout := 0; Pool.WaitTimeout := Second; Pool.Wait := true |}.
Abbreviation pooled := (@NewClient unit [ClientWithRetry no_retry; ClientWithConnectionPool small_pool]).

(** A pool of one connection: the second call waits in vain and dials a connection of
    its own, and so does every call after it. *)
Example pool_of_one : run [call 1 "user"; call 2 "user"; call 3 "user"] pooled 0%nat =
  ([Ok (FromPool "user" 0); Ok Direct; Ok Direct], (run [call 1 "user"; call 2 "user"; call 3 "user"] pooled 0%nat).1.2, 3%nat).
Proof. vm_compute. reflexivity. Qed.

Lemma every_connection_is_dialled_witness : exists rs c c', run [call 1 "user"] pooled 0%nat = (rs, c, 1%nat) /\
  Dial (at_time 2) None "user" [] c 1%nat = (Ok Direct, c', 2%nat) /\ dialled (conf c) "user" 2%nat.
Proof.
  eexists _, _, _. split; [vm_compute; reflexivity|]. split; [vm_compute; reflexivity|].
  eapply (every_connection_is_dialled [ClientWithRetry no_retry; ClientWithConnectionPool small_pool] [call 1 "user"] 0%nat _ _ 1%nat (at_time 2) None "user" []);
    [by left|vm_compute; reflexivity|vm_compute; reflexivity].
Defined.

Lemma targets_are_isolated_witness : exists rs c c', run [call 1 "user"] pooled 0%nat = (rs, c, 1%nat) /\
  Dial (at_time 2) None "shop" [] c 1%nat = (Ok (FromPool "shop" 0), c', 2%nat) /\ pools c' !! "user" = pools c !! "user" /\ circuitBreakers c' !! "user" = circuitBreakers c !! "user".
Proof.
  eexists _, _, _. split; [vm_compute; reflexivity|]. split; [vm_compute; reflexivity|].
  eapply (targets_are_isolated [ClientWithRetry no_retry; ClientWithConnectionPool small_pool] [call 1 "user"] 0%nat _ _ 1%nat (at_time 2) None "shop" []);
    [by left|vm_compute; reflexivity|vm_compute; reflexivity|done].
Defined.

Lemma short_backoff_never_connects_witness : exists e, (Dial (at_time 2) None "user" [] (@NewClient unit []) 0%nat).1.1 = Err e.
Proof.
  destruct (Dial (at_time 2) None "user" [] (@NewClient unit []) 0%nat) as [[r c'] d'] eqn:Hd.
  eapply (short_backoff_never_connects [] [] 0%nat [] (NewClient []) 0%nat (at_time 2) None "user" [] r c' d'); [by left|done|done|done|exact Hd].
Defined.

Abbreviation guarded := [@ClientWithCircuitBreaker unit CircuitBreaker.DefaultOptions].

Lemma unreachable_target_cut_off_witness : exists rs c d', run [call 1 "user"; call 2 "user"; call 3 "user"; call 4 "user"; call 5 "user"] (NewClient guarded) 0 = (rs, c, d') /\
  Forall (fun r => exists e, r = Err (ErrClientDial "user" e)) rs /\ exists c', Dial (at_time 6) None "user" [] c d' = (Err (Rejected ErrOpenState), c', d').
Proof.
  eapply (unreachable_target_cut_off guarded "user" [call 1 "user"; call 2 "user"; call 3 "user"; call 4 "user"; call 5 "user"] 0 (at_time 6) None [] 5); try reflexivity.
  - by intros ? ? ? ?.
  - done.
  - repeat constructor.
  - vm_compute. discriminate.
Defined.

End Facts.
