(* ===== verification/Discovery.v ===== *)
(** From the server to the picker: what the server registers ([Server], [Etcd]), the
    resolver publishes ([Resolver]) and the pickers read ([LoadBalance]). *)
From S2P Require Import Prelude GoString LoadBalance Cluster Etcd Resolver Server.

(** The connections that a picker is built from, when their addresses are the
    resolver's: those of instances, or fallback addresses. *)
Definition from_resolver (l : list ServiceInstance) (fallback : list string) (ready : list (SubConn * LoadBalance.Address)) : Prop :=
  Forall (fun p => p.2 ∈ addresses l ++ fallback_addresses fallback) ready.

(** The weight that belongs to an address: what an instance with it has registered, or one
    for a fallback address. *)
Definition weight_of (l : list ServiceInstance) (fallback : list string) (a : string) (w : Z) : Prop :=
  (exists s, s ∈ l /\ Cluster.Address s = a /\ Weight s = w) \/ (a ∈ fallback /\ w = 1).

Module Facts.

Section Facts.

Lemma resolved_attributes a w g :
  Attributes (resolved_address a w g) !! "weight" = Some (AttrUint32 w) /\ Attributes (resolved_address a w g) !! "group" = Some (AttrString g).
Proof. unfold resolved_address. cbn. split; [by rewrite lookup_insert_ne|by rewrite lookup_insert_eq]. Qed.

Lemma resolver_address l fb a : a ∈ addresses l ++ fallback_addresses fb -> exists b w g, a = resolved_address b w g.
Proof.
  intros [Ha|Ha]%elem_of_app; apply list_elem_of_fmap in Ha as (x & -> & _); by eexists _, _, _.
Qed.

(** C10: the weighted random picker, built from whatever the resolver publishes, panics at every pick that has a candidate: the resolver's weights are [uint32]s, the picker reads an [int], so every weight is zero. *)
Theorem weighted_random_always_panics l fb ready flt info r : from_resolver l fb ready ->
  (exists p, p ∈ ready /\ passes flt info p.2 = true) -> Random.PickWeight (Random.BuildWeight flt ready) info r = Panics.
Proof.
  intros Hready (p & Hp & Hpass). unfold Random.PickWeight, Random.BuildWeight. cbn [Random.wconnections Random.wfilter].
  set (conns := (fun p => {| Random.wc := p.1; Random.weight := Random.attr_weight p.2; Random.waddr := p.2 |}) <$> ready).
  assert (Hzero : Forall (fun x => Random.weight x = 0) conns).
  { apply Forall_fmap, (Forall_impl _ _ _ Hready). intros [sc a] Ha. destruct (resolver_address _ _ _ Ha) as (b & w & g & Heq). cbn in Heq |- *. subst a.
    unfold Random.attr_weight. by rewrite (proj1 (resolved_attributes b w g)). }
  set (cands := base.filter _ conns). assert (Hin : exists x, x ∈ cands).
  { eexists. apply list_elem_of_filter. split; [|apply list_elem_of_fmap; by exists p]. done. }
  assert (Hsum : foldl (fun t x => i64 (t + Random.weight x)) 0 cands = 0).
  { assert (Hz : Forall (fun x => Random.weight x = 0) cands) by (apply Forall_forall; intros x [_ Hx]%list_elem_of_filter; rewrite Forall_forall in Hzero; by apply Hzero).
    clearbody cands. clear Hin. induction Hz as [|x cands Hx Hz IH]; [done|]. simpl. by rewrite Hx. }
  rewrite Hsum. destruct Hin as [x Hin]. destruct cands as [|y cands]; [by apply elem_of_nil in Hin|]. done.
Qed.

(** C29: the weighted round robin picker can be built from whatever the resolver publishes, keeps the connections in their order, and gives each the weight that an instance with the address of the connection has registered, or one for a fallback address. *)
Theorem weighted_round_robin_gets_weights l fb ready flt : from_resolver l fb ready ->
  exists b, WeightedRR.Build flt ready = Returns b /\
    Forall2 (fun p x => WeightedRR.c x = p.1 /\ WeightedRR.addr x = p.2 /\ weight_of l fb (Addr p.2) (WeightedRR.weight x)) ready (WeightedRR.connections b).
Proof.
  intros Hready. unfold WeightedRR.Build.
  assert (Hb : exists cs, WeightedRR.build_conns ready = Some cs /\
    Forall2 (fun p x => WeightedRR.c x = p.1 /\ WeightedRR.addr x = p.2 /\ weight_of l fb (Addr p.2) (WeightedRR.weight x)) ready cs).
  { induction Hready as [|[sc a] ready Ha _ (cs & Hcs & Hf)]; [by exists []|]. cbn [snd] in Ha.
    assert (exists w, Attributes a !! "weight"%string = Some (AttrUint32 w) /\ weight_of l fb (Addr a) w) as (w & Hw & Hof).
    { apply elem_of_app in Ha as [Ha|Ha]; apply list_elem_of_fmap in Ha as (s & -> & Hs); eexists;
        (split; [apply resolved_attributes|]); [left; by exists s|by right]. }
    cbn [WeightedRR.build_conns]. rewrite Hw, Hcs. eexists. split; [reflexivity|]. by constructor. }
  destruct Hb as (cs & -> & Hf). by eexists.
Qed.

Lemma group_filter_resolved info a w g : GroupFilter info (resolved_address a w g) = bool_decide (g = as_string (Ctx info !! "group")).
Proof.
  unfold GroupFilter. rewrite (proj2 (resolved_attributes a w g)). cbn [as_string]. case_bool_decide as Hg; [by apply String.eqb_eq|by apply String.eqb_neq].
Qed.

(** With the group filter, round robin picks among the instances that registered with the group of the request, all of them and in their order. *)
Theorem groups_are_routed l scs info : length scs = length l ->
  RoundRobin.addr <$> RoundRobin.candidates (RoundRobin.Build (Some GroupFilter) (zip scs (addresses l))) info =
  addresses (base.filter (fun s => Group s = as_string (Ctx info !! "group")) l).
Proof.
  unfold RoundRobin.candidates, RoundRobin.Build. cbn [RoundRobin.filter RoundRobin.connections passes]. revert scs.
  induction l as [|s l IH]; intros [|sc scs] Hlen; try done. injection Hlen as Hlen. specialize (IH scs Hlen).
  change (zip (sc :: scs) (addresses (s :: l))) with ((sc, resolved_address (Address s) (Weight s) (Group s)) :: zip scs (addresses l)).
  rewrite fmap_cons, !filter_cons. cbn [RoundRobin.addr snd]. rewrite group_filter_resolved.
  destruct (decide (Group s = as_string (Ctx info !! "group"))) as [Hg|Hg].
  - rewrite bool_decide_eq_true_2, decide_True by done. rewrite fmap_cons, IH. done.
  - rewrite bool_decide_eq_false_2, decide_False by done. exact IH.
Qed.

(** With that filter the fallback addresses are no candidates, unless the request's group is called [fallback]. *)
Lemma fallback_filtered_out fb scs info : as_string (Ctx info !! "group") <> "fallback" ->
  RoundRobin.candidates (RoundRobin.Build (Some GroupFilter) (zip scs (fallback_addresses fb))) info = [].
Proof.
  intros Hg. unfold RoundRobin.candidates, RoundRobin.Build. cbn [RoundRobin.filter RoundRobin.connections passes]. revert scs.
  induction fb as [|a fb IH]; intros [|sc scs]; try done.
  change (zip (sc :: scs) (fallback_addresses (a :: fb))) with ((sc, resolved_address a 1 "fallback") :: zip scs (fallback_addresses fb)).
  rewrite fmap_cons, filter_cons. cbn [RoundRobin.addr snd]. rewrite group_filter_resolved, bool_decide_eq_false_2, decide_False by done. apply IH.
Qed.

(** ** From a started server to the resolver *)
Context {E : Type} `{EtcdLaws E} `{InstanceJSONLaws}.

Definition starts (a b : string) : list event := [NewStart a; Go 0; Listened 0 (Ok b); Go 0].

Lemma unmarshal_all_in vs v si sis : v ∈ vs -> Unmarshal v = Ok si -> unmarshal_all vs = Ok sis -> si ∈ sis.
Proof.
  revert sis. induction vs as [|w vs IH]; intros sis Hin Hv Hs; [by apply elem_of_nil in Hin|]. cbn [unmarshal_all] in Hs.
  destruct (Unmarshal w) as [sw|] eqn:Hw; [|done]. cbn [result_bind] in Hs. destruct (unmarshal_all vs) as [s1|] eqn:Hall; [|done]. injection Hs as <-.
  apply elem_of_cons in Hin as [->|Hin]; [rewrite Hv in Hw; injection Hw as ->; by left|]. right. by apply IH.
Qed.

(** C9: once [Start] has registered with etcd, a listing that succeeds contains the instance, and so the resolver's addresses contain the address that the server listens on, with the server's weight and group. *)
Theorem started_server_is_resolved (s : Server E) e a b y e1 sis e2 : Server.registry s = Some e -> running s = false -> stopped s = false ->
  Server.run (starts a b) (initial s) = Some (Returns y) -> threads y !! 0%nat = Some (StartCall a CallingServe) -> Server.registry (server y) = Some e1 ->
  ListServices (name (conf s)) e1 = (Ok sis, e2) -> resolved_address b (weight (conf s)) (group (conf s)) ∈ addresses sis.
Proof.
  intros Hreg Hrun Hst Hr Hth Hreg1 Hl. unfold starts in Hr. cbn in Hr. rewrite Hrun in Hr. cbn in Hr. unfold register in Hr. cbn in Hr. rewrite Hreg in Hr.
  assert (Hput : exists v, Marshal (instance_at b (conf s)) = Ok v /\ content e1 = <[instanceKey (instance_at b (conf s)) := v]> (content e)).
  { change (Register (instance_at b (conf s)) e) with (etcd_Register (instance_at b (conf s)) e) in Hr. unfold etcd_Register in Hr.
    destruct (Marshal (instance_at b (conf s))) as [v|x]; [|by injection Hr as <-].
    pose proof (put_content (instanceKey (instance_at b (conf s))) v e) as Hp. destruct (Put _ v e) as [[x|] e3]; injection Hr as <-; [done|].
    cbn in Hreg1. injection Hreg1 as <-. exists v. split; [done|]. by destruct Hp as [Hp|[Hp _]]. }
  destruct Hput as (v & Hv & Hc). change (ListServices (name (conf s)) e1) with (etcd_ListServices (name (conf s)) e1) in Hl. unfold etcd_ListServices in Hl.
  pose proof (get_content (serviceKey (name (conf s))) e1) as Hg. destruct (GetPrefix (serviceKey (name (conf s))) e1) as [[vs|x] e3]; [|done]. destruct Hg as [_ Hg].
  specialize (Hg vs eq_refl). injection Hl as Hs <-. apply list_elem_of_fmap. exists (instance_at b (conf s)). split; [done|].
  eapply unmarshal_all_in; [|by apply unmarshal_marshal|exact Hs]. rewrite Hg. apply list_elem_of_fmap. exists (instanceKey (instance_at b (conf s)), v). split; [done|].
  apply elem_of_map_to_list, map_lookup_filter_Some. split; [by rewrite Hc, lookup_insert_eq|]. cbn [fst].
  assert (Heq : instanceKey (instance_at b (conf s)) = (serviceKey (name (conf s)) ++ ("/" ++ b))%string)
    by (unfold instanceKey, serviceKey; cbn [Name Cluster.Address instance_at]; by rewrite <- !string_app_assoc).
  rewrite Heq. apply prefix_app.
Qed.

End Facts.

(** ** Instances *)
#[local] Existing Instance Etcd.Facts.map_etcd.
#[local] Existing Instance Etcd.Facts.map_laws.
#[local] Existing Instance Etcd.Facts.toy_json.
#[local] Existing Instance Etcd.Facts.toy_json_laws.

Abbreviation inst a w g := (Build_ServiceInstance "user" a w g).
Abbreviation two := [inst "a:1" 2 "blue"; inst "b:1" 5 "green"].
Abbreviation ready_two := (zip [0; 1]%nat (addresses two)).
Abbreviation blue := {| FullMethodName := "/user/Get"; Ctx := {["group" := AttrString "blue"]} |}.

Lemma two_from_resolver : from_resolver two [] ready_two.
Proof. repeat constructor; set_solver. Qed.

Lemma weighted_random_always_panics_witness : Random.PickWeight (Random.BuildWeight None ready_two) blue 12345 = Panics.
Proof.
  apply (weighted_random_always_panics two []); [exact two_from_resolver|]. exists (0%nat, resolved_address "a:1" 2 "blue"). split; [by left|done].
Defined.

Lemma weighted_round_robin_gets_weights_witness : exists b, WeightedRR.Build None ready_two = Returns b /\ WeightedRR.weight <$> WeightedRR.connections b = [2; 5].
Proof.
  destruct (weighted_round_robin_gets_weights two [] ready_two None two_from_resolver) as (b & Hb & _). exists b. split; [exact Hb|].
  vm_compute in Hb. injection Hb as <-. reflexivity.
Defined.

Lemma groups_are_routed_witness : RoundRobin.addr <$> RoundRobin.candidates (RoundRobin.Build (Some GroupFilter) ready_two) blue = [resolved_address "a:1" 2 "blue"].
Proof. rewrite (groups_are_routed two [0; 1]%nat blue eq_refl). reflexivity. Defined.

Abbreviation etcd_server := (@NewServer (gmap string string) "user" [ServerWithRegistry ∅; ServerWithWeight 1]).

Lemma started_server_is_resolved_witness : exists y e1 sis, Server.run (starts ":80" "h:80") (initial etcd_server) = Some (Returns y) /\ Server.registry (server y) = Some e1 /\
  ListServices "user" e1 = (Ok sis, e1) /\ resolved_address "h:80" 1 "" ∈ addresses sis.
Proof.
  destruct (Server.run (starts ":80" "h:80") (initial etcd_server)) as [[y|]|] eqn:Hy; [|vm_compute in Hy; discriminate Hy..].
  pose proof Hy as Hy'. vm_compute in Hy'. injection Hy' as <-. eexists _, _, _. split; [reflexivity|]. split; [reflexivity|]. split; [vm_compute; reflexivity|].
  eapply (started_server_is_resolved etcd_server ∅ ":80" "h:80" _ _ _ _ eq_refl eq_refl eq_refl Hy); [reflexivity|reflexivity|vm_compute; reflexivity].
Defined.

End Facts.
