(* ===== verification/Rpc.v ===== *)
(** What the observability code uses of gRPC: statuses of errors and full method
    names, with the three functions that split a method name. *)
From S2P Require Import Prelude GoString.

(** * Statuses *)

(** [codes.Code], by number. *)
Definition OK : Z := 0.
Definition Canceled : Z := 1.
Definition Unknown : Z := 2.
Definition InvalidArgument : Z := 3.
Definition DeadlineExceeded : Z := 4.
Definition NotFound : Z := 5.
Definition AlreadyExists : Z := 6.
Definition PermissionDenied : Z := 7.
Definition ResourceExhausted : Z := 8.
Definition FailedPrecondition : Z := 9.
Definition Aborted : Z := 10.
Definition OutOfRange : Z := 11.
Definition Unimplemented : Z := 12.
Definition Internal : Z := 13.
Definition Unavailable : Z := 14.
Definition DataLoss : Z := 15.
Definition Unauthenticated : Z := 16.

(** [status.FromError] of an error that is not nil: its code and message and whether
    the error carries a status; one that does not has the code [Unknown].
    [err.Error()] and [code.String()] are texts. *)
Class GrpcStatus (E : Type) : Type := {
  FromError : E -> (Z * string) * bool;
  error_text : E -> string;
  code_String : Z -> string;
  FromError_plain e : (FromError e).2 = false -> (FromError e).1.1 = Unknown;
  code_String_inj c d : 0 <= c <= 16 -> 0 <= d <= 16 -> code_String c = code_String d -> c = d }.

(** [string(rune(n))]: the UTF-8 encoding of the character [n]. *)
Definition rune_string (n : Z) : string :=
  let b (z : Z) := Z.to_nat z in
  if (n <? 0) || (n >? 1114111) || ((55296 <=? n) && (n <=? 57343)) then bytes [239; 191; 189]%nat
  else if n <? 128 then bytes [b n]
  else if n <? 2048 then bytes [b (192 + n / 64); b (128 + n mod 64)]
  else if n <? 65536 then bytes [b (224 + n / 4096); b (128 + n / 64 mod 64); b (128 + n mod 64)]
  else bytes [b (240 + n / 262144); b (128 + n / 4096 mod 64); b (128 + n / 64 mod 64); b (128 + n mod 64)].

(** * Slices of strings

    [s[i:]] and [s[:i]]: [None] is the panic of an index out of range. *)
Definition slice_from (i : nat) (s : string) : option string :=
  if (i <=? String.length s)%nat then Some (drop_string i s) else None.
Definition slice_to (i : nat) (s : string) : option string :=
  if (i <=? String.length s)%nat then Some (String.substring 0 i s) else None.

(** The loops over the bytes of a string: the index of the last slash, 0 without one,
    and of the first, 0 without one. *)
Fixpoint last_slash (i : nat) (pos : nat) (s : string) : nat :=
  match s with
  | EmptyString => pos
  | String c s => last_slash (S i) (if Ascii.eqb c "/" then i else pos) s
  end.

Fixpoint first_slash (i : nat) (s : string) : nat :=
  match s with
  | EmptyString => O
  | String c s => if Ascii.eqb c "/" then i else first_slash (S i) s
  end.

(** [splitMethodName] of the logging and the client metrics packages: after the first
    byte, split at the last slash. *)
Definition split_last (fullMethodName : string) : outcome (string * string) :=
  match slice_from 1 fullMethodName with
  | None => Panics
  | Some fullMethodName =>
      let pos := last_slash 0 0 fullMethodName in
      match slice_to pos fullMethodName, slice_from (pos + 1) fullMethodName with
      | Some service, Some method => Returns (service, method)
      | _, _ => Panics
      end
  end.

(** [splitMethodName] of the metrics plugin: after a leading slash, split at the
    first slash. *)
Definition split_first (fullMethod : string) : outcome (string * string) :=
  match fullMethod with
  | String "/" fullMethod =>
      let pos := first_slash 0 fullMethod in
      if (pos =? 0)%nat then Returns (fullMethod, "unknown")
      else match slice_to pos fullMethod, slice_from (pos + 1) fullMethod with
           | Some service, Some method => Returns (service, method)
           | _, _ => Panics
           end
  | _ => Returns ("unknown", "unknown")
  end.

(** [extractMethodInfo] of the method metrics: the full name, the last component of
    the service and the method. *)
Definition extractMethodInfo (fullMethod : string) : string * string * string :=
  match fullMethod with
  | EmptyString => ("unknown", "unknown", "unknown")
  | _ => match Split fullMethod "/" with
         | [_; p1; p2] => (fullMethod, List.last (Split p1 ".") "", p2)
         | _ => (fullMethod, "unknown", "unknown")
         end
  end.

(** * Lemmas *)

Lemma last_slash_none s : contains_byte "/" s = false -> forall i pos, last_slash i pos s = pos.
Proof.
  induction s as [|c s IH]; intros H i pos; [done|]. rewrite contains_byte_cons in H.
  apply orb_false_iff in H as [Hc H]. simpl. rewrite Hc. by apply IH.
Qed.

Lemma last_slash_app a s : forall i pos, contains_byte "/" s = false ->
  last_slash i pos (a ++ String "/" s) = (i + String.length a)%nat.
Proof.
  induction a as [|c a IH]; intros i pos H; simpl.
  - rewrite last_slash_none by done. lia.
  - rewrite IH by done. lia.
Qed.

Lemma first_slash_app a s : forall i, contains_byte "/" a = false ->
  first_slash i (a ++ String "/" s) = (i + String.length a)%nat.
Proof.
  induction a as [|c a IH]; intros i H; simpl; [lia|]. rewrite contains_byte_cons in H.
  apply orb_false_iff in H as [-> H]. rewrite IH by done. lia.
Qed.

Lemma slice_to_app a b : slice_to (String.length a) (a ++ b) = Some a.
Proof.
  unfold slice_to. rewrite length_append. destruct (_ <=? _)%nat eqn:E; [by rewrite substring_app|].
  apply Nat.leb_gt in E. lia.
Qed.

Lemma slice_from_app a c b : slice_from (String.length a + 1) (a ++ String c b) = Some b.
Proof.
  unfold slice_from. rewrite length_append. simpl String.length. destruct (_ <=? _)%nat eqn:E.
  - f_equal. replace (a ++ String c b)%string with ((a ++ String c "") ++ b)%string by (by rewrite <- string_app_assoc).
    replace (String.length a + 1)%nat with (String.length (a ++ String c "")) by (rewrite length_append; done).
    apply drop_string_app.
  - apply Nat.leb_gt in E. lia.
Qed.

Lemma split_last_spec svc m : contains_byte "/" m = false ->
  split_last (String "/" (svc ++ String "/" m)) = Returns (svc, m).
Proof.
  intros H. unfold split_last. change (String "/" ?s) with ("" ++ String "/" s)%string at 1.
  rewrite (slice_from_app ""), last_slash_app by done. cbv zeta. rewrite Nat.add_0_l. by rewrite slice_to_app, slice_from_app.
Qed.

Lemma split_first_spec svc m : svc <> "" -> contains_byte "/" svc = false ->
  split_first (String "/" (svc ++ String "/" m)) = Returns (svc, m).
Proof.
  intros Hs H. unfold split_first. rewrite first_slash_app by done. cbv zeta. rewrite Nat.add_0_l.
  rewrite slice_to_app, slice_from_app. by destruct svc.
Qed.

(** A bare name, as the client's metrics interceptor hands on: an empty service and a
    method without its first byte. *)
Lemma split_last_bare c d m : contains_byte "/" (String d m) = false -> split_last (String c (String d m)) = Returns ("", m).
Proof.
  intros H. unfold split_last. change (slice_from 1 (String c (String d m))) with (Some (String d m)).
  cbv iota beta. rewrite last_slash_none by done. done.
Qed.

Lemma split_last_panics : split_last "" = Panics /\ split_last "/" = Panics.
Proof. done. Qed.

(** Errors that are numbers: a code, or negative without a status. *)
#[refine] Definition numbered : GrpcStatus Z := {|
  FromError e := ((if e <? 0 then Unknown else e, ""), 0 <=? e); error_text := itoa; code_String := itoa |}.
Proof.
  - intros e. cbn. intros H. apply Z.leb_gt in H. by destruct (Z.ltb_spec e 0); [|lia].
  - intros c d Hc Hd. unfold OK in *.
    assert (Forall (fun a => Forall (fun b => itoa (Z.of_nat a) = itoa (Z.of_nat b) -> a = b) (seq 0 17)) (seq 0 17)) as H
      by (repeat (constructor; [repeat (constructor; [vm_compute; first [reflexivity | discriminate | intros ?; reflexivity]|]); constructor|]); constructor).
    intros He. rewrite Forall_forall in H. specialize (H (Z.to_nat c)). rewrite elem_of_seq in H.
    specialize (H ltac:(lia)). rewrite Forall_forall in H. specialize (H (Z.to_nat d)). rewrite elem_of_seq in H.
    specialize (H ltac:(lia)). rewrite !Z2Nat.id in H by lia. specialize (H He). lia.
Defined.


(** The packages that split method names agree on [/service/method]: the logging and
    client packages, the plugin and the method metrics; with a further slash they
    do not. *)
Lemma splitters_agree svc m : svc <> "" -> contains_byte "/" svc = false -> contains_byte "/" m = false ->
  let full := String "/" (svc ++ String "/" m) in
  split_last full = Returns (svc, m) /\ split_first full = Returns (svc, m) /\
  (extractMethodInfo full).1.1 = full /\ (extractMethodInfo full).2 = m.
Proof.
  intros Hs Hsvc Hm full. unfold full. rewrite split_last_spec, split_first_spec by done. split; [done|]. split; [done|].
  assert (Split (String "/" (svc ++ String "/" m)) "/" = [""; svc; m]) as Hp.
  { change (String "/" (svc ++ String "/" m)) with ("" ++ String "/" (svc ++ String "/" m))%string.
    by rewrite !Split_app, Split_none. }
  unfold extractMethodInfo. by rewrite Hp.
Qed.

Lemma splitters_differ : split_last "/a/b/c" = Returns ("a/b", "c") /\ split_first "/a/b/c" = Returns ("a", "b/c") /\
  extractMethodInfo "/a/b/c" = ("/a/b/c", "unknown", "unknown").
Proof. done. Qed.
