(* ===== verification/Prom.v ===== *)
(** What the metrics code asks of the Prometheus client library, and the invariant
    that all its interceptors share: a gauge incremented before the handler and
    decremented after it equals the number of calls in their handlers.

    The library's vectors are not modelled. Instrumented code makes calls on the
    children of its vectors; a [Registry] is any state that these calls change as the
    library documents. *)
From S2P Require Import Prelude Float64.

#[global] Open Scope Z_scope.

(** * Calls on the children of vectors

    [v.WithLabelValues(ls...)] followed by [Inc], [Dec], [Set] or [Observe]. *)

Inductive call (V : Type) : Type :=
| Inc (v : V) (ls : list string)
| Dec (v : V) (ls : list string)
| SetTo (v : V) (ls : list string) (x : float64)
| Observe (v : V) (ls : list string) (x : float64).
Arguments Inc {V} v ls.
Arguments Dec {V} v ls.
Arguments SetTo {V} v ls x.
Arguments Observe {V} v ls x.

Definition vector_of {V} (c : call V) : V :=
  match c with Inc v _ | Dec v _ | SetTo v _ _ | Observe v _ _ => v end.

Definition labels_of {V} (c : call V) : list string :=
  match c with Inc _ ls | Dec _ ls | SetTo _ ls _ | Observe _ ls _ => ls end.

Definition is_set {V} (c : call V) : bool := match c with SetTo _ _ _ => true | _ => false end.

(** [WithLabelValues] panics unless there is a value for each of the names that the
    vector was made with. *)
Definition well_labelled {V} (names : V -> list string) (c : call V) : Prop :=
  length (labels_of c) = length (names (vector_of c)).

Section Calls.
Context {V : Type} `{EqDecision V}.
Implicit Types (v : V) (ls : list string) (cs : list (call V)).

(** By how much a call moves the value of a child. *)
Definition delta v ls (c : call V) : Z :=
  match c with
  | Inc v' ls' => if decide ((v', ls') = (v, ls)) then 1 else 0
  | Dec v' ls' => if decide ((v', ls') = (v, ls)) then -1 else 0
  | _ => 0
  end.

Definition net v ls cs : Z := sum_of (delta v ls) cs.

(** What is observed by one child of a histogram or summary, in order. *)
Definition seen v ls cs : list float64 :=
  omap (fun c => match c with Observe v' ls' x => if decide ((v', ls') = (v, ls)) then Some x else None | _ => None end) cs.

Lemma net_app v ls cs1 cs2 : net v ls (cs1 ++ cs2) = net v ls cs1 + net v ls cs2.
Proof. apply sum_of_app. Qed.

Lemma net_nil v ls : net v ls [] = 0.
Proof. done. Qed.

Lemma net_cons v ls c cs : net v ls (c :: cs) = delta v ls c + net v ls cs.
Proof. done. Qed.

Lemma delta_Inc v ls ls' : delta v ls (Inc v ls') = if decide (ls' = ls) then 1 else 0.
Proof. simpl. repeat case_decide; first [done | congruence]. Qed.

Lemma delta_Dec v ls ls' : delta v ls (Dec v ls') = - if decide (ls' = ls) then 1 else 0.
Proof. simpl. repeat case_decide; first [done | congruence]. Qed.

Lemma delta_vector v ls c : vector_of c <> v -> delta v ls c = 0.
Proof. destruct c; simpl; intros H; try case_decide; congruence. Qed.

(** A vector that a list of calls does not touch keeps its value. *)
Lemma net_other v ls cs : Forall (fun c => vector_of c <> v) cs -> net v ls cs = 0.
Proof. intros H. apply sum_of_zero. eapply Forall_impl; [exact H|]. intros c. apply delta_vector. Qed.

Lemma net_skip v ls c cs : vector_of c <> v -> net v ls (c :: cs) = net v ls cs.
Proof. intros Hc. by rewrite net_cons, delta_vector, Z.add_0_l. Qed.

End Calls.

(** Computes the net effect of a list of calls, up to the calls on the vector itself. *)
Ltac net_calc := repeat first [ rewrite net_app | rewrite net_skip by done | rewrite net_nil | rewrite net_cons | rewrite delta_Inc | rewrite delta_Dec ]; rewrite ?Z.add_0_r.
Ltac net_done := net_calc; repeat case_decide; first [done | lia | congruence].

(** * The library *)

(** [value] is what a scrape reports for a child of a counter or gauge, [reading]
    what it reports for one that has been [Set], [observations] what a histogram's
    or summary's child has been given. A child starts at zero. *)
Class Registry (V : Type) `{EqDecision V} (R : Type) : Type := {
  empty_registry : R;
  apply : call V -> R -> R;
  value : V -> list string -> R -> Z;
  reading : V -> list string -> R -> option float64;
  observations : V -> list string -> R -> list float64;
  value_empty v ls : value v ls empty_registry = 0;
  value_apply v ls c r : is_set c = false -> value v ls (apply c r) = value v ls r + delta v ls c;
  reading_set v ls x r : reading v ls (apply (SetTo v ls x) r) = Some x;
  reading_other v ls c r : (vector_of c, labels_of c) <> (v, ls) -> reading v ls (apply c r) = reading v ls r;
  observations_empty v ls : observations v ls empty_registry = [];
  observations_apply v ls c r : observations v ls (apply c r) = observations v ls r ++ seen v ls [c] }.

Section Library.
Context {V : Type} `{EqDecision V} {R : Type} `{!Registry V R}.
Implicit Types (v : V) (ls : list string) (cs : list (call V)) (r : R).

Definition apply_all cs r : R := foldl (fun r c => apply c r) r cs.

Lemma apply_all_app cs1 cs2 r : apply_all (cs1 ++ cs2) r = apply_all cs2 (apply_all cs1 r).
Proof. apply foldl_app. Qed.

Lemma value_apply_all v ls cs r : Forall (fun c => is_set c = false) cs ->
  value v ls (apply_all cs r) = value v ls r + net v ls cs.
Proof.
  revert r. induction cs as [|c cs IH]; intros r H; [unfold net, sum_of; simpl; lia|].
  apply Forall_cons in H as [Hc H]. change (apply_all (c :: cs) r) with (apply_all cs (apply c r)).
  rewrite IH, value_apply, net_cons by done. lia.
Qed.

Lemma observations_apply_all v ls cs r : observations v ls (apply_all cs r) = observations v ls r ++ seen v ls cs.
Proof.
  revert r. induction cs as [|c cs IH]; intros r; [by rewrite app_nil_r|].
  change (apply_all (c :: cs) r) with (apply_all cs (apply c r)).
  rewrite IH, observations_apply, <- app_assoc. f_equal. unfold seen. simpl. by repeat case_match.
Qed.

End Library.

(** A registry that keeps the calls made on it. *)
#[refine] Definition logged (V : Type) `{EqDecision V} : Registry V (list (call V)) := {|
  empty_registry := []; apply c r := r ++ [c]; value v ls r := net v ls r;
  reading v ls r := foldl (fun o c => match c with
                                      | SetTo v' ls' x => if decide ((v', ls') = (v, ls)) then Some x else o
                                      | _ => o
                                      end) None r;
  observations v ls r := seen v ls r |}.
Proof.
  - done.
  - intros v ls c r _. rewrite net_app. unfold net at 2, sum_of. simpl. lia.
  - intros v ls x r. rewrite foldl_app. simpl. by rewrite decide_True.
  - intros v ls c r H. rewrite foldl_app. destruct c; simpl in *; try done. by case_decide.
  - done.
  - intros v ls c r. unfold seen. by rewrite omap_app.
Defined.

(** * Collectors and their registry *)

(** What identifies a collector to a registry: its full name and constant labels,
    with the names of its variable labels. *)
Record desc : Type := { fqName : string; constLabels : gmap string string; variableLabels : list string }.

(** [prometheus.Registerer]: [Register] refuses, with an error, a collector whose name
    and constant labels are registered already. *)
Class Registerer (G : Type) : Type := {
  Register : desc -> G -> option G;
  registered : string -> gmap string string -> G -> Prop;
  Register_keeps d g g' n l : Register d g = Some g' -> registered n l g' <-> (n, l) = (fqName d, constLabels d) \/ registered n l g;
  Register_duplicate d g : registered (fqName d) (constLabels d) g -> Register d g = None }.

Section Collectors.
Context {G : Type} `{!Registerer G}.

(** [MustRegister]: panics at the first collector that is refused. *)
Fixpoint MustRegister (ds : list desc) (g : G) : outcome G :=
  match ds with
  | [] => Returns g
  | d :: ds => match Register d g with Some g => MustRegister ds g | None => Panics end
  end.

(** [Register] whose error is printed and nothing else: the registry, and which of the
    collectors it has taken. *)
Fixpoint register_logged (ds : list desc) (g : G) : G * list bool :=
  match ds with
  | [] => (g, [])
  | d :: ds => match Register d g with
               | Some g => let '(g, bs) := register_logged ds g in (g, true :: bs)
               | None => let '(g, bs) := register_logged ds g in (g, false :: bs)
               end
  end.

Lemma MustRegister_registers ds : forall g g', MustRegister ds g = Returns g' ->
  (forall n l, registered n l g -> registered n l g') /\ Forall (fun d => registered (fqName d) (constLabels d) g') ds.
Proof.
  induction ds as [|d ds IH]; intros g g' Hr; cbn [MustRegister] in Hr; [injection Hr as <-; by split|].
  destruct (Register d g) as [g1|] eqn:Hd; [|done]. destruct (IH g1 g' Hr) as [Hk Hf]. split.
  - intros n l Hn. apply Hk, (Register_keeps _ _ _ _ _ Hd). by right.
  - constructor; [|done]. apply Hk, (Register_keeps _ _ _ _ _ Hd). by left.
Qed.

Lemma register_logged_keeps ds : forall g n l, registered n l g -> registered n l (register_logged ds g).1.
Proof.
  induction ds as [|d ds IH]; intros g n l Hg; [done|]. cbn [register_logged].
  destruct (Register d g) as [g1|] eqn:Hd.
  - assert (registered n l g1) as H1' by (apply (Register_keeps _ _ _ _ _ Hd); by right).
    specialize (IH g1 n l H1'). by destruct (register_logged ds g1).
  - specialize (IH g n l Hg). by destruct (register_logged ds g).
Qed.

(** Collectors that are all registered already: none is taken. *)
Lemma register_logged_again ds g : Forall (fun d => registered (fqName d) (constLabels d) g) ds ->
  register_logged ds g = (g, replicate (length ds) false).
Proof. induction 1 as [|d ds Hd _ IH]; [done|]. cbn [register_logged length replicate]. by rewrite Register_duplicate, IH. Qed.

Lemma register_logged_all ds : forall g g1 bs, register_logged ds g = (g1, bs) -> Forall (fun x => x = true) bs ->
  Forall (fun d => registered (fqName d) (constLabels d) g1) ds.
Proof.
  induction ds as [|d ds IH]; intros g g1 bs Hb Ht; [constructor|]. cbn [register_logged] in Hb.
  destruct (Register d g) as [g2|] eqn:Hd; destruct (register_logged ds _) as [g3 bs3] eqn:Hr; injection Hb as <- <-;
    apply Forall_cons in Ht as [? Ht]; [|done].
  constructor; [|by apply (IH g2 g3 bs3)].
  pose proof (register_logged_keeps ds g2 (fqName d) (constLabels d)) as Hk. rewrite Hr in Hk. apply Hk.
  apply (Register_keeps _ _ _ _ _ Hd). by left.
Qed.

End Collectors.

(** * Handlers between two groups of calls

    An interceptor makes some calls when a request arrives, runs the handler, and
    makes others when the handler has returned or, deferred, when it has panicked.
    Each request has its own goroutine; their calls interleave one by one. *)

Record probe (V Q A : Type) : Type := {
  enter : Q -> list (call V); leave : Q -> A -> list (call V); unwound : Q -> list (call V) }.
Arguments enter {V Q A} p.
Arguments leave {V Q A} p.
Arguments unwound {V Q A} p.

(** A goroutine: the calls it still has to make and whether its handler is to come
    or running. *)
Record thread (V Q : Type) : Type := { todo : list (call V); request : Q; inside : bool }.
Arguments todo {V Q} t.
Arguments request {V Q} t.
Arguments inside {V Q} t.

(** [made] is what the library has been asked so far, [panicked] the requests whose
    handlers panicked. *)
Record world (V Q : Type) : Type := { threads : gmap nat (thread V Q); made : list (call V); panicked : list Q }.
Arguments threads {V Q} w.
Arguments made {V Q} w.
Arguments panicked {V Q} w.

Inductive event (Q A : Type) : Type :=
| Arrive (k : nat) (q : Q) | Call (k : nat) | Return (k : nat) (a : A) | Panic (k : nat) | Gone (k : nat).
Arguments Arrive {Q A} k q.
Arguments Call {Q A} k.
Arguments Return {Q A} k a.
Arguments Panic {Q A} k.
Arguments Gone {Q A} k.

Section Underway.
Context {V : Type} `{EqDecision V} {Q A : Type}.
Implicit Types (p : probe V Q A) (w : world V Q) (e : event Q A).

Definition no_calls : world V Q := {| threads := ∅; made := []; panicked := [] |}.

Definition put_thread (k : nat) (t : thread V Q) w : world V Q :=
  {| threads := <[k := t]> (threads w); made := made w; panicked := panicked w |}.

Definition step p e w : option (world V Q) :=
  match e with
  | Arrive k q =>
      match threads w !! k with
      | None => Some (put_thread k {| todo := enter p q; request := q; inside := true |} w)
      | Some _ => None
      end
  | Call k =>
      match threads w !! k with
      | Some {| todo := c :: cs; request := q; inside := i |} =>
          let w := put_thread k {| todo := cs; request := q; inside := i |} w in
          Some {| threads := threads w; made := made w ++ [c]; panicked := panicked w |}
      | _ => None
      end
  | Return k a =>
      match threads w !! k with
      | Some {| todo := []; request := q; inside := true |} =>
          Some (put_thread k {| todo := leave p q a; request := q; inside := false |} w)
      | _ => None
      end
  | Panic k =>
      match threads w !! k with
      | Some {| todo := []; request := q; inside := true |} =>
          let w := put_thread k {| todo := unwound p q; request := q; inside := false |} w in
          Some {| threads := threads w; made := made w; panicked := q :: panicked w |}
      | _ => None
      end
  | Gone k =>
      match threads w !! k with
      | Some {| todo := []; inside := false |} =>
          Some {| threads := delete k (threads w); made := made w; panicked := panicked w |}
      | _ => None
      end
  end.

Fixpoint run p (es : list (event Q A)) w : option (world V Q) :=
  match es with [] => Some w | e :: es => match step p e w with Some w => run p es w | None => None end end.

(** No goroutine is in the middle of its calls. *)
Definition quiet w : Prop := map_Forall (fun _ t => todo t = []) (threads w).

Definition quietb w : bool := forallb (fun kt => match todo kt.2 with [] => true | _ => false end) (map_to_list (threads w)).

Lemma quietb_quiet w : quietb w = true -> quiet w.
Proof.
  unfold quietb. rewrite forallb_forall. intros Hw k t Hk. apply elem_of_map_to_list, list_elem_of_In in Hk.
  specialize (Hw _ Hk). cbn in Hw. by destruct (todo t).
Qed.

(** How many handlers are to come or running for a child of the gauge. *)
Definition at_label (lab : Q -> list string) (ls : list string) (q : Q) : Z := if decide (lab q = ls) then 1 else 0.
Definition in_handlers (lab : Q -> list string) (ls : list string) w : Z :=
  msum (fun t => if inside t then at_label lab ls (request t) else 0) (threads w).

(** A probe counts on the gauge [g], under the labels [lab]: up on arrival, down on
    return, and down on a panic unless it [leaks]. *)
Record counts (g : V) (lab : Q -> list string) (leaks : bool) p : Prop := {
  counts_enter q ls : net g ls (enter p q) = at_label lab ls q;
  counts_leave q a ls : net g ls (leave p q a) = - at_label lab ls q;
  counts_unwound q ls : net g ls (unwound p q) = if leaks then 0 else - at_label lab ls q }.

Section Counting.
Context (g : V) (lab : Q -> list string) (leaks : bool) (p : probe V Q A) (Hp : counts g lab leaks p).

Definition lost (ls : list string) w : Z := if leaks then sum_of (at_label lab ls) (panicked w) else 0.
Definition pending (ls : list string) w : Z := msum (fun t => net g ls (todo t)) (threads w).
Definition balanced (ls : list string) w : Prop := net g ls (made w) + pending ls w = in_handlers lab ls w + lost ls w.

Lemma put_thread_new ls k t w : threads w !! k = None ->
  pending ls (put_thread k t w) = pending ls w + net g ls (todo t) /\
  in_handlers lab ls (put_thread k t w) = in_handlers lab ls w + (if inside t then at_label lab ls (request t) else 0).
Proof. intros Hk. unfold pending, in_handlers. cbn [put_thread threads]. rewrite !msum_insert by done. lia. Qed.

Lemma put_thread_old ls k t t' w : threads w !! k = Some t ->
  pending ls (put_thread k t' w) = pending ls w + net g ls (todo t') - net g ls (todo t) /\
  in_handlers lab ls (put_thread k t' w) =
    in_handlers lab ls w + (if inside t' then at_label lab ls (request t') else 0) - (if inside t then at_label lab ls (request t) else 0).
Proof.
  intros Hk. unfold pending, in_handlers. cbn [put_thread threads]. rewrite !(msum_update _ _ _ _ _ Hk). lia.
Qed.

Lemma step_balanced ls e w w' : balanced ls w -> step p e w = Some w' -> balanced ls w'.
Proof.
  unfold balanced, lost. intros Hw Hs. destruct e as [k q|k|k a|k|k]; cbn [step] in Hs;
    destruct (threads w !! k) as [[cs q' i]|] eqn:Hk; try discriminate.
  - simplify_eq. destruct (put_thread_new ls k {| todo := enter p q; request := q; inside := true |} w Hk) as [H1' H2'].
    rewrite H1', H2'. cbn [made panicked put_thread todo inside request]. rewrite (counts_enter _ _ _ _ Hp). lia.
  - destruct cs as [|c cs]; simplify_eq.
    destruct (put_thread_old ls k _ {| todo := cs; request := q'; inside := i |} w Hk) as [H1' H2'].
    unfold pending, in_handlers in *. cbn [made panicked threads put_thread todo inside request] in *.
    rewrite net_app, H1', H2', !net_cons, net_nil. lia.
  - destruct cs; [|done]. destruct i; simplify_eq.
    destruct (put_thread_old ls k _ {| todo := leave p q' a; request := q'; inside := false |} w Hk) as [H1' H2'].
    rewrite H1', H2'. cbn [made panicked put_thread todo inside request].
    rewrite (counts_leave _ _ _ _ Hp). rewrite net_nil. lia.
  - destruct cs; [|done]. destruct i; simplify_eq.
    destruct (put_thread_old ls k _ {| todo := unwound p q'; request := q'; inside := false |} w Hk) as [H1' H2'].
    unfold pending, in_handlers in *. cbn [made panicked threads put_thread todo inside request] in *.
    rewrite H1', H2', (counts_unwound _ _ _ _ Hp). rewrite net_nil.
    destruct leaks; [rewrite sum_of_cons|]; lia.
  - destruct cs; [|done]. destruct i; simplify_eq.
    unfold pending, in_handlers in *. cbn [made panicked threads].
    rewrite !(msum_delete _ _ _ _ Hk) in Hw. cbn [todo inside request] in Hw. rewrite net_nil in Hw. lia.
Qed.

Lemma run_balanced ls es : forall w w', balanced ls w -> run p es w = Some w' -> balanced ls w'.
Proof.
  induction es as [|e es IH]; intros w w' Hw Hr; cbn [run] in Hr; [by simplify_eq|].
  destruct (step p e w) as [w1|] eqn:Hs; [|done]. exact (IH _ _ (step_balanced _ _ _ _ Hw Hs) Hr).
Qed.

Lemma no_calls_balanced ls : balanced ls no_calls.
Proof. unfold balanced, pending, in_handlers, lost, no_calls. cbn. rewrite !msum_empty. by destruct leaks. Qed.

(** Whenever no goroutine is in the middle of its calls, the gauge has the number of
    handlers to come or running, plus, when the probe leaks, one for each panic. *)
Lemma gauge_is_underway {R} `{!Registry V R} ls es w :
  run p es no_calls = Some w -> quiet w -> Forall (fun c => is_set c = false) (made w) ->
  value g ls (apply_all (made w) empty_registry) = in_handlers lab ls w + lost ls w.
Proof.
  intros Hr Hq Hs. rewrite value_apply_all, value_empty by done.
  pose proof (run_balanced ls es _ _ (no_calls_balanced ls) Hr) as Hb. unfold balanced in Hb.
  assert (pending ls w = 0) as Hz; [|lia].
  apply msum_zero. intros k t Ht. by rewrite (Hq k t Ht).
Qed.
End Counting.

(** What holds of all calls of a probe holds of all calls made. *)
Lemma run_made (P : call V -> Prop) p es :
  (forall q, Forall P (enter p q)) -> (forall q a, Forall P (leave p q a)) -> (forall q, Forall P (unwound p q)) ->
  forall w w', Forall P (made w) -> map_Forall (fun _ t => Forall P (todo t)) (threads w) -> run p es w = Some w' -> Forall P (made w').
Proof.
  intros He Hl Hu. induction es as [|e es IH]; intros w w' Hw Ht Hr; cbn [run] in Hr; [by simplify_eq|].
  destruct (step p e w) as [w1|] eqn:Hs; [|done]. refine (IH w1 w' _ _ Hr); destruct e as [k q|k|k a|k|k]; cbn [step] in Hs;
    destruct (threads w !! k) as [[[|c cs] q' []]|] eqn:Hk; simplify_eq; cbn [made threads put_thread]; try done.
  1-2: apply Forall_app; split; [done|]; apply Forall_singleton; apply Ht in Hk; by apply Forall_cons in Hk as [? _].
  all: try (apply map_Forall_insert_2; [cbn [todo]|done]); auto.
  1-2: apply Ht in Hk; by apply Forall_cons in Hk as [_ ?].
  by apply map_Forall_delete.
Qed.
End Underway.
