(* ===== verification/Metrics.v ===== *)
(** Metrics per method: [src/observability/metrics/method_metrics.go].

    The collector's effects on the Prometheus library are the calls it makes on the
    children of its vectors ([Prom]); its own state is the map of time-window
    counters, which goroutines share by pointer and which live in a heap here. The
    registry of collectors, the status library and the mapping of codes that the
    options name are parameters. *)
From S2P Require Import Prelude Float64 GoString Rpc Prom.

(** * Options *)

Record MethodMetricsOptions : Type := {
  EnableMethodLevelMetrics : bool; AppName : string; ServiceName : string;
  GRPCCodeToHTTPCode : option (Z -> Z);
  EnableLatencyHistogram : bool; LatencyBuckets : list float64;
  EnableSizeMetrics : bool; SizeBuckets : list float64;
  EnableRateMetrics : bool; EnableConcurrencyMetrics : bool; EnableCallbackMetrics : bool;
  EnableLabeledMetrics : bool; Labels : list (string * string); MetricsPrefix : string }.

Definition defaultGRPCCodeToHTTPCode (code : Z) : Z :=
  if code =? OK then 200 else if code =? Canceled then 499 else if code =? Unknown then 500
  else if code =? InvalidArgument then 400 else if code =? DeadlineExceeded then 504
  else if code =? NotFound then 404 else if code =? AlreadyExists then 409
  else if code =? PermissionDenied then 403 else if code =? ResourceExhausted then 429
  else if code =? FailedPrecondition then 400 else if code =? Aborted then 409
  else if code =? OutOfRange then 400 else if code =? Unimplemented then 501
  else if code =? Internal then 500 else if code =? Unavailable then 503
  else if code =? DataLoss then 500 else if code =? Unauthenticated then 401 else 500.

Definition DefaultMethodMetricsOptions : MethodMetricsOptions := {|
  EnableMethodLevelMetrics := true; AppName := "app"; ServiceName := "service";
  GRPCCodeToHTTPCode := Some defaultGRPCCodeToHTTPCode;
  EnableLatencyHistogram := true;
  LatencyBuckets := of_int <$> [1; 5; 10; 25; 50; 100; 250; 500; 1000; 2500; 5000];
  EnableSizeMetrics := true;
  SizeBuckets := of_int <$> [128; 512; 1024; 4096; 16384; 65536; 262144; 1048576];
  EnableRateMetrics := true; EnableConcurrencyMetrics := true; EnableCallbackMetrics := true;
  EnableLabeledMetrics := true; Labels := []; MetricsPrefix := "grpc" |}.

(** * Time-window counters *)

(** A timestamp is [None] while it is the zero time. *)
Record timeWindowCounter : Type := {
  window : Z; buckets : list float64; timestamps : list (option Z); index : nat }.

Definition newTimeWindowCounter (window : Z) (bucketCount : nat) : timeWindowCounter :=
  {| window := window; buckets := replicate bucketCount (of_int 0); timestamps := replicate bucketCount None; index := 0 |}.

Definition Add (now : Z) (value : float64) (t : timeWindowCounter) : outcome timeWindowCounter :=
  if (index t <? length (buckets t))%nat
  then Returns {| window := window t; buckets := <[index t := value]> (buckets t);
                  timestamps := <[index t := Some now]> (timestamps t);
                  index := (index t + 1) mod length (buckets t) |}
  else Panics.

(** The loop of [Rate]: the sum and the number of the values in the window. *)
Fixpoint rate_loop (windowStart : Z) (timestamps : list (option Z)) (buckets : list float64) (sum : float64) (count : Z)
    : float64 * Z :=
  match timestamps, buckets with
  | ts :: timestamps, b :: buckets =>
      match ts with
      | Some ts => if ts >? windowStart then rate_loop windowStart timestamps buckets (fadd sum b) (count + 1)
                   else rate_loop windowStart timestamps buckets sum count
      | None => rate_loop windowStart timestamps buckets sum count
      end
  | _, _ => (sum, count)
  end.

Definition Rate (now : Z) (t : timeWindowCounter) : float64 :=
  let '(sum, count) := rate_loop (now - window t) (timestamps t) (buckets t) (of_int 0) 0 in
  if count =? 0 then of_int 0 else fdiv sum (Seconds (window t)).

(** * The collector *)

Inductive vector : Type :=
| requestCounter | responseCounter | errorCounter | panicCounter | retryCounter
| latencyHistogram | requestSizeHistogram | responseSizeHistogram | inFlightGauge | callbackCounter | rateGauge.

#[export] Instance vector_eq_dec : EqDecision vector.
Proof. solve_decision. Defined.

Definition label_names (v : vector) : list string :=
  match v with
  | requestCounter | panicCounter | retryCounter | requestSizeHistogram | inFlightGauge => ["method"; "type"]
  | responseCounter => ["method"; "code"; "type"; "http_code"]
  | errorCounter => ["method"; "type"; "error_type"]
  | latencyHistogram | responseSizeHistogram => ["method"; "type"; "code"]
  | callbackCounter => ["method"; "type"; "event"]
  | rateGauge => ["method"; "type"; "window"]
  end.

Definition metric_name (v : vector) : string :=
  match v with
  | requestCounter => "request_total" | responseCounter => "response_total" | errorCounter => "errors_total"
  | panicCounter => "panics_total" | retryCounter => "retries_total" | latencyHistogram => "latency_milliseconds"
  | requestSizeHistogram => "request_size_bytes" | responseSizeHistogram => "response_size_bytes"
  | inFlightGauge => "in_flight" | callbackCounter => "callback_total" | rateGauge => "rate"
  end.

(** [timeWindowMetrics] points into the heap [counters]. *)
Record MethodMetrics : Type := {
  opts : MethodMetricsOptions; counters : list timeWindowCounter; timeWindowMetrics : gmap string nat }.

Definition metrics_prefix (o : MethodMetricsOptions) : string :=
  if negb (MetricsPrefix o =? "")%string && negb (HasSuffix (MetricsPrefix o) "_")
  then (MetricsPrefix o ++ "_")%string else MetricsPrefix o.

Definition const_labels (o : MethodMetricsOptions) : gmap string string :=
  let l := foldl (fun m kv => <[kv.1 := kv.2]> m) ∅ (Labels o) in
  let l := if (AppName o =? "")%string then l else <["app" := AppName o]> l in
  if (ServiceName o =? "")%string then l else <["service" := ServiceName o]> l.

(** The vectors that the options ask for, in the order of their registration. *)
Definition vectors (o : MethodMetricsOptions) : list vector :=
  [requestCounter; responseCounter; errorCounter; panicCounter; retryCounter] ++
  (if EnableLatencyHistogram o then [latencyHistogram] else []) ++
  (if EnableSizeMetrics o then [requestSizeHistogram; responseSizeHistogram] else []) ++
  (if EnableConcurrencyMetrics o then [inFlightGauge] else []) ++
  (if EnableCallbackMetrics o then [callbackCounter] else []) ++
  (if EnableRateMetrics o then [rateGauge] else []).

Definition desc_of (o : MethodMetricsOptions) (v : vector) : desc :=
  {| fqName := (metrics_prefix o ++ metric_name v)%string; constLabels := const_labels o; variableLabels := label_names v |}.

Section Collector.
Context {G : Type} `{!Registerer G}.

Definition NewMethodMetrics (o : MethodMetricsOptions) (g : G) : outcome (MethodMetrics * G) :=
  match MustRegister (desc_of o <$> vectors o) g with
  | Returns g => Returns ({| opts := o; counters := []; timeWindowMetrics := ∅ |}, g)
  | Panics => Panics
  end.

End Collector.

(** [getTimeWindowCounter] is two critical sections: the look-up under the read lock,
    and, when it found nothing, the creation and entry of a counter. *)
Definition counter_key (method typ window : string) : string := (method ++ ":" ++ typ ++ ":" ++ window)%string.

Definition find_counter (key : string) (m : MethodMetrics) : option nat := timeWindowMetrics m !! key.

Definition create_counter (key : string) (duration : Z) (bucketCount : nat) (m : MethodMetrics) : nat * MethodMetrics :=
  (length (counters m),
   {| opts := opts m; counters := counters m ++ [newTimeWindowCounter duration bucketCount];
      timeWindowMetrics := <[key := length (counters m)]> (timeWindowMetrics m) |}).

Definition getTimeWindowCounter (method typ window : string) (duration : Z) (bucketCount : nat) (m : MethodMetrics)
    : nat * MethodMetrics :=
  let key := counter_key method typ window in
  match find_counter key m with
  | Some counter => (counter, m)
  | None => create_counter key duration bucketCount m
  end.

(** [counter.Add] through the pointer. *)
Definition add_to (now : Z) (value : float64) (counter : nat) (m : MethodMetrics) : outcome MethodMetrics :=
  match counters m !! counter with
  | None => Panics
  | Some c => match Add now value c with
              | Panics => Panics
              | Returns c => Returns {| opts := opts m; counters := <[counter := c]> (counters m); timeWindowMetrics := timeWindowMetrics m |}
              end
  end.

(** One tick of [updateRates]; [order] is the order in which the map is visited. *)
Definition rate_call (now : Z) (m : MethodMetrics) (e : string * nat) : list (call vector) :=
  match Split e.1 ":", counters m !! e.2 with
  | [method; typ; window], Some counter => [SetTo rateGauge [method; typ; window] (Rate now counter)]
  | _, _ => []
  end.

Definition updateRates (now : Z) (order : list (string * nat)) (m : MethodMetrics) : list (call vector) :=
  order ≫= rate_call now m.

(** * Recording

    A context is the start time that [WithValue] has stored in it, if any. *)
Abbreviation context := (option Z).

Definition full_name (fullMethod : string) : string := (extractMethodInfo fullMethod).1.1.

(** The calls of [RecordRequest], and the method itself. *)
Definition request_calls (o : MethodMetricsOptions) (fullMethod : string) (requestSize : Z) (typ : string) : list (call vector) :=
  if negb (EnableMethodLevelMetrics o) then [] else
  let fullMethod := full_name fullMethod in
  [Inc requestCounter [fullMethod; typ]] ++
  (if EnableSizeMetrics o then [Observe requestSizeHistogram [fullMethod; typ] (of_int requestSize)] else []) ++
  (if EnableConcurrencyMetrics o then [Inc inFlightGauge [fullMethod; typ]] else []).

Definition RecordRequest (now : Z) (ctx : context) (fullMethod : string) (requestSize : Z) (typ : string) (m : MethodMetrics)
    : list (call vector) * outcome (context * MethodMetrics) :=
  let o := opts m in
  if negb (EnableMethodLevelMetrics o) then ([], Returns (ctx, m)) else
  (request_calls o fullMethod requestSize typ,
   if EnableRateMetrics o
   then let '(counter, m) := getTimeWindowCounter (full_name fullMethod) typ "1m" Minute 60 m in
        match add_to now (of_int 1) counter m with
        | Returns m => Returns (Some now, m)
        | Panics => Panics
        end
   else Returns (Some now, m)).

Section Recording.
Context {E : Type} `{!GrpcStatus E}.

Definition response_code (err : option E) : Z :=
  match err with
  | Some e => if (FromError e).2 then (FromError e).1.1 else Unknown
  | None => OK
  end.

Definition errorType (code : Z) : string :=
  if code =? DeadlineExceeded then "timeout" else if code =? Canceled then "canceled" else "other".

(** [float64(time.Since(startTime)) / float64(time.Millisecond)]. *)
Definition elapsedMs (now startTime : Z) : float64 := fdiv (of_int (time_sub now startTime)) (of_int Millisecond).

(** The mapping of codes is called when the error has been counted already. *)
Definition RecordResponse (now : Z) (ctx : context) (fullMethod : string) (responseSize : Z) (err : option E) (typ : string)
    (m : MethodMetrics) : list (call vector) * outcome unit :=
  let o := opts m in
  if negb (EnableMethodLevelMetrics o) then ([], Returns tt) else
  let fullMethod := full_name fullMethod in
  let code := response_code err in
  let errors := match err with Some _ => [Inc errorCounter [fullMethod; typ; errorType code]] | None => [] end in
  match GRPCCodeToHTTPCode o with
  | None => (errors, Panics)
  | Some httpCode =>
      (errors ++
       [Inc responseCounter [fullMethod; code_String code; typ; rune_string (i32 (httpCode code))]] ++
       (if EnableConcurrencyMetrics o then [Dec inFlightGauge [fullMethod; typ]] else []) ++
       (if EnableSizeMetrics o then [Observe responseSizeHistogram [fullMethod; typ; code_String code] (of_int responseSize)] else []) ++
       (if EnableLatencyHistogram o
        then match ctx with
             | Some startTime => [Observe latencyHistogram [fullMethod; typ; code_String code] (elapsedMs now startTime)]
             | None => []
             end
        else []),
       Returns tt)
  end.

Definition RecordPanic (fullMethod typ : string) (m : MethodMetrics) : list (call vector) :=
  if negb (EnableMethodLevelMetrics (opts m)) then [] else [Inc panicCounter [full_name fullMethod; typ]].

Definition RecordRetry (fullMethod typ : string) (m : MethodMetrics) : list (call vector) :=
  if negb (EnableMethodLevelMetrics (opts m)) then [] else [Inc retryCounter [full_name fullMethod; typ]].

Definition RecordCallback (fullMethod typ event : string) (m : MethodMetrics) : list (call vector) :=
  if negb (EnableMethodLevelMetrics (opts m)) || negb (EnableCallbackMetrics (opts m)) then []
  else [Inc callbackCounter [full_name fullMethod; typ; event]].

(** * Interceptors *)

(** The interceptor reads the clock when the request is recorded and when the response
    is; the handler runs on the context with the start time. *)
Definition UnaryServerInterceptor {A : Type} (t0 t1 : Z) (ctx : context) (FullMethod : string)
    (handler : context -> outcome (A * option E)) (m : MethodMetrics)
    : list (call vector) * MethodMetrics * outcome (A * option E) :=
  let requestSize := if EnableSizeMetrics (opts m) then 64 else 0 in
  match RecordRequest t0 ctx FullMethod requestSize "unary" m with
  | (cs, Panics) => (cs, m, Panics)
  | (cs, Returns (ctx, m)) =>
      match handler ctx with
      | Panics => (cs ++ RecordPanic FullMethod "unary" m, m, Panics)
      | Returns (resp, err) =>
          let responseSize := if EnableSizeMetrics (opts m) then 128 else 0 in
          match RecordResponse t1 ctx FullMethod responseSize err "unary" m with
          | (cs', Returns _) => (cs ++ cs', m, Returns (resp, err))
          | (cs', Panics) => (cs ++ cs' ++ RecordPanic FullMethod "unary" m, m, Panics)
          end
      end
  end.

Definition streamType (IsClientStream IsServerStream : bool) : string :=
  if IsClientStream && IsServerStream then "bidi_stream"
  else if IsClientStream then "client_stream"
  else if IsServerStream then "server_stream" else "unknown_stream".

Record metricsServerStream : Type := { fullMethod : string; recvCount : Z; sendCount : Z }.

(** [SendMsg] and [RecvMsg] when the embedded stream answers [err]; the type is that
    of a [StreamServerInfo] without fields. *)
Definition SendMsg (err : option E) (m : MethodMetrics) (s : metricsServerStream) : list (call vector) * metricsServerStream * option E :=
  ((if EnableMethodLevelMetrics (opts m) && EnableCallbackMetrics (opts m)
    then RecordCallback (fullMethod s) (streamType false false) "send" m else []),
   {| fullMethod := fullMethod s; recvCount := recvCount s; sendCount := i64 (sendCount s + 1) |}, err).

Definition RecvMsg (err : option E) (m : MethodMetrics) (s : metricsServerStream) : list (call vector) * metricsServerStream * option E :=
  ((if match err with None => true | Some _ => false end && EnableMethodLevelMetrics (opts m) && EnableCallbackMetrics (opts m)
    then RecordCallback (fullMethod s) (streamType false false) "recv" m else []),
   {| fullMethod := fullMethod s; recvCount := i64 (recvCount s + 1); sendCount := sendCount s |}, err).

(** A stream handler seen from its stream: the operations it makes, with the answers
    of the embedded stream, and its end. *)
Inductive stream_op : Type := Send (err : option E) | Recv (err : option E).

Definition stream_step (m : MethodMetrics) (acc : list (call vector) * metricsServerStream) (op : stream_op)
    : list (call vector) * metricsServerStream :=
  match op with
  | Send err => let '(cs, s, _) := SendMsg err m acc.2 in (acc.1 ++ cs, s)
  | Recv err => let '(cs, s, _) := RecvMsg err m acc.2 in (acc.1 ++ cs, s)
  end.

Definition stream_calls (m : MethodMetrics) (s : metricsServerStream) (ops : list stream_op) : list (call vector) :=
  (foldl (stream_step m) ([], s) ops).1.

Definition StreamServerInterceptor (t0 t1 : Z) (ctx : context) (FullMethod : string) (IsClientStream IsServerStream : bool)
    (ops : list stream_op) (handler : outcome (option E)) (m : MethodMetrics)
    : list (call vector) * MethodMetrics * outcome (option E) :=
  let typ := streamType IsClientStream IsServerStream in
  let wrappedStream := {| fullMethod := FullMethod; recvCount := 0; sendCount := 0 |} in
  match RecordRequest t0 ctx FullMethod 0 typ m with
  | (cs, Panics) => (cs, m, Panics)
  | (cs, Returns (ctx, m)) =>
      let cs := cs ++ stream_calls m wrappedStream ops in
      match handler with
      | Panics => (cs ++ RecordPanic FullMethod typ m, m, Panics)
      | Returns err =>
          match RecordResponse t1 ctx FullMethod 0 err typ m with
          | (cs', Returns _) => (cs ++ cs', m, Returns err)
          | (cs', Panics) => (cs ++ cs' ++ RecordPanic FullMethod typ m, m, Panics)
          end
      end
  end.

End Recording.

(** * Facts *)

Module Facts.

(** ** The ring of a time-window counter *)

(** A ring read from its index on: from the oldest entry to the newest. *)
Definition rot {A} (i : nat) (l : list A) : list A := drop i l ++ take i l.

Lemma rot_insert {A} (i : nat) (x : A) l : (i < length l)%nat ->
  rot ((i + 1) mod length l) (<[i := x]> l) = tail (rot i l) ++ [x].
Proof.
  intros Hi. unfold rot. destruct (lookup_lt_is_Some_2 l i Hi) as [y Hy].
  rewrite (drop_S l y i Hy). cbn [tail app]. rewrite <- app_assoc.
  assert (take (S i) (<[i:=x]> l) = take i l ++ [x]) as Ht.
  { rewrite (take_S_r _ _ x) by (by apply list_lookup_insert_eq). rewrite take_insert_ge by lia. done. }
  assert (drop (S i) (<[i:=x]> l) = drop (S i) l) as Hd by (apply drop_insert_lt; lia).
  destruct (decide (S i = length l)) as [He|Hne].
  - replace ((i + 1) mod length l)%nat with 0%nat by (rewrite Nat.add_1_r, He, Nat.Div0.mod_same; done).
    rewrite He, drop_all, take_0, app_nil_r, drop_0. cbn [app].
    rewrite <- Ht. rewrite take_ge; [done|]. rewrite length_insert. lia.
  - rewrite Nat.mod_small by lia. by rewrite Nat.add_1_r, Ht, Hd.
Qed.

Lemma rot_perm {A} (i : nat) (l : list A) : rot i l ≡ₚ l.
Proof. apply rotate_permutation. Qed.

(** The last [n] of a list. *)
Definition last_n {A} (n : nat) (l : list A) : list A := drop (length l - n) l.

(** A counter of [n] buckets that was given a one at each of the times [ts]. *)
Record ring (n : nat) (ts : list Z) (c : timeWindowCounter) : Prop := {
  ring_buckets : length (buckets c) = n;
  ring_timestamps : length (timestamps c) = n;
  ring_index : (index c < n)%nat;
  ring_window : window c = Minute;
  ring_times : rot (index c) (timestamps c) = drop (length ts) (replicate n None ++ (Some <$> ts));
  ring_ones : forall i t, timestamps c !! i = Some (Some t) -> buckets c !! i = Some (of_int 1) }.

Lemma ring_new n : (0 < n)%nat -> ring n [] (newTimeWindowCounter Minute n).
Proof.
  intros Hn. split; cbn; rewrite ?length_replicate; try done.
  intros i t Hi. apply lookup_replicate in Hi as [? _]. done.
Qed.

Lemma drop_snoc_tail {A} k (l : list A) x : (k < length l)%nat -> drop (S k) (l ++ [x]) = tail (drop k l) ++ [x].
Proof.
  intros Hk. destruct (lookup_lt_is_Some_2 l k Hk) as [y Hy].
  rewrite (drop_S l y k Hy), drop_app_le by lia. done.
Qed.

Lemma ring_add n ts c now : (0 < n)%nat -> ring n ts c ->
  exists c', Add now (of_int 1) c = Returns c' /\ ring n (ts ++ [now]) c'.
Proof.
  intros Hn [Hb Ht Hi Hw Hr Ho]. unfold Add. rewrite Hb. destruct (Nat.ltb_spec (index c) n) as [_|]; [|lia].
  eexists. split; [done|]. split; cbn [buckets timestamps index window]; rewrite ?length_insert; try done.
  - apply Nat.mod_upper_bound. lia.
  - rewrite <- Ht at 1. rewrite rot_insert by lia. rewrite Hr, length_app, fmap_app, app_assoc.
    change (Some <$> [now]) with [Some now]. cbn [length]. rewrite Nat.add_1_r, drop_snoc_tail; [done|]. rewrite length_app, length_replicate, length_fmap. lia.
  - intros i t Hl. destruct (decide (index c = i)) as [<-|Hne].
    + apply list_lookup_insert_eq. lia.
    + rewrite list_lookup_insert_ne in Hl by done. rewrite list_lookup_insert_ne by done. exact (Ho i t Hl).
Qed.

(** ** Its rate *)

Definition in_window (ws : Z) (o : option Z) : Z := match o with Some t => if t >? ws then 1 else 0 | None => 0 end.
Definition recent (ws : Z) (n : nat) (ts : list Z) : Z := sum_of (fun t => if t >? ws then 1 else 0) (last_n n ts).

Lemma ring_recent n ts c ws : ring n ts c -> sum_of (in_window ws) (timestamps c) = recent ws n ts.
Proof.
  intros Hc. rewrite <- (sum_of_perm _ _ _ (rot_perm (index c) (timestamps c))).
  rewrite (ring_times _ _ _ Hc), drop_app, sum_of_app, length_replicate, drop_replicate.
  rewrite sum_of_zero by (apply Forall_replicate; done). rewrite <- fmap_drop. unfold recent, last_n, sum_of.
  rewrite <- list_fmap_compose. done.
Qed.

Lemma sum_01_bounds {A} (f : A -> Z) l : (forall x, 0 <= f x <= 1) -> 0 <= sum_of f l <= Z.of_nat (length l).
Proof.
  intros Hf. induction l as [|x l IH]; [done|]. rewrite sum_of_cons. specialize (Hf x). cbn [length]. lia.
Qed.

Lemma recent_bounds ws n ts : 0 <= recent ws n ts <= Z.of_nat n.
Proof.
  unfold recent. pose proof (sum_01_bounds (fun t => if t >? ws then 1 else 0) (last_n n ts)) as H.
  unfold last_n in *. rewrite length_drop in H. assert (forall x : Z, 0 <= (if x >? ws then 1 else 0) <= 1) as H' by (intros; case_bool; lia).
  specialize (H H'). lia.
Qed.

(** Adding ones is exact as long as the sums are small. *)
Lemma add_one k : 0 <= k < 64 -> fadd (of_int k) (of_int 1) = of_int (k + 1).
Proof.
  intros Hk.
  assert ((fun n => fadd (of_int (Z.of_nat n)) (of_int 1)) <$> seq 0 64 = (fun n => of_int (Z.of_nat n + 1)) <$> seq 0 64) as H
    by (vm_compute; reflexivity).
  apply (f_equal (lookup (Z.to_nat k))) in H. rewrite !list_lookup_fmap, lookup_seq_lt in H by lia.
  cbn [fmap option_fmap option_map] in H. rewrite Nat.add_0_l, Z2Nat.id in H by lia. congruence.
Qed.

Lemma rate_loop_ones ws tss : forall bs k j, length bs = length tss ->
  (forall i t, tss !! i = Some (Some t) -> bs !! i = Some (of_int 1)) -> 0 <= k -> k + Z.of_nat (length tss) <= 64 ->
  rate_loop ws tss bs (of_int k) j = (of_int (k + sum_of (in_window ws) tss), j + sum_of (in_window ws) tss).
Proof.
  induction tss as [|ts tss IH]; intros bs k j Hl Ho Hk Hb; destruct bs as [|b bs]; try done; cbn [length] in *.
  - cbn [rate_loop]. unfold sum_of. cbn. by rewrite !Z.add_0_r.
  - assert (forall i t, tss !! i = Some (Some t) -> bs !! i = Some (of_int 1)) as Ho' by (intros i t; apply (Ho (S i) t)).
    rewrite sum_of_cons. cbn [rate_loop]. destruct ts as [t|]; cbn [in_window]; [destruct (t >? ws) eqn:Ht|].
    + assert (b = of_int 1) as -> by (pose proof (Ho 0%nat t eq_refl); by simplify_eq/=).
      rewrite add_one by lia. rewrite IH by (done || lia). f_equal; [f_equal|]; lia.
    + rewrite IH by (done || lia). done.
    + rewrite IH by (done || lia). done.
Qed.

(** What the rate gauge shows for a method whose requests came at [ts]. *)
Definition shown_rate (now : Z) (ts : list Z) : float64 :=
  let k := recent (now - Minute) 60 ts in if k =? 0 then of_int 0 else fdiv (of_int k) (of_int 60).

Lemma ring_rate now ts c : ring 60 ts c -> Rate now c = shown_rate now ts.
Proof.
  intros Hc. unfold Rate. rewrite (ring_window _ _ _ Hc).
  rewrite rate_loop_ones; [|by rewrite (ring_buckets _ _ _ Hc), (ring_timestamps _ _ _ Hc)|apply (ring_ones _ _ _ Hc)|done|].
  - rewrite (ring_recent _ _ _ _ Hc). unfold shown_rate. cbv zeta. rewrite !Z.add_0_l. done.
  - rewrite (ring_timestamps _ _ _ Hc). done.
Qed.

(** However many requests there are, the rate shown is at most one per second. *)
Lemma shown_rate_at_most_one now ts : fle (shown_rate now ts) (of_int 1) = true.
Proof.
  unfold shown_rate. cbv zeta. pose proof (recent_bounds (now - Minute) 60 ts) as Hk.
  generalize dependent (recent (now - Minute) 60 ts). intros k Hk.
  assert (forallb (fun n => fle (if Z.of_nat n =? 0 then of_int 0 else fdiv (of_int (Z.of_nat n)) (of_int 60)) (of_int 1)) (seq 0 61) = true) as H
    by (vm_compute; reflexivity).
  rewrite forallb_forall in H. specialize (H (Z.to_nat k)). rewrite Z2Nat.id in H by lia.
  apply H, in_seq. lia.
Qed.

(** ** The rate gauge after a sequence of requests

    A request is its time, method and type. *)
Abbreviation arrival := (Z * (string * string))%type.

Definition record_one (m : outcome MethodMetrics) (q : arrival) : outcome MethodMetrics :=
  match m with
  | Panics => Panics
  | Returns m => match (RecordRequest q.1 None q.2.1 0 q.2.2 m).2 with Returns (_, m) => Returns m | Panics => Panics end
  end.

Definition record_all (qs : list arrival) (m : MethodMetrics) : outcome MethodMetrics := foldl record_one (Returns m) qs.

Definition fresh (o : MethodMetricsOptions) : MethodMetrics := {| opts := o; counters := []; timeWindowMetrics := ∅ |}.

Definition key_of (q : arrival) : string := counter_key (full_name q.2.1) q.2.2 "1m".
Definition times_of (key : string) (qs : list arrival) : list Z := (filter (fun q => key_of q = key) qs).*1.

(** The counters of the map after the requests [qs]. *)
Record windows (o : MethodMetricsOptions) (qs : list arrival) (m : MethodMetrics) : Prop := {
  windows_opts : opts m = o;
  windows_some k id : timeWindowMetrics m !! k = Some id ->
    times_of k qs <> [] /\ exists c, counters m !! id = Some c /\ ring 60 (times_of k qs) c;
  windows_none k : timeWindowMetrics m !! k = None -> times_of k qs = [];
  windows_inj k1 k2 id : timeWindowMetrics m !! k1 = Some id -> timeWindowMetrics m !! k2 = Some id -> k1 = k2 }.

Lemma times_of_snoc k qs q : times_of k (qs ++ [q]) = times_of k qs ++ (if decide (key_of q = k) then [q.1] else []).
Proof. unfold times_of. rewrite filter_app, fmap_app. f_equal. rewrite filter_cons. by case_decide. Qed.

(** Adding through the pointer of a key's counter. *)
Lemma windows_add o qs m q id c : windows o qs m -> timeWindowMetrics m !! key_of q = Some id ->
  counters m !! id = Some c -> ring 60 (times_of (key_of q) qs) c ->
  exists m', add_to q.1 (of_int 1) id m = Returns m' /\ windows o (qs ++ [q]) m'.
Proof.
  intros Hm Hk Hc Hring. destruct (ring_add 60 _ c q.1 ltac:(lia) Hring) as (c' & Ha & Hring').
  unfold add_to. rewrite Hc, Ha. eexists. split; [done|].
  split; cbn [opts counters timeWindowMetrics]; [exact (windows_opts _ _ _ Hm)| | |exact (windows_inj _ _ _ Hm)].
  - intros k id' Hk'. rewrite times_of_snoc. destruct (windows_some _ _ _ Hm k id' Hk') as (Hne & c0 & Hc0 & Hr0).
    case_decide as He.
    + subst k. assert (id' = id) as -> by congruence. split; [by destruct (times_of _ _)|].
      exists c'. split; [|done]. apply list_lookup_insert_eq. by apply lookup_lt_Some in Hc.
    + rewrite app_nil_r. split; [done|]. exists c0. split; [|done].
      rewrite list_lookup_insert_ne; [done|]. intros ->. by pose proof (windows_inj _ _ _ Hm _ _ _ Hk Hk').
  - intros k Hn. rewrite times_of_snoc, (windows_none _ _ _ Hm k Hn). case_decide; [congruence|done].
Qed.

Lemma windows_record o qs m q : EnableMethodLevelMetrics o = true -> EnableRateMetrics o = true -> windows o qs m ->
  exists m', record_one (Returns m) q = Returns m' /\ windows o (qs ++ [q]) m'.
Proof.
  intros Hl He Hm. unfold record_one, RecordRequest. rewrite (windows_opts _ _ _ Hm), Hl, He. cbn [negb snd].
  unfold getTimeWindowCounter, find_counter. change (counter_key (full_name q.2.1) q.2.2 "1m") with (key_of q).
  destruct (timeWindowMetrics m !! key_of q) as [id|] eqn:Hk.
  - destruct (windows_some _ _ _ Hm _ _ Hk) as (_ & c & Hc & Hring).
    destruct (windows_add o qs m q id c Hm Hk Hc Hring) as (m' & -> & Hm'). by exists m'.
  - cbn [create_counter].
    (* the map with the new, empty counter; the key's history is still empty *)
    set (m1 := {| opts := opts m; counters := counters m ++ [newTimeWindowCounter Minute 60];
                  timeWindowMetrics := <[key_of q := length (counters m)]> (timeWindowMetrics m) |}).
    pose proof (windows_none _ _ _ Hm _ Hk) as Hn.
    assert (exists m', add_to q.1 (of_int 1) (length (counters m)) m1 = Returns m' /\ windows o (qs ++ [q]) m') as (m' & -> & Hm').
    { destruct (ring_add 60 [] _ q.1 ltac:(lia) (ring_new 60 ltac:(lia))) as (c' & Ha & Hring').
      unfold add_to, m1. cbn [counters]. rewrite lookup_app_r, Nat.sub_diag by lia. cbn [lookup list_lookup]. rewrite Ha.
      eexists. split; [done|]. split; cbn [opts counters timeWindowMetrics]; [exact (windows_opts _ _ _ Hm)| | |].
      - intros k id. rewrite times_of_snoc. destruct (decide (key_of q = k)) as [<-|Hne].
        + rewrite lookup_insert_eq. intros [= <-]. rewrite Hn. split; [done|]. exists c'. split; [|done].
          rewrite list_lookup_insert_eq; [done|]. rewrite length_app. cbn. lia.
        + rewrite lookup_insert_ne, app_nil_r by done. intros Hid.
          destruct (windows_some _ _ _ Hm k id Hid) as (Hne' & c & Hc & Hr). split; [done|]. exists c. split; [|done].
          apply lookup_lt_Some in Hc as Hlt. rewrite list_lookup_insert_ne by lia. by rewrite lookup_app_l.
      - intros k. rewrite times_of_snoc. destruct (decide (key_of q = k)) as [<-|Hne]; [by rewrite lookup_insert_eq|].
        rewrite lookup_insert_ne, app_nil_r by done. apply (windows_none _ _ _ Hm).
      - intros k1 k2 id. assert (forall k, timeWindowMetrics m !! k = Some (length (counters m)) -> False) as Hlt.
        { intros k Hid. destruct (windows_some _ _ _ Hm _ _ Hid) as (_ & c & Hc & _). apply lookup_lt_Some in Hc. lia. }
        destruct (decide (key_of q = k1)) as [<-|H1']; destruct (decide (key_of q = k2)) as [<-|H2'];
          rewrite ?lookup_insert_eq, ?lookup_insert_ne by done; try done.
        + intros [= <-] Hid. by destruct (Hlt k2).
        + intros Hid [= <-]. by destruct (Hlt k1).
        + apply (windows_inj _ _ _ Hm). }
    by exists m'.
Qed.

Lemma windows_all o qs : EnableMethodLevelMetrics o = true -> EnableRateMetrics o = true ->
  exists m, record_all qs (fresh o) = Returns m /\ windows o qs m.
Proof.
  intros Hl He. induction qs as [|q qs IH] using rev_ind.
  - exists (fresh o). split; [done|]. by split; try done; intros ? *; cbn; rewrite lookup_empty.
  - destruct IH as (m & Hr & Hm). destruct (windows_record o qs m q Hl He Hm) as (m' & Hq & Hm').
    exists m'. unfold record_all in *. by rewrite foldl_app, Hr.
Qed.

(** ** Keys *)

Definition no_colon (q : arrival) : Prop :=
  contains_byte ":" (full_name q.2.1) = false /\ contains_byte ":" q.2.2 = false.

Lemma Split_key q : no_colon q -> Split (key_of q) ":" = [full_name q.2.1; q.2.2; "1m"].
Proof.
  intros [H1' H2'].
  change (key_of q) with (full_name q.2.1 ++ String ":" (q.2.2 ++ String ":" "1m"))%string. by rewrite !Split_app.
Qed.

Definition times_at (method typ : string) (qs : list arrival) : list Z :=
  (filter (fun q => full_name q.2.1 = method /\ q.2.2 = typ) qs).*1.

Lemma times_of_key qs q : Forall no_colon qs -> no_colon q ->
  times_of (key_of q) qs = times_at (full_name q.2.1) q.2.2 qs.
Proof.
  intros Hqs Hq. unfold times_of, times_at. f_equal. induction Hqs as [|q' qs Hq' _ IH]; [done|].
  rewrite !filter_cons, IH.
  destruct (decide (key_of q' = key_of q)) as [He|Hne]; destruct (decide (full_name q'.2.1 = full_name q.2.1 /\ q'.2.2 = q.2.2)) as [[Ha Hb]|Hn]; try done.
  - apply (f_equal (fun s => Split s ":")) in He. rewrite !Split_key in He by done. injection He as Ha Hb. by destruct Hn.
  - destruct Hne. unfold key_of. by rewrite Ha, Hb.
Qed.

Lemma times_of_in k qs : times_of k qs <> [] -> exists q, q ∈ qs /\ key_of q = k.
Proof.
  unfold times_of. destruct (filter _ qs) as [|q l] eqn:Hf; [done|]. intros _. exists q.
  assert (q ∈ q :: l) as Hq by (by left). rewrite <- Hf in Hq. by apply list_elem_of_filter in Hq as [? ?].
Qed.

(** After any sequence of requests, a tick sets the rate of exactly the methods and types that had one, to the number of their last sixty requests that came in the last minute divided by sixty seconds; it is never more than one request per second. *)
Theorem rate_gauge_spec (o : MethodMetricsOptions) (qs : list arrival) (now : Z) (method typ : string) (x : float64)
    (Hl : EnableMethodLevelMetrics o = true) (He : EnableRateMetrics o = true) (Hqs : Forall no_colon qs) :
  exists m, record_all qs (fresh o) = Returns m /\
    forall order, order ≡ₚ map_to_list (timeWindowMetrics m) ->
      (SetTo rateGauge [method; typ; "1m"] x ∈ updateRates now order m <->
       times_at method typ qs <> [] /\ x = shown_rate now (times_at method typ qs)) /\
      (SetTo rateGauge [method; typ; "1m"] x ∈ updateRates now order m -> fle x (of_int 1) = true).
Proof.
  destruct (windows_all o qs Hl He) as (m & Hr & Hm). exists m. split; [done|]. intros order Ho.
  assert (SetTo rateGauge [method; typ; "1m"] x ∈ updateRates now order m <->
          times_at method typ qs <> [] /\ x = shown_rate now (times_at method typ qs)) as Hiff;
    [|split; [done|]; intros [_ ->]%Hiff; apply shown_rate_at_most_one].
  unfold updateRates. rewrite list_elem_of_bind. split.
  - intros ([k id] & Hin & Hk). rewrite Ho in Hk. apply elem_of_map_to_list in Hk.
    destruct (windows_some _ _ _ Hm _ _ Hk) as (Hne & c & Hc & Hring). destruct (times_of_in _ _ Hne) as (q & Hq & <-).
    rewrite Forall_forall in Hqs. pose proof (Hqs q Hq) as Hnc. rewrite <- Forall_forall in Hqs.
    unfold rate_call in Hin. cbn [fst snd] in Hin. rewrite (Split_key q Hnc), Hc, (ring_rate now _ c Hring) in Hin.
    apply list_elem_of_singleton in Hin. injection Hin as -> -> ->. by rewrite <- times_of_key.
  - intros [Hne ->]. unfold times_at in Hne. destruct (filter _ qs) as [|q l] eqn:Hf; [done|].
    assert (q ∈ q :: l) as Hq by (by left). rewrite <- Hf in Hq. apply list_elem_of_filter in Hq as [[<- <-] Hq].
    rewrite Forall_forall in Hqs. pose proof (Hqs q Hq) as Hnc. rewrite <- Forall_forall in Hqs.
    rewrite <- times_of_key by done. destruct (timeWindowMetrics m !! key_of q) as [id|] eqn:Hk.
    + destruct (windows_some _ _ _ Hm _ _ Hk) as (_ & c & Hc & Hring). exists (key_of q, id). split.
      * unfold rate_call. cbn [fst snd]. rewrite (Split_key q Hnc), Hc, (ring_rate now _ c Hring). by left.
      * rewrite Ho. by apply elem_of_map_to_list.
    + apply (windows_none _ _ _ Hm) in Hk. rewrite times_of_key in Hk by done. unfold times_at in Hk. by rewrite Hf in Hk.
Qed.

Definition sample_arrivals : list arrival :=
  [(1 * Second, ("/a.B/Get", "unary")); (2 * Second, ("/a.B/Put", "unary")); (3 * Second, ("/a.B/Get", "unary"))].

Lemma rate_gauge_spec_witness :
  exists m, record_all sample_arrivals (fresh DefaultMethodMetricsOptions) = Returns m /\
    SetTo rateGauge ["/a.B/Get"; "unary"; "1m"] (fdiv (of_int 2) (of_int 60)) ∈
      updateRates (5 * Second) (map_to_list (timeWindowMetrics m)) m.
Proof.
  destruct (rate_gauge_spec DefaultMethodMetricsOptions sample_arrivals (5 * Second) "/a.B/Get" "unary"
              (fdiv (of_int 2) (of_int 60)) eq_refl eq_refl) as (m & Hr & Hm).
  - repeat constructor.
  - exists m. split; [exact Hr|]. apply (Hm _ (reflexivity _)). split; [discriminate|]. vm_compute. reflexivity.
Defined.

(** Two requests that are the first for their method at the same time: each goroutine
    looks the counter up before the other has entered one, the second entry replaces
    the first, and one of the requests is not in the rate. *)
Lemma racing_first_requests o key t1 t2 :
  exists m1 m2 m3 m4 c,
    find_counter key (fresh o) = None /\
    create_counter key Minute 60 (fresh o) = (0%nat, m1) /\ add_to t1 (of_int 1) 0 m1 = Returns m2 /\
    create_counter key Minute 60 m2 = (1%nat, m3) /\ add_to t2 (of_int 1) 1 m3 = Returns m4 /\
    timeWindowMetrics m4 !! key = Some 1%nat /\ counters m4 !! 1%nat = Some c /\ ring 60 [t2] c.
Proof.
  destruct (ring_add 60 [] _ t2 ltac:(lia) (ring_new 60 ltac:(lia))) as (c & Hc & Hring).
  eexists _, _, _, _, c. split; [apply lookup_empty|]. split; [reflexivity|]. split; [reflexivity|].
  split; [reflexivity|]. split.
  - unfold add_to.
    match goal with |- context [counters ?m !! 1%nat] => replace (counters m !! 1%nat) with (Some (newTimeWindowCounter Minute 60)) by reflexivity end.
    rewrite Hc. reflexivity.
  - cbn [timeWindowMetrics counters]. split; [apply lookup_insert_eq|]. by split.
Qed.

(** ** Labels *)

Section Labels.
Context {E : Type} `{!GrpcStatus E}.

Lemma request_calls_labelled o f size typ : Forall (well_labelled label_names) (request_calls o f size typ).
Proof. unfold request_calls. repeat case_match; repeat constructor. Qed.

Lemma response_calls_labelled now ctx f size (err : option E) typ m :
  Forall (well_labelled label_names) (RecordResponse now ctx f size err typ m).1.
Proof. unfold RecordResponse. repeat case_match; repeat constructor. Qed.

Lemma panic_calls_labelled f typ m : Forall (well_labelled label_names) (RecordPanic f typ m).
Proof. unfold RecordPanic. case_match; repeat constructor. Qed.

(** The label [http_code] is the character with the number of the HTTP status, never
    the number. *)
Lemma http_code_label_garbled code : 0 <= code <= 16 ->
  rune_string (i32 (defaultGRPCCodeToHTTPCode code)) <> itoa (defaultGRPCCodeToHTTPCode code).
Proof.
  intros Hc. assert (Forall (fun n => rune_string (i32 (defaultGRPCCodeToHTTPCode (Z.of_nat n))) <> itoa (defaultGRPCCodeToHTTPCode (Z.of_nat n))) (seq 0 17)) as H
    by (repeat (constructor; [vm_compute; discriminate|]); constructor).
  rewrite Forall_forall in H. specialize (H (Z.to_nat code)). rewrite Z2Nat.id in H by lia. apply H, elem_of_seq. lia.
Qed.

(** ** Requests under way

    A request is its method and the time it starts; a handler that returns gives an
    error or none, at a time. *)
Definition unary_probe (m : MethodMetrics) : probe vector (string * Z) (option E * Z) :=
  let size s := if EnableSizeMetrics (opts m) then s else 0 in {|
  enter q := request_calls (opts m) q.1 (size 64) "unary";
  leave q a := (RecordResponse a.2 (if EnableMethodLevelMetrics (opts m) then Some q.2 else None) q.1 (size 128) a.1 "unary" m).1;
  unwound q := RecordPanic q.1 "unary" m |}.

(** The interceptor's calls are those of the probe. *)
Lemma interceptor_calls {A : Type} t0 t1 f (handler : context -> outcome (A * option E)) m (Hh : GRPCCodeToHTTPCode (opts m) <> None) :
  forall ctx' m', (RecordRequest t0 None f (if EnableSizeMetrics (opts m) then 64 else 0) "unary" m).2 = Returns (ctx', m') -> opts m' = opts m ->
  (UnaryServerInterceptor t0 t1 None f handler m).1.1 =
    enter (unary_probe m) (f, t0) ++
    match handler ctx' with
    | Returns (_, err) => leave (unary_probe m) (f, t0) (err, t1)
    | Panics => unwound (unary_probe m) (f, t0)
    end.
Proof.
  intros ctx' m' Hr Ho. unfold UnaryServerInterceptor, unary_probe. cbn [enter leave unwound fst snd].
  unfold RecordRequest in *. destruct (EnableMethodLevelMetrics (opts m)) eqn:Hl; cbn [negb snd] in *.
  - assert (ctx' = Some t0) as ->.
    { destruct (EnableRateMetrics (opts m)); [|congruence]. destruct (getTimeWindowCounter _ _ _ _ _ _) as [id m1].
      destruct (add_to t0 (of_int 1) id m1); congruence. }
    rewrite Hr. destruct (handler (Some t0)) as [[a err]|]; [|unfold RecordPanic; by rewrite Ho, Hl].
    unfold RecordResponse. rewrite Ho, Hl. cbn [negb]. by destruct (GRPCCodeToHTTPCode (opts m)).
  - injection Hr as <- <-. unfold request_calls, RecordResponse, RecordPanic. rewrite Hl. cbn [negb].
    by destruct (handler None) as [[a err]|].
Qed.

(** The interceptor counts on the in-flight gauge, and leaks one for each panic. *)
Lemma unary_probe_counts m : EnableMethodLevelMetrics (opts m) = true -> EnableConcurrencyMetrics (opts m) = true ->
  GRPCCodeToHTTPCode (opts m) <> None ->
  counts inFlightGauge (fun q => [full_name q.1; "unary"]) true (unary_probe m).
Proof.
  intros Hl Hc Hh. split; intros; unfold at_label; cbn [enter leave unwound unary_probe].
  - unfold request_calls. rewrite Hl, Hc. cbn [negb]. destruct (EnableSizeMetrics (opts m)); by net_calc.
  - unfold RecordResponse. rewrite Hl, Hc. cbn [negb]. destruct (GRPCCodeToHTTPCode (opts m)) as [h|]; [|done]. cbn [fst].
    destruct a.1; destruct (EnableSizeMetrics (opts m)); destruct (EnableLatencyHistogram (opts m)); by net_calc.
  - unfold RecordPanic. rewrite Hl. cbn [negb]. by net_calc.
Qed.

Lemma probe_no_set m : (forall q, Forall (fun c => is_set c = false) (enter (unary_probe m) q)) /\
  (forall q a, Forall (fun c => is_set c = false) (leave (unary_probe m) q a)) /\
  (forall q, Forall (fun c => is_set c = false) (unwound (unary_probe m) q)).
Proof.
  repeat split; intros; cbn [enter leave unwound unary_probe]; unfold request_calls, RecordResponse, RecordPanic;
    repeat case_match; repeat constructor.
Qed.

(** However the requests of any number of goroutines interleave, when none of them is in the middle of its bookkeeping the in-flight gauge of a method is the number of its requests in their handlers plus the number of its handlers that have panicked: those stay on the gauge for ever. *)
Theorem in_flight_gauge {R : Type} `{!Registry vector R} (m : MethodMetrics) (es : list (event (string * Z) (option E * Z)))
    (w : world vector (string * Z)) (method : string)
    (Hl : EnableMethodLevelMetrics (opts m) = true) (Hc : EnableConcurrencyMetrics (opts m) = true)
    (Hh : GRPCCodeToHTTPCode (opts m) <> None)
    (Hr : run (unary_probe m) es no_calls = Some w) (Hq : quiet w) :
  let lab := fun q : string * Z => [full_name q.1; "unary"] in
  value inFlightGauge [method; "unary"] (apply_all (made w) empty_registry) =
    in_handlers lab [method; "unary"] w + sum_of (at_label lab [method; "unary"]) (panicked w).
Proof.
  intros lab. destruct (probe_no_set m) as (H1' & H2' & H3').
  apply (gauge_is_underway inFlightGauge lab true (unary_probe m) (unary_probe_counts m Hl Hc Hh) _ es w Hr Hq).
  eapply (run_made _ (unary_probe m) es H1' H2' H3'); [| |exact Hr]; [constructor|]. apply map_Forall_empty.
Qed.

End Labels.

(** ** Collectors *)

(** A second collector with the same options on the same registry panics. *)
Lemma second_collector_panics {G} `{!Registerer G} o g m g' :
  NewMethodMetrics o g = Returns (m, g') -> NewMethodMetrics o g' = Panics.
Proof.
  unfold NewMethodMetrics. destruct (MustRegister _ g) as [g1|] eqn:Hr; [|done]. intros [= _ <-].
  destruct (MustRegister_registers _ _ _ Hr) as [_ Hf]. unfold vectors in *. cbn [app fmap list_fmap] in *.
  apply Forall_cons in Hf as [Hd _]. cbn [MustRegister]. by rewrite Register_duplicate.
Qed.

(** Whatever the type of a stream, its messages are counted under [unknown_stream]. *)
Lemma messages_of_unknown_type {E : Type} (err : option E) m s c :
  c ∈ (SendMsg err m s).1.1 \/ c ∈ (RecvMsg err m s).1.1 -> exists method event, labels_of c = [method; "unknown_stream"; event].
Proof.
  unfold SendMsg, RecvMsg, RecordCallback. cbn [fst].
  intros [H|H]; repeat case_match; try (by apply not_elem_of_nil in H); apply list_elem_of_singleton in H as ->; cbn [labels_of]; eauto.
Qed.

(** ** Witnesses *)

(** Two requests interleaved; the first handler panics, the second is running. *)
Definition sample_events : list (event (string * Z) (option Z * Z)) :=
  [Arrive 0 ("/a.B/Get", 0); Arrive 1 ("/a.B/Get", 5); Call 0; Call 1; Call 1; Call 0; Call 0; Call 1; Panic 0; Call 0; Gone 0].

Lemma in_flight_gauge_witness : exists w,
  run (@unary_probe Z numbered (fresh DefaultMethodMetricsOptions)) sample_events no_calls = Some w /\
  @value _ _ _ (logged vector) inFlightGauge ["/a.B/Get"; "unary"] (@apply_all _ _ _ (logged vector) (made w) []) = 2.
Proof.
  eexists. split; [vm_compute; reflexivity|].
  rewrite (@in_flight_gauge Z numbered _ (logged vector) (fresh DefaultMethodMetricsOptions) sample_events _ "/a.B/Get");
    [vm_compute; reflexivity|reflexivity|reflexivity|discriminate|vm_compute; reflexivity|].
  apply quietb_quiet. vm_compute. reflexivity.
Defined.

End Facts.
