(* ===== verification/ClientMetrics.v ===== *)
(** Metrics of gRPC clients and servers: [src/observability/metrics/client.go] and
    [server.go], with [src/observability/address.go].

    The full name of a metric is made by the Prometheus library, a parameter; so is
    the transport behind an invoker or a stream, which is what it answers. *)
From S2P Require Import Prelude Float64 GoString Rpc Prom.

(** * Client metrics *)

Inductive vector : Type :=
| RequestDuration | RequestsTotal | RequestsInFlight | RequestsFailures | ConnectionsTotal | ConnectionsActive
| StreamsActive | StreamMessages | RetryAttempts | RequestSizes | ResponseSizes | CircuitBreakers.

#[export] Instance vector_eq_dec : EqDecision vector.
Proof. solve_decision. Defined.

Record ClientMetricsOptions : Type := {
  Namespace : string; Subsystem : string; ConstLabels : gmap string string;
  DurationBuckets : list float64; RequestSizeBuckets : list float64; ResponseSizeBuckets : list float64 }.

Definition DefaultClientMetricsOptions : ClientMetricsOptions := {|
  Namespace := "grpc"; Subsystem := "client"; ConstLabels := ∅;
  DurationBuckets := [lit 1 1000; lit 5 1000; lit 1 100; lit 25 1000; lit 5 100; lit 1 10; lit 25 100; lit 5 10; of_int 1;
                      lit 25 10; of_int 5; of_int 10];
  RequestSizeBuckets := of_int <$> [128; 256; 512; 1024; 4096; 16384; 65536; 262144; 1048576];
  ResponseSizeBuckets := of_int <$> [128; 256; 512; 1024; 4096; 16384; 65536; 262144; 1048576; 4194304] |}.

Definition metric_name (v : vector) : string :=
  match v with
  | RequestDuration => "request_duration_seconds" | RequestsTotal => "requests_total"
  | RequestsInFlight => "requests_in_flight" | RequestsFailures => "request_failures_total"
  | ConnectionsTotal => "connections_total" | ConnectionsActive => "connections_active"
  | StreamsActive => "streams_active" | StreamMessages => "stream_messages_total"
  | RetryAttempts => "retry_attempts_total" | RequestSizes => "request_size_bytes"
  | ResponseSizes => "response_size_bytes" | CircuitBreakers => "circuit_breaker_state"
  end.

Definition label_names (v : vector) : list string :=
  match v with
  | RequestDuration | RequestsFailures => ["method"; "service"; "status"]
  | ConnectionsTotal | ConnectionsActive => ["target"]
  | StreamMessages => ["method"; "service"; "direction"]
  | CircuitBreakers => ["target"; "circuit_name"]
  | _ => ["method"; "service"]
  end.

(** The buckets of the histograms. *)
Definition metric_buckets (opts : ClientMetricsOptions) (v : vector) : option (list float64) :=
  match v with
  | RequestDuration => Some (DurationBuckets opts) | RequestSizes => Some (RequestSizeBuckets opts)
  | ResponseSizes => Some (ResponseSizeBuckets opts) | _ => None
  end.

(** The vectors in the order of their creation, which registers them. *)
Definition all_vectors : list vector :=
  [RequestDuration; RequestsTotal; RequestsInFlight; RequestsFailures; ConnectionsTotal; ConnectionsActive;
   StreamsActive; StreamMessages; RetryAttempts; RequestSizes; ResponseSizes; CircuitBreakers].

Section Creation.
Context {G : Type} `{!Registerer G}.
Variable BuildFQName : string -> string -> string -> string.

Definition desc_of (opts : ClientMetricsOptions) (v : vector) : desc :=
  {| fqName := BuildFQName (Namespace opts) (Subsystem opts) (metric_name v); constLabels := ConstLabels opts;
     variableLabels := label_names v |}.

(** What is created is known by its options; [promauto] panics as [MustRegister]. *)
Definition createClientMetrics (opts : ClientMetricsOptions) (g : G) : outcome (ClientMetricsOptions * G) :=
  match MustRegister (desc_of opts <$> all_vectors) g with
  | Returns g => Returns (opts, g)
  | Panics => Panics
  end.

(** The package's variables [once] and [client]. [once.Do] runs its function once,
    even if it panics. *)
Record globals : Type := { once : bool; client : option ClientMetricsOptions }.

Definition GetClientMetrics (opts : ClientMetricsOptions) (s : globals * G) : globals * G * outcome (option ClientMetricsOptions) :=
  let '(s, g) := s in
  if once s then (s, g, Returns (client s))
  else match createClientMetrics opts g with
       | Returns (m, g) => ({| once := true; client := Some m |}, g, Returns (Some m))
       | Panics => ({| once := true; client := client s |}, g, Panics)
       end.

End Creation.

(** * Interceptors of the client *)

Definition splitMethodName (fullMethodName : string) : outcome (string * string) := split_last fullMethodName.

Section Interceptors.
Context {E : Type} `{!GrpcStatus E}.

Definition statusCode (err : option E) : string :=
  match err with
  | None => "OK"
  | Some e => if (FromError e).2 then code_String (FromError e).1.1 else "UNKNOWN"
  end.

(** [Observe(float64(sizer.Size()))] when the message can be measured. *)
Definition observe_size (v : vector) (method service : string) (size : option Z) : list (call vector) :=
  match size with Some n => [Observe v [method; service] (of_int n)] | None => [] end.

Definition seconds_since (t1 t0 : Z) : float64 := Seconds (time_sub t1 t0).

(** The calls before the invoker and after it; the gauge goes down in a deferred
    call, also when the invoker panics. *)
Definition request_calls (method service : string) (req_size : option Z) : list (call vector) :=
  [Inc RequestsTotal [method; service]; Inc RequestsInFlight [method; service]] ++ observe_size RequestSizes method service req_size.

Definition reply_calls (t0 t1 : Z) (method service : string) (err : option E) (reply_size : option Z) : list (call vector) :=
  match err with Some _ => [Inc RequestsFailures [method; service; statusCode err]] | None => [] end ++
  [Observe RequestDuration [method; service; statusCode err] (seconds_since t1 t0)] ++
  observe_size ResponseSizes method service reply_size ++
  [Dec RequestsInFlight [method; service]].

(** [service, method := splitMethodName(method)] assigns the parameter [method],
    which is declared in the same block: the invoker gets the bare name. *)
Definition UnaryClientInterceptor (t0 t1 : Z) (method : string) (req_size reply_size : option Z)
    (invoker : string -> outcome (option E)) : list (call vector) * outcome (option E) :=
  match splitMethodName method with
  | Panics => ([], Panics)
  | Returns (service, method) =>
      match invoker method with
      | Panics => (request_calls method service req_size ++ [Dec RequestsInFlight [method; service]], Panics)
      | Returns err => (request_calls method service req_size ++ reply_calls t0 t1 method service err reply_size, Returns err)
      end
  end.

(** A stream under observation; the embedded stream is in the answers of the
    operations below. *)
Record monitoredClientStream : Type := { method : string; service : string; startTime : Z; finished : bool }.

Definition StreamClientInterceptor (t0 t1 : Z) (name : string) (streamer : string -> outcome (option E))
    : list (call vector) * outcome (monitoredClientStream + E) :=
  match splitMethodName name with
  | Panics => ([], Panics)
  | Returns (svc, mth) =>
      let cs := [Inc RequestsTotal [mth; svc]] in
      match streamer mth with
      | Panics => (cs, Panics)
      | Returns (Some e) =>
          (cs ++ [Inc RequestsFailures [mth; svc; statusCode (Some e)];
                  Observe RequestDuration [mth; svc; statusCode (Some e)] (seconds_since t1 t0)], Returns (inr e))
      | Returns None =>
          (cs ++ [Inc StreamsActive [mth; svc]],
           Returns (inl {| method := mth; service := svc; startTime := t0; finished := false |}))
      end
  end.

Definition finish (s : monitoredClientStream) : monitoredClientStream :=
  {| method := method s; service := service s; startTime := startTime s; finished := true |}.

Definition SendMsg (size : option Z) (err : option E) (s : monitoredClientStream) : list (call vector) :=
  observe_size RequestSizes (method s) (service s) size ++
  match err with None => [Inc StreamMessages [method s; service s; "sent"]] | Some _ => [] end.

Definition RecvMsg (now : Z) (size : option Z) (err : option E) (s : monitoredClientStream) : list (call vector) * monitoredClientStream :=
  match err with
  | None => ([Inc StreamMessages [method s; service s; "received"]] ++ observe_size ResponseSizes (method s) (service s) size, s)
  | Some _ =>
      if finished s then ([], s)
      else ([Dec StreamsActive [method s; service s];
             Observe RequestDuration [method s; service s; statusCode err] (seconds_since now (startTime s))] ++
            (if (statusCode err =? "OK")%string then [] else [Inc RequestsFailures [method s; service s; statusCode err]]),
            finish s)
  end.

Definition CloseSend (now : Z) (err : option E) (s : monitoredClientStream) : list (call vector) * monitoredClientStream :=
  if finished s then ([], s)
  else ([Dec StreamsActive [method s; service s];
         Observe RequestDuration [method s; service s; statusCode err] (seconds_since now (startTime s))], finish s).

(** An operation on a stream with the answer of the embedded stream. *)
Inductive stream_op : Type :=
| Send (size : option Z) (err : option E) | Recv (now : Z) (size : option Z) (err : option E) | Half_close (now : Z) (err : option E).

Definition stream_step (op : stream_op) (s : monitoredClientStream) : list (call vector) * monitoredClientStream :=
  match op with
  | Send size err => (SendMsg size err s, s)
  | Recv now size err => RecvMsg now size err s
  | Half_close now err => CloseSend now err s
  end.

(** Any number of streams: opening one, or an operation on the stream [i]. *)
Inductive streams_event : Type :=
| Open (t0 t1 : Z) (name : string) (answer : option E) | On (i : nat) (op : stream_op).

Record streams_world : Type := { streams : list monitoredClientStream; calls : list (call vector) }.

Definition streams_step (e : streams_event) (w : streams_world) : option streams_world :=
  match e with
  | Open t0 t1 name answer =>
      match StreamClientInterceptor t0 t1 name (fun _ => Returns answer) with
      | (cs, Returns (inl s)) => Some {| streams := streams w ++ [s]; calls := calls w ++ cs |}
      | (cs, _) => Some {| streams := streams w; calls := calls w ++ cs |}
      end
  | On i op =>
      match streams w !! i with
      | None => None
      | Some s => let '(cs, s) := stream_step op s in Some {| streams := <[i := s]> (streams w); calls := calls w ++ cs |}
      end
  end.

Fixpoint streams_run (es : list streams_event) (w : streams_world) : option streams_world :=
  match es with [] => Some w | e :: es => match streams_step e w with Some w => streams_run es w | None => None end end.

End Interceptors.
Arguments streams_event E : clear implicits.
Arguments stream_op E : clear implicits.

(** ** The other metrics *)

Definition IncrementConnectionsMetrics (target : string) : list (call vector) := [Inc ConnectionsTotal [target]; Inc ConnectionsActive [target]].
Definition DecrementConnectionsMetrics (target : string) : list (call vector) := [Dec ConnectionsActive [target]].
Definition SetCircuitBreakerState (target name : string) (state : Z) : list (call vector) := [SetTo CircuitBreakers [target; name] (of_int state)].
Definition IncrementRetryMetrics (fullMethod : string) : outcome (list (call vector)) :=
  match splitMethodName fullMethod with
  | Panics => Panics
  | Returns (service, method) => Returns [Inc RetryAttempts [method; service]]
  end.

(** * Server metrics *)

(** [GetOutboundIP]: [dial] is the local address of a connected UDP socket, if it can
    be had. *)
Definition GetOutboundIP (dial : option string) : string := match dial with None => "" | Some ip => ip end.

Module Server.

Inductive vec : Type := reqGauge | errCnt | summary.

#[global] Instance vec_eq_dec : EqDecision vec.
Proof. solve_decision. Defined.

Record ServerMetricsBuilder : Type := { Namespace : string; Subsystem : string; Name : string; Help : string; Port : string }.

Definition metric_name (b : ServerMetricsBuilder) (v : vec) : string :=
  (Name b ++ match v with
             | reqGauge => "_in_flight_requests" | errCnt => "_errors_total" | summary => "_response_latency_milliseconds"
             end)%string.

Section Build.
Context {G : Type} `{!Registerer G}.
Variable BuildFQName : string -> string -> string -> string.

Definition desc_of (b : ServerMetricsBuilder) (v : vec) : desc :=
  {| fqName := BuildFQName (Namespace b) (Subsystem b) (metric_name b v); constLabels := ∅; variableLabels := ["method"] |}.

(** Which of the interceptor's vectors the registry has taken. *)
Definition Build (b : ServerMetricsBuilder) (g : G) : G * list bool := register_logged (desc_of b <$> [reqGauge; errCnt; summary]) g.

End Build.

Section Interceptor.
Context {E : Type}.

(** The address that [Build] puts together is not a label of any vector. *)
Definition enter_calls (FullMethod : string) : list (call vec) := [Inc reqGauge [FullMethod]].

(** The deferred function; [err] is the named result, nil when the handler panics. *)
Definition deferred_calls (t0 t1 : Z) (FullMethod : string) (err : option E) : list (call vec) :=
  [Dec reqGauge [FullMethod]] ++
  match err with Some _ => [Inc errCnt [FullMethod]] | None => [] end ++
  [Observe summary [FullMethod] (of_int (Z.quot (time_sub t1 t0) Millisecond))].

Definition interceptor {A : Type} (t0 t1 : Z) (FullMethod : string) (handler : outcome (A * option E))
    : list (call vec) * outcome (A * option E) :=
  match handler with
  | Panics => (enter_calls FullMethod ++ deferred_calls t0 t1 FullMethod None, Panics)
  | Returns (resp, err) => (enter_calls FullMethod ++ deferred_calls t0 t1 FullMethod err, Returns (resp, err))
  end.

End Interceptor.
End Server.

(** * Facts *)

Module Facts.

Section Client.
Context {E : Type} `{!GrpcStatus E}.

(** ** The method name that the invoker gets *)

Definition full_method (svc m : string) : string := String "/" (svc ++ String "/" m).

(** A server answers a method name without a leading slash with an error
    ([Unimplemented], malformed method name): [conn] is any connection that does. *)
Definition refuses_bare_names (conn : string -> outcome (option E)) : Prop :=
  forall name, HasPrefix name "/" = false -> exists e, conn name = Returns (Some e).

Lemma no_slash_no_prefix m : contains_byte "/" m = false -> HasPrefix m "/" = false.
Proof.
  destruct m as [|c m]; [done|]. rewrite contains_byte_cons. intros [Hc _]%orb_false_iff.
  change (HasPrefix (String c m) "/") with (if ascii_dec "/" c then String.prefix "" m else false).
  destruct (ascii_dec "/" c) as [<-|]; [|done].
  by rewrite Ascii.eqb_refl in Hc.
Qed.

(** With the metrics interceptor every call to a well-formed method fails, whatever the server offers: the interceptor hands the bare method name to the invoker, and the call is counted as a failure of the method. *)
Theorem every_call_fails (conn : string -> outcome (option E)) (t0 t1 : Z) (svc m : string) (req_size reply_size : option Z)
    (Hconn : refuses_bare_names conn) (Hm : contains_byte "/" m = false) :
  exists e cs, UnaryClientInterceptor t0 t1 (full_method svc m) req_size reply_size conn = (cs, Returns (Some e)) /\
    net RequestsTotal [m; svc] cs = 1 /\ net RequestsFailures [m; svc; statusCode (Some e)] cs = 1.
Proof.
  destruct (Hconn m (no_slash_no_prefix m Hm)) as [e He]. exists e.
  unfold UnaryClientInterceptor, splitMethodName, full_method. rewrite split_last_spec, He by done.
  eexists. split; [reflexivity|]. unfold request_calls, reply_calls, observe_size.
  split; destruct req_size, reply_size; net_calc; rewrite ?decide_True by done; done.
Qed.

(** ** Streams *)

(** A stream is counted while it is not finished. *)
Definition active_at (ls : list string) (s : monitoredClientStream) : Z :=
  if finished s then 0 else if decide ([method s; service s] = ls) then 1 else 0.

Lemma active_new ls mth svc t : active_at ls {| method := mth; service := svc; startTime := t; finished := false |} =
  if decide ([mth; svc] = ls) then 1 else 0.
Proof. done. Qed.

Lemma stream_step_net ls op s : net StreamsActive ls (stream_step op s).1 = active_at ls (stream_step op s).2 - active_at ls s.
Proof.
  destruct op as [size err|now size err|now err]; cbn [stream_step fst snd].
  - unfold SendMsg, observe_size. destruct size, err; net_calc; lia.
  - unfold RecvMsg, observe_size. destruct err; [destruct (finished s) eqn:Hf|].
    + cbn [fst snd]. rewrite net_nil. lia.
    + cbn [fst snd]. destruct (statusCode _ =? "OK")%string; net_calc;
        unfold active_at; cbn [finish finished method service]; rewrite Hf; lia.
    + destruct size; cbn [fst snd]; net_calc; lia.
  - unfold CloseSend. destruct (finished s) eqn:Hf; cbn [fst snd]; [rewrite net_nil; lia|].
    net_calc. unfold active_at. cbn [finish finished method service]. rewrite Hf. lia.
Qed.

Lemma streams_step_active ls e w w' : streams_step e w = Some w' ->
  net StreamsActive ls (calls w') - sum_of (active_at ls) (streams w') = net StreamsActive ls (calls w) - sum_of (active_at ls) (streams w).
Proof.
  destruct e as [t0 t1 name answer|i op]; cbn [streams_step]; intros H.
  - unfold StreamClientInterceptor in H. destruct (splitMethodName name) as [[svc mth]|].
    + destruct answer as [err|]; simplify_eq; cbn [calls streams]; net_calc; [lia|].
      rewrite sum_of_app, sum_of_cons, active_new. change (sum_of (active_at ls) []) with 0. lia.
    + simplify_eq. cbn [calls streams]. net_calc. lia.
  - destruct (streams w !! i) as [s|] eqn:Hi; [|done]. pose proof (stream_step_net ls op s) as Hn.
    destruct (stream_step op s) as [cs s']. simplify_eq. cbn [calls streams fst snd] in *.
    rewrite net_app, Hn, (sum_of_insert _ _ _ _ _ Hi). lia.
Qed.

Lemma streams_run_active ls es : forall w w', streams_run es w = Some w' ->
  net StreamsActive ls (calls w') - sum_of (active_at ls) (streams w') = net StreamsActive ls (calls w) - sum_of (active_at ls) (streams w).
Proof.
  induction es as [|e es IH]; intros w w' H; cbn [streams_run] in H; [by simplify_eq|].
  destruct (streams_step e w) as [w1|] eqn:Hs; [|done]. rewrite (IH _ _ H). by apply streams_step_active with e.
Qed.

Lemma streams_step_no_set e w w' : streams_step e w = Some w' -> Forall (fun c => is_set c = false) (calls w) ->
  Forall (fun c => is_set c = false) (calls w').
Proof.
  intros H Hw. destruct e as [t0 t1 name answer|i op]; cbn [streams_step] in H.
  - unfold StreamClientInterceptor in H. repeat case_match; simplify_eq; cbn [calls]; apply Forall_app; split; repeat constructor; done.
  - destruct (streams w !! i) as [s|]; [|done]. destruct op; cbn [stream_step] in H;
      unfold SendMsg, RecvMsg, CloseSend, observe_size in H; repeat case_match; simplify_eq; cbn [calls]; apply Forall_app; split; repeat constructor; done.
Qed.

Definition no_streams : streams_world := {| streams := []; calls := [] |}.

(** However openings, messages, ends and half-closes of any number of streams are ordered, the gauge of active streams of a method is the number of its streams that have neither been half-closed nor answered a receive with an error: no stream is counted down twice. *)
Theorem streams_active_gauge {R : Type} `{!Registry vector R} (es : list (streams_event E)) (w : streams_world) (m svc : string)
    (Hr : streams_run es no_streams = Some w) :
  value StreamsActive [m; svc] (apply_all (calls w) empty_registry) =
    Z.of_nat (length (filter (fun s => finished s = false /\ method s = m /\ service s = svc) (streams w))).
Proof.
  assert (Forall (fun c => is_set c = false) (calls w)) as Hs.
  { assert (Forall (fun c => is_set c = false) (calls no_streams)) as H0' by constructor. revert H0' Hr. generalize no_streams.
    induction es as [|e es' IH]; intros w0 H0' Hr; cbn [streams_run] in Hr; [by simplify_eq|].
    destruct (streams_step e w0) as [w1|] eqn:Hs; [|done]. apply (IH w1); [|done]. by apply streams_step_no_set with e w0. }
  rewrite value_apply_all, value_empty by done.
  pose proof (streams_run_active [m; svc] es no_streams w Hr) as Ha. cbn [no_streams streams calls] in Ha. rewrite net_nil in Ha.
  transitivity (sum_of (active_at [m; svc]) (streams w)); [change (sum_of (active_at [m; svc]) []) with 0 in Ha; lia|].
  clear. induction (streams w) as [|s l IH]; [done|]. rewrite sum_of_cons, IH, filter_cons. unfold active_at.
  destruct (finished s) eqn:Hf; [rewrite decide_False by (intros [? _]; congruence); done|].
  destruct (decide ([method s; service s] = [m; svc])) as [He|Hne].
  - injection He as He1 He2. rewrite decide_True by done. cbn [length]. lia.
  - rewrite decide_False; [lia|]. intros (_ & He1 & He2). congruence.
Qed.

(** A stream that the server ends in the regular way, before a half-close, answers the
    receive with [io.EOF], an error without a status: it is counted as a failure. *)
Lemma end_of_stream_is_failure now eof s : finished s = false -> (FromError eof).2 = false ->
  net RequestsFailures [method s; service s; "UNKNOWN"] (RecvMsg now None (Some eof) s).1 = 1.
Proof.
  intros Hf He. unfold RecvMsg. rewrite Hf. unfold statusCode. rewrite He. cbn [fst]. change ("UNKNOWN" =? "OK")%string with false.
  net_calc. rewrite decide_True; done.
Qed.

(** The generated code of a server-streaming call half-closes right after its message:
    whatever the receives answer then, no failure and no further duration is recorded. *)
Lemma half_close_hides_failure t0 now size err s : finished s = false ->
  Forall (fun c => vector_of c <> RequestsFailures /\ vector_of c <> RequestDuration)
    (RecvMsg now size err (CloseSend t0 (None : option E) s).2).1.
Proof.
  intros Hf. unfold CloseSend. rewrite Hf. cbn [snd]. unfold RecvMsg, observe_size. destruct err; cbn; [constructor|].
  destruct size; repeat constructor; done.
Qed.

(** ** Labels *)

Lemma unary_labelled t0 t1 name req_size reply_size (invoker : string -> outcome (option E)) :
  Forall (well_labelled label_names) (UnaryClientInterceptor t0 t1 name req_size reply_size invoker).1.
Proof. unfold UnaryClientInterceptor, request_calls, reply_calls, observe_size. repeat case_match; repeat constructor. Qed.

Lemma stream_step_labelled (op : stream_op E) s : Forall (well_labelled label_names) (stream_step op s).1.
Proof.
  destruct op; cbn [stream_step fst]; unfold SendMsg, RecvMsg, CloseSend, observe_size; repeat case_match; repeat constructor.
Qed.

End Client.

(** ** The one set of client metrics *)

Section Singleton.
Context {G : Type} `{!Registerer G}.
Variable BuildFQName : string -> string -> string -> string.

(** The options of the first call are the ones that count. *)
Lemma later_options_ignored o1 o2 s g s' g' m : once s = false ->
  GetClientMetrics BuildFQName o1 (s, g) = (s', g', Returns m) ->
  m = Some o1 /\ GetClientMetrics BuildFQName o2 (s', g') = (s', g', Returns (Some o1)).
Proof.
  intros Ho. unfold GetClientMetrics. rewrite Ho. destruct (createClientMetrics _ o1 g) as [[m1 g1]|] eqn:Hc; [|done].
  unfold createClientMetrics in Hc. destruct (MustRegister _ g); [|done]. injection Hc as <- <-. by intros [= <- <- <-].
Qed.

(** When the first call panics, all later calls return nil. *)
Lemma failed_creation_is_final o1 o2 s g s' g' : once s = false -> client s = None ->
  GetClientMetrics BuildFQName o1 (s, g) = (s', g', Panics) ->
  GetClientMetrics BuildFQName o2 (s', g') = (s', g', Returns None).
Proof.
  intros Ho Hc. unfold GetClientMetrics. rewrite Ho. destruct (createClientMetrics _ o1 g) as [[m1 g1]|]; [done|].
  intros [= <- <-]. cbn. by rewrite Hc.
Qed.

(** A second server interceptor of the same name is made of vectors that no registry
    has: what it counts is not exported. *)
Lemma second_server_not_exported b g g1 bs : Server.Build BuildFQName b g = (g1, bs) -> Forall (fun x => x = true) bs ->
  Server.Build BuildFQName b g1 = (g1, [false; false; false]).
Proof.
  unfold Server.Build. intros Hb Ht. by rewrite (register_logged_again _ _ (register_logged_all _ _ _ _ Hb Ht)).
Qed.
End Singleton.

(** ** Requests under way *)

Section Gauges.
Context {E : Type} `{!GrpcStatus E}.

(** A server's request is its method and start; the handler returns an error or none. *)
Definition server_probe : probe Server.vec (string * Z) (option E * Z) := {|
  enter q := Server.enter_calls q.1; leave q a := Server.deferred_calls q.2 a.2 q.1 a.1;
  unwound q := Server.deferred_calls q.2 q.2 q.1 (None : option E) |}.

Lemma server_probe_counts : counts Server.reqGauge (fun q => [q.1]) false server_probe.
Proof.
  split; intros; unfold at_label; cbn [enter leave unwound server_probe]; unfold Server.enter_calls, Server.deferred_calls;
    [|destruct a.1|]; net_calc; done.
Qed.

(** A client's request is its method, service, the size of its message and start. *)
Definition client_probe : probe vector (string * string * option Z * Z) (option E * option Z * Z) := {|
  enter q := request_calls q.1.1.1 q.1.1.2 q.1.2;
  leave q a := reply_calls q.2 a.2 q.1.1.1 q.1.1.2 a.1.1 a.1.2;
  unwound q := [Dec RequestsInFlight [q.1.1.1; q.1.1.2]] |}.

Lemma client_probe_counts : counts RequestsInFlight (fun q => [q.1.1.1; q.1.1.2]) false client_probe.
Proof.
  split; intros; unfold at_label; cbn [enter leave unwound client_probe]; unfold request_calls, reply_calls, observe_size;
    [destruct q.1.2|destruct a.1.1, a.1.2|]; net_calc; done.
Qed.

(** The in-flight gauges of clients and servers are exact, panics included. *)
Lemma server_in_flight {R} `{!Registry Server.vec R} es w m : run server_probe es no_calls = Some w -> quiet w ->
  value Server.reqGauge [m] (apply_all (made w) empty_registry) = in_handlers (fun q : string * Z => [q.1]) [m] w.
Proof.
  intros Hr Hq. rewrite (gauge_is_underway Server.reqGauge _ false server_probe server_probe_counts _ es w Hr Hq); [unfold lost; lia|].
  eapply (run_made _ server_probe es); [| | | | |exact Hr]; try (constructor || apply map_Forall_empty);
    intros; cbn [enter leave unwound server_probe]; unfold Server.enter_calls, Server.deferred_calls; repeat case_match; repeat constructor.
Qed.

Lemma client_in_flight {R} `{!Registry vector R} es w m svc : run client_probe es no_calls = Some w -> quiet w ->
  value RequestsInFlight [m; svc] (apply_all (made w) empty_registry) =
    in_handlers (fun q : string * string * option Z * Z => [q.1.1.1; q.1.1.2]) [m; svc] w.
Proof.
  intros Hr Hq. rewrite (gauge_is_underway RequestsInFlight _ false client_probe client_probe_counts _ es w Hr Hq); [unfold lost; lia|].
  eapply (run_made _ client_probe es); [| | | | |exact Hr]; try (constructor || apply map_Forall_empty);
    intros; cbn [enter leave unwound client_probe]; unfold request_calls, reply_calls, observe_size; repeat case_match; repeat constructor.
Qed.

End Gauges.

(** ** Witnesses *)

Definition sample_conn (name : string) : outcome (option Z) :=
  if HasPrefix name "/" then Returns None else Returns (Some Unimplemented).

Lemma every_call_fails_witness :
  exists e cs, @UnaryClientInterceptor Z numbered 0 Millisecond (full_method "a.B" "Get") (Some 100) None sample_conn = (cs, Returns (Some e)) /\
    net RequestsTotal ["Get"; "a.B"] cs = 1 /\ net RequestsFailures ["Get"; "a.B"; @statusCode Z numbered (Some e)] cs = 1.
Proof.
  apply (@every_call_fails Z numbered sample_conn 0 Millisecond "a.B" "Get" (Some 100) None).
  - intros name Hn. unfold sample_conn. rewrite Hn. by exists Unimplemented.
  - reflexivity.
Defined.

(** Two streams, one half-closed and then ended, the other open. *)
Definition sample_streams : list (streams_event Z) :=
  [Open 0 1 "/a.B/Watch" None; Open 2 3 "/a.B/Watch" None; On 0 (Send (Some 10) None); On 0 (Half_close 5 None);
   On 0 (Recv 6 None (Some (-1))); On 1 (Recv 7 (Some 20) None)].

Lemma streams_active_gauge_witness : exists w,
  @streams_run Z numbered sample_streams no_streams = Some w /\
  @value _ _ _ (logged vector) StreamsActive ["Watch"; "a.B"] (@apply_all _ _ _ (logged vector) (calls w) []) = 1.
Proof.
  eexists. split; [vm_compute; reflexivity|].
  rewrite (@streams_active_gauge Z numbered _ (logged vector) sample_streams); vm_compute; reflexivity.
Defined.

End Facts.

