(* ===== verification/PromPlugin.v ===== *)
(** The Prometheus plugin: [src/plugin/metrics/prometheus.go]. Its collectors go to a
    registry of its own, its interceptors make calls on them ([Prom]); the HTTP server
    is started and shut down, what it serves is not modelled. *)
From S2P Require Import Prelude Float64 GoString Rpc Prom.

Inductive vector : Type := RequestCounter | RequestLatency | RequestSize | ResponseSize | ActiveConnections | ActiveStreams.

#[export] Instance vector_eq_dec : EqDecision vector.
Proof. solve_decision. Defined.

(** [EnabledMetrics] of type [MetricTypes]: one flag for each metric. *)
Record Config : Type := {
  Namespace : string; HTTPAddr : string; MetricsPath : string; Enabled : bool; EnabledMetrics : vector -> bool }.

Definition DefaultConfig : Config := {|
  Namespace := "eidola"; HTTPAddr := ":9090"; MetricsPath := "/metrics"; Enabled := true; EnabledMetrics _ := true |}.

Definition metric_name (v : vector) : string :=
  match v with
  | RequestCounter => "grpc_requests_total" | RequestLatency => "grpc_request_duration_seconds"
  | RequestSize => "grpc_request_size_bytes" | ResponseSize => "grpc_response_size_bytes"
  | ActiveConnections => "grpc_active_connections" | ActiveStreams => "grpc_active_streams"
  end.

Definition label_names (v : vector) : list string :=
  match v with
  | RequestCounter => ["service"; "method"; "code"]
  | ActiveConnections => []
  | _ => ["service"; "method"]
  end.

(** The order in which [Init] creates and registers them. *)
Definition all_vectors : list vector := [RequestCounter; RequestLatency; RequestSize; ResponseSize; ActiveConnections; ActiveStreams].

(** The HTTP server: its address, the path it serves, and whether it was shut down. *)
Record http_server : Type := { Addr : string; served : string; down : bool }.

Section Plugin.
Context {G : Type} `{!Registerer G}.
Variable BuildFQName : string -> string -> string -> string.
(** Whether [ServeMux.Handle] takes the pattern; it panics otherwise. *)
Variable pattern_ok : string -> bool.

(** [metrics] is nil before [Init]; a metric that is not enabled is nil in it. *)
Record PrometheusPlugin : Type := {
  config : Config; server : option http_server; registry : G; metrics : option (vector -> bool) }.

Definition NewPrometheusPlugin (config : Config) (NewRegistry : G) : PrometheusPlugin :=
  {| config := config; server := None; registry := NewRegistry; metrics := None |}.

Definition Name (p : PrometheusPlugin) : string := "prometheus_metrics".

Definition desc_of (c : Config) (v : vector) : desc :=
  {| fqName := BuildFQName (Namespace c) "" (metric_name v); constLabels := ∅; variableLabels := label_names v |}.

Definition startHTTPServer (p : PrometheusPlugin) : outcome PrometheusPlugin :=
  if pattern_ok (MetricsPath (config p))
  then Returns {| config := config p; server := Some {| Addr := HTTPAddr (config p); served := MetricsPath (config p); down := false |};
                  registry := registry p; metrics := metrics p |}
  else Panics.

(** [Init] returns no error. *)
Definition Init (p : PrometheusPlugin) : outcome PrometheusPlugin :=
  if negb (Enabled (config p)) then Returns p else
  let enabled := List.filter (EnabledMetrics (config p)) all_vectors in
  match MustRegister (desc_of (config p) <$> enabled) (registry p) with
  | Panics => Panics
  | Returns g => startHTTPServer {| config := config p; server := server p; registry := g; metrics := Some (EnabledMetrics (config p)) |}
  end.

(** [Close] returns what [Shutdown] does. *)
Definition Close (shutdown : option string) (p : PrometheusPlugin) : option string * PrometheusPlugin :=
  match server p with
  | None => (None, p)
  | Some s => (shutdown, {| config := config p; server := Some {| Addr := Addr s; served := served s; down := true |};
                            registry := registry p; metrics := metrics p |})
  end.

Definition RegisterWithServer (p : PrometheusPlugin) : option string * PrometheusPlugin := (None, p).

End Plugin.
Arguments PrometheusPlugin G : clear implicits.

(** * Interceptors *)

Definition estimateSize (is_nil : bool) : Z := if is_nil then 0 else 1024.

Definition splitMethodName (fullMethod : string) : outcome (string * string) := split_first fullMethod.

Section Interceptors.
Context {E : Type} `{!GrpcStatus E}.
Implicit Types (on : vector -> bool) (service method : string).

(** [status.Code] of an error. *)
Definition Code (err : option E) : Z := match err with None => OK | Some e => (FromError e).1.1 end.

Definition when (b : bool) (cs : list (call vector)) : list (call vector) := if b then cs else [].

Definition latency (t0 t1 : Z) : float64 := Seconds (time_sub t1 t0).

(** The calls before the handler, after its return, and the deferred ones; a request
    or response may be nil. *)
Definition unary_before on service method (req_nil : bool) : list (call vector) :=
  when (on ActiveConnections) [Inc ActiveConnections []] ++
  when (on RequestSize) [Observe RequestSize [service; method] (of_int (estimateSize req_nil))].

Definition unary_after on (t0 t1 : Z) service method (resp_nil : bool) (err : option E) : list (call vector) :=
  when (on RequestLatency) [Observe RequestLatency [service; method] (latency t0 t1)] ++
  when (on RequestCounter) [Inc RequestCounter [service; method; code_String (Code err)]] ++
  when (on ResponseSize && negb resp_nil) [Observe ResponseSize [service; method] (of_int (estimateSize resp_nil))].

Definition unary_deferred on : list (call vector) := when (on ActiveConnections) [Dec ActiveConnections []].

(** The handler's answer: whether its response is nil, and its error. *)
Definition UnaryServerInterceptor {G} (t0 t1 : Z) (FullMethod : string) (req_nil : bool) (handler : outcome (bool * option E))
    (p : PrometheusPlugin G) : list (call vector) * outcome (bool * option E) :=
  if negb (Enabled (config p)) then ([], handler) else
  match splitMethodName FullMethod, metrics p with
  | Returns (serviceName, methodName), Some on =>
      match handler with
      | Panics => (unary_before on serviceName methodName req_nil ++ unary_deferred on, Panics)
      | Returns (resp_nil, err) =>
          (unary_before on serviceName methodName req_nil ++ unary_after on t0 t1 serviceName methodName resp_nil err ++ unary_deferred on,
           Returns (resp_nil, err))
      end
  | _, _ => ([], Panics)
  end.

Definition stream_before on service method : list (call vector) :=
  when (on ActiveConnections) [Inc ActiveConnections []] ++ when (on ActiveStreams) [Inc ActiveStreams [service; method]].

Definition stream_after on (t0 t1 : Z) service method (err : option E) : list (call vector) :=
  when (on RequestLatency) [Observe RequestLatency [service; method] (latency t0 t1)] ++
  when (on RequestCounter) [Inc RequestCounter [service; method; code_String (Code err)]].

(** Deferred calls run in the opposite order. *)
Definition stream_deferred on service method : list (call vector) :=
  when (on ActiveStreams) [Dec ActiveStreams [service; method]] ++ when (on ActiveConnections) [Dec ActiveConnections []].

(** [monitoredServerStream]: an operation of the handler on its stream, with the
    answer of the embedded stream. *)
Inductive stream_op : Type := Send (msg_nil : bool) (err : option E) | Recv (msg_nil : bool) (err : option E).

Definition SendMsg on service method (msg_nil : bool) (err : option E) : list (call vector) :=
  when (match err with None => true | Some _ => false end && on ResponseSize)
    [Observe ResponseSize [service; method] (of_int (estimateSize msg_nil))].

Definition RecvMsg on service method (msg_nil : bool) (err : option E) : list (call vector) :=
  when (match err with None => true | Some _ => false end && on RequestSize)
    [Observe RequestSize [service; method] (of_int (estimateSize msg_nil))].

Definition op_calls on service method (op : stream_op) : list (call vector) :=
  match op with Send n err => SendMsg on service method n err | Recv n err => RecvMsg on service method n err end.

Definition StreamServerInterceptor {G} (t0 t1 : Z) (FullMethod : string) (ops : list stream_op) (handler : outcome (option E))
    (p : PrometheusPlugin G) : list (call vector) * outcome (option E) :=
  if negb (Enabled (config p)) then ([], handler) else
  match splitMethodName FullMethod, metrics p with
  | Returns (serviceName, methodName), Some on =>
      let cs := stream_before on serviceName methodName ++ (ops ≫= op_calls on serviceName methodName) in
      match handler with
      | Panics => (cs ++ stream_deferred on serviceName methodName, Panics)
      | Returns err => (cs ++ stream_after on t0 t1 serviceName methodName err ++ stream_deferred on serviceName methodName, Returns err)
      end
  | _, _ => ([], Panics)
  end.

(** The client interceptors are nil. *)
Definition UnaryClientInterceptor : option unit := None.
Definition StreamClientInterceptor : option unit := None.

End Interceptors.
Arguments stream_op E : clear implicits.

(** * Facts *)

Module Facts.

Section Facts.
Context {E : Type} `{!GrpcStatus E} {G : Type} `{!Registerer G}.
Variable BuildFQName : string -> string -> string -> string.
Variable pattern_ok : string -> bool.

(** [splitMethodName] never panics: its result is one of the three that it names. *)
Lemma split_first_total s : exists svc m, splitMethodName s = Returns (svc, m).
Proof.
  unfold splitMethodName, split_first. destruct s as [|c s]; [by eexists _, _|].
  destruct (ascii_dec c "/") as [->|Hc].
  - destruct (first_slash 0 s =? 0)%nat eqn:H0'; [by eexists _, _|]. apply Nat.eqb_neq in H0'.
    assert (forall t i, (first_slash i t <> 0 -> first_slash i t < i + String.length t)%nat) as Hb.
    { induction t as [|d t IH]; intros i Hn; simpl in *; [lia|]. destruct (Ascii.eqb d "/"); [lia|].
      specialize (IH (S i) Hn). lia. }
    specialize (Hb s 0%nat H0'). unfold slice_to, slice_from.
    destruct (Nat.leb_spec (first_slash 0 s) (String.length s)) as [_|]; [|lia].
    destruct (Nat.leb_spec (first_slash 0 s + 1) (String.length s)) as [_|]; [by eexists _, _|lia].
  - exists "unknown", "unknown". destruct c as [[] [] [] [] [] [] [] []]; done.
Qed.

(** An enabled plugin that has not been initialized panics on every request, a
    disabled one lets every request through untouched. *)
Lemma not_initialized_panics t0 t1 f n handler c g : Enabled c = true ->
  @UnaryServerInterceptor E _ G t0 t1 f n handler (NewPrometheusPlugin c g) = ([], Panics).
Proof.
  intros Hc. unfold UnaryServerInterceptor. cbn [NewPrometheusPlugin config metrics]. rewrite Hc. cbn [negb].
  by destruct (splitMethodName f) as [[? ?]|].
Qed.

Lemma disabled_is_transparent t0 t1 f n handler c g p : Enabled c = false ->
  Init BuildFQName pattern_ok (NewPrometheusPlugin c g) = Returns p ->
  @UnaryServerInterceptor E _ G t0 t1 f n handler p = ([], handler).
Proof. intros Hc. unfold Init. cbn [NewPrometheusPlugin config]. rewrite Hc. intros [= <-]. unfold UnaryServerInterceptor. cbn. by rewrite Hc. Qed.

(** Initializing again, as a manager does after [Close], panics: the collectors are
    still in the plugin's registry. *)
Lemma second_init_panics p p' q e : Enabled (config p) = true -> (exists v, EnabledMetrics (config p) v = true) ->
  Init BuildFQName pattern_ok p = Returns p' -> Close e p' = (e, q) -> Init BuildFQName pattern_ok q = Panics.
Proof.
  intros Hc [v Hv]. unfold Init at 1. rewrite Hc. cbn [negb].
  destruct (MustRegister _ (registry p)) as [g|] eqn:Hr; [|done]. unfold startHTTPServer. cbn [config].
  destruct (pattern_ok _); [|done]. intros [= <-]. unfold Close. cbn [server]. intros [= <-].
  unfold Init. cbn [config registry]. rewrite Hc. cbn [negb].
  destruct (MustRegister_registers _ _ _ Hr) as [_ Hf].
  destruct (List.filter (EnabledMetrics (config p)) all_vectors) as [|v0 vs] eqn:Hvs.
  - assert (In v (List.filter (EnabledMetrics (config p)) all_vectors)) as Hin by (apply filter_In; split; [by destruct v; simpl; tauto|done]).
    by rewrite Hvs in Hin.
  - cbn [fmap list_fmap MustRegister] in *. apply Forall_cons in Hf as [Hd _]. by rewrite Register_duplicate.
Qed.

(** ** Requests under way *)

Context (on : vector -> bool).

(** A request is its service, method, whether the message is nil, and its start. *)
Definition unary_probe : probe vector (string * string * bool * Z) (bool * option E * Z) := {|
  enter q := unary_before on q.1.1.1 q.1.1.2 q.1.2;
  leave q a := unary_after on q.2 a.2 q.1.1.1 q.1.1.2 a.1.1 a.1.2 ++ unary_deferred on;
  unwound q := unary_deferred on |}.

(** A stream is its service, method and start. The calls for the messages of its
    handler are put where the handler returns; a handler that panics makes none. *)
Definition stream_probe : probe vector (string * string * Z) (list (stream_op E) * option E * Z) := {|
  enter q := stream_before on q.1.1 q.1.2;
  leave q a := (a.1.1 ≫= op_calls on q.1.1 q.1.2) ++ stream_after on q.2 a.2 q.1.1 q.1.2 a.1.2 ++ stream_deferred on q.1.1 q.1.2;
  unwound q := stream_deferred on q.1.1 q.1.2 |}.

Lemma plugin_unary_counts : on ActiveConnections = true -> counts ActiveConnections (fun _ => []) false unary_probe.
Proof.
  intros Ho. split; intros; unfold at_label; cbn [enter leave unwound unary_probe];
    unfold unary_before, unary_after, unary_deferred, when; rewrite Ho; repeat case_match; net_done.
Qed.

Lemma ops_net v ls svc m (ops : list (stream_op E)) : v <> RequestSize -> v <> ResponseSize -> net v ls (ops ≫= op_calls on svc m) = 0.
Proof.
  intros H1' H2'. induction ops as [|op ops IH]; [done|]. cbn [mbind list_bind]. rewrite net_app, IH.
  destruct op; cbn [op_calls]; unfold SendMsg, RecvMsg, when; repeat case_match; rewrite ?net_skip by done; done.
Qed.

Lemma plugin_stream_counts : on ActiveStreams = true -> counts ActiveStreams (fun q => [q.1.1; q.1.2]) false stream_probe.
Proof.
  intros Ho. split; intros; unfold at_label; cbn [enter leave unwound stream_probe];
    unfold stream_before, stream_after, stream_deferred, when; rewrite ?net_app, ?ops_net, Ho by done; repeat case_match; net_done.
Qed.

Lemma stream_probe_connections : on ActiveConnections = true -> counts ActiveConnections (fun _ => []) false stream_probe.
Proof.
  intros Ho. split; intros; unfold at_label; cbn [enter leave unwound stream_probe];
    unfold stream_before, stream_after, stream_deferred, when; rewrite ?net_app, ?ops_net, Ho by done; repeat case_match; net_done.
Qed.

Lemma ops_no_set svc m (ops : list (stream_op E)) : Forall (fun c => is_set c = false) (ops ≫= op_calls on svc m).
Proof.
  induction ops as [|op ops IH]; [constructor|]. cbn [mbind list_bind]. apply Forall_app. split; [|done].
  destruct op; cbn [op_calls]; unfold SendMsg, RecvMsg, when; case_match; repeat constructor.
Qed.

(** The gauges of connections and streams, panics of handlers included: what is
    called the number of active connections is the number of unary requests in their
    handlers. *)
Lemma active_connections {R} `{!Registry vector R} es w : on ActiveConnections = true ->
  run unary_probe es no_calls = Some w -> quiet w ->
  value ActiveConnections [] (apply_all (made w) empty_registry) = in_handlers (fun _ => []) [] w.
Proof.
  intros Ho Hr Hq. rewrite (gauge_is_underway ActiveConnections _ false unary_probe (plugin_unary_counts Ho) _ es w Hr Hq); [unfold lost; lia|].
  eapply (run_made _ unary_probe es); [| | | | |exact Hr]; try (constructor || apply map_Forall_empty);
    intros; cbn [enter leave unwound unary_probe]; unfold unary_before, unary_after, unary_deferred, when; repeat case_match; repeat constructor.
Qed.

Lemma active_streams {R} `{!Registry vector R} es w svc m : on ActiveStreams = true ->
  run stream_probe es no_calls = Some w -> quiet w ->
  value ActiveStreams [svc; m] (apply_all (made w) empty_registry) =
    in_handlers (fun q : string * string * Z => [q.1.1; q.1.2]) [svc; m] w.
Proof.
  intros Ho Hr Hq. rewrite (gauge_is_underway ActiveStreams _ false stream_probe (plugin_stream_counts Ho) _ es w Hr Hq); [unfold lost; lia|].
  eapply (run_made _ stream_probe es); [| | | | |exact Hr]; try (constructor || apply map_Forall_empty);
    intros; cbn [enter leave unwound stream_probe]; try (apply Forall_app; split; [apply ops_no_set|]);
    unfold stream_before, stream_after, stream_deferred, when; repeat case_match; repeat constructor.
Qed.

(** ** Labels *)

Lemma plugin_unary_labelled t0 t1 f n handler (p : PrometheusPlugin G) :
  Forall (well_labelled label_names) (@UnaryServerInterceptor E _ G t0 t1 f n handler p).1.
Proof.
  unfold UnaryServerInterceptor, unary_before, unary_after, unary_deferred, when. repeat case_match; repeat constructor.
Qed.

End Facts.

End Facts.
