(* ===== verification/Tracing.v ===== *)
(** Tracing and the metrics beside it: [src/observability/opentelemetry/].

    A span is the list of what is done to it; metrics are calls on vectors ([Prom]).
    OpenTelemetry (tracers, propagators, exporters), gRPC's metadata and JSON are
    parameters; [net/http]'s header keys, which the propagation goes through, are
    modelled. *)
From S2P Require Import Prelude Float64 GoString Rpc Prom.

(** * Header keys

    [http.CanonicalHeaderKey]: a valid key gets an upper-case letter at its start
    and after each hyphen, lower-case letters elsewhere. *)

Definition token_byte (c : ascii) : bool :=
  let n := nat_of_ascii c in
  ((48 <=? n) && (n <=? 57))%nat || ((65 <=? n) && (n <=? 90))%nat || ((97 <=? n) && (n <=? 122))%nat ||
  existsb (fun d => Ascii.eqb c d) ["!"; "#"; "$"; "%"; "&"; "'"; "*"; "+"; "-"; "."; "^"; "_"; "`"; "|"; "~"]%char.

Fixpoint all_bytes (f : ascii -> bool) (s : string) : bool :=
  match s with EmptyString => true | String c s => f c && all_bytes f s end.

Fixpoint canon_loop (upper : bool) (s : string) : string :=
  match s with
  | EmptyString => EmptyString
  | String c s => let c := if upper then upper_ascii c else lower_ascii c in String c (canon_loop (Ascii.eqb c "-") s)
  end.

Definition CanonicalHeaderKey (s : string) : string := if all_bytes token_byte s then canon_loop true s else s.

(** [metadata.MD] and [http.Header] are the same map of keys to lists of values. *)
Abbreviation MD := (gmap string (list string)).

Definition first_value (o : option (list string)) : string := match o with Some (v :: _) => v | _ => "" end.

(** [propagation.HeaderCarrier(md)]: [http.Header]'s [Get] and [Set]. *)
Definition HeaderCarrier_Get (md : MD) (key : string) : string := first_value (md !! CanonicalHeaderKey key).
Definition HeaderCarrier_Set (key value : string) (md : MD) : MD := <[CanonicalHeaderKey key := [value]]> md.

(** * What is used of gRPC's metadata and of OpenTelemetry *)

(** [Get] and [Set] of [metadata.MD] work on the lower-case key. *)
Class Metadata : Type := {
  md_Get : MD -> string -> list string;
  md_Set : string -> list string -> MD -> MD;
  md_Get_spec md k : md_Get md k = default [] (md !! ToLower k);
  md_Set_spec k v vs md : md_Set k (v :: vs) md = <[ToLower k := v :: vs]> md }.

(** A propagator reads its fields of a carrier by [Get] and writes them by [Set];
    [T] is what a context carries of the trace. A carrier that has none of the fields
    leaves the context as it is, and what was injected can be extracted. *)
Class Propagator (T : Type) : Type := {
  Fields : list string;
  Extract : T -> (string -> string) -> T;
  Inject : T -> list (string * string);
  Inject_fields t k v : (k, v) ∈ Inject t -> k ∈ Fields;
  Inject_keys t : NoDup (Inject t).*1;
  Extract_ext t g1 g2 : (forall k, k ∈ Fields -> g1 k = g2 k) -> Extract t g1 = Extract t g2;
  Extract_nothing t : Extract t (fun _ => "") = t }.

(** The fields of the W3C propagators that [NewProvider] installs. *)
Definition w3c_fields : list string := ["traceparent"; "tracestate"; "baggage"].

Inductive SpanKind : Type := SpanKindServer | SpanKindClient.
Inductive attr : Type := AString (s : string) | ABool (b : bool) | AInt (z : Z).
Inductive span_status : Type := StatusOk | StatusError (msg : string).

(** What is done to a span. *)
Inductive span_event (E T : Type) : Type :=
| Start (parent : T) (name : string) (kind : SpanKind) (attrs : list (string * attr))
| SetAttributes (attrs : list (string * attr))
| SetStatus (s : span_status)
| RecordError (e : E) (attrs : list (string * attr))
| End_.
Arguments Start {E T} parent name kind attrs.
Arguments SetAttributes {E T} attrs.
Arguments SetStatus {E T} s.
Arguments RecordError {E T} e attrs.
Arguments End_ {E T}.

(** A context: metadata in both directions, its deadline and its trace. *)
Record context (T : Type) : Type := { incoming : option MD; outgoing : option MD; deadline : option Z; trace : T }.
Arguments incoming {T} c.
Arguments outgoing {T} c.
Arguments deadline {T} c.
Arguments trace {T} c.

Section Tracing.
Context {E T M : Type} `{!GrpcStatus E} `{!Metadata} `{!Propagator T}.
(** The trace of a context with a new span, and [json.Marshal]. *)
Variable child : T -> string -> T.
Variable Marshal : M -> option string.
Implicit Types (ctx : context T).
Abbreviation spans := (list (span_event E T)).

Definition with_trace (t : T) ctx : context T := {| incoming := incoming ctx; outgoing := outgoing ctx; deadline := deadline ctx; trace := t |}.
Definition NewOutgoingContext (md : MD) ctx : context T :=
  {| incoming := incoming ctx; outgoing := Some md; deadline := deadline ctx; trace := trace ctx |}.

(** [context.WithTimeout]: the earlier of the two deadlines. *)
Definition WithTimeout (now timeout : Z) ctx : context T :=
  {| incoming := incoming ctx; outgoing := outgoing ctx;
     deadline := Some (match deadline ctx with Some d => Z.min d (now + timeout) | None => now + timeout end); trace := trace ctx |}.

(** [metadata.FromIncomingContext], or empty metadata. *)
Definition incoming_md ctx : MD := default ∅ (incoming ctx).

(** ** otel.go *)

Definition inject_headers (t : T) (md : MD) : MD := foldl (fun md kv => HeaderCarrier_Set kv.1 kv.2 md) md (Inject t).

(** The message as an attribute when it is marshalled to fewer than 1024 bytes. *)
Definition message_attribute (name : string) (m : M) : spans :=
  match Marshal m with
  | Some b => if (String.length b <? 1024)%nat then [SetAttributes [(name, AString b)]] else []
  | None => []
  end.

(** The context of an outgoing call: a new span, injected into the metadata. *)
Definition outgoing_context ctx (method : string) : context T :=
  let ctx := with_trace (child (trace ctx) method) ctx in
  NewOutgoingContext (inject_headers (trace ctx) (default ∅ (outgoing ctx))) ctx.

Definition record (err : option E) : spans := match err with Some e => [RecordError e []] | None => [] end.

Definition GRPCUnaryClientInterceptor ctx (method target : string) (req : M) (invoker : context T -> outcome (M * option E))
    : spans * outcome (option E) :=
  let start := [Start (trace ctx) method SpanKindClient
                  [("rpc.system", AString "grpc"); ("rpc.method", AString method); ("peer.service", AString target)]] in
  let before := start ++ message_attribute "rpc.request" req in
  match invoker (outgoing_context ctx method) with
  | Panics => (before ++ [End_], Panics)
  | Returns (reply, err) => (before ++ record err ++ message_attribute "rpc.response" reply ++ [End_], Returns err)
  end.

(** The stream's span is ended by [CloseSend], or here when there is no stream. *)
Definition GRPCStreamClientInterceptor ctx (method target : string) (streamer : context T -> outcome (option E))
    : spans * outcome (option E) :=
  let start := [Start (trace ctx) method SpanKindClient
                  [("rpc.system", AString "grpc"); ("rpc.method", AString method); ("peer.service", AString target);
                   ("rpc.stream", ABool true)]] in
  match streamer (outgoing_context ctx method) with
  | Panics => (start, Panics)
  | Returns (Some e) => (start ++ [RecordError e []; End_], Returns (Some e))
  | Returns None => (start, Returns None)
  end.

(** The operations of a traced stream, with the answer of the embedded stream. *)
Inductive client_op : Type := SendMsg (err : option E) | RecvMsg (err : option E) | CloseSend (err : option E).

Definition client_op_events (op : client_op) : spans :=
  match op with SendMsg err | RecvMsg err => record err | CloseSend err => record err ++ [End_] end.

(** The context of a handler: the trace extracted from the incoming headers. *)
Definition extracted_context ctx : context T := with_trace (Extract (trace ctx) (HeaderCarrier_Get (incoming_md ctx))) ctx.

Definition GRPCUnaryServerInterceptor ctx (FullMethod : string) (req : M)
    (handler : context T -> outcome (option M * option E)) : spans * outcome (option M * option E) :=
  let ctx := extracted_context ctx in
  let before := [Start (trace ctx) FullMethod SpanKindServer [("rpc.system", AString "grpc"); ("rpc.service", AString FullMethod)]] ++
                message_attribute "rpc.request" req in
  match handler (with_trace (child (trace ctx) FullMethod) ctx) with
  | Panics => (before ++ [End_], Panics)
  | Returns (resp, err) =>
      (before ++ record err ++ match resp with Some resp => message_attribute "rpc.response" resp | None => [] end ++ [End_],
       Returns (resp, err))
  end.

Inductive server_op : Type := SSendMsg (err : option E) | SRecvMsg (err : option E).

Definition server_op_events (op : server_op) : spans := match op with SSendMsg err | SRecvMsg err => record err end.

(** The handler makes its operations on the wrapped stream and returns or panics. *)
Definition GRPCStreamServerInterceptor ctx (FullMethod : string)
    (handler : context T -> list server_op * outcome (option E)) : spans * outcome (option E) :=
  let ctx := extracted_context ctx in
  let start := [Start (trace ctx) FullMethod SpanKindServer
                  [("rpc.system", AString "grpc"); ("rpc.service", AString FullMethod); ("rpc.stream", ABool true)]] in
  let '(ops, answer) := handler (with_trace (child (trace ctx) FullMethod) ctx) in
  match answer with
  | Panics => (start ++ (ops ≫= server_op_events) ++ [End_], Panics)
  | Returns err => (start ++ (ops ≫= server_op_events) ++ record err ++ [End_], Returns err)
  end.

(** ** server.go: the metadata carrier *)

Definition carrier_Get (md : MD) (key : string) : string := match md_Get md key with v :: _ => v | [] => "" end.
Definition carrier_Set (key value : string) (md : MD) : MD := md_Set key [value] md.
(** In the order in which the map is visited. *)
Definition carrier_Keys (order : list (string * list string)) : list string := order.*1.

(** ** server.go: the interceptor builder *)

Inductive vector : Type := summaryVec | errCntVec | reqCntVec | timeoutCntVec.

#[global] Instance vector_eq_dec : EqDecision vector.
Proof. solve_decision. Defined.

(** [Tracer] is nil in a builder that was not made by [NewServerInterceptorBuilder]. *)
Record ServerInterceptorBuilder : Type := {
  Namespace : string; Subsystem : string; Name : string; Help : string; Port : string; Timeout : Z; Tracer : option string }.

Definition NewServerInterceptorBuilder (namespace subsystem name help : string) : ServerInterceptorBuilder :=
  {| Namespace := namespace; Subsystem := subsystem; Name := name; Help := help; Port := ""; Timeout := 30 * Second;
     Tracer := Some (namespace ++ "." ++ subsystem ++ "." ++ name)%string |}.

Definition WithPort (port : string) (b : ServerInterceptorBuilder) : ServerInterceptorBuilder :=
  {| Namespace := Namespace b; Subsystem := Subsystem b; Name := Name b; Help := Help b; Port := port; Timeout := Timeout b; Tracer := Tracer b |}.
Definition WithBuilderTimeout (timeout : Z) (b : ServerInterceptorBuilder) : ServerInterceptorBuilder :=
  {| Namespace := Namespace b; Subsystem := Subsystem b; Name := Name b; Help := Help b; Port := Port b; Timeout := timeout; Tracer := Tracer b |}.
Definition WithTracer (tracer : option string) (b : ServerInterceptorBuilder) : ServerInterceptorBuilder :=
  {| Namespace := Namespace b; Subsystem := Subsystem b; Name := Name b; Help := Help b; Port := Port b; Timeout := Timeout b; Tracer := tracer |}.

(** [ip] is [observability.GetOutboundIP()]. *)
Definition address (b : ServerInterceptorBuilder) (ip : string) : string :=
  if (Port b =? "")%string then ip else (ip ++ ":" ++ Port b)%string.

Definition unary_name (v : vector) : string :=
  match v with
  | summaryVec => "_response" | errCntVec => "_error_cnt" | reqCntVec => "_active_req_cnt" | timeoutCntVec => "_timeout_cnt"
  end.
Definition stream_name (v : vector) : string :=
  match v with
  | summaryVec => "_stream_response" | errCntVec => "_stream_error_cnt" | _ => "_active_stream_cnt"
  end.
Definition label_names (v : vector) : list string :=
  match v with summaryVec | errCntVec => ["method"; "status_code"] | reqCntVec | timeoutCntVec => ["method"] end.

Section Register.
Context {G : Type} `{!Registerer G}.
Variable BuildFQName : string -> string -> string -> string.

Definition server_desc (b : ServerInterceptorBuilder) (ip : string) (suffix : vector -> string) (v : vector) : desc :=
  {| fqName := BuildFQName (Namespace b) (Subsystem b) (Name b ++ suffix v)%string;
     constLabels := <["address" := address b ip]> (<["kind" := "server"]> ∅); variableLabels := label_names v |}.

(** The unary builder prints the errors of the registry, the stream builder panics. *)
Definition unary_register (b : ServerInterceptorBuilder) (ip : string) (g : G) : G * list bool :=
  register_logged (server_desc b ip unary_name <$> [summaryVec; errCntVec; reqCntVec; timeoutCntVec]) g.
Definition stream_register (b : ServerInterceptorBuilder) (ip : string) (g : G) : outcome G :=
  MustRegister (server_desc b ip stream_name <$> [summaryVec; errCntVec; reqCntVec]) g.
End Register.

(** The context of a handler: deadline, then the extracted trace; and the span's name. *)
Definition builder_context (b : ServerInterceptorBuilder) (now : Z) ctx : context T :=
  let md := incoming_md ctx in
  let ctx := if Timeout b >? 0 then WithTimeout now (Timeout b) ctx else ctx in
  with_trace (Extract (trace ctx) (carrier_Get md)) ctx.

Definition span_name (FullMethod : string) : string := List.last (Split FullMethod "/") FullMethod.
Definition rpc_service (FullMethod : string) : string := hd "" (Split FullMethod "/").

Definition start_attributes (FullMethod : string) (stream : bool) : list (string * attr) :=
  [("rpc.system", AString "grpc"); ("rpc.service", AString (rpc_service FullMethod)); ("rpc.method", AString (span_name FullMethod))] ++
  (if stream then [("rpc.stream", ABool true)] else []).

(** The code of the answer as the builder's interceptors determine it. *)
Definition status_of (err : option E) : Z :=
  match err with Some e => if (FromError e).2 then (FromError e).1.1 else OK | None => OK end.

(** What the answer does to the span. *)
Definition status_events (err : option E) : spans :=
  match err with
  | None => [SetStatus StatusOk]
  | Some e =>
      if (FromError e).2
      then if status_of err =? OK then []
           else [SetStatus (StatusError (FromError e).1.2); RecordError e [("grpc.status_code", AInt (status_of err))]]
      else [SetStatus (StatusError (error_text e)); RecordError e []]
  end.

Definition millis (t0 t1 : Z) : float64 := of_int (Z.quot (time_sub t1 t0) Millisecond).

Definition unary_enter (FullMethod : string) : list (call vector) := [Inc reqCntVec [FullMethod]].
Definition unary_leave (t0 t1 : Z) (FullMethod : string) (err : option E) : list (call vector) :=
  match err with
  | Some _ => [Inc errCntVec [FullMethod; code_String (status_of err)]] ++
              (if status_of err =? DeadlineExceeded then [Inc timeoutCntVec [FullMethod]] else [])
  | None => []
  end ++ [Dec reqCntVec [FullMethod]; Observe summaryVec [FullMethod; code_String (status_of err)] (millis t0 t1)].

Definition BuildUnary {A : Type} (b : ServerInterceptorBuilder) (now t0 t1 : Z) ctx (FullMethod : string)
    (handler : context T -> outcome (A * option E)) : list (call vector) * spans * outcome (A * option E) :=
  let ctx := builder_context b now ctx in
  match Tracer b with
  | None => ([], [], Panics)
  | Some _ =>
      let start := [Start (trace ctx) (span_name FullMethod) SpanKindServer (start_attributes FullMethod false)] in
      match handler (with_trace (child (trace ctx) (span_name FullMethod)) ctx) with
      | Panics => (unary_enter FullMethod, start ++ [End_], Panics)
      | Returns (resp, err) =>
          (unary_enter FullMethod ++ unary_leave t0 t1 FullMethod err, start ++ status_events err ++ [End_], Returns (resp, err))
      end
  end.

Definition stream_leave (t0 t1 : Z) (FullMethod : string) (err : option E) : list (call vector) :=
  match err with Some _ => [Inc errCntVec [FullMethod; code_String (status_of err)]] | None => [] end ++
  [Observe summaryVec [FullMethod; code_String (status_of err)] (millis t0 t1)].

(** The gauge of active streams, [activeCntVec], goes down in a deferred call. *)
Definition BuildStream (b : ServerInterceptorBuilder) (now t0 t1 : Z) ctx (FullMethod : string)
    (handler : context T -> outcome (option E)) : list (call vector) * spans * outcome (option E) :=
  let ctx := builder_context b now ctx in
  match Tracer b with
  | None => ([], [], Panics)
  | Some _ =>
      let start := [Start (trace ctx) (span_name FullMethod) SpanKindServer (start_attributes FullMethod true)] in
      match handler (with_trace (child (trace ctx) (span_name FullMethod)) ctx) with
      | Panics => ([Inc reqCntVec [FullMethod]] ++ [Dec reqCntVec [FullMethod]], start ++ [End_], Panics)
      | Returns err =>
          ([Inc reqCntVec [FullMethod]] ++ stream_leave t0 t1 FullMethod err ++ [Dec reqCntVec [FullMethod]],
           start ++ status_events err ++ [End_], Returns err)
      end
  end.

(** ** client.go *)

Record ClientInterceptorBuilder : Type := { CNamespace : string; CSubsystem : string; CName : string; CHelp : string }.

Definition client_name (v : vector) : string :=
  match v with summaryVec => "_response_time_ms" | errCntVec => "_errors_total" | _ => "_active_requests" end.

Definition client_register {G} `{!Registerer G} (BuildFQName : string -> string -> string -> string) (b : ClientInterceptorBuilder) (g : G)
    : G * list bool :=
  register_logged
    ((fun v => {| fqName := BuildFQName (CNamespace b) (CSubsystem b) (CName b ++ client_name v)%string; constLabels := ∅;
                  variableLabels := ["method"; "address"; "kind"] |}) <$> [summaryVec; errCntVec; reqCntVec]) g.

(** [duration.Seconds() * 1000]. *)
Definition client_millis (t0 t1 : Z) : float64 := fmul (Seconds (time_sub t1 t0)) (of_int 1000).

Definition client_enter (method ip : string) : list (call vector) := [Inc reqCntVec [method; ip; "client"]].
Definition client_deferred (t0 t1 : Z) (method ip : string) (err : option E) : list (call vector) :=
  [Dec reqCntVec [method; ip; "client"]] ++
  match err with Some _ => [Inc errCntVec [method; ip; "client"]] | None => [] end ++
  [Observe summaryVec [method; ip; "client"] (client_millis t0 t1)].

(** The deferred function sees the named result, nil when the invoker panics. *)
Definition ClientBuildUnary (t0 t1 : Z) (method ip : string) (invoker : outcome (option E)) : list (call vector) * outcome (option E) :=
  match invoker with
  | Panics => (client_enter method ip ++ client_deferred t0 t1 method ip None, Panics)
  | Returns err => (client_enter method ip ++ client_deferred t0 t1 method ip err, Returns err)
  end.

End Tracing.
Arguments client_op E : clear implicits.
Arguments server_op E : clear implicits.

(** * The provider

    [R], [X] and [P] are resources, exporters and tracer providers. *)

Module Provider.

Record Config : Type := {
  ServiceName : string; ServiceVersion : string; Environment : string; Endpoint : string; SamplingRatio : float64;
  EnableLogs : bool; EnableTraces : bool; EnableMetrics : bool; ExporterTimeout : Z;
  ResourceAttributes : gmap string string; GRPCOptions : list string }.

Definition DefaultConfig : Config := {|
  ServiceName := "unknown-service"; ServiceVersion := "0.1.0"; Environment := "development"; Endpoint := "localhost:4317";
  SamplingRatio := of_int 1; EnableTraces := true; EnableMetrics := true; EnableLogs := true; ExporterTimeout := 10 * Second;
  ResourceAttributes := ∅; GRPCOptions := [] |}.

(** The attributes of the resource; [order] is the order of visiting the map. *)
Definition createResource (order : list (string * string)) (config : Config) : list (string * string) :=
  [("service.name", ServiceName config); ("service.version", ServiceVersion config); ("environment", Environment config);
   ("library.name", "eidola")] ++ order.

Inductive exporter_option : Type :=
| WithEndpoint (s : string) | WithExporterTimeout (t : Z) | WithDialOption (l : list string) | WithInsecure.

Definition exporter_options (config : Config) : list exporter_option :=
  [WithEndpoint (Endpoint config); WithExporterTimeout (ExporterTimeout config)] ++
  (if (length (GRPCOptions config) =? 0)%nat then [WithInsecure] else [WithDialOption (GRPCOptions config)]).

Section Provider.
Context {X P : Type}.
(** [otlptrace.New] with a context of this deadline, [sdktrace.NewTracerProvider] with
    a ratio for its parent-based sampler, and its [Shutdown]. *)
Variable NewExporter : Z -> list exporter_option -> result string X.
Variable NewTracerProvider : float64 -> X -> list (string * string) -> P.
Variable ShutdownProvider : P -> option string.

Definition createExporter (now : Z) (config : Config) : result string X :=
  match NewExporter (now + ExporterTimeout config) (exporter_options config) with
  | Ok x => Ok x
  | Err err => Err ("failed to create trace exporter: " ++ err)%string
  end.

(** The provider, and the globals of the package otel: the tracer provider and whether
    the W3C propagators are installed. *)
Record Provider : Type := { config : Config; tracerProvider : P; shutdown : option (option string) }.
Record globals : Type := { global_provider : option P; propagators : bool }.

Definition NewProvider (now : Z) (order : list (string * string)) (c : Config) (g : globals) : result string Provider * globals :=
  if (ServiceName c =? "")%string then (Err "service name is required", g)
  else match createExporter now c with
       | Err err => (Err ("failed to create exporter: " ++ err)%string, g)
       | Ok exporter =>
           let tp := NewTracerProvider (SamplingRatio c) exporter (createResource order c) in
           (Ok {| config := c; tracerProvider := tp; shutdown := Some (ShutdownProvider tp) |},
            {| global_provider := Some tp; propagators := true |})
       end.

Definition Shutdown (p : Provider) : option string := match shutdown p with Some r => r | None => None end.

Definition TracerProvider (p : Provider) : P := tracerProvider p.

(** A provider that cannot be made leaves the globals as they were; one that is made
    is the global one, whatever the flags of the configuration say. *)
Lemma NewProvider_globals now order c g r g' : NewProvider now order c g = (r, g') ->
  match r with
  | Ok p => g' = {| global_provider := Some (TracerProvider p); propagators := true |} /\ ServiceName c <> "" /\ Shutdown p = ShutdownProvider (TracerProvider p)
  | Err _ => g' = g
  end.
Proof.
  unfold NewProvider. destruct (String.eqb_spec (ServiceName c) ""); [by intros [= <- <-]|].
  destruct (createExporter now c); by intros [= <- <-].
Qed.

End Provider.
End Provider.

(** * Facts *)

Module Facts.

Section Facts.
Context {E T M : Type} `{!GrpcStatus E} `{!Metadata} `{!Propagator T}.
Variable child : T -> string -> T.
Variable Marshal : M -> option string.
Implicit Types (ctx : context T).
Abbreviation spans := (list (span_event E T)).

(** ** Spans

    A complete span: started once, ended once, at the end. *)
Definition inner (e : span_event E T) : bool := match e with Start _ _ _ _ | End_ => false | _ => true end.
Definition complete (evs : spans) : Prop :=
  exists parent name kind attrs body, evs = Start parent name kind attrs :: body ++ [End_] /\ Forall (fun e => inner e = true) body.

Lemma complete_intro parent name kind attrs body : Forall (fun e => inner e = true) body ->
  complete (Start parent name kind attrs :: body ++ [End_]).
Proof. intros Hx. by exists parent, name, kind, attrs, body. Qed.

Lemma message_inner s m : Forall (fun e => inner e = true) (message_attribute (E := E) (T := T) Marshal s m).
Proof. unfold message_attribute. repeat case_match; repeat constructor. Qed.

Lemma record_inner (err : option E) : Forall (fun e => inner e = true) (record (T := T) err).
Proof. destruct err; repeat constructor. Qed.

Lemma status_inner (err : option E) : Forall (fun e => inner e = true) (status_events (T := T) err).
Proof. unfold status_events. repeat case_match; repeat constructor. Qed.

Lemma ops_inner (ops : list (server_op E)) : Forall (fun e => inner e = true) (ops ≫= server_op_events (T := T)).
Proof.
  induction ops as [|op ops IH]; [constructor|]. cbn [mbind list_bind]. apply Forall_app. split; [|done].
  destruct op; apply record_inner.
Qed.

Create HintDb spans.
#[local] Hint Resolve message_inner record_inner status_inner ops_inner : spans.
#[local] Hint Resolve Forall_app_2 : spans.
#[local] Hint Constructors Forall : spans.

(** Whatever a handler or invoker does - return, fail or panic - the span of a unary call on either side, of a stream's handler and of both built interceptors is started once and ended once, after everything that is recorded on it. *)
Theorem spans_complete ctx (name target : string) (m : M) (b : ServerInterceptorBuilder) (now t0 t1 : Z) (HT : Tracer b <> None) :
  (forall inv, complete (GRPCUnaryClientInterceptor child Marshal ctx name target m inv).1) /\
  (forall h, complete (GRPCUnaryServerInterceptor child Marshal ctx name m h).1) /\
  (forall h, complete (GRPCStreamServerInterceptor (E := E) child ctx name h).1) /\
  (forall (A : Type) (h : context T -> outcome (A * option E)), complete (BuildUnary child b now t0 t1 ctx name h).1.2) /\
  (forall h, complete (BuildStream (E := E) child b now t0 t1 ctx name h).1.2).
Proof.
  repeat split.
  - intros inv. unfold GRPCUnaryClientInterceptor. destruct (inv _) as [[reply err]|]; cbn [fst app].
    + rewrite ?app_assoc. apply complete_intro. eauto with spans.
    + apply complete_intro. eauto with spans.
  - intros h. unfold GRPCUnaryServerInterceptor. destruct (h _) as [[resp err]|]; cbn [fst app].
    + rewrite ?app_assoc. apply complete_intro. destruct resp; eauto with spans.
    + apply complete_intro. eauto with spans.
  - intros h. unfold GRPCStreamServerInterceptor. destruct (h _) as [ops [err|]]; cbn [fst app].
    + rewrite ?app_assoc. apply complete_intro. eauto with spans.
    + apply complete_intro. eauto with spans.
  - intros A h. unfold BuildUnary. destruct (Tracer b); [|done]. destruct (h _) as [[resp err]|]; cbn [fst snd app].
    + apply complete_intro. eauto with spans.
    + by apply (complete_intro _ _ _ _ []).
  - intros h. unfold BuildStream. destruct (Tracer b); [|done]. destruct (h _) as [err|]; cbn [fst snd app].
    + apply complete_intro. eauto with spans.
    + by apply (complete_intro _ _ _ _ []).
Qed.

(** What is done to an ended span has no effect: what a span records is what comes
    before its end. *)
Fixpoint recorded (evs : spans) : spans :=
  match evs with [] => [] | End_ :: _ => [] | e :: evs => e :: recorded evs end.

(** A stream whose client half-closes has ended its span: what its receives answer
    afterwards is not recorded, and a stream that is never half-closed has no end. *)
Lemma half_close_ends_span (ops1 ops2 : list (client_op E)) err :
  recorded ((ops1 ++ CloseSend err :: ops2) ≫= client_op_events (T := T)) =
  recorded ((ops1 ++ [CloseSend err]) ≫= client_op_events (T := T)).
Proof.
  induction ops1 as [|op ops1 IH]; cbn [app mbind list_bind]; [by destruct err|].
  destruct op as [[e|]|[e|]|[e|]]; cbn [client_op_events record app recorded]; by rewrite ?IH.
Qed.

Lemma no_half_close_no_end (ops : list (client_op E)) :
  Forall (fun op => match op with CloseSend _ => False | _ => True end) ops -> (@End_ E T) ∉ ops ≫= client_op_events (T := T).
Proof.
  induction 1 as [|op ops Hop _ IH]; cbn [mbind list_bind]; [apply not_elem_of_nil|].
  intros [Hin|Hin]%elem_of_app; [|done]. destruct op as [[e|]|[e|]|]; cbn in Hin; try done;
    try (apply list_elem_of_singleton in Hin; done); by apply not_elem_of_nil in Hin.
Qed.

(** ** Propagation *)

(** gRPC's metadata has lower-case keys when it comes in. *)
Definition lower_keys (md : MD) : Prop := forall k vs, md !! k = Some vs -> ToLower k = k.

Lemma header_get_lower md k : lower_keys md -> ToLower (CanonicalHeaderKey k) <> CanonicalHeaderKey k -> HeaderCarrier_Get md k = "".
Proof.
  intros Hmd Hk. unfold HeaderCarrier_Get. destruct (md !! CanonicalHeaderKey k) as [vs|] eqn:Hl; [|done].
  by destruct Hk; apply (Hmd _ vs).
Qed.

Lemma w3c_not_lower k : k ∈ w3c_fields -> ToLower (CanonicalHeaderKey k) <> CanonicalHeaderKey k.
Proof.
  intros Hk. apply list_elem_of_In in Hk. destruct Hk as [<-|[<-|[<-|[]]]]; vm_compute; discriminate.
Qed.

(** The server interceptors never continue the caller's trace: whatever trace the incoming metadata carries, the handler's span is started as if it carried none, because the keys that they look for have upper-case letters and those of metadata have not. *)
Theorem incoming_trace_ignored ctx (Hf : Fields = w3c_fields) (Hmd : lower_keys (incoming_md ctx)) :
  extracted_context ctx = ctx /\
  (forall name m h, exists evs, (GRPCUnaryServerInterceptor (E := E) child Marshal ctx name m h).1 =
     Start (trace ctx) name SpanKindServer [("rpc.system", AString "grpc"); ("rpc.service", AString name)] :: evs).
Proof.
  assert (extracted_context ctx = ctx) as He.
  { unfold extracted_context. rewrite (Extract_ext _ _ (fun _ => "")), Extract_nothing; [by destruct ctx|].
    intros k Hk. rewrite Hf in Hk. apply header_get_lower; [done|]. by apply w3c_not_lower. }
  split; [done|]. intros name m h. unfold GRPCUnaryServerInterceptor. rewrite He.
  destruct (h _) as [[resp err]|]; cbn [fst app]; by eexists.
Qed.

(** The characters that gRPC allows in the keys of metadata. *)
Definition key_char (c : ascii) : bool :=
  let n := nat_of_ascii c in
  ((48 <=? n) && (n <=? 57))%nat || ((97 <=? n) && (n <=? 122))%nat || existsb (fun d => Ascii.eqb c d) ["-"; "_"; "."]%char.

(** gRPC refuses to send metadata with another key: such an invoker. *)
Definition refuses_bad_keys (inv : context T -> outcome (M * option E)) : Prop :=
  forall ctx md k vs, outgoing ctx = Some md -> md !! k = Some vs -> all_bytes key_char k = false ->
    exists reply e, inv ctx = Returns (reply, Some e).

Lemma inject_headers_has l : forall (md : MD) k, k ∈ l.*1 ->
  exists vs, foldl (fun md (kv : string * string) => HeaderCarrier_Set kv.1 kv.2 md) md l !! CanonicalHeaderKey k = Some vs.
Proof.
  assert (forall l (md : MD) k vs, md !! k = Some vs ->
            exists vs', foldl (fun md (kv : string * string) => HeaderCarrier_Set kv.1 kv.2 md) md l !! k = Some vs') as Hkeep.
  { clear l. induction l as [|[k' v'] l IH]; intros md k vs Hk; cbn [foldl]; [by exists vs|].
    unfold HeaderCarrier_Set at 2. cbn [fst snd]. destruct (decide (CanonicalHeaderKey k' = k)) as [<-|Hne].
    - apply (IH _ _ [v']). apply lookup_insert_eq.
    - apply (IH _ _ vs). by rewrite lookup_insert_ne. }
  induction l as [|[k' v'] l IH]; intros md k Hk; cbn in Hk; [by apply not_elem_of_nil in Hk|].
  apply elem_of_cons in Hk as [->|Hk]; cbn [foldl]; [|by apply IH].
  apply (Hkeep _ _ _ [v']). unfold HeaderCarrier_Set. cbn [fst snd]. apply lookup_insert_eq.
Qed.

Lemma w3c_bad_key k : k ∈ w3c_fields -> all_bytes key_char (CanonicalHeaderKey k) = false.
Proof.
  intros Hk. apply list_elem_of_In in Hk. destruct Hk as [<-|[<-|[<-|[]]]]; vm_compute; reflexivity.
Qed.

(** With the client interceptor, every call whose context has a trace to pass on fails before it is sent: the keys under which the trace is put into the outgoing metadata are not keys that gRPC sends. *)
Theorem traced_calls_fail ctx (method target : string) (req : M) (inv : context T -> outcome (M * option E))
    (Hf : Fields = w3c_fields) (Hinv : refuses_bad_keys inv) (Ht : Inject (child (trace ctx) method) <> []) :
  exists evs e, GRPCUnaryClientInterceptor child Marshal ctx method target req inv = (evs, Returns (Some e)) /\ RecordError e [] ∈ evs.
Proof.
  destruct (Inject (child (trace ctx) method)) as [|[k v] l] eqn:Hi; [done|].
  assert (k ∈ w3c_fields) as Hk. { rewrite <- Hf. apply (Inject_fields (child (trace ctx) method) k v). rewrite Hi. by left. }
  destruct (inject_headers_has (Inject (child (trace ctx) method)) (default ∅ (outgoing ctx)) k) as [vs Hvs]; [rewrite Hi; by left|].
  destruct (Hinv (outgoing_context child ctx method) _ _ vs eq_refl Hvs (w3c_bad_key k Hk)) as (reply & e & He).
  unfold GRPCUnaryClientInterceptor. rewrite He. eexists _, e. split; [reflexivity|].
  apply elem_of_app. right. apply elem_of_app. left. by left.
Qed.

(** The built interceptors read the metadata by its own [Get]: they extract what is
    there, and set the deadline. *)
Lemma builder_extracts b now ctx : (forall k, k ∈ Fields -> ToLower k = k) ->
  trace (builder_context b now ctx) = Extract (trace ctx) (fun k => first_value (incoming_md ctx !! k)).
Proof.
  intros Hl. unfold builder_context. assert (forall t, trace (with_trace t (if Timeout b >? 0 then WithTimeout now (Timeout b) ctx else ctx)) = t) as Ht
    by done.
  cbv zeta. rewrite Ht. destruct (Timeout b >? 0); cbn [trace WithTimeout]; apply Extract_ext; intros k Hk;
    unfold carrier_Get; rewrite md_Get_spec, Hl by done; by destruct (incoming_md ctx !! k) as [[|]|].
Qed.

Lemma builder_deadline b now ctx : Timeout b > 0 -> exists d, deadline (builder_context b now ctx) = Some d /\
  d <= now + Timeout b /\ (forall d0, deadline ctx = Some d0 -> d <= d0).
Proof.
  intros Hb. unfold builder_context. destruct (Timeout b >? 0) eqn:Ht; [|by rewrite Z.gtb_ltb in Ht; apply Z.ltb_ge in Ht; lia].
  cbn [with_trace deadline WithTimeout]. destruct (deadline ctx) as [d0|]; eexists; (split; [reflexivity|]); split; try lia;
    intros d1 [= <-]; lia.
Qed.

(** A value set through the metadata carrier is got back, under the key in any case. *)
Lemma carrier_roundtrip k v md k' : ToLower k' = ToLower k -> carrier_Get (carrier_Set k v md) k' = v.
Proof. intros Hk. unfold carrier_Get, carrier_Set. by rewrite md_Set_spec, md_Get_spec, Hk, lookup_insert_eq. Qed.

(** ** The built interceptors' metrics *)

(** The service attribute of a full method name, which starts with a slash, is empty. *)
Lemma service_attribute_empty s : rpc_service (String "/" s) = "".
Proof. unfold rpc_service. by change (String "/" s) with ("" ++ String "/" s)%string; rewrite Split_app. Qed.

(** An error without a status is counted, but as an error with the status OK. *)
Lemma plain_error_counted_as_ok t0 t1 f e : (FromError e).2 = false ->
  Inc errCntVec [f; code_String OK] ∈ unary_leave t0 t1 f (Some e) /\ Inc errCntVec [f; code_String OK] ∈ stream_leave t0 t1 f (Some e).
Proof. intros He. unfold unary_leave, stream_leave, status_of. rewrite He. split; apply elem_of_app; left; by left. Qed.

(** A request is its method and start. *)
Definition unary_probe : probe vector (string * Z) (option E * Z) := {|
  enter q := unary_enter q.1; leave q a := unary_leave q.2 a.2 q.1 a.1; unwound q := [] |}.
Definition stream_probe : probe vector (string * Z) (option E * Z) := {|
  enter q := [Inc reqCntVec [q.1]]; leave q a := stream_leave q.2 a.2 q.1 a.1 ++ [Dec reqCntVec [q.1]];
  unwound q := [Dec reqCntVec [q.1]] |}.
(** A client's request is its method, its own address and its start. *)
Definition client_probe : probe vector (string * string * Z) (option E * Z) := {|
  enter q := client_enter q.1.1 q.1.2; leave q a := client_deferred q.2 a.2 q.1.1 q.1.2 a.1;
  unwound q := client_deferred q.2 q.2 q.1.1 q.1.2 (None : option E) |}.

Lemma builder_unary_counts : counts reqCntVec (fun q => [q.1]) true unary_probe.
Proof.
  split; intros; unfold at_label; cbn [enter leave unwound unary_probe]; unfold unary_enter, unary_leave; repeat case_match; net_done.
Qed.

Lemma builder_stream_counts : counts reqCntVec (fun q => [q.1]) false stream_probe.
Proof.
  split; intros; unfold at_label; cbn [enter leave unwound stream_probe]; unfold stream_leave; repeat case_match; net_done.
Qed.

Lemma builder_client_counts : counts reqCntVec (fun q => [q.1.1; q.1.2; "client"]) false client_probe.
Proof.
  split; intros; unfold at_label; cbn [enter leave unwound client_probe]; unfold client_enter, client_deferred; repeat case_match; net_done.
Qed.

(** The gauge of active requests of a unary builder is off by one for each panic, for
    ever; the gauges of streams and of clients are exact. *)
Lemma builder_gauges {R} `{!Registry vector R} f es w : quiet w ->
  (run unary_probe es no_calls = Some w ->
   value reqCntVec [f] (apply_all (made w) empty_registry) =
     in_handlers (fun q : string * Z => [q.1]) [f] w + sum_of (at_label (fun q : string * Z => [q.1]) [f]) (panicked w)) /\
  (run stream_probe es no_calls = Some w ->
   value reqCntVec [f] (apply_all (made w) empty_registry) = in_handlers (fun q : string * Z => [q.1]) [f] w).
Proof.
  intros Hq. split; intros Hr.
  - apply (gauge_is_underway reqCntVec _ true unary_probe builder_unary_counts _ es w Hr Hq).
    eapply (run_made _ unary_probe es); [| | | | |exact Hr]; try (constructor || apply map_Forall_empty);
      intros; cbn [enter leave unwound unary_probe]; unfold unary_enter, unary_leave; repeat case_match; repeat constructor.
  - rewrite (gauge_is_underway reqCntVec _ false stream_probe builder_stream_counts _ es w Hr Hq); [unfold lost; lia|].
    eapply (run_made _ stream_probe es); [| | | | |exact Hr]; try (constructor || apply map_Forall_empty);
      intros; cbn [enter leave unwound stream_probe]; unfold stream_leave; repeat case_match; repeat constructor.
Qed.

End Facts.

(** ** Witnesses: a propagator of one header *)

#[refine] Definition plain_metadata : Metadata := {|
  md_Get md k := default [] (md !! ToLower k);
  md_Set k vs md := match vs with [] => md | _ => <[ToLower k := vs]> md end |}.
Proof.
  - done.
  - done.
Defined.

#[refine] Definition traceparent : Propagator (option string) := {|
  Fields := w3c_fields;
  Extract t g := if (g "traceparent" =? "")%string then t else Some (g "traceparent");
  Inject t := match t with Some v => [("traceparent", v)] | None => [] end |}.
Proof.
  - intros [x|] k v Hk; [|by apply not_elem_of_nil in Hk]. apply list_elem_of_singleton in Hk. injection Hk as -> _. by left.
  - intros [x|]; repeat constructor. apply not_elem_of_nil.
  - intros t g1 g2 Hg. rewrite (Hg "traceparent"); [done|by left].
  - done.
Defined.

Definition sample_context : context (option string) :=
  {| incoming := Some {[ "traceparent" := ["00-abc-def-01"] ]}; outgoing := None; deadline := None; trace := None |}.

Definition sample_child (t : option string) (name : string) : option string := Some (name ++ "-span")%string.
Definition sample_marshal (m : unit) : option string := Some "{}".

Lemma sample_lower_keys : lower_keys (incoming_md sample_context).
Proof.
  intros k vs Hk. change (incoming_md sample_context) with ({[ "traceparent" := ["00-abc-def-01"] ]} : MD) in Hk.
  apply lookup_singleton_Some in Hk as [<- _]. reflexivity.
Qed.

Lemma spans_complete_witness : Tracer (NewServerInterceptorBuilder "a" "b" "c" "") <> None /\
  complete (@BuildUnary Z (option string) numbered plain_metadata traceparent sample_child unit
              (NewServerInterceptorBuilder "a" "b" "c" "") 0 0 Second sample_context "/a.B/Get" (fun _ => Panics)).1.2.
Proof.
  assert (Tracer (NewServerInterceptorBuilder "a" "b" "c" "") <> None) as HT by discriminate. split; [exact HT|].
  apply (@spans_complete Z (option string) unit numbered plain_metadata traceparent sample_child sample_marshal sample_context
           "/a.B/Get" "" tt (NewServerInterceptorBuilder "a" "b" "c" "") 0 0 Second HT).
Defined.

Lemma incoming_trace_ignored_witness : @extracted_context (option string) traceparent sample_context = sample_context.
Proof.
  apply (@incoming_trace_ignored Z (option string) unit traceparent sample_child sample_marshal sample_context eq_refl sample_lower_keys).
Defined.

(** A connection that refuses keys of metadata with upper-case letters. *)
Definition sample_invoker (ctx : context (option string)) : outcome (unit * option Z) :=
  if forallb (fun kv => all_bytes key_char kv.1) (map_to_list (default ∅ (outgoing ctx)))
  then Returns (tt, None) else Returns (tt, Some Internal).

Lemma traced_calls_fail_witness : exists evs e,
  @GRPCUnaryClientInterceptor Z (option string) unit traceparent sample_child sample_marshal sample_context "/a.B/Get" "target" tt sample_invoker =
    (evs, Returns (Some e)) /\ RecordError e [] ∈ evs.
Proof.
  apply (@traced_calls_fail Z (option string) unit traceparent sample_child sample_marshal sample_context "/a.B/Get" "target" tt sample_invoker);
    [reflexivity| |discriminate].
  intros ctx md k vs Hmd Hk Hbad. unfold sample_invoker. rewrite Hmd. cbn [default].
  destruct (forallb _ _) eqn:Hf; [|by eexists _, _]. rewrite forallb_forall in Hf.
  apply elem_of_map_to_list, list_elem_of_In in Hk. specialize (Hf _ Hk). cbn [fst] in Hf. congruence.
Defined.

End Facts.
