(* ===== verification/Logger.v ===== *)
(** The structured logger: [src/observability/logging/logger.go].

    What a logger does is a list of effects: writes to a writer or to the standard
    error, and the end of the process. JSON, the clock's format and the caller's
    position are parameters; an interceptor makes calls on a logger, which a
    [StructuredLogger] turns into effects. *)
From S2P Require Import Prelude Float64 GoString Rpc.

(** * Levels, fields, options *)

Definition LevelDebug : Z := 0.
Definition LevelInfo : Z := 1.
Definition LevelWarn : Z := 2.
Definition LevelError : Z := 3.
Definition LevelFatal : Z := 4.

Definition levelNames : gmap Z string :=
  <[LevelDebug := "DEBUG"]> (<[LevelInfo := "INFO"]> (<[LevelWarn := "WARN"]> (<[LevelError := "ERROR"]> (<[LevelFatal := "FATAL"]> ∅)))).

(** The values of fields; [VAny] is any other value of a caller. *)
Inductive value : Type := VString (s : string) | VBool (b : bool) | VInt (z : Z) | VFloat (x : float64) | VAny (n : N).

Abbreviation fields_map := (gmap string value).

Definition FieldTime : string := "time".
Definition FieldLevel : string := "level".
Definition FieldMessage : string := "message".
Definition FieldFile : string := "file".
Definition FieldLine : string := "line".
Definition FieldService : string := "service".
Definition FieldMethod : string := "method".
Definition FieldDuration : string := "duration_ms".
Definition FieldStatus : string := "status".
Definition FieldError : string := "error".
Definition FieldTraceID : string := "trace_id".
Definition FieldSpanID : string := "span_id".

(** A writer is a number; the standard output is 1. *)
Record Options : Type := {
  Writer : N; Level : Z; IncludeLocation : bool; ServiceName : string; EnableColor : bool; PrettyPrint : bool }.

Definition DefaultOptions : Options :=
  {| Writer := 1; Level := LevelInfo; IncludeLocation := true; ServiceName := "eidola"; EnableColor := true; PrettyPrint := false |}.

Record StructuredLogger : Type := { opts : Options; fields : fields_map; colorMap : gmap Z string }.

(** The escape character and a colour. *)
Definition colour (code : string) : string := String (ascii_of_nat 27) ("[" ++ code ++ "m")%string.

Definition NewStructuredLogger (opts : Options) : StructuredLogger := {|
  opts := opts; fields := ∅;
  colorMap := <[LevelDebug := colour "37"]> (<[LevelInfo := colour "34"]> (<[LevelWarn := colour "33"]>
                (<[LevelError := colour "31"]> (<[LevelFatal := colour "35"]> ∅)))) |}.

(** * Logging *)

Inductive effect : Type := Write (w : N) (line : string) | Stderr (text : string) | Exit (code : Z).

Definition newline : string := String (ascii_of_nat 10) "".

Section Log.
(** [json.Marshal], or [MarshalIndent] when the flag is set: maps are written with
    sorted keys. *)
Variable Marshal : bool -> fields_map -> result string string.

(** The part of a path after its last slash. *)
Definition base_name (file : string) : string :=
  if contains_byte "/" file then drop_string (last_slash 0 0 file + 1) file else file.

(** The entry: the logger's fields overwrite the basic ones, the call's fields both.
    [caller] is the position two frames up. *)
Definition basic_fields (timestamp : string) (caller : option (string * Z)) (level : Z) (msg : string) (o : Options) : fields_map :=
  let entry : fields_map := <[FieldMessage := VString msg]> (<[FieldLevel := VString (default "" (levelNames !! level))]>
                 (<[FieldTime := VString timestamp]> ∅)) in
  let entry := if (ServiceName o =? "")%string then entry else <["service_name" := VString (ServiceName o)]> entry in
  if IncludeLocation o
  then match caller with
       | Some (file, line) => <[FieldLine := VInt line]> (<[FieldFile := VString (base_name file)]> entry)
       | None => entry
       end
  else entry.

Definition make_entry (timestamp : string) (caller : option (string * Z)) (level : Z) (msg : string) (fs : fields_map)
    (l : StructuredLogger) : fields_map :=
  fs ∪ (fields l ∪ basic_fields timestamp caller level msg (opts l)).

Definition Log (timestamp : string) (caller : option (string * Z)) (level : Z) (msg : string) (fs : fields_map)
    (l : StructuredLogger) : list effect :=
  if level <? Level (opts l) then []
  else
    match Marshal (PrettyPrint (opts l)) (make_entry timestamp caller level msg fs l) with
    | Err err => [Stderr ("Error marshaling log entry: " ++ err ++ newline)%string]
    | Ok output =>
        match (if EnableColor (opts l) then colorMap l !! level else None) with
        | Some colorCode => [Write (Writer (opts l)) (colorCode ++ output ++ colour "0" ++ newline)%string]
        | None => Write (Writer (opts l)) (output ++ newline)%string :: (if level =? LevelFatal then [Exit 1] else [])
        end
    end.

Definition Debug (t : string) (c : option (string * Z)) : string -> fields_map -> StructuredLogger -> list effect := Log t c LevelDebug.
Definition Info (t : string) (c : option (string * Z)) : string -> fields_map -> StructuredLogger -> list effect := Log t c LevelInfo.
Definition Warn (t : string) (c : option (string * Z)) : string -> fields_map -> StructuredLogger -> list effect := Log t c LevelWarn.
Definition Error (t : string) (c : option (string * Z)) : string -> fields_map -> StructuredLogger -> list effect := Log t c LevelError.
Definition Fatal (t : string) (c : option (string * Z)) : string -> fields_map -> StructuredLogger -> list effect := Log t c LevelFatal.

End Log.

Definition With (fs : fields_map) (l : StructuredLogger) : StructuredLogger :=
  {| opts := opts l; fields := fs ∪ fields l; colorMap := colorMap l |}.

Definition SetLevel (level : Z) (l : StructuredLogger) : StructuredLogger :=
  let o := opts l in
  {| opts := {| Writer := Writer o; Level := level; IncludeLocation := IncludeLocation o; ServiceName := ServiceName o;
                EnableColor := EnableColor o; PrettyPrint := PrettyPrint o |};
     fields := fields l; colorMap := colorMap l |}.

Definition GetLevel (l : StructuredLogger) : Z := Level (opts l).

(** ** The default logger and files

    The package's variable; its [init] puts a logger with the default options there. *)
Definition init_defaultLogger : StructuredLogger := NewStructuredLogger DefaultOptions.
Definition GetDefaultLogger (defaultLogger : StructuredLogger) : StructuredLogger := defaultLogger.
Definition SetDefaultLogger (logger defaultLogger : StructuredLogger) : StructuredLogger := logger.

(** [opened] is the answer of [os.OpenFile]. *)
Definition GetFileLogger (opened : result string N) (level : Z) : result string StructuredLogger :=
  match opened with
  | Err err => Err ("无法创建日志文件: " ++ err)%string
  | Ok file =>
      let o := DefaultOptions in
      Ok (NewStructuredLogger {| Writer := file; Level := level; IncludeLocation := IncludeLocation o; ServiceName := ServiceName o;
                                 EnableColor := false; PrettyPrint := PrettyPrint o |})
  end.

(** * Interceptors

    A call on a logger: level, message and fields. *)
Record log_call : Type := { lc_level : Z; lc_msg : string; lc_fields : fields_map }.

Definition splitMethodName (fullMethodName : string) : outcome (string * string) := split_last fullMethodName.

(** [extractTraceInfo]: a placeholder in the source. *)
Definition extractTraceInfo : string * string := ("", "").

(** The trace and span identifiers, where there are any. *)
Definition add_trace (m : fields_map) : fields_map :=
  let '(traceID, spanID) := extractTraceInfo in
  let m := if (traceID =? "")%string then m else <[FieldTraceID := VString traceID]> m in
  if (spanID =? "")%string then m else <[FieldSpanID := VString spanID]> m.

Section Interceptors.
Context {E : Type} `{!GrpcStatus E}.

(** The messages of one kind of interceptor: start, failure, anomaly, completion. *)
Record texts : Type := { started : string; failed : string; abnormal : string; completed : string }.

Definition unary_texts : texts :=
  {| started := "gRPC服务请求开始"; failed := "gRPC服务请求失败"; abnormal := "gRPC服务请求异常"; completed := "gRPC服务请求完成" |}.
Definition stream_texts : texts :=
  {| started := "gRPC流式服务开始"; failed := "gRPC流式服务失败"; abnormal := "gRPC流式服务异常"; completed := "gRPC流式服务完成" |}.
Definition client_texts : texts :=
  {| started := "gRPC客户端请求开始"; failed := "gRPC客户端请求失败"; abnormal := "gRPC客户端请求异常"; completed := "gRPC客户端请求完成" |}.

(** The fields of a request, [extra] being those of a stream or a client. *)
Definition request_fields (service method : string) (extra : fields_map) : fields_map :=
  add_trace (extra ∪ <[FieldMethod := VString method]> (<[FieldService := VString service]> ∅)).

Definition duration_ms (t0 t1 : Z) : float64 := of_int (Z.quot (time_sub t1 t0) Millisecond).

Definition is_failure (code : Z) : bool := (code =? Internal) || (code =? Unknown) || (code =? DataLoss).

(** The entry at the end of a request. *)
Definition end_call (tx : texts) (t0 t1 : Z) (service method : string) (extra : fields_map) (err : option E) : log_call :=
  let responseFields := <[FieldDuration := VFloat (duration_ms t0 t1)]> (request_fields service method extra) in
  match err with
  | Some e =>
      let responseFields := <[FieldStatus := VString (if (FromError e).2 then code_String (FromError e).1.1 else "UNKNOWN")]> responseFields in
      let responseFields := <[FieldError := VString (error_text e)]> responseFields in
      if is_failure (FromError e).1.1
      then {| lc_level := LevelError; lc_msg := failed tx; lc_fields := responseFields |}
      else {| lc_level := LevelWarn; lc_msg := abnormal tx; lc_fields := responseFields |}
  | None =>
      {| lc_level := LevelInfo; lc_msg := completed tx; lc_fields := <[FieldStatus := VString (code_String OK)]> responseFields |}
  end.

(** The three interceptors differ in their texts, the fields of the start entry and
    of the end entry, and in what they call in between, which logs [inner]. *)
Definition intercept {A : Type} (tx : texts) (t0 t1 : Z) (fullMethodName : string) (at_start at_end : fields_map)
    (inner : string -> string -> list log_call) (error_of : A -> option E) (handler : outcome A) : list log_call * outcome A :=
  match splitMethodName fullMethodName with
  | Panics => ([], Panics)
  | Returns (service, method) =>
      let start := {| lc_level := LevelDebug; lc_msg := started tx; lc_fields := request_fields service method at_start |} in
      match handler with
      | Panics => (start :: inner service method, Panics)
      | Returns a => (start :: inner service method ++ [end_call tx t0 t1 service method at_end (error_of a)], Returns a)
      end
  end.

Definition GrpcUnaryServerInterceptor {A : Type} (t0 t1 : Z) (FullMethod : string) (handler : outcome (A * option E))
    : list log_call * outcome (A * option E) :=
  intercept unary_texts t0 t1 FullMethod ∅ ∅ (fun _ _ => []) snd handler.

Definition GrpcUnaryClientInterceptor (t0 t1 : Z) (method target : string) (invoker : outcome (option E))
    : list log_call * outcome (option E) :=
  let extra := <["target" := VString target]> ∅ in
  intercept client_texts t0 t1 method extra extra (fun _ _ => []) (fun err => err) invoker.

(** ** Streams *)

Record monitoredServerStream : Type := {
  service : string; method : string; traceID : string; spanID : string; recvCount : Z; sendCount : Z }.

(** The entry for every hundredth message. *)
Definition count_call (msg : string) (count : Z) (s : monitoredServerStream) : log_call := {|
  lc_level := LevelDebug; lc_msg := msg;
  lc_fields := <[FieldSpanID := VString (spanID s)]> (<[FieldTraceID := VString (traceID s)]> (<["count" := VInt count]>
                 (<[FieldMethod := VString (method s)]> (<[FieldService := VString (service s)]> ∅)))) |}.

Definition RecvMsg (err : option E) (s : monitoredServerStream) : list log_call * monitoredServerStream :=
  match err with
  | Some _ => ([], s)
  | None =>
      let count := i64 (recvCount s + 1) in
      (if Z.rem count 100 =? 0 then [count_call "接收流消息" count s] else [],
       {| service := service s; method := method s; traceID := traceID s; spanID := spanID s; recvCount := count; sendCount := sendCount s |})
  end.

Definition SendMsg (err : option E) (s : monitoredServerStream) : list log_call * monitoredServerStream :=
  match err with
  | Some _ => ([], s)
  | None =>
      let count := i64 (sendCount s + 1) in
      (if Z.rem count 100 =? 0 then [count_call "发送流消息" count s] else [],
       {| service := service s; method := method s; traceID := traceID s; spanID := spanID s; recvCount := recvCount s; sendCount := count |})
  end.

Inductive stream_op : Type := Send (err : option E) | Recv (err : option E).

Definition stream_step (acc : list log_call * monitoredServerStream) (op : stream_op) : list log_call * monitoredServerStream :=
  let '(cs, s) := match op with Send err => SendMsg err acc.2 | Recv err => RecvMsg err acc.2 end in (acc.1 ++ cs, s).

Definition stream_fields (IsClientStream IsServerStream : bool) : fields_map :=
  let m := if IsClientStream then <["client_stream" := VBool true]> ∅ else ∅ in
  if IsServerStream then <["server_stream" := VBool true]> m else m.

(** The handler makes the operations [ops] on the stream and returns or panics. *)
Definition GrpcStreamServerInterceptor (t0 t1 : Z) (FullMethod : string) (IsClientStream IsServerStream : bool)
    (ops : list stream_op) (handler : outcome (option E)) : list log_call * outcome (option E) :=
  let inner svc mth :=
    (foldl stream_step ([], {| service := svc; method := mth; traceID := extractTraceInfo.1; spanID := extractTraceInfo.2;
                               recvCount := 0; sendCount := 0 |}) ops).1 in
  intercept stream_texts t0 t1 FullMethod (stream_fields IsClientStream IsServerStream) ∅ inner (fun err => err) handler.

End Interceptors.
Arguments stream_op E : clear implicits.

(** A structured logger as the logger of an interceptor; every call has its own time
    and position. *)
Definition log_all (Marshal : bool -> fields_map -> result string string) (l : StructuredLogger)
    (cs : list (log_call * (string * option (string * Z)))) : list effect :=
  cs ≫= fun '(c, (t, pos)) => Log Marshal t pos (lc_level c) (lc_msg c) (lc_fields c) l.

(** * Facts *)

Module Facts.

Section Logging.
Variable Marshal : bool -> fields_map -> result string string.
Implicit Types (l : StructuredLogger) (fs : fields_map).

Definition is_write (e : effect) : bool := match e with Write _ _ => true | _ => false end.

(** ** One call *)

Lemma below_level_silent t c level msg fs l : level < Level (opts l) -> Log Marshal t c level msg fs l = [].
Proof. intros Hl. unfold Log. destruct (Z.ltb_spec level (Level (opts l))); [done|lia]. Qed.

(** A call at the level or above writes one line, when its entry can be marshalled. *)
Lemma log_writes_once t c level msg fs l : Level (opts l) <= level ->
  is_ok (Marshal (PrettyPrint (opts l)) (make_entry t c level msg fs l)) = true ->
  length (List.filter is_write (Log Marshal t c level msg fs l)) = 1%nat.
Proof.
  intros Hl Hm. unfold Log. destruct (Z.ltb_spec level (Level (opts l))); [lia|].
  destruct (Marshal _ _); [|done]. destruct (if EnableColor (opts l) then _ else _); [done|].
  by destruct (level =? LevelFatal).
Qed.

(** A call ends the process exactly when it is fatal, passes the logger's level, has an entry that can be marshalled, and the logger writes no colour for fatal entries: a logger with colours, as the default one, returns from Fatal. *)
Theorem exits_iff (t : string) (c : option (string * Z)) (level : Z) (msg : string) (fs : fields_map) (l : StructuredLogger) :
  Exit 1 ∈ Log Marshal t c level msg fs l <->
  level = LevelFatal /\ Level (opts l) <= level /\ is_ok (Marshal (PrettyPrint (opts l)) (make_entry t c level msg fs l)) = true /\
  (EnableColor (opts l) = false \/ colorMap l !! level = None).
Proof.
  unfold Log. destruct (Z.ltb_spec level (Level (opts l))).
  { split; [intros Hin; by apply not_elem_of_nil in Hin|lia]. }
  destruct (Marshal _ _) as [output|err]; cbn [is_ok].
  2: { split; [|by intros (_ & _ & ? & _)]. intros Hin. by apply list_elem_of_singleton in Hin. }
  destruct (EnableColor (opts l)); [destruct (colorMap l !! level)|].
  - split; [|by intros (_ & _ & _ & [?|?])]. intros Hin. by apply list_elem_of_singleton in Hin.
  - destruct (Z.eqb_spec level LevelFatal) as [->|Hne].
    + split; [auto|]. intros _. right. by left.
    + split; [|by intros [? _]]. intros Hin. by apply list_elem_of_singleton in Hin.
  - destruct (Z.eqb_spec level LevelFatal) as [->|Hne].
    + split; [auto|]. intros _. right. by left.
    + split; [|by intros [? _]]. intros Hin. by apply list_elem_of_singleton in Hin.
Qed.

(** ** Fields *)

(** The fields of an entry: the call's, then the logger's, then the basic ones; also
    under the names that the logger uses itself. *)
Lemma entry_lookup t c level msg fs l k :
  make_entry t c level msg fs l !! k =
    match fs !! k with
    | Some v => Some v
    | None => match fields l !! k with Some v => Some v | None => basic_fields t c level msg (opts l) !! k end
    end.
Proof. unfold make_entry. rewrite !lookup_union. by destruct (fs !! k), (fields l !! k), (basic_fields _ _ _ _ _ !! k). Qed.

Lemma With_With f1 f2 l : With f2 (With f1 l) = With (f2 ∪ f1) l.
Proof. unfold With. cbn [fields opts colorMap]. by rewrite map_union_assoc. Qed.

(** Logging with fields on a child is logging with all of them on the parent. *)
Lemma With_Log t c level msg fs f l : Log Marshal t c level msg fs (With f l) = Log Marshal t c level msg (fs ∪ f) l.
Proof. unfold Log, make_entry, With. cbn [fields opts colorMap]. by rewrite !map_union_assoc. Qed.

(** The level of a child is its own. *)
Lemma SetLevel_child level level' f l :
  GetLevel (With f (SetLevel level l)) = level /\ GetLevel (SetLevel level (With f l)) = level /\
  GetLevel (With f l) = GetLevel l /\ fields (SetLevel level' (With f l)) = f ∪ fields l.
Proof. done. Qed.

End Logging.

(** ** Interceptors *)

Section Requests.
Context {E : Type} `{!GrpcStatus E}.
Variable Marshal : bool -> fields_map -> result string string.

(** The level of the entry for an answer. *)
Definition answer_level (err : option E) : Z :=
  match err with
  | None => LevelInfo
  | Some e => if is_failure (FromError e).1.1 then LevelError else LevelWarn
  end.

Lemma end_call_level tx t0 t1 svc m extra (err : option E) : lc_level (end_call tx t0 t1 svc m extra err) = answer_level err.
Proof. unfold end_call, answer_level. destruct err as [e|]; [destruct (is_failure _)|]; done. Qed.

(** The end entry has the method, the service, the duration and the status. *)
Lemma end_call_fields tx t0 t1 svc m (err : option E) : let f := lc_fields (end_call tx t0 t1 svc m ∅ err) in
  f !! FieldMethod = Some (VString m) /\ f !! FieldService = Some (VString svc) /\
  f !! FieldDuration = Some (VFloat (duration_ms t0 t1)) /\ is_Some (f !! FieldStatus) /\
  (f !! FieldError = match err with Some e => Some (VString (error_text e)) | None => None end).
Proof.
  unfold end_call, request_fields, add_trace, extractTraceInfo. cbn [String.eqb].
  destruct err as [e|]; [destruct (is_failure _)|]; cbn [lc_fields];
    rewrite (map_empty_union (M := gmap string)); repeat split; try (rewrite ?lookup_insert_ne, ?lookup_insert_eq by done; done);
    rewrite ?lookup_insert_ne, ?lookup_insert_eq by done; eauto.
Qed.

(** How many lines a logger writes for calls of these levels. *)
Definition lines_at (l : StructuredLogger) (levels : list Z) : nat :=
  length (List.filter (fun level => Level (opts l) <=? level) levels).

Definition one_if (b : bool) : nat := if b then 1 else 0.

Lemma log_all_writes l cs : (forall pretty entry, is_ok (Marshal pretty entry) = true) ->
  length (List.filter is_write (log_all Marshal l cs)) = lines_at l ((fun c : log_call * (string * option (string * Z)) => lc_level c.1) <$> cs).
Proof.
  intros Hm. unfold log_all, lines_at. induction cs as [|[c [t pos]] cs IH]; [done|].
  cbn [mbind list_bind fmap list_fmap List.filter fst]. rewrite List.filter_app, length_app, IH.
  destruct (Z.leb_spec (Level (opts l)) (lc_level c)) as [Hle|Hlt].
  - by rewrite log_writes_once.
  - rewrite below_level_silent by done. done.
Qed.

(** Through a structured logger whose entries can be marshalled, a unary request that is answered leaves one line for its start when the logger's level is Debug, and one for its end when the level of its answer - Info, Warn or Error by its status - reaches the logger's; a request whose handler panics leaves no line for its end. *)
Theorem access_log {A : Type} (l : StructuredLogger) (t0 t1 : Z) (svc m : string) (handler : outcome (A * option E))
    (stamps : list (string * option (string * Z)))
    (Hm : contains_byte "/" m = false) (Hok : forall pretty entry, is_ok (Marshal pretty entry) = true)
    (Hn : length stamps = match handler with Returns _ => 2%nat | Panics => 1%nat end) :
  let '(cs, answer) := GrpcUnaryServerInterceptor t0 t1 (String "/" (svc ++ String "/" m)) handler in
  answer = handler /\
  length (List.filter is_write (log_all Marshal l (zip cs stamps))) =
    match handler with
    | Returns (_, err) => (one_if (Level (opts l) <=? LevelDebug)%Z + one_if (Level (opts l) <=? answer_level err)%Z)%nat
    | Panics => one_if (Level (opts l) <=? LevelDebug)
    end.
Proof.
  unfold GrpcUnaryServerInterceptor, intercept, splitMethodName. rewrite split_last_spec by done.
  destruct handler as [[a err]|]; split; try done; rewrite log_all_writes by done;
    destruct stamps as [|s1 [|s2 [|s3 stamps]]]; try done; cbn [zip_with fmap list_fmap fst lc_level app snd]; rewrite ?end_call_level;
    unfold lines_at, one_if; cbn [List.filter]; repeat case_match; done.
Qed.

(** ** Messages of a stream *)

Definition count_received (ops : list (stream_op E)) : Z :=
  sum_of (fun op => match op with Recv None => 1 | _ => 0 end) ops.
Definition is_received (c : log_call) : bool := (lc_msg c =? "接收流消息")%string.

Lemma stream_counts ops : forall cs s, 0 <= recvCount s -> recvCount s + Z.of_nat (length ops) < 2 ^ 63 ->
  let '(cs', s') := foldl stream_step (cs, s) ops in
  recvCount s' = recvCount s + count_received ops /\
  Z.of_nat (length (List.filter is_received cs')) = Z.of_nat (length (List.filter is_received cs)) + (recvCount s' / 100 - recvCount s / 100).
Proof.
  induction ops as [|op ops IH]; intros cs s Hs Hb; cbn [foldl length] in *.
  - unfold count_received, sum_of. cbn. split; lia.
  - unfold count_received. rewrite sum_of_cons. fold (count_received ops).
    destruct op as [[e|]|[e|]]; unfold stream_step at 2; cbn [fst snd SendMsg RecvMsg].
    + rewrite app_nil_r. specialize (IH cs s Hs). destruct (foldl _ _ _) as [cs' s']. destruct IH as [IH1 IH2]; [lia|]. split; lia.
    + match goal with |- context [foldl stream_step (?c, ?s1)] => specialize (IH c s1) end. cbn [recvCount] in IH.
      destruct (foldl _ _ _) as [cs' s']. destruct IH as [IH1 IH2]; [done|lia|]. split; [lia|]. rewrite IH2, List.filter_app, length_app.
      destruct (Z.rem _ 100 =? 0); cbn; lia.
    + rewrite app_nil_r. specialize (IH cs s Hs). destruct (foldl _ _ _) as [cs' s']. destruct IH as [IH1 IH2]; [lia|]. split; lia.
    + match goal with |- context [foldl stream_step (?c, ?s1)] => specialize (IH c s1) end. cbn [recvCount] in IH.
      rewrite (i64_small (recvCount s + 1)) in * by (unfold is_i64; lia).
      destruct (foldl _ _ _) as [cs' s']. destruct IH as [IH1 IH2]; [lia|lia|]. split; [lia|]. rewrite IH2, List.filter_app, length_app.
      rewrite Z.rem_mod_nonneg by lia. destruct (Z.eqb_spec ((recvCount s + 1) mod 100) 0) as [Hz|Hz]; cbn [List.filter length is_received]; cbn.
      * pose proof (Z.div_mod (recvCount s + 1) 100 ltac:(lia)). pose proof (Z.div_mod (recvCount s) 100 ltac:(lia)).
        pose proof (Z.mod_pos_bound (recvCount s) 100 ltac:(lia)). lia.
      * pose proof (Z.div_mod (recvCount s + 1) 100 ltac:(lia)). pose proof (Z.div_mod (recvCount s) 100 ltac:(lia)).
        pose proof (Z.mod_pos_bound (recvCount s) 100 ltac:(lia)). pose proof (Z.mod_pos_bound (recvCount s + 1) 100 ltac:(lia)). lia.
Qed.

Lemma end_not_received t0 t1 svc m extra (err : option E) : is_received (end_call stream_texts t0 t1 svc m extra err) = false.
Proof. unfold end_call. destruct err as [e|]; [destruct (is_failure _)|]; done. Qed.

(** Of the messages that a stream receives, every hundredth is logged. *)
Lemma every_hundredth t0 t1 svc m b1 b2 ops err : contains_byte "/" m = false -> Z.of_nat (length ops) < 2 ^ 63 ->
  Z.of_nat (length (List.filter is_received
    (GrpcStreamServerInterceptor (E := E) t0 t1 (String "/" (svc ++ String "/" m)) b1 b2 ops (Returns err)).1)) = count_received ops / 100.
Proof.
  intros Hm Hb. unfold GrpcStreamServerInterceptor, intercept, splitMethodName. rewrite split_last_spec by done. cbn [fst].
  cbn [List.filter]. change (is_received {| lc_level := _; lc_msg := started stream_texts; lc_fields := _ |}) with false. cbv iota.
  rewrite List.filter_app, length_app.
  match goal with |- context [foldl stream_step (?c, ?s1)] => pose proof (stream_counts ops c s1) as Hc end.
  destruct (foldl _ _ _) as [cs' s']. cbn [recvCount fst] in *. destruct Hc as [Hc1 Hc2]; [done|lia|].
  cbn [List.filter length] in Hc2. rewrite Hc1, Z.add_0_l, Z.div_0_l, Z.sub_0_r in Hc2 by done.
  cbn [List.filter]. rewrite end_not_received. cbn [length].
  by rewrite Nat.add_0_r, Hc2, Z.add_0_l.
Qed.

(** A method name that is empty or a lone slash panics before the handler is called. *)
Lemma bad_names_panic {A : Type} t0 t1 (handler : outcome (A * option E)) :
  GrpcUnaryServerInterceptor t0 t1 "" handler = ([], Panics) /\ GrpcUnaryServerInterceptor t0 t1 "/" handler = ([], Panics).
Proof. done. Qed.

End Requests.

(** ** Witnesses *)

Definition sample_marshal (pretty : bool) (entry : fields_map) : result string string :=
  Ok (match entry !! FieldMessage with Some (VString s) => s | _ => "" end).

Lemma access_log_witness :
  length (List.filter is_write (log_all sample_marshal init_defaultLogger
    (zip (@GrpcUnaryServerInterceptor Z numbered unit 0 Millisecond "/a.B/Get" (Returns (tt, Some 5))).1 [("t0", None); ("t1", None)]))) = 1%nat.
Proof.
  pose proof (@access_log Z numbered sample_marshal unit init_defaultLogger 0 Millisecond "a.B" "Get" (Returns (tt, Some 5))
                [("t0", None); ("t1", None)] eq_refl (fun _ _ => eq_refl) eq_refl) as [_ H].
  exact H.
Defined.

End Facts.
