(* ===== verification/TLSConfig.v ===== *)
(** TLS configuration with rotation of certificates and OCSP: [src/auth/tls/config.go].

    Files, certificates, the HTTP client and OCSP are a class; what the package keeps
    about its configuration, its channels and its goroutines is modelled. *)
From S2P Require Import Prelude GoString.

(** * Libraries

    [FS] is the state of the file system; a pair of certificate and key holds the
    DER form of its chain, leaf first. *)
Class TLSLib (FS Raw X509 Cert Pool : Type) : Type := {
  LoadX509KeyPair : FS -> string -> string -> result string Cert;
  ReadFile : FS -> string -> result string string;
  Stat : FS -> string -> bool;
  AppendCertsFromPEM : string -> option Pool;
  leaf_raw : Cert -> Raw;
  rest_raw : Cert -> list Raw;
  ParseCertificate : Raw -> result string X509;
  ParseCertificates : Raw -> result string (list X509);
  NotAfter : X509 -> Z;
  OCSPServer : X509 -> list string;
  CreateRequest : X509 -> X509 -> result string string;
  Post : string -> string -> result string string;
  ReadAll : string -> result string string;
  ParseResponse : string -> result string Z;
  Join : string -> string -> string;
  Join_file dir file : file <> "" -> Join dir file <> "" }.

(** [tls.ClientAuthType], [tls.VersionTLS12] and [13], the statuses of OCSP. *)
Definition NoClientCert : Z := 0.
Definition VersionTLS12 : Z := 771.
Definition VersionTLS13 : Z := 772.
Definition ocsp_Good : Z := 0.
Definition ocsp_Revoked : Z := 1.
Definition ocsp_Unknown : Z := 2.

(** * Configurations *)

(** [tls.Config], the fields that are set. *)
Record tls_Config (Cert Pool : Type) : Type := {
  c_MinVersion : Z; c_MaxVersion : Z; c_CipherSuites : list Z; c_ClientAuth : Z; Certificates : list Cert;
  RootCAs : option Pool; ClientCAs : option Pool; VerifyConnection : bool; c_ServerName : string }.
Arguments Certificates {Cert Pool} t.
Arguments RootCAs {Cert Pool} t.
Arguments ClientCAs {Cert Pool} t.
Arguments VerifyConnection {Cert Pool} t.
Arguments c_ClientAuth {Cert Pool} t.
Arguments c_MinVersion {Cert Pool} t.
Arguments c_MaxVersion {Cert Pool} t.
Arguments c_CipherSuites {Cert Pool} t.

(** The settings of a [TLSConfig], which its user sets. *)
Record settings : Type := {
  CertFile : string; KeyFile : string; CAFile : string; ClientAuth : Z; ServerName : string; MinVersion : Z; MaxVersion : Z;
  EnableOCSP : bool; CipherSuites : list Z; RotationInterval : Z; OCSPCheckInterval : Z; ExpiryWarningPeriod : Z }.

(** The cipher suites by their numbers. *)
Definition DefaultSettings : settings := {|
  CertFile := ""; KeyFile := ""; CAFile := ""; ClientAuth := NoClientCert; ServerName := "";
  MinVersion := VersionTLS12; MaxVersion := VersionTLS13; EnableOCSP := false;
  CipherSuites := [49196; 49200; 52393; 52392; 49195; 49199];
  RotationInterval := 5 * Minute; OCSPCheckInterval := 6 * Hour; ExpiryWarningPeriod := 7 * 24 * Hour |}.

(** What is printed. *)
Inductive log_line : Type :=
| ParseFailed (e : string) | Expired (path : string) | Expiring (remaining : Z) (path : string)
| ReloadFailed (e : string) | FileReloadFailed (e : string) | FileReloaded | CertificateUpdated
| CAReadFailed (e : string) | CAParseFailed | CAListFailed | NoIssuer | RequestFailed (e : string) | QueryFailed (e : string)
| IssuerParseFailed (e : string) | StatusGood | StatusRevoked (path : string) | StatusUnknown | NoOCSPServer.

Section TLS.
Context {FS Raw X509 Cert Pool : Type} `{!TLSLib FS Raw X509 Cert Pool}.
Abbreviation config := (tls_Config Cert Pool).
Implicit Types (s : settings) (fs : FS).

Definition checkCertExpiry (now : Z) (cert : Cert) s : list log_line :=
  match ParseCertificate (leaf_raw cert) with
  | Err e => [ParseFailed e]
  | Ok leaf =>
      if now >? NotAfter leaf then [Expired (CertFile s)]
      else if now + ExpiryWarningPeriod s >? NotAfter leaf then [Expiring (time_sub (NotAfter leaf) now) (CertFile s)] else []
  end.

(** The two parts of [buildConfig] that can fail: the certificate and the pool. *)
Definition load_certificate (now : Z) fs s : list log_line * result string (list Cert) :=
  if negb (CertFile s =? "")%string && negb (KeyFile s =? "")%string
  then match LoadX509KeyPair fs (CertFile s) (KeyFile s) with
       | Err e => ([], Err ("加载证书失败: " ++ e)%string)
       | Ok cert => (checkCertExpiry now cert s, Ok [cert])
       end
  else ([], Ok []).

Definition load_pool fs s : result string (option Pool) :=
  if (CAFile s =? "")%string then Ok None
  else match ReadFile fs (CAFile s) with
       | Err e => Err ("读取CA证书失败: " ++ e)%string
       | Ok caCert => match AppendCertsFromPEM caCert with
                      | None => Err "解析CA证书失败"
                      | Some pool => Ok (Some pool)
                      end
       end.

Definition buildConfig (now : Z) fs s : list log_line * result string config :=
  match load_certificate now fs s with
  | (ls, Err e) => (ls, Err e)
  | (ls, Ok certs) =>
      match load_pool fs s with
      | Err e => (ls, Err e)
      | Ok pool =>
          (ls, Ok {| c_MinVersion := MinVersion s; c_MaxVersion := MaxVersion s; c_CipherSuites := CipherSuites s;
                     c_ClientAuth := ClientAuth s; Certificates := certs; RootCAs := pool; ClientCAs := pool;
                     VerifyConnection := EnableOCSP s; c_ServerName := "" |})
      end
  end.

Definition set_ServerName (name : string) (c : config) : config :=
  {| c_MinVersion := c_MinVersion c; c_MaxVersion := c_MaxVersion c; c_CipherSuites := c_CipherSuites c; c_ClientAuth := c_ClientAuth c;
     Certificates := Certificates c; RootCAs := RootCAs c; ClientCAs := ClientCAs c; VerifyConnection := VerifyConnection c;
     c_ServerName := name |}.

(** * The object and its goroutines

    Channels live in a heap, [true] once closed; a channel field may be nil.
    [changes] is the number of messages in [certChangeChan], whose capacity is 1.
    [loops] has the goroutines of the rotation loops: not yet begun, or begun with or
    without an OCSP ticker. [activity]: what a loop, [inl k], is about to do within a
    turn, and an automatic rotation, [inr j], before it returns; a configuration is built
    without the lock and stored later. *)
Inductive wake : Type := Tick | FileEvent (name : string) | Changed.

Inductive doing : Type := Storing (w : option wake) (c : config) | Notifying (w : option wake) | Checking.

Record TLSConfig : Type := {
  set : settings; currentConfig : option config; stopRotation : option nat; has_changes : bool; changes : nat;
  channels : list bool; loops : gmap nat (option bool); next_loop : nat; printed : list log_line;
  activity : gmap (nat + nat) doing }.

Definition DefaultTLSConfig : TLSConfig := {|
  set := DefaultSettings; currentConfig := None; stopRotation := Some 0%nat; has_changes := true; changes := 0;
  channels := [false]; loops := ∅; next_loop := 0; printed := []; activity := ∅ |}.

Implicit Type t : TLSConfig.

Definition log (ls : list log_line) t : TLSConfig := {|
  set := set t; currentConfig := currentConfig t; stopRotation := stopRotation t; has_changes := has_changes t; changes := changes t;
  channels := channels t; loops := loops t; next_loop := next_loop t; printed := printed t ++ ls; activity := activity t |}.
Definition set_current (c : config) t : TLSConfig := {|
  set := set t; currentConfig := Some c; stopRotation := stopRotation t; has_changes := has_changes t; changes := changes t;
  channels := channels t; loops := loops t; next_loop := next_loop t; printed := printed t; activity := activity t |}.
Definition set_settings s t : TLSConfig := {|
  set := s; currentConfig := currentConfig t; stopRotation := stopRotation t; has_changes := has_changes t; changes := changes t;
  channels := channels t; loops := loops t; next_loop := next_loop t; printed := printed t; activity := activity t |}.
Definition set_changes (n : nat) t : TLSConfig := {|
  set := set t; currentConfig := currentConfig t; stopRotation := stopRotation t; has_changes := has_changes t; changes := n;
  channels := channels t; loops := loops t; next_loop := next_loop t; printed := printed t; activity := activity t |}.
Definition set_stop (stop : option nat) (chs : list bool) t : TLSConfig := {|
  set := set t; currentConfig := currentConfig t; stopRotation := stop; has_changes := has_changes t; changes := changes t;
  channels := chs; loops := loops t; next_loop := next_loop t; printed := printed t; activity := activity t |}.
Definition set_loops (l : gmap nat (option bool)) (n : nat) t : TLSConfig := {|
  set := set t; currentConfig := currentConfig t; stopRotation := stopRotation t; has_changes := has_changes t; changes := changes t;
  channels := channels t; loops := l; next_loop := n; printed := printed t; activity := activity t |}.

Definition set_activity (a : gmap (nat + nat) doing) t : TLSConfig := {|
  set := set t; currentConfig := currentConfig t; stopRotation := stopRotation t; has_changes := has_changes t; changes := changes t;
  channels := channels t; loops := loops t; next_loop := next_loop t; printed := printed t; activity := a |}.

(** Whether a receive from a channel field is ready: a nil one never is. *)
Definition is_closed t : bool := match stopRotation t with Some ch => default false (channels t !! ch) | None => false end.

Definition startRotation t : TLSConfig :=
  let t := if is_closed t then set_stop (Some (length (channels t))) (channels t ++ [false]) t else t in
  set_loops (<[next_loop t := None]> (loops t)) (S (next_loop t)) t.

(** Closing a nil or a closed channel panics. *)
Definition stopRotationMonitor t : outcome TLSConfig :=
  match stopRotation t with
  | None => Panics
  | Some ch => if is_closed t then Panics else Returns (set_stop (Some ch) (<[ch := true]> (channels t)) t)
  end.

Definition SetupServerConfig (now : Z) fs t : result string config * TLSConfig :=
  match buildConfig now fs (set t) with
  | (ls, Err e) => (Err e, log ls t)
  | (ls, Ok c) => (Ok c, startRotation (set_current c (log ls t)))
  end.

Definition SetupClientConfig (now : Z) fs t : result string config * TLSConfig :=
  match buildConfig now fs (set t) with
  | (ls, Err e) => (Err e, log ls t)
  | (ls, Ok c) =>
      let c := if (ServerName (set t) =? "")%string then c else set_ServerName (ServerName (set t)) c in
      (Ok c, startRotation (set_current c (log ls t)))
  end.

(** The credentials hold a copy of the configuration. *)
Definition ToGRPCOptions (now : Z) fs t : result string config * TLSConfig :=
  if ClientAuth (set t) =? NoClientCert then SetupClientConfig now fs t else SetupServerConfig now fs t.

(** The message that the configuration has changed; the channel may be full. *)
Definition notify t : TLSConfig := if has_changes t && (changes t =? 0)%nat then set_changes 1 t else t.

(** [reloadConfig] when nothing else runs; its parts are steps below. *)
Definition reloadConfig (now : Z) fs t : option string * TLSConfig :=
  match buildConfig now fs (set t) with
  | (ls, Err e) => (Some e, log ls t)
  | (ls, Ok c) => (None, notify (set_current c (log ls t)))
  end.

(** ** OCSP *)

Definition queryOCSPStatus (server request : string) : result string Z :=
  match Post server request with
  | Err e => Err e
  | Ok body => match ReadAll body with Err e => Err e | Ok body => ParseResponse body end
  end.

Inductive verify_error : Type := ChainNotVerified | RequestNotMade (e : string) | Revoked.

(** The check of a connection with these peer certificates and verified chains. *)
Definition verifyConnectionWithOCSP s (PeerCertificates : list X509) (VerifiedChains : list (list X509))
    : list log_line * outcome (option verify_error) :=
  match PeerCertificates with
  | [] => ([], Panics)
  | leaf :: _ =>
      match VerifiedChains with
      | [] => ([], Returns (Some ChainNotVerified))
      | chain0 :: _ =>
          if EnableOCSP s
          then match OCSPServer leaf with
               | [] => ([NoOCSPServer], Returns None)
               | server :: _ =>
                   match chain0 !! 1%nat with
                   | None => ([], Panics)
                   | Some issuer =>
                       match CreateRequest leaf issuer with
                       | Err e => ([], Returns (Some (RequestNotMade e)))
                       | Ok req =>
                           match queryOCSPStatus server req with
                           | Err e => ([QueryFailed e], Returns None)
                           | Ok status => ([], Returns (if status =? ocsp_Revoked then Some Revoked else None))
                           end
                       end
                   end
               end
          else ([], Returns None)
      end
  end.

(** The issuer for a certificate's own status; without one in its chain and with a CA
    file, the list of CAs is parsed out of the leaf. *)
Definition find_issuer fs s (cert : Cert) : log_line + X509 :=
  match rest_raw cert with
  | raw :: _ => match ParseCertificate raw with Err e => inl (IssuerParseFailed e) | Ok issuer => inr issuer end
  | [] =>
      if (CAFile s =? "")%string then inl NoIssuer
      else match ReadFile fs (CAFile s) with
           | Err e => inl (CAReadFailed e)
           | Ok caCert =>
               match AppendCertsFromPEM caCert with
               | None => inl CAParseFailed
               | Some _ => match ParseCertificates (leaf_raw cert) with
                           | Ok (issuer :: _) => inr issuer
                           | _ => inl CAListFailed
                           end
               end
           end
  end.

Definition refreshOCSPStatus fs t : TLSConfig :=
  match currentConfig t with
  | None => t
  | Some c =>
      match Certificates c with
      | [] => t
      | cert :: _ =>
          if negb (EnableOCSP (set t)) then t
          else match ParseCertificate (leaf_raw cert) with
               | Err e => log [ParseFailed e] t
               | Ok leaf =>
                   match OCSPServer leaf with
                   | [] => t
                   | server :: _ =>
                       match find_issuer fs (set t) cert with
                       | inl l => log [l] t
                       | inr issuer =>
                           match CreateRequest leaf issuer with
                           | Err e => log [RequestFailed e] t
                           | Ok req =>
                               match queryOCSPStatus server req with
                               | Err e => log [QueryFailed e] t
                               | Ok status =>
                                   if status =? ocsp_Good then log [StatusGood] t
                                   else if status =? ocsp_Revoked then log [StatusRevoked (CertFile (set t))] t
                                   else if status =? ocsp_Unknown then log [StatusUnknown] t else t
                               end
                           end
                       end
                   end
               end
      end
  end.

(** ** The rotation loop *)

Definition isCertificateFile s (filename : string) : bool :=
  (filename =? CertFile s)%string || (filename =? KeyFile s)%string || (filename =? CAFile s)%string.

(** [setupFileWatcher] returns a channel on which nothing is ever sent. *)
Definition watcher_events : list string := [].

(** The end of a reload: a loop goes on with its turn, an automatic rotation starts a loop. *)
Definition finish (who : nat + nat) (w : option wake) (err : option string) t : TLSConfig :=
  match who with
  | inl _ =>
      set_activity (<[who := Checking]> (activity t))
        match w, err with
        | Some Tick, Some e => log [ReloadFailed e] t
        | Some (FileEvent _), Some e => log [FileReloadFailed e] t
        | Some (FileEvent _), None => log [FileReloaded] t
        | _, _ => t
        end
  | inr _ => set_activity (delete who (activity t)) (match err with None => startRotation t | Some _ => t end)
  end.

(** The part of [reloadConfig] before the lock. *)
Definition begin_reload (who : nat + nat) (w : option wake) (now : Z) fs t : TLSConfig :=
  match buildConfig now fs (set t) with
  | (ls, Err e) => finish who w (Some e) (log ls t)
  | (ls, Ok c) => set_activity (<[who := Storing w c]> (activity t)) (log ls t)
  end.

(** What loop [k] does with what it has received. *)
Definition handle (k : nat) (now : Z) fs (w : wake) t : TLSConfig :=
  match w with
  | Tick => begin_reload (inl k) (Some w) now fs t
  | FileEvent name =>
      if isCertificateFile (set t) name then begin_reload (inl k) (Some w) now fs t
      else set_activity (<[inl k := Checking]> (activity t)) t
  | Changed => set_activity (<[inl k := Checking]> (activity t)) (log [CertificateUpdated] (set_changes 0 t))
  end.

(** The settings that [AutoRotate] writes, without the lock. *)
Definition rotate_settings fs (certDir certPrefix : string) s : settings :=
  let caFile := Join certDir "ca.crt" in
  {| CertFile := Join certDir (certPrefix ++ ".crt"); KeyFile := Join certDir (certPrefix ++ ".key");
     CAFile := if Stat fs caFile then caFile else CAFile s; ClientAuth := ClientAuth s; ServerName := ServerName s;
     MinVersion := MinVersion s; MaxVersion := MaxVersion s; EnableOCSP := EnableOCSP s; CipherSuites := CipherSuites s;
     RotationInterval := RotationInterval s; OCSPCheckInterval := OCSPCheckInterval s;
     ExpiryWarningPeriod := ExpiryWarningPeriod s |}.

(** [AutoRotate], call [j], up to the lock. *)
Definition AutoRotate (j : nat) (now : Z) fs (certDir certPrefix : string) t : TLSConfig :=
  begin_reload (inr j) None now fs (set_settings (rotate_settings fs certDir certPrefix (set t)) t).

(** Steps of the program: a caller's call, the start of loop [k], what it has received,
    the next step of a reload, the end of a turn ([ocsp]: the OCSP ticker, if the loop
    has one, is ready too), or the end of the loop. *)
Inductive step : Type :=
| Setup (now : Z) (fs : FS) (client : bool)
| Stop
| Rotate (j : nat) (now : Z) (fs : FS) (certDir certPrefix : string)
| LoopBegins (k : nat)
| Turn (k : nat) (now : Z) (fs : FS) (w : wake)
| Advance (who : nat + nat)
| EndTurn (k : nat) (fs : FS) (ocsp : bool)
| LoopEnds (k : nat).

Definition enabled (w : wake) t : bool :=
  match w with
  | Tick => true
  | FileEvent name => existsb (String.eqb name) watcher_events
  | Changed => (0 <? changes t)%nat
  end.

Definition do_step (e : step) t : option (outcome TLSConfig) :=
  match e with
  | Setup now fs client => Some (Returns (if client then SetupClientConfig now fs t else SetupServerConfig now fs t).2)
  | Stop => Some (stopRotationMonitor t)
  | Rotate j now fs dir prefix =>
      match activity t !! inr j with Some _ => None | None => Some (Returns (AutoRotate j now fs dir prefix t)) end
  | LoopBegins k =>
      (* [time.NewTicker] panics on an interval that is not positive *)
      match loops t !! k with
      | Some None =>
          if (RotationInterval (set t) <=? 0) || (EnableOCSP (set t) && (OCSPCheckInterval (set t) <=? 0)) then Some Panics
          else Some (Returns (set_loops (<[k := Some (EnableOCSP (set t))]> (loops t)) (next_loop t) t))
      | _ => None
      end
  | Turn k now fs w =>
      match loops t !! k, activity t !! inl k with
      | Some (Some _), None => if enabled w t then Some (Returns (handle k now fs w t)) else None
      | _, _ => None
      end
  | Advance who =>
      match activity t !! who with
      | Some (Storing w c) => Some (Returns (set_activity (<[who := Notifying w]> (activity t)) (set_current c t)))
      | Some (Notifying w) => Some (Returns (finish who w None (notify t)))
      | _ => None
      end
  | EndTurn k fs ocsp =>
      match loops t !! k, activity t !! inl k with
      | Some (Some ticker), Some Checking =>
          let t := set_activity (delete (inl k) (activity t)) t in Some (Returns (if ocsp && ticker then refreshOCSPStatus fs t else t))
      | _, _ => None
      end
  | LoopEnds k =>
      match loops t !! k, activity t !! inl k with
      | Some (Some _), None => if is_closed t then Some (Returns (set_loops (delete k (loops t)) (next_loop t) t)) else None
      | _, _ => None
      end
  end.

Fixpoint run (es : list step) t : option (outcome TLSConfig) :=
  match es with
  | [] => Some (Returns t)
  | e :: es => match do_step e t with
               | None => None
               | Some Panics => Some Panics
               | Some (Returns t) => run es t
               end
  end.

(** The function that was left out returns nil. *)
Definition GenerateSelfSignedCert : option string := None.

End TLS.
Arguments step FS : clear implicits.
Arguments TLSConfig Cert Pool : clear implicits.

(** * Facts *)

Module Facts.

Section Facts.
Context {FS Raw X509 Cert Pool : Type} `{!TLSLib FS Raw X509 Cert Pool}.
Abbreviation config := (tls_Config Cert Pool).
Implicit Types (s : settings) (fs : FS) (t : TLSConfig Cert Pool).

(** ** What is built *)

Lemma buildConfig_spec now fs s ls (c : config) : buildConfig now fs s = (ls, Ok c) ->
  c_MinVersion c = MinVersion s /\ c_MaxVersion c = MaxVersion s /\ c_CipherSuites c = CipherSuites s /\ c_ClientAuth c = ClientAuth s /\
  VerifyConnection c = EnableOCSP s /\ ClientCAs c = RootCAs c /\ (RootCAs c = None <-> CAFile s = "") /\
  (Certificates c = [] <-> CertFile s = "" \/ KeyFile s = "").
Proof.
  unfold buildConfig, load_certificate, load_pool.
  destruct (String.eqb_spec (CertFile s) ""), (String.eqb_spec (KeyFile s) ""), (String.eqb_spec (CAFile s) ""); cbn [negb andb];
    repeat case_match; intros; simplify_eq/=; tauto || (repeat split; try done; try tauto; intros; by destruct_or!).
Qed.

(** A certificate without a key, or a key without a certificate, is left out without
    an error: a server has none to show. *)
Lemma half_a_pair_is_ignored now fs s : KeyFile s = "" -> CAFile s = "" -> exists ls (c : config), buildConfig now fs s = (ls, Ok c) /\ Certificates c = [].
Proof.
  intros Hk Hca. unfold buildConfig, load_certificate, load_pool. rewrite Hk, Hca. rewrite andb_false_r. by eexists _, _.
Qed.

(** ** The policy of the current configuration *)

Definition same_policy s s' : Prop :=
  ClientAuth s' = ClientAuth s /\ MinVersion s' = MinVersion s /\ MaxVersion s' = MaxVersion s /\ CipherSuites s' = CipherSuites s /\
  EnableOCSP s' = EnableOCSP s /\ (CAFile s <> "" -> CAFile s' <> "").

Definition has_policy s (c : config) : Prop :=
  c_ClientAuth c = ClientAuth s /\ c_MinVersion c = MinVersion s /\ c_MaxVersion c = MaxVersion s /\ c_CipherSuites c = CipherSuites s /\
  VerifyConnection c = EnableOCSP s /\ ClientCAs c = RootCAs c /\ (CAFile s <> "" -> RootCAs c <> None).

(** The settings keep the policy of [s0], and so do the current configuration and those
    that are built and not yet stored. *)
Definition policy_kept s0 t : Prop :=
  same_policy s0 (set t) /\ (forall c, currentConfig t = Some c -> has_policy s0 c) /\
  forall who w c, activity t !! who = Some (Storing w c) -> has_policy s0 c.

Lemma built_policy s0 s now fs ls c : same_policy s0 s -> buildConfig now fs s = (ls, Ok c) -> has_policy s0 c.
Proof.
  intros (Hp1 & Hp2 & Hp3 & Hp4 & Hp5 & Hp6) Hb. destruct (buildConfig_spec now fs s ls c Hb) as (Hc1 & Hc2 & Hc3 & Hc4 & Hc5 & Hc6 & Hc7 & _).
  unfold has_policy. repeat split; try congruence. intros Hca Hn. apply (Hp6 Hca). by apply Hc7.
Qed.

Lemma policy_set s0 t t' : set t' = set t -> currentConfig t' = currentConfig t -> activity t' = activity t -> policy_kept s0 t -> policy_kept s0 t'.
Proof. unfold policy_kept. by intros -> -> ->. Qed.

Lemma policy_start s0 t : policy_kept s0 t -> policy_kept s0 (startRotation t).
Proof. apply policy_set; unfold startRotation; by destruct (is_closed t). Qed.

Lemma policy_notify s0 t : policy_kept s0 t -> policy_kept s0 (notify t).
Proof. apply policy_set; unfold notify; by destruct (_ && _). Qed.

Lemma policy_current s0 t c : policy_kept s0 t -> has_policy s0 c -> policy_kept s0 (set_current c t).
Proof. intros (Hs & _ & Ha) Hc. split; [done|]. split; [|done]. cbn. by intros ? [= <-]. Qed.

(** What a loop or a rotation does next. *)
Lemma policy_doing s0 t who d : policy_kept s0 t -> (forall w c, d = Storing w c -> has_policy s0 c) ->
  policy_kept s0 (set_activity (<[who := d]> (activity t)) t).
Proof.
  intros (Hs & Hc & Ha) Hd. split; [done|]. split; [done|]. cbn. intros who' w c [[-> ->]|[_ Hl]]%lookup_insert_Some; [by eapply Hd|by eapply Ha].
Qed.

Lemma policy_idle s0 t who : policy_kept s0 t -> policy_kept s0 (set_activity (delete who (activity t)) t).
Proof. intros (Hs & Hc & Ha). split; [done|]. split; [done|]. cbn. intros who' w c [_ Hl]%lookup_delete_Some. by eapply Ha. Qed.

Lemma policy_setup s0 t now fs client : policy_kept s0 t ->
  policy_kept s0 (if client : bool then SetupClientConfig now fs t else SetupServerConfig now fs t).2.
Proof.
  intros Ht. unfold SetupClientConfig, SetupServerConfig. destruct (buildConfig now fs (set t)) as [ls [c|e]] eqn:Hb.
  - pose proof (built_policy _ _ _ _ _ _ (proj1 Ht) Hb) as Hc.
    destruct client; cbn [snd]; apply policy_start, policy_current; try (by apply (policy_set s0 t)); [|done]. by destruct (_ =? _)%string.
  - by destruct client; cbn [snd]; apply (policy_set s0 t).
Qed.

(** A reload ends with what was printed and, of an automatic rotation, a loop more. *)
Lemma policy_finish s0 t who w err : policy_kept s0 t -> policy_kept s0 (finish who w err t).
Proof.
  intros Ht. destruct who as [k|j]; cbn [finish].
  - match goal with |- policy_kept _ (set_activity _ ?t1) => assert (policy_kept s0 t1 /\ activity t1 = activity t) as [Ht1 <-] end.
    { destruct w as [[| |]|], err; (split; [|done]); first [done | by apply (policy_set s0 t)]. }
    by apply policy_doing.
  - match goal with |- policy_kept _ (set_activity _ ?t1) => assert (policy_kept s0 t1 /\ activity t1 = activity t) as [Ht1 <-] end.
    { destruct err; [done|]. split; [by apply policy_start|]. unfold startRotation. by destruct (is_closed t). }
    by apply policy_idle.
Qed.

Lemma policy_begin s0 t who w now fs : policy_kept s0 t -> policy_kept s0 (begin_reload who w now fs t).
Proof.
  intros Ht. unfold begin_reload. destruct (buildConfig now fs (set t)) as [ls [c|e]] eqn:Hb.
  - apply (policy_doing s0 (log ls t)); [by apply (policy_set s0 t)|]. intros ? ? [= <- <-]. by apply (built_policy _ _ _ _ _ _ (proj1 Ht) Hb).
  - apply policy_finish. by apply (policy_set s0 t).
Qed.

Lemma policy_handle s0 t k now fs w : policy_kept s0 t -> policy_kept s0 (handle k now fs w t).
Proof.
  intros Ht. destruct w as [|name|]; cbn [handle].
  - by apply policy_begin.
  - destruct (isCertificateFile _ _); [by apply policy_begin|by apply policy_doing].
  - apply (policy_doing s0 (log [CertificateUpdated] (set_changes 0 t))); [|done]. by apply (policy_set s0 t).
Qed.

(** Refreshing prints. *)
Lemma refresh_logs fs t : exists ls, refreshOCSPStatus fs t = log ls t.
Proof.
  assert (log [] t = t) as Hn by (unfold log; rewrite app_nil_r; by destruct t).
  unfold refreshOCSPStatus. repeat case_match; first [by exists []; rewrite Hn | by eexists].
Qed.

Lemma policy_refresh s0 fs t : policy_kept s0 t -> policy_kept s0 (refreshOCSPStatus fs t).
Proof. destruct (refresh_logs fs t) as [ls ->]. by apply policy_set. Qed.

Lemma policy_rotate s0 t fs dir prefix : policy_kept s0 t -> policy_kept s0 (set_settings (rotate_settings fs dir prefix (set t)) t).
Proof.
  intros [(Hp1 & Hp2 & Hp3 & Hp4 & Hp5 & Hp6) Hc]. split; [|done]. unfold same_policy; cbn. repeat split; try done.
  intros Hca. destruct (Stat fs _); [by apply Join_file|auto].
Qed.

Lemma policy_step s0 e t t' : policy_kept s0 t -> do_step e t = Some (Returns t') -> policy_kept s0 t'.
Proof.
  intros Ht. destruct e as [now fs client| |j now fs dir prefix|k|k now fs w|who|k fs ocsp|k]; cbn [do_step]; intros Hs.
  - injection Hs as <-. by apply policy_setup.
  - unfold stopRotationMonitor in Hs. destruct (stopRotation t); [|done]. destruct (is_closed t); [done|]. injection Hs as <-.
    by apply (policy_set s0 t).
  - destruct (activity t !! inr j); [done|]. injection Hs as <-. by apply policy_begin, policy_rotate.
  - destruct (loops t !! k) as [[b|]|]; try done. destruct (_ || _); [done|]. injection Hs as <-. by apply (policy_set s0 t).
  - destruct (loops t !! k) as [[b|]|], (activity t !! inl k); try done. destruct (enabled w t); [|done]. injection Hs as <-. by apply policy_handle.
  - destruct (activity t !! who) as [[w c|w|]|] eqn:Ha; try done; injection Hs as <-.
    + apply (policy_doing s0 (set_current c t)); [|done]. apply policy_current; [done|]. by eapply (proj2 (proj2 Ht)).
    + by apply policy_finish, policy_notify.
  - destruct (loops t !! k) as [[b|]|], (activity t !! inl k) as [[]|]; try done. injection Hs as <-.
    destruct (ocsp && b); [apply policy_refresh|]; by apply policy_idle.
  - destruct (loops t !! k) as [[b|]|], (activity t !! inl k); try done. destruct (is_closed t); [|done]. injection Hs as <-. by apply (policy_set s0 t).
Qed.

(** C11: however set-ups, automatic rotations, stops and the turns of any number of rotation loops interleave, with reloads that are built and not yet stored, and whatever the files hold by then: no step changes the client authentication, the versions, the cipher suites or the OCSP check in the settings, the current configuration always has them as the settings do, with the same pool for both sides, and with a pool of CAs if a CA file was set from the start: a reload never weakens the policy. *)
Theorem reload_keeps_policy (t0 t : TLSConfig Cert Pool) (es : list (step FS)) (c : config)
    (H0 : currentConfig t0 = None) (Ha : activity t0 = ∅) (Hr : run es t0 = Some (Returns t)) (Hc : currentConfig t = Some c) :
  same_policy (set t0) (set t) /\ has_policy (set t0) c.
Proof.
  assert (policy_kept (set t0) t0) as Hp by (split; [done|]; rewrite H0, Ha; split; [done|]; intros ? ? ?; by rewrite lookup_empty).
  assert (forall es t1, policy_kept (set t0) t1 -> run es t1 = Some (Returns t) -> policy_kept (set t0) t) as Hrun.
  { clear. induction es as [|e es IH]; intros t1 Ht1 Hr; cbn [run] in Hr; [by injection Hr as <-|].
    destruct (do_step e t1) as [[t2|]|] eqn:He; try done. by apply (IH t2), Hr; apply (policy_step _ e t1). }
  destruct (Hrun es t0 Hp Hr) as (H1 & H2 & _). split; [done|by apply H2].
Qed.

(** A reload that fails changes nothing but what is printed. *)
Lemma failed_reload_keeps t now fs e t' : reloadConfig now fs t = (Some e, t') -> exists ls, t' = log ls t.
Proof. unfold reloadConfig. destruct (buildConfig now fs (set t)) as [ls [c|e']]; intros Hr; [done|]. injection Hr as _ <-. by exists ls. Qed.

(** The configuration handed out for credentials stays as it was: a reload only
    replaces the current one, and loses the server name of a client on the way. *)
Lemma reload_drops_server_name now fs t t' c : reloadConfig now fs t = (None, t') -> currentConfig t' = Some c -> @c_ServerName Cert Pool c = "".
Proof.
  unfold reloadConfig, buildConfig. destruct (load_certificate now fs (set t)) as [ls [certs|e]]; [|done].
  destruct (load_pool fs (set t)); [|done]. intros [= <-]. unfold notify. destruct (_ && _); cbn; by intros [= <-].
Qed.

(** The steps of a loop's reload with nothing between them are [reloadConfig]. *)
Lemma reload_undisturbed k now fs t t' b : loops t !! k = Some (Some b) -> activity t !! inl k = None -> reloadConfig now fs t = (None, t') ->
  run [Turn k now fs Tick; Advance (inl k); Advance (inl k); EndTurn k fs false] t = Some (Returns t').
Proof.
  intros Hl Ha Hr. unfold reloadConfig in Hr. cbn [run do_step]. rewrite Hl, Ha. cbn [enabled handle]. unfold begin_reload.
  destruct (buildConfig now fs (set t)) as [ls [c|e]]; [|done]. injection Hr as <-.
  cbn -[finish notify]. rewrite lookup_insert_eq. cbn -[finish notify]. rewrite lookup_insert_eq. cbn [finish].
  assert (Hn : forall t1 : TLSConfig Cert Pool, loops (notify t1) = loops t1 /\ activity (notify t1) = activity t1) by (intros t1; unfold notify; by destruct (_ && _)).
  cbn -[notify]. rewrite (proj1 (Hn _)). cbn -[notify]. rewrite Hl, lookup_insert_eq. do 2 f_equal. rewrite (proj2 (Hn _)). cbn -[notify].
  rewrite !insert_insert_eq, delete_insert_id by done. unfold notify. cbn. by destruct (_ && _).
Qed.

(** ** Connections *)

(** With OCSP enabled, a connection is refused exactly when its chains were not verified, the request cannot be made, or the responder says that the leaf is revoked; a failed query lets it pass; and a peer that shows no certificate, or a verified chain of a single certificate with a responder, crashes the handshake. *)
Theorem ocsp_verdict s (peers : list X509) (chains : list (list X509)) (Ho : EnableOCSP s = true) :
  let verdict := (verifyConnectionWithOCSP s peers chains).2 in
  match peers, chains with
  | [], _ => verdict = Panics
  | _, [] => verdict = Returns (Some ChainNotVerified)
  | leaf :: _, chain0 :: _ =>
      match OCSPServer leaf, chain0 !! 1%nat with
      | [], _ => verdict = Returns None
      | _, None => verdict = Panics
      | server :: _, Some issuer =>
          match CreateRequest leaf issuer with
          | Err e => verdict = Returns (Some (RequestNotMade e))
          | Ok req => (verdict = Returns (Some Revoked) /\ queryOCSPStatus server req = Ok ocsp_Revoked) \/
                      (verdict = Returns None /\ queryOCSPStatus server req <> Ok ocsp_Revoked)
          end
      end
  end.
Proof.
  unfold verifyConnectionWithOCSP. rewrite Ho. cbv zeta. destruct peers as [|leaf peers]; [done|]. destruct chains as [|chain0 chains]; [done|].
  destruct (OCSPServer leaf) as [|server servers]; [done|]. destruct (chain0 !! 1%nat) as [issuer|]; [|done].
  destruct (CreateRequest leaf issuer) as [req|e]; [|done]. destruct (queryOCSPStatus server req) as [st|e]; [|by right].
  destruct (Z.eqb_spec st ocsp_Revoked) as [->|Hne]; [by left|right]. split; [done|]. congruence.
Qed.

(** The issuer taken for a chain of one certificate is parsed out of that certificate,
    never out of the CA file. *)
Lemma issuer_is_the_leaf fs s (cert : Cert) issuer : rest_raw cert = [] -> find_issuer fs s cert = inr issuer ->
  exists l, ParseCertificates (leaf_raw cert) = Ok (issuer :: l).
Proof.
  unfold find_issuer. intros ->. destruct (_ =? _)%string; [done|]. destruct (ReadFile fs (CAFile s)); [|done].
  destruct (AppendCertsFromPEM _); [|done]. destruct (ParseCertificates (leaf_raw cert)) as [[|x l]|]; try done. intros [= ->]. by exists l.
Qed.

Lemma empty_name_is_certificate_file s : CAFile s = "" -> isCertificateFile s "" = true.
Proof. intros H. unfold isCertificateFile. rewrite H. by rewrite !orb_true_r. Qed.

(** ** Rotation loops *)

(** How many loops a step starts. *)
Definition starts (e : step FS) t : nat :=
  match e with
  | Setup now fs client => if is_ok (buildConfig now fs (set t)).2 then 1 else 0
  | Advance (inr j) => match activity t !! inr j with Some (Notifying _) => 1 | _ => 0 end
  | _ => 0
  end.

Fixpoint all_starts (es : list (step FS)) t : nat :=
  match es with
  | [] => 0
  | e :: es => starts e t + match do_step e t with Some (Returns t) => all_starts es t | _ => 0 end
  end.

Definition fresh_loops t : Prop := forall k, (next_loop t <= k)%nat -> loops t !! k = None.

Lemma size_start t : fresh_loops t -> fresh_loops (startRotation t) /\ size (loops (startRotation t)) = S (size (loops t)).
Proof.
  intros Hf. unfold startRotation, fresh_loops in *. destruct (is_closed t); cbn [set_loops set_stop loops next_loop];
    (split; [intros k Hk; rewrite lookup_insert_ne by lia; apply Hf; lia|apply map_size_insert_None, Hf; lia]).
Qed.

(** A reload changes the loops only at the end of an automatic rotation. *)
Lemma finish_loops who w err t : (forall j, who = inr j -> err <> None) -> loops (finish who w err t) = loops t /\ next_loop (finish who w err t) = next_loop t.
Proof. intros Hj. destruct who as [k|j]; cbn [finish]; [by destruct w as [[| |]|], err|]. destruct err; [done|]. by destruct (Hj j eq_refl). Qed.

Lemma begin_loops who w now fs t : loops (begin_reload who w now fs t) = loops t /\ next_loop (begin_reload who w now fs t) = next_loop t.
Proof. unfold begin_reload. destruct (buildConfig now fs (set t)) as [ls [c|e]]; [done|]. by apply (finish_loops who w (Some e) (log ls t)). Qed.

Lemma handle_loops k now fs w t : loops (handle k now fs w t) = loops t /\ next_loop (handle k now fs w t) = next_loop t.
Proof. destruct w as [|name|]; cbn [handle]; [|destruct (isCertificateFile _ _); [|done]|done]; apply begin_loops. Qed.

Lemma notify_loops t : loops (notify t) = loops t /\ next_loop (notify t) = next_loop t.
Proof. unfold notify. by destruct (_ && _). Qed.

Lemma step_loops e t t' : e <> Stop -> (forall k, e <> LoopEnds k) -> fresh_loops t -> do_step e t = Some (Returns t') ->
  fresh_loops t' /\ size (loops t') = (starts e t + size (loops t))%nat.
Proof.
  intros Hns Hne Hf.
  assert (Hsame : forall t1 : TLSConfig Cert Pool, loops t1 = loops t /\ next_loop t1 = next_loop t -> fresh_loops t1 /\ size (loops t1) = size (loops t)).
  { intros t1 [Hl Hn]. unfold fresh_loops. by rewrite Hl, Hn. }
  destruct e as [now fs client| |j now fs dir prefix|k|k now fs w|who|k fs ocsp|k]; cbn [do_step starts]; intros Hs; try done.
  - injection Hs as <-. unfold SetupClientConfig, SetupServerConfig.
    destruct (buildConfig now fs (set t)) as [ls [c|e]]; cbn [snd is_ok]; [|by destruct client].
    destruct client; match goal with |- context [startRotation ?t1] => exact (size_start t1 Hf) end.
  - destruct (activity t !! inr j); [done|]. injection Hs as <-. by apply Hsame, (begin_loops (inr j) None now fs (set_settings _ t)).
  - destruct (loops t !! k) as [[b|]|] eqn:Hk; try done. destruct (_ || _); [done|]. injection Hs as <-. unfold fresh_loops in *.
    cbn [set_loops loops next_loop]. split.
    + intros k' Hk'. rewrite lookup_insert_ne; [by apply Hf|]. intros ->. by rewrite Hf in Hk.
    + by rewrite map_size_insert_Some by (by rewrite Hk).
  - destruct (loops t !! k) as [[b|]|], (activity t !! inl k); try done. destruct (enabled w t); [|done]. injection Hs as <-. by apply Hsame, handle_loops.
  - destruct (activity t !! who) as [[w c|w|]|] eqn:Ha; try done; injection Hs as <-.
    + destruct who as [k|j]; [|rewrite Ha]; by apply Hsame.
    + destruct who as [k|j].
      * apply Hsame. destruct (finish_loops (inl k) w None (notify t)) as [-> ->]; [done|apply notify_loops].
      * rewrite Ha. destruct (notify_loops t) as [Hl Hn]. assert (fresh_loops (notify t)) as Hf1 by (unfold fresh_loops; by rewrite Hl, Hn).
        destruct (size_start (notify t) Hf1) as [Hs1 Hs2]. cbn [finish]. split; [done|]. cbn [set_activity loops]. by rewrite Hs2, Hl.
  - destruct (loops t !! k) as [[b|]|], (activity t !! inl k) as [[]|]; try done. injection Hs as <-. apply Hsame.
    destruct (ocsp && b); [|done]. by destruct (refresh_logs fs (set_activity (delete (inl k) (activity t)) t)) as [ls ->].
  - by destruct (Hne k).
Qed.

(** Every set-up and every automatic rotation that succeeds leaves one more loop
    running: until it is stopped, each reloads the files at every interval. *)
Lemma loops_accumulate es : forall t t', fresh_loops t -> Forall (fun e => e <> Stop /\ forall k, e <> LoopEnds k) es ->
  run es t = Some (Returns t') -> size (loops t') = (all_starts es t + size (loops t))%nat.
Proof.
  induction es as [|e es IH]; intros t t' Hf Hes Hr; cbn [run all_starts] in *; [by injection Hr as <-|].
  apply Forall_cons in Hes as [[Hns Hne] Hes]. destruct (do_step e t) as [[t1|]|] eqn:He; try done.
  destruct (step_loops e t t1 Hns Hne Hf He) as [Hf1 Hs1]. rewrite (IH t1 t' Hf1 Hes Hr), Hs1. lia.
Qed.

(** Stopping twice panics. *)
Lemma second_stop_panics t t' : stopRotationMonitor t = Returns t' -> (forall ch, stopRotation t = Some ch -> (ch < length (channels t))%nat) ->
  stopRotationMonitor t' = Panics.
Proof.
  intros Hs Hch. unfold stopRotationMonitor in *. destruct (stopRotation t) as [ch|] eqn:Hst; [|done].
  destruct (is_closed t); [done|]. injection Hs as <-. cbn [set_stop stopRotation]. unfold is_closed. cbn [set_stop stopRotation channels].
  by rewrite list_lookup_insert_eq by auto.
Qed.

(** A file event never comes: the watcher's channel has no sender. *)
Lemma no_file_events k now fs name t : do_step (Turn k now fs (FileEvent name)) t = None.
Proof. cbn [do_step]. by destruct (loops t !! k) as [[b|]|], (activity t !! inl k). Qed.

End Facts.

(** ** Witnesses: files as a map, certificates as texts *)

#[refine] Definition text_tls : TLSLib (gmap string string) string string (string * string) string := {|
  LoadX509KeyPair fs c k := match fs !! c, fs !! k with Some a, Some b => Ok (a, b) | _, _ => Err "no such file" end;
  ReadFile fs p := match fs !! p with Some a => Ok a | None => Err "no such file" end;
  Stat fs p := match fs !! p with Some _ => true | None => false end;
  AppendCertsFromPEM b := Some b;
  leaf_raw := fst; rest_raw _ := [];
  ParseCertificate r := Ok r; ParseCertificates r := Ok [r];
  NotAfter _ := 10 ^ 18; OCSPServer _ := ["http://ocsp"];
  CreateRequest l i := Ok (l ++ i)%string; Post server req := Ok req; ReadAll b := Ok b;
  ParseResponse b := Ok (if (b =? "revokedca")%string then ocsp_Revoked else ocsp_Good);
  Join dir file := (dir ++ "/" ++ file)%string |}.
Proof. intros dir file _. by destruct dir. Defined.

Definition sample_settings : settings := {|
  CertFile := "tls.crt"; KeyFile := "tls.key"; CAFile := "ca.crt"; ClientAuth := 4; ServerName := ""; MinVersion := VersionTLS12;
  MaxVersion := VersionTLS13; EnableOCSP := true; CipherSuites := []; RotationInterval := Minute; OCSPCheckInterval := Hour;
  ExpiryWarningPeriod := Hour |}.

Definition sample_tls : TLSConfig (string * string) string := set_settings sample_settings DefaultTLSConfig.

Definition files (cert : string) : gmap string string := <["tls.crt" := cert]> (<["tls.key" := "key"]> (<["ca.crt" := "ca"]> ∅)).

Definition sample_steps : list (step (gmap string string)) :=
  [Setup 0 (files "old") false; LoopBegins 0; Turn 0 Minute (files "new") Tick; Rotate 0 Minute (files "new") "certs" "tls";
   Advance (inl 0); Advance (inl 0); EndTurn 0 (files "new") true]%nat.

Lemma reload_keeps_policy_witness : exists t c,
  @run _ _ _ _ _ text_tls sample_steps sample_tls = Some (Returns t) /\ currentConfig t = Some c /\
  same_policy sample_settings (set t) /\ has_policy sample_settings c.
Proof.
  eexists _, _. split; [vm_compute; reflexivity|]. split; [reflexivity|].
  eapply (@reload_keeps_policy _ _ _ _ _ text_tls sample_tls _ sample_steps); [reflexivity|reflexivity|vm_compute; reflexivity|reflexivity].
Defined.

Lemma ocsp_verdict_witness :
  (@verifyConnectionWithOCSP _ _ _ _ _ text_tls sample_settings ["revoked"] [["revoked"; "ca"]]).2 = Returns (Some Revoked).
Proof.
  destruct (@ocsp_verdict _ _ _ _ _ text_tls sample_settings ["revoked"] [["revoked"; "ca"]] eq_refl) as [[H _]|[_ H]]; [exact H|].
  exfalso. apply H. vm_compute. reflexivity.
Defined.

(** The credentials keep the certificate that they were made with. *)
Lemma rotation_not_served : exists creds t1 t2, @ToGRPCOptions _ _ _ _ _ text_tls 0 (files "old") sample_tls = (Ok creds, t1) /\
  Certificates creds = [("old", "key")] /\
  @run _ _ _ _ _ text_tls [LoopBegins 0; Turn 0 Minute (files "new") Tick; Advance (inl 0); Advance (inl 0)]%nat t1 = Some (Returns t2) /\
  Certificates <$> currentConfig t2 = Some [("new", "key")].
Proof. eexists _, _, _. split; [vm_compute; reflexivity|]. split; [vm_compute; reflexivity|]. split; vm_compute; reflexivity. Qed.

(** A reload that was built before an automatic rotation and is stored after it brings
    the old certificate back, until the next reload. *)
Lemma stale_reload_wins : exists t,
  @run _ _ _ _ _ text_tls [Setup 0 (files "old") false; LoopBegins 0; Turn 0 Minute (files "old") Tick;
    Rotate 0 Minute (<["certs/tls.crt" := "new"]> (<["certs/tls.key" := "key"]> (files "old"))) "certs" "tls"; Advance (inr 0); Advance (inr 0);
    Advance (inl 0); Advance (inl 0)]%nat sample_tls = Some (Returns t) /\
  CertFile (set t) = "certs/tls.crt" /\ Certificates <$> currentConfig t = Some [("old", "key")].
Proof. eexists. split; [vm_compute; reflexivity|]. split; vm_compute; reflexivity. Qed.

(** A loop that has not yet seen that it was stopped, when the next set-up comes, waits
    on the new channel from then on: two loops run, and neither is stopped. *)
Lemma stop_then_setup_keeps_loop : exists t,
  @run _ _ _ _ _ text_tls [Setup 0 (files "old") false; LoopBegins 0; Stop; Setup 1 (files "old") false; LoopBegins 1] sample_tls = Some (Returns t) /\
  size (loops t) = 2%nat /\ @do_step _ _ _ _ _ text_tls (LoopEnds 0) t = None /\ @do_step _ _ _ _ _ text_tls (LoopEnds 1) t = None.
Proof. eexists. split; [vm_compute; reflexivity|]. repeat split; vm_compute; reflexivity. Qed.

End Facts.
