(* ===== verification/Ticker.v ===== *)
(** The shape of the library's background goroutines: a [select] over a ticker and, in most
    of them, a channel that is closed to end them. *)
From S2P Require Import Prelude.

(** What a turn of a loop receives: a tick, with what the loop reads then, or the closed
    channel. *)
Inductive turn (T : Type) : Type := Ticked (t : T) | Stopped.
Arguments Ticked {T} t.
Arguments Stopped {T}.

(** The turns that a loop takes, and whether it has returned. *)
Fixpoint ticker_loop {T S : Type} (tick : T -> S -> S) (ts : list (turn T)) (s : S) : S * bool :=
  match ts with
  | [] => (s, false)
  | Stopped :: _ => (s, true)
  | Ticked t :: ts => ticker_loop tick ts (tick t s)
  end.

Section Facts.
Context {T S : Type} (tick : T -> S -> S).

(** A loop returns exactly when it takes the closed channel. *)
Lemma ticker_loop_ends ts s : (ticker_loop tick ts s).2 = true <-> Stopped ∈ ts.
Proof.
  revert s. induction ts as [|[t|] ts IH]; intros s; cbn [ticker_loop].
  - split; [done|]. by intros []%not_elem_of_nil.
  - rewrite IH, elem_of_cons. split; [by right|]. by intros [|].
  - split; [by left|done].
Qed.

(** What every tick keeps, the loop keeps. *)
Lemma ticker_loop_inv (P : S -> Prop) : (forall t s, P s -> P (tick t s)) -> forall ts s, P s -> P (ticker_loop tick ts s).1.
Proof. intros Hp ts. induction ts as [|[t|] ts IH]; intros s Hs; [done|by apply IH, Hp|done]. Qed.

(** Turns one after the other; after the end there are none. *)
Lemma ticker_loop_app ts ts' s :
  ticker_loop tick (ts ++ ts') s = let '(s', ended) := ticker_loop tick ts s in if ended then (s', true) else ticker_loop tick ts' s'.
Proof. revert s. induction ts as [|[t|] ts IH]; intros s; [done|apply IH|done]. Qed.

End Facts.
