(* ===== verification/Pools.v ===== *)
(** More of the pools of [src/internal/mempool/]: pools of maps, the pools with fixed
    parameters, the clean-up loop of a message pool and the typed message pools.

    Maps are reference values: they live in a heap, and pool and clients hold
    addresses. *)
From S2P Require Import Prelude Mempool Ticker.

(** * Maps *)
Module Maps.

Section Maps.
Context {K V : Type} (eqb : K -> K -> bool).

(** A Go map as the list of its entries. [eqb] is the [==] of the key type, which
    need not be reflexive: a NaN is not equal to itself. *)
Abbreviation gomap := (list (K * V)).
Implicit Type m : gomap.

Definition delete_key (k : K) (m : gomap) : gomap := filter (fun e => eqb e.1 k = false) m.

(** [m[k] = v]: replaces the entry with an equal key or adds one. *)
Definition store (k : K) (v : V) (m : gomap) : gomap :=
  if existsb (fun e => eqb e.1 k) m then (fun e => if eqb e.1 k then (e.1, v) else e) <$> m else m ++ [(k, v)].

(** The loop that clears a map; entries that are gone when their turn comes are not
    visited, and deleting them again would do nothing. *)
Definition clear (m : gomap) : gomap := foldl (fun m' e => delete_key e.1 m') m m.

Record MapPool : Type := { heap : list gomap; items : list nat; capacity : nat }.

Definition NewMapPool (c : nat) : MapPool := {| heap := []; items := []; capacity := c |}.

Definition Get (pick : option nat) (p : MapPool) : nat * MapPool :=
  match take_item pick (items p) with
  | Some (i, rest) => (i, {| heap := alter clear i (heap p); items := rest; capacity := capacity p |})
  | None => (length (heap p), {| heap := heap p ++ [[]]; items := items p; capacity := capacity p |})
  end.

Definition Put (i : nat) (p : MapPool) : MapPool :=
  if (capacity p * 2 <? length (default [] (heap p !! i)))%nat then p
  else {| heap := heap p; items := items p ++ [i]; capacity := capacity p |}.

(** Clients get maps, store in them and give each back once. *)
Record world : Type := { pool : MapPool; held : list nat }.

Inductive event : Type := EGet (pick : option nat) | EPut (n : nat) | EStore (n : nat) (k : K) (v : V) | ECollect (n : nat).

Definition step (e : event) (w : world) : option world :=
  match e with
  | EGet pick => let '(i, p) := Get pick (pool w) in Some {| pool := p; held := held w ++ [i] |}
  | EPut n => i ← held w !! n; Some {| pool := Put i (pool w); held := delete n (held w) |}
  | EStore n k v =>
      i ← held w !! n;
      Some {| pool := {| heap := alter (store k v) i (heap (pool w)); items := items (pool w); capacity := capacity (pool w) |}; held := held w |}
  | ECollect n => Some {| pool := {| heap := heap (pool w); items := delete n (items (pool w)); capacity := capacity (pool w) |}; held := held w |}
  end.

Fixpoint run (es : list event) (w : world) : option world :=
  match es with [] => Some w | e :: es => w' ← step e w; run es w' end.

Definition start (c : nat) : world := {| pool := NewMapPool c; held := [] |}.

End Maps.
End Maps.

(** * The pools with fixed parameters *)

(** [NewBufferPool] and [NewPreallocatedByteSlicePool] have the state of a slice pool. *)
Definition NewBufferPool (c : nat) : Slices.SlicePool := Slices.NewSlicePool c.
Definition NewPreallocatedByteSlicePool (n : nat) : Slices.SlicePool := Slices.NewSlicePool n.
Definition TransferBufferPool : Slices.SlicePool := NewPreallocatedByteSlicePool 4096.

(** * The clean-up loop and the typed pools *)
Module Typed.
Import Messages.

(** The loop cleans up at the time of each tick. *)
Definition cleanupLoop : list (turn Z) -> MessagePool -> MessagePool * bool := ticker_loop cleanup.

(** A Go type, as far as it matters here: one with values of its own, whose values can
    be keys of a map or not, a pointer to one, or an interface. *)
Inductive gotype : Type := Named (name : nat) (hashable : bool) | Pointer (t : gotype) | Interface (name : nat).

#[export] Instance gotype_eq_dec : EqDecision gotype.
Proof. solve_decision. Defined.

(** [reflect.TypeOf] of the zero value: there is no type in a nil interface. *)
Definition type_of_zero (T : gotype) : option gotype := match T with Interface _ => None | _ => Some T end.

(** The factory of [NewTypedMessagePool]: the dynamic type of what it makes. [reflect.New]
    of no type panics. *)
Definition factory (T : gotype) : outcome gotype :=
  match type_of_zero T with
  | None => Panics
  | Some T' => match T' with Pointer _ => Returns (Pointer T') | _ => Returns T' end
  end.

(** A value of a type can be the key of the map [objects]; the run time panics if not. *)
Definition as_key (T : gotype) : outcome gotype := match T with Named _ false => Panics | _ => Returns T end.

(** The [New] of the pool: make an object and enter it in the map. *)
Definition typed_New (T : gotype) : outcome gotype := match factory T with Returns T' => as_key T' | Panics => Panics end.

(** [TypedMessagePool.Get] when the pool makes the object: the assertion to [T]. *)
Definition typed_Get (T : gotype) : outcome gotype :=
  match typed_New T with Returns T' => if decide (T' = T) then Returns T else Panics | Panics => Panics end.

(** [NewTypedMessagePool]: warming up makes objects. *)
Definition NewTypedMessagePool (T : gotype) (o : MessagePoolOptions) (now : Z) : outcome MessagePool :=
  if 0 <? PrewarmSize o then match typed_New T with Returns _ => Returns (NewMessagePool true o now) | Panics => Panics end
  else Returns (NewMessagePool true o now).

(** The methods that pass on to the pool. *)
Definition typed_Put (obj : nat) (now : Z) (p : MessagePool) : MessagePool := Put obj now p.
Definition typed_GetStats (p : MessagePool) : MessagePoolStats := GetStats p.
Definition typed_Close (p : MessagePool) : outcome MessagePool := Close p.

End Typed.

(** * Facts *)
Module Facts.
Import Maps.

Section Facts.
Context {K V : Type} (eqb : K -> K -> bool).
Implicit Types (m : list (K * V)) (w : @world K V).

(** Clearing leaves the entries whose keys are equal to no key of the map. *)
Lemma clear_spec m e : e ∈ clear eqb m <-> e ∈ m /\ Forall (fun e' => eqb e.1 e'.1 = false) m.
Proof.
  unfold clear. enough (Hg : forall ks m, e ∈ foldl (fun m' e' => delete_key eqb e'.1 m') m ks <-> e ∈ m /\ Forall (fun e' => eqb e.1 e'.1 = false) ks)
    by apply Hg.
  clear m. induction ks as [|k ks IH]; intros m; simpl; [rewrite Forall_nil; tauto|]. rewrite IH. unfold delete_key.
  rewrite list_elem_of_filter, Forall_cons. tauto.
Qed.

Lemma clear_reflexive m : (forall k, eqb k k = true) -> clear eqb m = [].
Proof.
  intros He. destruct (clear eqb m) as [|e l] eqn:E; [done|]. assert (Hin : e ∈ clear eqb m) by (rewrite E; by left).
  apply clear_spec in Hin as [Hin Hall]. rewrite Forall_forall in Hall. specialize (Hall e Hin). by rewrite He in Hall.
Qed.

(** Addresses of maps: those of the pool and of clients differ and are there. *)
Definition sound w : Prop :=
  NoDup (items (pool w) ++ held w) /\ Forall (fun i => (i < length (heap (pool w)))%nat) (items (pool w) ++ held w).

Lemma maps_step_sound e w w' : sound w -> step eqb e w = Some w' -> sound w'.
Proof.
  intros [Hn Hf] Hs. destruct w as [p l]. unfold sound in *. cbn [pool held] in *. destruct e as [pick|n|n k v|n]; cbn [step pool held] in Hs.
  - unfold Get in Hs. destruct (take_item pick (items p)) as [[i rest]|] eqn:Ht; injection Hs as <-; simpl.
    + apply take_item_perm in Ht. rewrite length_alter. assert (Hp : items p ++ l ≡ₚ rest ++ l ++ [i]).
      { rewrite Ht, app_assoc. simpl. apply Permutation_cons_append. }
      by rewrite <- Hp.
    + rewrite app_assoc. split.
      * apply NoDup_app. split; [done|]. split; [|apply NoDup_singleton]. intros i Hi ->%list_elem_of_singleton.
        rewrite Forall_forall in Hf. specialize (Hf _ Hi). lia.
      * rewrite length_app. simpl. apply Forall_app. split; [|apply Forall_singleton; lia]. eapply Forall_impl; [exact Hf|]. simpl. lia.
  - destruct (l !! n) as [i|] eqn:Hi; [|done]. injection Hs as <-. simpl.
    assert (Hp : items p ++ l ≡ₚ i :: items p ++ delete n l) by (rewrite (delete_Permutation _ _ _ Hi) at 1; symmetry; apply Permutation_middle).
    rewrite Hp in Hn, Hf. unfold Put. case_bool; simpl.
    + apply NoDup_cons in Hn as [_ Hn]. by apply Forall_cons in Hf as [_ Hf].
    + assert (Hq : (items p ++ [i]) ++ delete n l ≡ₚ i :: items p ++ delete n l) by (rewrite <- app_assoc; symmetry; apply Permutation_middle).
      by rewrite Hq.
  - destruct (l !! n) as [i|]; [|done]. injection Hs as <-. simpl. by rewrite length_alter.
  - injection Hs as <-. simpl. destruct (items p !! n) as [i|] eqn:Hi.
    + rewrite (delete_Permutation _ _ _ Hi) in Hn, Hf. simpl in Hn, Hf. apply NoDup_cons in Hn as [_ Hn]. by apply Forall_cons in Hf as [_ Hf].
    + rewrite delete_past by (by apply lookup_ge_None). by split.
Qed.

Lemma maps_run_sound es : forall w w', sound w -> run eqb es w = Some w' -> sound w'.
Proof.
  induction es as [|e es IH]; intros w w' Hw Hr; [by injection Hr as <-|]. cbn [run] in Hr.
  destruct (step eqb e w) as [w1|] eqn:Hs; [|done]. eapply IH; [|exact Hr]. by eapply maps_step_sound.
Qed.

(** Whatever clients did before, as long as each map is given back once, [Get] gives
    one that nobody holds, empty when keys are equal to themselves, and leaves the maps
    that clients hold as they are. *)
Theorem maps_empty_unshared c es pick w w' : (forall k, eqb k k = true) ->
  run eqb es (start c) = Some w -> step eqb (EGet pick) w = Some w' ->
  exists i, held w' = held w ++ [i] /\ heap (pool w') !! i = Some [] /\ (i ∉ held w) /\
    Forall (fun j => heap (pool w') !! j = heap (pool w) !! j) (held w).
Proof.
  intros He Hr Hs. assert (Hw : sound w) by (eapply maps_run_sound; [|exact Hr]; split; constructor).
  assert (Hw' : sound w') by (by eapply maps_step_sound). destruct w as [p l]. cbn [step pool held] in Hs. destruct Hw as [Hn Hf]. cbn [pool held] in *.
  destruct (Get eqb pick p) as [i p'] eqn:Hg. injection Hs as <-. exists i. split; [done|]. cbn [pool held] in *.
  assert (Hout : i ∉ l).
  { destruct Hw' as [Hn' _]. cbn [pool held] in Hn'. apply NoDup_app in Hn' as (_ & _ & Hn'). apply NoDup_app in Hn' as (_ & Hd & _).
    intros Hin. apply (Hd i Hin). by left. }
  unfold Get in Hg. destruct (take_item pick (items p)) as [[j rest]|] eqn:Ht; injection Hg as <- <-; cbn [heap] in *.
  - apply take_item_perm in Ht. rewrite Ht in Hf. apply Forall_cons in Hf as [Hj _]. destruct (lookup_lt_is_Some_2 _ _ Hj) as [m Hm].
    rewrite list_lookup_alter_eq, Hm. simpl. rewrite clear_reflexive by done. split_and!; [done..|].
    apply Forall_forall. intros i Hi. apply list_lookup_alter_ne. intros ->. done.
  - split; [by apply list_lookup_middle|]. split; [done|]. apply Forall_forall. intros i Hi. apply lookup_app_l.
    rewrite Forall_forall in Hf. apply Hf, elem_of_app. by right.
Qed.

(** A map that is given back is kept unless it has more than twice the capacity. *)
Lemma Put_keeps i m (p : @MapPool K V) : heap p !! i = Some m ->
  items (Put i p) = if (length m <=? capacity p * 2)%nat then items p ++ [i] else items p.
Proof. intros Hi. unfold Put. rewrite Hi. simpl. destruct (Nat.ltb_spec (capacity p * 2) (length m)), (Nat.leb_spec (length m) (capacity p * 2)); done || lia. Qed.

End Facts.

(** Keys that are not equal to themselves: the map comes back with its entries. *)
Definition nan_eqb (a b : option Z) : bool := match a, b with Some x, Some y => x =? y | _, _ => false end.

Example nan_keys_stay :
  (w ← run nan_eqb [EGet None; EStore 0 None 7; EStore 0 (Some 1) 8; EPut 0; EGet (Some 0%nat)] (start 4); Some (heap (pool w), held w)) =
  Some ([[(None, 7)]], [0%nat]).
Proof. vm_compute. reflexivity. Qed.

Abbreviation map_use := [EGet None; EStore 0 1 7; EGet None; EPut 0].

Lemma maps_empty_unshared_witness : exists w w', run Z.eqb map_use (@start Z Z 4) = Some w /\ step Z.eqb (EGet (Some 0%nat)) w = Some w' /\
  exists i, held w' = held w ++ [i] /\ heap (pool w') !! i = Some [] /\ (i ∉ held w) /\
    Forall (fun j => heap (pool w') !! j = heap (pool w) !! j) (held w).
Proof.
  do 2 eexists. split; [vm_compute; reflexivity|]. split; [vm_compute; reflexivity|].
  apply (maps_empty_unshared Z.eqb 4%nat map_use (Some 0%nat)); [apply Z.eqb_refl|vm_compute; reflexivity..].
Defined.

(** ** The loop *)
Import Typed.

(** The loop removes only expired objects; none that is referenced when references
    are counted. *)
Lemma cleanupLoop_keeps ts p o po : Messages.useRefCount p = true -> 0 < Messages.refCount po ->
  Messages.objects p !! o = Some po -> Messages.objects (cleanupLoop ts p).1 !! o = Some po.
Proof.
  intros Hc Hr Ho. apply (ticker_loop_inv Messages.cleanup (fun p => Messages.useRefCount p = true /\ Messages.objects p !! o = Some po)); [|done].
  intros now q [Hq Hoq]. split; [done|]. unfold Messages.cleanup. simpl. apply map_lookup_filter_Some. split; [done|]. simpl. unfold Messages.expired.
  rewrite Hq, (proj2 (Z.leb_gt _ _)) by done. simpl. by rewrite andb_false_r.
Qed.

(** After a tick without references to count, what is left was used within the time to live. *)
Lemma cleanup_fresh now p o po : Messages.useRefCount p = false -> 0 < Messages.ttl p ->
  Messages.objects (Messages.cleanup now p) !! o = Some po -> time_sub now (Messages.lastUsed po) <= Messages.ttl p.
Proof.
  intros Hc Ht Ho. unfold Messages.cleanup in Ho. simpl in Ho. apply map_lookup_filter_Some in Ho as [_ He]. simpl in He.
  unfold Messages.expired in He. rewrite Hc in He. simpl in He. rewrite andb_true_r in He.
  rewrite (proj2 (Z.ltb_lt 0 _)) in He by done. simpl in He. by apply Z.ltb_ge.
Qed.

(** ** Typed pools *)

(** A typed pool works for the types of values that can be keys; for pointers [Get]
    panics, for other values and for interfaces making an object does. *)
Theorem typed_Get_outcome T : typed_Get T = match T with Named _ true => Returns T | _ => Panics end.
Proof.
  unfold typed_Get, typed_New, factory. destruct T as [n [|]|T|n]; simpl; [by rewrite decide_True|done| |done].
  rewrite decide_False; [done|]. intros E. assert (Hne : forall U : gotype, Pointer U <> U) by (induction U; congruence). by apply (Hne (Pointer T)).
Qed.

(** A pool of the message types that protobuf generates, pointers to structures, is
    built and fails at the first [Get]. *)
Example pointer_pool n now : exists p, NewTypedMessagePool (Pointer (Named n false)) Messages.DefaultMessagePoolOptions now = Returns p /\
  typed_Get (Pointer (Named n false)) = Panics.
Proof. eexists. split; [reflexivity|apply typed_Get_outcome]. Qed.

End Facts.
