(* ===== verification/ProtoPool.v ===== *)
(** The rest of [src/internal/serialization/zerocopy.go]: writing a buffer out, the
    writer of numbers, the pool of message types, and the conversions between strings
    and byte slices that share their storage; with the buffer pools that
    [src/internal/mempool/] makes for everyone. *)
From S2P Require Import Prelude Mempool Pools Serialization.

(** * Ready-made pools *)

Definition Small4KPool : Buffers.AdvancedBufferPool := Buffers.NewAdvancedBufferPool 4096 16384.
Definition Medium64KPool : Buffers.AdvancedBufferPool := Buffers.NewAdvancedBufferPool 65536 262144.
Definition Large1MPool : Buffers.AdvancedBufferPool := Buffers.NewAdvancedBufferPool 1048576 4194304.
Definition DefaultAdvancedBufferPool : Buffers.AdvancedBufferPool := Buffers.NewAdvancedBufferPool 4096 (1024 * 1024).

(** [GetBuffer] and [PutBuffer], on the default pool as it is. *)
Definition GetBuffer (pick : option nat) (default : Buffers.AdvancedBufferPool) : nat * Buffers.AdvancedBufferPool := Buffers.Get pick default.
Definition PutBuffer (buf : nat) (default : Buffers.AdvancedBufferPool) : Buffers.AdvancedBufferPool := Buffers.Put buf default.

(** A pool for protocol buffers has no maximal size; it never looks at one. *)
Definition NewProtoBufferPool (size : Z) : Buffers.AdvancedBufferPool := Buffers.NewAdvancedBufferPool size 0.

(** * Writers *)
Module Writers.
Import Buffers ZeroCopy.

(** [ZeroCopyWriter.WriteTo] *)
Definition writer_WriteTo (write : list Z -> Z * option string) (w : ZeroCopyWriter) (p : AdvancedBufferPool) : outcome (Z * option string) :=
  match w with None => Panics | Some i => match heap p !! i with None => Panics | Some b => Returns (WriteTo write b) end end.

(** [VarIntWriter] holds its buffer as a [ZeroCopyWriter] does. *)
Definition VarIntWriter : Type := option nat.

Definition NewVarIntWriter (pick : option nat) (small : AdvancedBufferPool) : VarIntWriter * AdvancedBufferPool :=
  let '(i, p) := Buffers.Get pick small in (Some i, p).

Definition varint_Release (w : VarIntWriter) (p : AdvancedBufferPool) : outcome (VarIntWriter * AdvancedBufferPool) :=
  match w with None => Panics | Some i => Returns (None, Release i p) end.

Definition varint_Bytes (w : VarIntWriter) (p : AdvancedBufferPool) : outcome (list Z) :=
  match w with None => Panics | Some i => match heap p !! i with None => Panics | Some b => Returns (contents b) end end.

(** Numbers one after the other. *)
Fixpoint WriteVarints (A : list Z -> Z -> list Z) (grow : Z -> nat -> Z) (vs : list Z) (w : VarIntWriter) (p : AdvancedBufferPool)
  : outcome AdvancedBufferPool :=
  match vs with
  | [] => Returns p
  | v :: vs => match WriteVarint A grow v w p with Returns p => WriteVarints A grow vs w p | Panics => Panics end
  end.

End Writers.

(** * The pool of message types *)
Module Types.
Import Typed.

(** A message: [None] for a nil interface, else its dynamic type and the object. [next]
    is the address of the next object that reflection makes. *)
Abbreviation message := (option (gotype * nat)).

(** [pools]: the registered types, each with a value that nobody ever uses. *)
Record OptimizedProtoPool : Type := { pools : list (gotype * nat); next : nat }.

Definition NewOptimizedProtoPool (next : nat) : OptimizedProtoPool := {| pools := []; next := next |}.

Definition registered (t : gotype) (p : OptimizedProtoPool) : bool := existsb (fun e => bool_decide (e.1 = t)) (pools p).

(** [t.Elem()]: panics for a type without elements. The type of nil is itself nil, which
    is never a key and has no [Elem]. *)
Definition Elem (t : gotype) : outcome gotype := match t with Pointer t => Returns t | _ => Panics end.

Definition RegisterType (m : message) (p : OptimizedProtoPool) : outcome OptimizedProtoPool :=
  match m with
  | None => Panics
  | Some (t, _) =>
      if registered t p then Returns p
      else match Elem t with
           | Returns _ => Returns {| pools := pools p ++ [(t, next p)]; next := S (next p) |}
           | Panics => Panics
           end
  end.

(** [Get]: a new object of a registered type, else what it was given. *)
Definition Get (m : message) (p : OptimizedProtoPool) : outcome (message * OptimizedProtoPool) :=
  match m with
  | None => Returns (None, p)
  | Some (t, o) =>
      if registered t p then
        match Elem t with Returns e => Returns (Some (Pointer e, next p), {| pools := pools p; next := S (next p) |}) | Panics => Panics end
      else Returns (m, p)
  end.

(** A run of requests, for messages of any types, with registrations between them. *)
Inductive event : Type := ERegister (m : message) | EGet (m : message).

Definition step (e : event) (p : OptimizedProtoPool) : outcome (option message * OptimizedProtoPool) :=
  match e with
  | ERegister m => match RegisterType m p with Returns p => Returns (None, p) | Panics => Panics end
  | EGet m => match Get m p with Returns (r, p) => Returns (Some r, p) | Panics => Panics end
  end.

Fixpoint run (es : list event) (p : OptimizedProtoPool) : outcome (list (option message) * OptimizedProtoPool) :=
  match es with
  | [] => Returns ([], p)
  | e :: es =>
      match step e p with
      | Panics => Panics
      | Returns (r, p) => match run es p with Returns (rs, p) => Returns (r :: rs, p) | Panics => Panics end
      end
  end.

End Types.

(** * Conversions without copying *)
Module Unsafe.
Import Slices.

(** The header of a string: its array and length; a slice's has a capacity, too. *)
Record gostring : Type := { data : nat; slen : nat }.

(** [ByteToStringUnsafe]: the first two words of the slice header. *)
Definition ByteToStringUnsafe (b : slice) : gostring := {| data := array b; slen := len b |}.

Definition StringToByteUnsafe (s : gostring) : slice := {| array := data s; len := slen s; cap := slen s |}.

(** The bytes of a string. *)
Definition bytes (h : list (list Z)) (s : gostring) : list Z := take (slen s) (default [] (h !! data s)).

(** [b[i] = v] *)
Definition assign (b : slice) (i : nat) (v : Z) (h : list (list Z)) : outcome (list (list Z)) :=
  if (i <? len b)%nat then Returns (alter (insert i v) (array b) h) else Panics.

End Unsafe.

(** * Facts *)
Module Facts.

(** ** Numbers *)
Section Numbers.
Import Buffers ZeroCopy Writers Serialization.Facts.
Context (A : list Z -> Z -> list Z) (grow : Z -> nat -> Z).

(** What [AppendVarint] documents: it appends. *)
Hypothesis appends : forall l v, A l v = l ++ A [] v.

(** Numbers written one after the other are the encodings in their order: what the
    encoder alone would append. *)
Theorem varints_in_order vs pick small : sane small -> let '(w, p) := NewVarIntWriter pick small in
  exists p', WriteVarints A grow vs w p = Returns p' /\ varint_Bytes w p' = Returns (foldl A [] vs).
Proof.
  intros Hs. unfold NewVarIntWriter. destruct (Get_empty pick small Hs) as (b & Hb & Hc & _). destruct (Buffers.Get pick small) as [i p]. simpl in Hb.
  enough (Hg : forall vs acc b p, heap p !! i = Some b -> contents b = acc ->
    exists p', WriteVarints A grow vs (Some i) p = Returns p' /\ varint_Bytes (Some i) p' = Returns (foldl A acc vs)) by by eapply Hg.
  clear -appends. induction vs as [|v vs IH]; intros acc b p Hb Hc.
  - exists p. split; [done|]. simpl. by rewrite Hb, Hc.
  - cbn [WriteVarints WriteVarint foldl]. eapply IH; [unfold update; cbn [heap]; rewrite list_lookup_alter_eq, Hb; reflexivity|].
    simpl. by rewrite Hc, (appends acc v).
Qed.

(** A released writer panics, whatever is asked of it. *)
Lemma released_panics w p v : match varint_Release w p with
  | Panics => w = None
  | Returns (w', p') => varint_Bytes w' p' = Panics /\ WriteVarint A grow v w' p' = Panics /\ varint_Release w' p' = Panics
  end.
Proof. by destruct w. Qed.

End Numbers.

(** ** Types *)
Section Types.
Import Typed Types.

(** Every registered type has elements, and objects made so far are older than [next]. *)
Definition sound (p : OptimizedProtoPool) : Prop :=
  Forall (fun e : gotype * nat => (exists t, e.1 = Pointer t) /\ (e.2 < next p)%nat) (pools p).

Lemma registered_In t p : registered t p = true <-> t ∈ (pools p).*1.
Proof.
  unfold registered. rewrite existsb_exists. split.
  - intros ([t' n] & Hin & He). apply bool_decide_eq_true in He. simpl in He. subst. apply list_elem_of_In in Hin. by apply (list_elem_of_fmap_2 fst _ (t, n)).
  - intros ([t' n] & -> & Hin)%list_elem_of_fmap. exists (t', n). split; [by apply list_elem_of_In|]. by apply bool_decide_eq_true.
Qed.

Lemma Register_sound m p p' : sound p -> RegisterType m p = Returns p' -> sound p' /\ (next p <= next p')%nat.
Proof.
  intros Hs. unfold RegisterType. destruct m as [[t o]|]; [|done]. destruct (registered t p); [by intros [= <-]|].
  destruct (Elem t) as [e|] eqn:He; [|done]. intros [= <-]. unfold sound. simpl. split; [|lia]. apply Forall_app. split.
  - eapply Forall_impl; [exact Hs|]. intros x [Hx Hn]. split; [done|]. simpl. lia.
  - apply Forall_singleton. simpl. split; [|lia]. destruct t; try done. by eexists.
Qed.

Lemma registered_pointer t p : sound p -> registered t p = true -> exists e, t = Pointer e.
Proof.
  intros Hs ([t' n] & -> & Hin)%registered_In%list_elem_of_fmap. unfold sound in Hs. rewrite Forall_forall in Hs. by destruct (Hs _ Hin) as [? _].
Qed.

(** What [Get] does to a pool that only [RegisterType] filled: it never panics. *)
Lemma types_Get_spec t o p : sound p -> Types.Get (Some (t, o)) p =
  if registered t p then Returns (Some (t, next p), {| pools := pools p; next := S (next p) |}) else Returns (Some (t, o), p).
Proof.
  intros Hs. unfold Types.Get. destruct (registered t p) eqn:Hr; [|done]. by destruct (registered_pointer t p Hs Hr) as [e ->].
Qed.

Lemma Get_next m p r p' : sound p -> Types.Get m p = Returns (r, p') -> sound p' /\ (next p <= next p')%nat.
Proof.
  intros Hs. destruct m as [[t o]|]; [|by intros [= <- <-]]. rewrite types_Get_spec by done. destruct (registered t p); intros [= <- <-]; [|by split].
  split; [|simpl; lia]. eapply Forall_impl; [exact Hs|]. intros x [Hx Hn]. split; [done|]. simpl. lia.
Qed.

(** Messages that exist already. *)
Definition older (n : nat) (m : message) : Prop := match m with Some (_, o) => (o < n)%nat | None => True end.
Definition older_event (n : nat) (e : event) : Prop := match e with ERegister m | EGet m => older n m end.
Definition older_result (n : nat) (r : option message) : Prop := match r with Some m => older n m | None => True end.

Lemma older_le n n' m : (n <= n')%nat -> older n m -> older n' m.
Proof. destruct m as [[t o]|]; simpl; [lia|done]. Qed.

Lemma run_older n es : forall p rs p', sound p -> (n <= next p)%nat -> Forall (older_event n) es -> run es p = Returns (rs, p') ->
  sound p' /\ (next p <= next p')%nat /\ Forall (older_result (next p')) rs.
Proof.
  induction es as [|e es IH]; intros p rs p' Hs Hn Hes Hr; [by injection Hr as <- <-|]. apply Forall_cons in Hes as [He Hes]. cbn [run] in Hr.
  destruct (step e p) as [[r p1]|] eqn:Hst; [|done]. destruct (run es p1) as [[rs1 p2]|] eqn:Hrun; [|done]. injection Hr as <- <-.
  assert (H1 : sound p1 /\ (next p <= next p1)%nat /\ older_result (next p1) r).
  { destruct e as [m|m]; cbn [step] in Hst.
    - destruct (RegisterType m p) as [q|] eqn:Hq; [|done]. injection Hst as <- <-. by destruct (Register_sound m p q Hs Hq).
    - destruct (Types.Get m p) as [[m' q]|] eqn:Hq; [|done]. injection Hst as <- <-. destruct (Get_next m p m' q Hs Hq) as [H1 H2]. split_and!; [done..|].
      destruct m as [[t o]|]; [|by injection Hq as <- <-]. rewrite types_Get_spec in Hq by done. simpl in He.
      destruct (registered t p); injection Hq as <- <-; simpl; lia. }
  destruct H1 as (Hs1 & Hn1 & Hr1). destruct (IH p1 rs1 p2 Hs1 ltac:(lia) Hes Hrun) as (Hs2 & Hn2 & Hrs). split_and!; [done|lia|].
  constructor; [|done]. destruct r as [m|]; [|done]. by eapply older_le.
Qed.

(** The pool of message types keeps no message: for a registered type [Get] makes an
    object that is none of those it gave before, for another one it returns its
    argument; it never fails. *)
Theorem types_fresh n es t o rs p (Hes : Forall (older_event n) es) (Hr : run es (NewOptimizedProtoPool n) = Returns (rs, p)) :
  exists m p', Types.Get (Some (t, o)) p = Returns (m, p') /\
    if registered t p then exists o', m = Some (t, o') /\ Forall (fun r => r <> Some (Some (t, o'))) rs else m = Some (t, o).
Proof.
  destruct (run_older n es (NewOptimizedProtoPool n) rs p ltac:(constructor) ltac:(done) Hes Hr) as (Hs & _ & Hrs). rewrite types_Get_spec by done.
  destruct (registered t p); do 2 eexists; (split; [reflexivity|]); [|done]. eexists. split; [done|].
  eapply Forall_impl; [exact Hrs|]. intros r Hold ->. simpl in Hold. lia.
Qed.

(** Registering again changes nothing. *)
Lemma Register_twice m p p' : RegisterType m p = Returns p' -> RegisterType m p' = Returns p'.
Proof.
  unfold RegisterType. destruct m as [[t o]|]; [|done]. destruct (registered t p) eqn:Hr; [intros [= <-]; by rewrite Hr|].
  destruct (Elem t) as [e|]; [|done]. intros [= <-]. rewrite (proj2 (registered_In t _)); [done|]. simpl. rewrite fmap_app. apply elem_of_app. right. by left.
Qed.
End Types.

(** ** Unsafe conversions *)
Section Unsafe.
Import Unsafe.

(** There and back: the same bytes, with the capacity cut to the length; and the string
    is what the slice holds. *)
Theorem unsafe_roundtrip h b : bytes h (ByteToStringUnsafe b) = Slices.elements h b /\
  (forall s, ByteToStringUnsafe (StringToByteUnsafe s) = s) /\ Slices.elements h (StringToByteUnsafe (ByteToStringUnsafe b)) = Slices.elements h b /\
  Slices.cap (StringToByteUnsafe (ByteToStringUnsafe b)) = Slices.len b.
Proof. split_and!; [done|by intros []|done|done]. Qed.

(** A string that shares a slice's storage changes with it. *)
Lemma unsafe_string_changes h b i v h' : SlicesFacts.backed h b -> assign b i v h = Returns h' ->
  bytes h' (ByteToStringUnsafe b) = <[i := v]> (bytes h (ByteToStringUnsafe b)).
Proof.
  intros (a & Ha & _). unfold assign. destruct (Nat.ltb_spec i (Slices.len b)) as [Hi|]; [|done]. intros [= <-]. unfold bytes. simpl.
  rewrite list_lookup_alter_eq, Ha. simpl. by rewrite take_insert_lt.
Qed.
End Unsafe.

(** ** Witnesses *)

(** An encoder of one byte for each number. *)
Definition byte_of (l : list Z) (v : Z) : list Z := l ++ [v].

Lemma varints_in_order_witness : let '(w, p) := Writers.NewVarIntWriter None Small4KPool in
  exists p', Writers.WriteVarints byte_of (fun c n => 2 * c + Z.of_nat n) [5; 0; 9] w p = Returns p' /\ Writers.varint_Bytes w p' = Returns [5; 0; 9].
Proof. apply (varints_in_order byte_of (fun c n => 2 * c + Z.of_nat n) ltac:(done) [5; 0; 9] None Small4KPool). constructor. Defined.

Abbreviation user := (Typed.Pointer (Typed.Named 0 false)).
Abbreviation other := (Typed.Pointer (Typed.Named 1 false)).
Abbreviation requests := [Types.ERegister (Some (user, 0%nat)); Types.EGet (Some (user, 1%nat)); Types.EGet (Some (other, 2%nat))].

Example requests_answered : match Types.run requests (Types.NewOptimizedProtoPool 3) with
  | Returns (rs, _) => rs = [None; Some (Some (user, 4%nat)); Some (Some (other, 2%nat))]
  | Panics => False
  end.
Proof. vm_compute. reflexivity. Qed.

Lemma types_fresh_witness : exists rs p, Types.run requests (Types.NewOptimizedProtoPool 3) = Returns (rs, p) /\
  exists m p', Types.Get (Some (user, 1%nat)) p = Returns (m, p') /\
    if Types.registered user p then exists o', m = Some (user, o') /\ Forall (fun r => r <> Some (Some (user, o'))) rs else m = Some (user, 1%nat).
Proof.
  do 2 eexists. split; [vm_compute; reflexivity|]. apply (types_fresh 3%nat requests user 1%nat); [repeat constructor; simpl; lia|vm_compute; reflexivity].
Defined.

End Facts.
