(* ===== verification/AdaptiveSystem.v ===== *)
(** The adaptive breaker with its goroutines: the adjusting loop of
    [src/internal/circuitbreaker/adaptive_breaker.go], the calls of state change
    listeners, which [changeState] starts and which run in any order, [GetMetrics]
    and [Close].

    Calls, turns of the loop and listeners are the steps of one system. *)
From S2P Require Import Prelude Float64 CircuitBreaker AdaptiveBreaker.
From S2P Require Errs.

(** * The system *)

(** [pending]: the listener calls that have been started and not yet run; [callbacks]:
    the calls of the user's [OnStateChangeCallback], which is there or not. *)
Record system : Type := {
  acb : AdaptiveCircuitBreaker; own : nat; has_callback : bool; pending : list (nat * State * State);
  callbacks : list (State * State * AdaptiveMetrics); looping : bool; stopping : bool }.

Definition set_acb (a : AdaptiveCircuitBreaker) (s : system) : system :=
  {| acb := a; own := own s; has_callback := has_callback s;
     pending := pending s ++ drop (length (started (base (acb s)))) (started (base a));
     callbacks := callbacks s; looping := looping s; stopping := stopping s |}.

(** [NewAdaptiveCircuitBreaker]: the loop runs when there is an interval. *)
Definition NewAdaptiveCircuitBreaker (nm : string) (o : AdaptiveOptions) (callback : bool) (own : nat) (now : Z) : system :=
  {| acb := NewAdaptive nm o own now; own := own; has_callback := callback; pending := []; callbacks := [];
     looping := 0 <? AdaptInterval o; stopping := false |}.

(** What a turn of the loop receives: the closed channel or one of the two tickers. *)
Inductive turn : Type := Stop | Tick (now : Z) | ResetTick.

Definition loop_turn `{GoImpl} (t : turn) (s : system) : option system :=
  if looping s then
    match t with
    | Stop => if stopping s then Some {| acb := acb s; own := own s; has_callback := has_callback s; pending := pending s;
                                        callbacks := callbacks s; looping := false; stopping := true |} else None
    | Tick now => Some (set_acb (adjustParameters now (acb s)) s)
    | ResetTick => Some (set_acb (reset_5m (acb s)) s)
    end
  else None.

(** The first half of [Close]; the second one waits for the loop to end. *)
Definition Close (s : system) : outcome system :=
  if stopping s then Panics
  else Returns {| acb := acb s; own := own s; has_callback := has_callback s; pending := pending s;
                  callbacks := callbacks s; looping := looping s; stopping := true |}.

Definition close_returns (s : system) : bool := stopping s && negb (looping s).

(** [GetMetrics]: a copy. *)
Definition GetMetrics (a : AdaptiveCircuitBreaker) : AdaptiveMetrics := metrics a.

(** The calls of users: the breaker's own methods, those of [Execute]'s parts, and
    the methods of the embedded breaker, which the struct promotes or whose exported
    field has them ([CBase]; [InjectFailure] is its [OpFailure]). *)
Inductive call : Type :=
| CAllow | CSuccess (took : Z) | CFailure | CRecord (e : option Errs.enhancedError) | CTime (d : Z) | CReset
| CBase (o : op) | CApply (o : Options) | CListen (l : option nat).

Definition call_step `{GoImpl} (now : Z) (c : call) (a : AdaptiveCircuitBreaker) : outcome AdaptiveCircuitBreaker :=
  match c with
  | CAllow => Returns (AAllow now a).2
  | CSuccess took => ASuccess now took a
  | CFailure => Returns (AFailure now a)
  | CRecord e => Returns (RecordEnhancedFailure now e a)
  | CTime d => recordResponseTime d a
  | CReset => Returns (AReset now a)
  | CBase o => Returns (set_base (exec now o (base a)).2 a)
  | CApply o => Returns (set_base (ApplyOptions o (base a)) a)
  | CListen l => Returns (set_base (AddListener l (base a)) a)
  end.

(** A pending listener runs: the breaker's own one tells the user and updates the
    metrics; another one is code of the user. [range] is the order of the map. *)
Definition listener_step (i : nat) (range : gmap string ErrorPattern -> list ErrorPattern) (s : system) : option system :=
  '(l, from, to) ← pending s !! i;
  let rest := delete i (pending s) in
  if (l =? own s)%nat then
    Some {| acb := on_state_change range to (acb s); own := own s; has_callback := has_callback s; pending := rest;
            callbacks := if has_callback s then callbacks s ++ [(from, to, GetMetrics (acb s))] else callbacks s;
            looping := looping s; stopping := stopping s |}
  else Some {| acb := acb s; own := own s; has_callback := has_callback s; pending := rest; callbacks := callbacks s;
               looping := looping s; stopping := stopping s |}.

Inductive event : Type :=
| ECall (now : Z) (c : call) | ETurn (t : turn) | EListener (i : nat) (range : gmap string ErrorPattern -> list ErrorPattern) | EClose.

(** [None]: the event cannot happen. *)
Definition step `{GoImpl} (e : event) (s : system) : option (outcome system) :=
  match e with
  | ECall now c => Some (match call_step now c (acb s) with Returns a => Returns (set_acb a s) | Panics => Panics end)
  | ETurn t => Returns <$> loop_turn t s
  | EListener i range => Returns <$> listener_step i range s
  | EClose => Some (Close s)
  end.

Fixpoint run `{GoImpl} (es : list event) (s : system) : option (outcome system) :=
  match es with
  | [] => Some (Returns s)
  | e :: es => match step e s with Some (Returns s) => run es s | r => r end
  end.

(** * Facts *)
Module Facts.

Section Facts.
Context `{GoImpl}.

(** What a call does to the embedded breaker: its options and listeners stay, and it
    changes its state at most once, telling every listener. *)
Definition one_change (b b' : CircuitBreaker) : Prop :=
  opts b' = opts b /\ listeners b' = listeners b /\
  ((started b' = started b /\ state b' = state b) \/
   started b' = started b ++ omap (fun l => (fun i => (i, state b, state b')) <$> l) (listeners b)).

Lemma one_change_refl b : one_change b b.
Proof. split; [done|]. split; [done|]. by left. Qed.

Lemma changeState_change s t b : one_change b (changeState s t b).
Proof.
  unfold one_change. rewrite changeState_opts, changeState_state. unfold changeState. destruct s; case_decide; simpl; auto.
Qed.

(** The same up to fields that no listener is told about. *)
Definition like (b b' : CircuitBreaker) : Prop :=
  opts b' = opts b /\ listeners b' = listeners b /\ started b' = started b /\ state b' = state b.

Lemma one_change_like b0 b1 s t b' : like b0 b1 -> like (changeState s t b1) b' -> one_change b0 b'.
Proof.
  intros (E1 & E2 & E3 & E4) (F1 & F2 & F3 & F4). pose proof (changeState_change s t b1) as (G1 & G2 & G).
  unfold one_change. rewrite F1, F2, F3, F4, G1, G2, <- E1, <- E2, <- E3, <- E4. auto.
Qed.

Lemma like_one_change b b' : like b b' -> one_change b b'.
Proof. intros (E1 & E2 & E3 & E4). split; [done|]. split; [done|]. by left. Qed.

Lemma leave_like b : like b (leave b).
Proof. unfold leave. by case_bool. Qed.

(** A method's result: a change of state between updates of other fields, or only those. *)
Ltac by_change :=
  lazymatch goal with
  | |- one_change ?b0 ?b' =>
      match b' with
      | context [changeState ?s ?t ?b1] => apply (one_change_like b0 b1 s t b')
      | _ => apply like_one_change
      end
  end; first [by repeat split|unfold like; simpl; split_and!; simpl; congruence].

Lemma Allow_change now b : one_change b (Allow now b).2.
Proof. unfold Allow. repeat case_match; simplify_eq/=; by_change. Qed.

Lemma Success_change now b : one_change b (Success now b).
Proof. unfold Success. cbv zeta. destruct (leave_like b) as (E1 & E2 & E3 & E4). repeat case_match; by_change. Qed.

Lemma Failure_change now b : one_change b (Failure now b).
Proof. unfold Failure. cbv zeta. destruct (leave_like b) as (E1 & E2 & E3 & E4). repeat case_match; by_change. Qed.

Lemma Reset_change now b : one_change b (Reset now b).
Proof. unfold Reset. by_change. Qed.

Lemma exec_change now o b : one_change b (exec now o b).2.
Proof.
  destruct o; simpl;
    [|apply Success_change|apply Failure_change|apply changeState_change|apply changeState_change|apply Reset_change].
  pose proof (Allow_change now b) as Ha. by destruct (Allow now b).
Qed.

(** What [ApplyOptions] and [AddListener] do to what listeners are told: more of
    them listen. *)
Definition extends (b b' : CircuitBreaker) : Prop :=
  listeners b `prefix_of` listeners b' /\ started b' = started b /\ state b' = state b.

(** The deciding breaker's options after a call and after a run. *)
Definition applied (d : Options) (e : event) : Options := match e with ECall _ (CApply o) => o | _ => d end.
Definition deciding (d : Options) (es : list event) : Options := foldl applied d es.

Lemma recordResponseTime_keeps d a a' : recordResponseTime d a = Returns a' ->
  base a' = base a /\ aopts a' = aopts a /\ CurrentThreshold (metrics a') = CurrentThreshold (metrics a) /\
  CurrentTimeout (metrics a') = CurrentTimeout (metrics a) /\ CurrentState (metrics a') = CurrentState (metrics a).
Proof. unfold recordResponseTime. case_bool; [done|]. intros [= <-]. by destruct (mean_positive _). Qed.

(** The parameters that [adjustParameters] moves. *)
Definition parameters (a : AdaptiveCircuitBreaker) : Z * Z := (CurrentThreshold (metrics a), CurrentTimeout (metrics a)).

(** A call: one change at most or more listeners, only [ApplyOptions] replaces the
    options, the adjusted parameters stay, and the metrics' state moves only with a
    reset. *)
Lemma call_keeps now c a a' : call_step now c a = Returns a' ->
  (one_change (base a) (base a') \/ extends (base a) (base a')) /\ opts (base a') = applied (opts (base a)) (ECall now c) /\
  aopts a' = aopts a /\ parameters a' = parameters a /\
  (CurrentState (metrics a') = CurrentState (metrics a) \/ (CurrentState (metrics a') = StateClosed /\ state (base a') = StateClosed)).
Proof.
  assert (Hone : forall b b', one_change b b' -> (one_change b b' \/ extends b b') /\ opts b' = opts b)
    by (intros b b' Hb; split; [by left|apply Hb]).
  unfold parameters. destruct c as [|took| |e|d| |o|o|l]; cbn [call_step applied].
  - intros [= <-]. destruct (Hone _ _ (Allow_change now (base a))). unfold AAllow. destruct (Allow now (base a)) as [r b]. simpl in *. split_and!; auto.
  - unfold ASuccess. destruct (recordResponseTime _ _) as [a1|] eqn:Hr; [|done]. intros [= <-]. apply recordResponseTime_keeps in Hr.
    destruct Hr as (E1 & E2 & E3 & E4 & E5). destruct (Hone _ _ (Success_change now (base a))).
    simpl in *. rewrite E1, E2, E3, E4, E5. split_and!; auto.
  - intros [= <-]. destruct (Hone _ _ (Failure_change now (base a))). simpl. split_and!; auto.
  - intros [= <-]. destruct (Hone _ _ (Failure_change now (base a))). unfold RecordEnhancedFailure. destruct e; [case_bool|]; simpl; split_and!; auto.
  - intros (E1 & E2 & E3 & E4 & E5)%recordResponseTime_keeps. destruct (Hone _ _ (one_change_refl (base a))).
    rewrite E1, E2, E3, E4, E5. split_and!; auto.
  - intros [= <-]. destruct (Hone _ _ (Reset_change now (base a))). simpl. split_and!; [done..|]. right. split; [done|]. apply changeState_state.
  - intros [= <-]. destruct (Hone _ _ (exec_change now o (base a))). simpl. split_and!; auto.
  - intros [= <-]. simpl. split_and!; auto. right. split; [|done]. simpl. destruct (OnStateChange o); [by apply prefix_app_r|done].
  - intros [= <-]. destruct l; simpl; split_and!; auto; right; (split; [|done]); [by apply prefix_app_r|done].
Qed.

Lemma call_ring now c a : ring_ok a -> exists a', call_step now c a = Returns a' /\ ring_ok a'.
Proof.
  intros Hr. destruct c as [|took| |e|d| |o|o|l]; cbn [call_step]; try (eexists; split; [done|]).
  - unfold AAllow. by destruct (Allow now (base a)).
  - unfold ASuccess. destruct (recordResponseTime_ok took (set_base (Success now (base a)) a) Hr) as (a1 & -> & Hr1 & _). by eexists.
  - done.
  - unfold RecordEnhancedFailure. destruct e; [case_bool|]; done.
  - destruct (recordResponseTime_ok d a Hr) as (a1 & -> & Hr1 & _). by eexists.
  - unfold ring_ok in *. simpl. rewrite length_fmap. lia.
  - done.
  - done.
  - done.
Qed.

(** ** Parameters *)

Definition ranges (o : AdaptiveOptions) : Z * Z * Z * Z := (MinThreshold o, MaxThreshold o, MinTimeout o, MaxTimeout o).

Definition in_ranges (o : AdaptiveOptions) (p : Z * Z) : Prop :=
  MinThreshold o <= p.1 <= MaxThreshold o /\ MinTimeout o <= p.2 <= MaxTimeout o.

Definition tuned (o : AdaptiveOptions) (d : Options) (a : AdaptiveCircuitBreaker) : Prop :=
  ring_ok a /\ opts (base a) = d /\ ranges (aopts a) = ranges o /\ in_ranges o (parameters a).

Lemma adjust_tuned o d now a : tuned o d a -> tuned o d (adjustParameters now a).
Proof.
  intros (Hr & Hb & Hg & Hin). unfold ranges in Hg. injection Hg as E1 E2 E3 E4. unfold tuned, adjustParameters.
  case_decide; [|unfold ranges; rewrite E1, E2, E3, E4; done]. case_bool; [unfold ranges; rewrite E1, E2, E3, E4; done|].
  split; [exact Hr|]. split; [exact Hb|]. split; [unfold ranges; simpl; by rewrite E1, E2, E3, E4|].
  unfold in_ranges, parameters in *. cbn -[clampZ] in *. rewrite <- E1, <- E2, <- E3, <- E4 in *. split; apply clampZ_bounds; lia.
Qed.

Lemma on_state_change_keeps range to a :
  base (on_state_change range to a) = base a /\ aopts (on_state_change range to a) = aopts a /\
  parameters (on_state_change range to a) = parameters a /\ (ring_ok (on_state_change range to a) <-> ring_ok a) /\
  CurrentState (metrics (on_state_change range to a)) = to.
Proof. unfold on_state_change. case_decide; [destruct (EnableErrorPatternAnalysis _)|]; by split_and!. Qed.

Lemma step_tuned o d e s r : tuned o d (acb s) -> step e s = Some r ->
  (exists s', r = Returns s' /\ tuned o (applied d e) (acb s')) \/ (r = Panics /\ e = EClose).
Proof.
  intros Ht Hs. destruct e as [now c|t|i range|]; cbn [step] in Hs.
  - destruct Ht as (Hr & Hb & Hg & Hin). destruct (call_ring now c (acb s) Hr) as (a' & Ha & Hr'). rewrite Ha in Hs. injection Hs as <-.
    apply call_keeps in Ha as (_ & Ho & Hopts & Hp & _). left. eexists. split; [done|]. unfold tuned. simpl acb. by rewrite Ho, Hopts, Hp, Hb.
  - unfold loop_turn in Hs. destruct (looping s); [|done]. destruct t as [|now|].
    + destruct (stopping s); [|done]. injection Hs as <-. left. by eexists.
    + injection Hs as <-. left. eexists. split; [done|]. by apply adjust_tuned.
    + injection Hs as <-. left. eexists. by split.
  - unfold listener_step in Hs. destruct (pending s !! i) as [[[l from] to]|]; [|done]. cbn in Hs.
    case_bool; injection Hs as <-; left; eexists; (split; [done|]); [|done].
    unfold tuned in *. destruct (on_state_change_keeps range to (acb s)) as (E1 & E2 & E3 & E4 & _). cbn [acb]. by rewrite E1, E2, E3, E4.
  - injection Hs as <-. unfold Close. destruct (stopping s); [by right|]. left. by eexists.
Qed.

Lemma run_tuned o es : forall d s s', tuned o d (acb s) -> run es s = Some (Returns s') -> tuned o (deciding d es) (acb s').
Proof.
  induction es as [|e es IH]; intros d s s' Ht Hr; [by injection Hr as <-|]. cbn [run] in Hr.
  destruct (step e s) as [r|] eqn:Hs; [|done]. destruct (step_tuned o d e s r Ht Hs) as [(s1 & -> & Ht1)|[-> _]]; [|done]. by eapply IH.
Qed.

Lemma start_tuned nm o callback own now :
  MinThreshold o <= Threshold (BaseOptions o) <= MaxThreshold o -> MinTimeout o <= Timeout (BaseOptions o) <= MaxTimeout o ->
  tuned o (BaseOptions o) (acb (NewAdaptiveCircuitBreaker nm o callback own now)).
Proof. intros Ht Hd. split; [split; vm_compute; congruence|]. by split_and!. Qed.

(** C39: Whatever calls of the adaptive breaker and of the breaker embedded in it, ticks and listeners follow each other, the reported threshold and timeout stay in the ranges of the options when they start there; but the breaker that decides about requests keeps the options it was made with, or those of the last [ApplyOptions]: no adjustment reaches it. *)
Theorem parameters_stay_in_range nm o callback own now es s
  (Ht : MinThreshold o <= Threshold (BaseOptions o) <= MaxThreshold o) (Hd : MinTimeout o <= Timeout (BaseOptions o) <= MaxTimeout o)
  (Hr : run es (NewAdaptiveCircuitBreaker nm o callback own now) = Some (Returns s)) :
  MinThreshold o <= CurrentThreshold (GetMetrics (acb s)) <= MaxThreshold o /\
  MinTimeout o <= CurrentTimeout (GetMetrics (acb s)) <= MaxTimeout o /\ opts (base (acb s)) = deciding (BaseOptions o) es.
Proof.
  destruct (run_tuned o _ _ _ _ (start_tuned nm o callback own now Ht Hd) Hr) as (_ & Hb & _ & Hin & Hin').
  unfold GetMetrics, in_ranges, parameters in *. simpl in *. auto.
Qed.

(** ** The metrics' state *)

(** Listener calls run in the order in which they were started. *)
Definition fifo (e : event) : Prop := match e with EListener i _ => i = 0%nat | _ => True end.

(** The state that the own listener will have written at the end. *)
Definition last_to (own : nat) (l : list (nat * State * State)) (s : State) : State :=
  foldl (fun s x => if (x.1.1 =? own)%nat then x.2 else s) s l.

Definition agrees (s : system) : Prop :=
  listeners (base (acb s)) <> [] /\ Some (own s) ∈ listeners (base (acb s)) /\
  last_to (own s) (pending s) (CurrentState (metrics (acb s))) = state (base (acb s)).

Lemma last_to_app o l l' s : last_to o (l ++ l') s = last_to o l' (last_to o l s).
Proof. apply foldl_app. Qed.

Lemma last_to_const o l s : Forall (fun x : nat * State * State => x.2 = s) l -> last_to o l s = s.
Proof. induction 1 as [|[[i f] t] l E _ IH]; [done|]. unfold last_to in *. simpl in *. by rewrite E, Tauto.if_same. Qed.

Lemma last_to_told own from to ls s : Some own ∈ ls ->
  last_to own (omap (fun l => (fun i : nat => (i, from, to)) <$> l) ls) s = to.
Proof.
  revert s. induction ls as [|l ls IH]; intros s Hin; [by apply not_elem_of_nil in Hin|]. apply elem_of_cons in Hin.
  destruct (decide (Some own ∈ ls)) as [Hls|Hls].
  - destruct l as [i|]; simpl; [|by apply IH]. unfold last_to. simpl. by apply IH.
  - destruct Hin as [<-|]; [|done]. simpl. unfold last_to. simpl. rewrite Nat.eqb_refl. apply last_to_const.
    apply Forall_forall. intros x (l & _ & Hx)%list_elem_of_omap. destruct l; [|done]. by injection Hx as <-.
Qed.

(** After a reset the state is closed, and so ends whatever is still pending. *)
Lemma last_to_end own l s s' : last_to own l s = s' -> forall r, r = s' -> last_to own l r = s'.
Proof.
  revert s. induction l as [|[[i f] t] l IH] using rev_ind; intros s Hs r ->; [done|]. rewrite last_to_app in *. unfold last_to in *. simpl in *.
  destruct (i =? own)%nat; [done|]. by apply (IH s).
Qed.

Lemma set_acb_agrees a s : agrees s -> one_change (base (acb s)) (base a) \/ extends (base (acb s)) (base a) ->
  (CurrentState (metrics a) = CurrentState (metrics (acb s)) \/ (CurrentState (metrics a) = StateClosed /\ state (base a) = StateClosed)) ->
  agrees (set_acb a s).
Proof.
  intros (Hne & Hin & Hl) Hb Hcur. unfold agrees. simpl.
  assert (Hls : listeners (base (acb s)) `prefix_of` listeners (base a)) by (destruct Hb as [(_ & -> & _)|(Hp & _)]; done).
  split; [destruct Hls as [l ->]; by destruct (listeners (base (acb s)))|].
  split; [destruct Hls as [l ->]; apply elem_of_app; by left|].
  assert (Hch : (started (base a) = started (base (acb s)) /\ state (base a) = state (base (acb s))) \/
    started (base a) = started (base (acb s)) ++
      omap (fun l => (fun i => (i, state (base (acb s)), state (base a))) <$> l) (listeners (base (acb s))))
    by (destruct Hb as [(_ & _ & Hch)|(_ & Hch)]; [done|by left]).
  destruct Hch as [[Hst Hs]|Hst]; rewrite Hst.
  - rewrite drop_all, app_nil_r, Hs. destruct Hcur as [-> |[Hc Hbc]]; [done|]. rewrite Hc. rewrite Hs in Hbc. eapply last_to_end; [exact Hl|]. by rewrite Hbc.
  - rewrite drop_app_length, last_to_app. by apply last_to_told.
Qed.

Lemma step_agrees e s s' : agrees s -> fifo e -> step e s = Some (Returns s') -> agrees s'.
Proof.
  intros Ha Hf Hs. destruct e as [now c|t|i range|]; cbn [step] in Hs.
  - destruct (call_step now c (acb s)) as [a|] eqn:Hc; [|done]. injection Hs as <-. apply call_keeps in Hc as (Hone & _ & _ & _ & Hcur).
    by apply set_acb_agrees.
  - unfold loop_turn in Hs. destruct (looping s); [|done]. destruct t as [|now|].
    + destruct (stopping s); [|done]. by injection Hs as <-.
    + injection Hs as <-. apply set_acb_agrees; [done|left|left]; unfold adjustParameters; case_decide; try apply one_change_refl; try done;
        case_bool; try done; apply one_change_refl.
    + injection Hs as <-. apply set_acb_agrees; [done|left; apply one_change_refl|by left].
  - simpl in Hf. subst i. unfold listener_step in Hs. destruct Ha as (Hne & Hin & Hl). destruct (pending s) as [|[[l from] to] rest] eqn:Hp; [done|].
    cbn in Hs. unfold last_to in Hl. simpl in Hl. destruct (l =? own s)%nat eqn:E; injection Hs as <-; [|by rewrite ?E].
    unfold agrees. simpl. destruct (on_state_change_keeps range to (acb s)) as (E1 & _ & _ & _ & E5). by rewrite E1, E5.
  - unfold Close in Hs. destruct (stopping s); [done|]. by injection Hs as <-.
Qed.

(** When the listener calls run in the order in which they were started, then once
    all of them have run the metrics report the breaker's state. *)
Theorem reported_state_catches_up nm o callback own now es s (Hf : Forall fifo es)
  (Hr : run es (NewAdaptiveCircuitBreaker nm o callback own now) = Some (Returns s)) (Hp : pending s = []) :
  CurrentState (GetMetrics (acb s)) = state (base (acb s)).
Proof.
  assert (Ha : agrees s).
  { assert (Ha : agrees (NewAdaptiveCircuitBreaker nm o callback own now)) by (split; [done|]; split; [right; by left|done]). revert Ha Hr.
    generalize (NewAdaptiveCircuitBreaker nm o callback own now). clear Hp. induction es as [|e es IH]; intros s0 Ha Hr; [by injection Hr as <-|].
    apply Forall_cons in Hf as [He Hf]. cbn [run] in Hr. destruct (step e s0) as [[s1|]|] eqn:Hs; [|done..].
    eapply IH; [done| |exact Hr]. by eapply step_agrees. }
  destruct Ha as (_ & _ & Hl). by rewrite Hp in Hl.
Qed.

(** ** The end *)

(** [Close] returns once the loop takes the closed channel, which it can do at any
    turn; a second [Close] panics. *)
Lemma Close_ends s : stopping s = false -> exists s1, Close s = Returns s1 /\ Close s1 = Panics /\
  if looping s then exists s2, loop_turn Stop s1 = Some s2 /\ close_returns s2 = true else close_returns s1 = true.
Proof.
  intros Hs. unfold Close. rewrite Hs. eexists. split; [done|]. split; [done|]. unfold loop_turn, close_returns. simpl.
  destruct (looping s); [|done]. eexists. by split.
Qed.

(** The failure rate is computed when a request fails and stays as it is whatever
    succeeds. *)
Lemma success_keeps_failure_rate now took a a' : ASuccess now took a = Returns a' -> FailureRate (metrics a') = FailureRate (metrics a).
Proof.
  unfold ASuccess, recordResponseTime. case_bool; [done|]. intros [= <-]. simpl. by destruct (mean_positive _).
Qed.

End Facts.

Abbreviation defaults := (NewAdaptiveCircuitBreaker "svc" DefaultAdaptiveOptions true 7 0).
Abbreviation no_order := (fun _ : gmap string ErrorPattern => @nil ErrorPattern).

(** Opened and closed by hand while the first listener is slow: the metrics report
    an open breaker for good. *)
Example reported_state_is_stale :
  match @run amd64 [ECall 1 (CBase OpForceOpen); ECall 2 (CBase OpForceClosed); EListener 1 no_order; EListener 0 no_order] defaults with
  | Some (Returns s) => pending s = [] /\ CurrentState (GetMetrics (acb s)) = StateOpen /\ state (base (acb s)) = StateClosed
  | _ => False
  end.
Proof. vm_compute. repeat split; reflexivity. Qed.

(** A request that was admitted before the five-minute tick and fails after it: the
    failure rate is one failure in no request, infinite, and the threshold is raised. *)
Example rate_of_nothing :
  match @run amd64 [ECall 1 CAllow; ETurn ResetTick; ECall 2 CFailure; ETurn (Tick 3)] defaults with
  | Some (Returns s) => RequestCount5m (metrics (acb s)) = 0 /\ fgt (FailureRate (metrics (acb s))) (of_int 1000000) = true /\
                        CurrentThreshold (metrics (acb s)) = 6
  | _ => False
  end.
Proof. vm_compute. repeat split; reflexivity. Qed.

Abbreviation a_run := [ECall 1 CAllow; ECall 2 CFailure; ETurn (Tick 3); ECall 4 (CBase OpForceOpen); ECall 4 (CApply DefaultOptions); ECall 4 (CListen (Some 9%nat)); EListener 0 no_order; ETurn (Tick 5); EClose; ETurn Stop].

Lemma parameters_stay_in_range_witness : exists s, @run amd64 a_run defaults = Some (Returns s) /\
  3 <= CurrentThreshold (GetMetrics (acb s)) <= 50.
Proof.
  eexists. split; [vm_compute; reflexivity|].
  apply (@parameters_stay_in_range amd64 "svc" DefaultAdaptiveOptions true 7%nat 0 a_run); [vm_compute; split; congruence..|vm_compute; reflexivity].
Defined.

Lemma reported_state_catches_up_witness : exists s, @run amd64 a_run defaults = Some (Returns s) /\
  CurrentState (GetMetrics (acb s)) = state (base (acb s)).
Proof.
  eexists. split; [vm_compute; reflexivity|].
  apply (@reported_state_catches_up amd64 "svc" DefaultAdaptiveOptions true 7%nat 0 a_run); [by repeat constructor|vm_compute; reflexivity..].
Defined.

End Facts.
