(* ===== verification/ErrTrace.v ===== *)
(** The rest of [src/internal/errs/enhanced_errors.go]: where an error's id, its stack
    trace and its caller come from, what is logged and serialized of it, and the
    aggregator with its shared entries, of which the one of Errs.v is an abstraction. *)
From S2P Require Import Prelude GoString Errs.
#[local] Set Warnings "-register-all".

(** * The interface *)

Definition ErrorCategory : Type := string.
Definition CategoryNetwork : ErrorCategory := "NETWORK".
Definition CategoryDatabase : ErrorCategory := "DATABASE".
Definition CategoryValidation : ErrorCategory := "VALIDATION".
Definition CategoryAuth : ErrorCategory := "AUTH".
Definition CategoryBusiness : ErrorCategory := "BUSINESS".
Definition CategorySystem : ErrorCategory := "SYSTEM".
Definition CategoryExternal : ErrorCategory := "EXTERNAL".
Definition CategoryUnknown : ErrorCategory := "UNKNOWN".

(** [EnhancedError]: the methods that read an error. *)
Class EnhancedError (E : Type) := {
  ID : E -> string; CodeOf : E -> string; GRPCStatusOf : E -> Z * string; SeverityOf : E -> ErrorSeverity;
  CategoryOf : E -> ErrorCategory; MetadataOf : E -> gmap string string; RecoveryStrategyOf : E -> ErrorRecoveryStrategy;
  TraceOf : E -> list string; TimeoutOf : E -> bool; TemporaryOf : E -> bool; CauseOf : E -> option error; ErrorText : E -> string }.

#[export] Instance enhancedError_methods : EnhancedError enhancedError := {|
  ID := id; CodeOf := code; GRPCStatusOf := GRPCStatus; SeverityOf := severity; CategoryOf := category; MetadataOf := metadata;
  RecoveryStrategyOf := recoveryStrategy; TraceOf := trace; TimeoutOf := isTimeout; TemporaryOf := isTemporary; CauseOf := cause;
  ErrorText := Error |}.

(** * Ids *)

(** The two readings of the clock, in nanoseconds. *)
Definition randomInt (now : Z) : Z := Z.rem now 1000000.
Definition generateErrorID (now now2 : Z) : string := (itoa now ++ "-" ++ itoa (randomInt now2))%string.

(** * Stacks *)

(** A stack of the run time, the innermost call first. *)
Record frameInfo : Type := { File : string; Line : Z; Function : string }.
Abbreviation stack := (list frameInfo).

(** [filepath.Base]: slashes at the end do not count. *)
Definition Base (path : string) : string :=
  if (path =? "")%string then "."
  else let b := default "" (last (Split (trim_right_char "/" path) "/")) in if (b =? "")%string then "/" else b.

Definition show_frame (f : frameInfo) : string := (Base (File f) ++ ":" ++ itoa (Line f) ++ " " ++ Function f)%string.

(** [runtime.Callers] with [skip] fills at most 32 entries; the stack is counted from
    [Callers] itself. [Next] on no frames gives a zero frame. *)
Definition captureStackTrace (skip : nat) (s : stack) : list string :=
  let frames := match take 32 (drop skip s) with [] => [{| File := ""; Line := 0; Function := "" |}] | l => l end in
  show_frame <$> filter (fun f => Contains (File f) "runtime/" = false) frames.

(** [runtime.Caller] counts from its caller. *)
Definition caller (skip : nat) (s : stack) : string :=
  match s !! skip with None => "unknown" | Some f => (Base (File f) ++ ":" ++ itoa (Line f))%string end.

(** The frames of [NewEnhancedError] and below it: [Callers], the function that calls it,
    the constructor at the two lines where it captures and asks for its caller. *)
Record own_frames : Type := { callers : frameInfo; capture : frameInfo; caller_fn : frameInfo; ctor_trace : frameInfo; ctor_caller : frameInfo }.

(** What a constructor called from [users] stores. *)
Definition frame_at (o : own_frames) (users : stack) (now1 now2 now : Z) : frame :=
  {| f_id := generateErrorID now1 now2; f_trace := captureStackTrace 2 ([callers o; capture o; ctor_trace o] ++ users);
     f_caller := caller 2 ([caller_fn o; ctor_caller o] ++ users); f_now := now |}.

(** * What is logged and serialized *)

(** The fields that [Record] logs of a severe error; the trace's first entry must be there. *)
Definition log_fields {E : Type} `{EnhancedError E} (e : E) : outcome (list (string * string)) :=
  match TraceOf e with
  | [] => Panics
  | c :: _ =>
      Returns [("error_id", ID e); ("error_code", CodeOf e); ("error_message", ErrorText e); ("severity", severity_String (SeverityOf e));
               ("category", CategoryOf e); ("caller", c)]%string
  end.

(** What [json.Marshal] is given, as a tree. *)
Inductive json : Type := JString (s : string) | JBool (b : bool) | JArray (l : list json) | JObject (l : list (string * json)).

Section Marshal.
(** A metadata value's encoding, which some Go values do not have; a time's text; an
    error's text. *)
Context (value_json : string -> option json) (rfc3339 : Z -> string) (error_text : error -> string) (sorted_keys : gmap string string -> list string).

Fixpoint encode_fields (ks : list string) (m : gmap string string) : option (list (string * json)) :=
  match ks with
  | [] => Some []
  | k :: ks => v ← m !! k; j ← value_json v; rest ← encode_fields ks m; Some ((k, j) :: rest)
  end.

(** [MarshalJSON]: [omitempty] leaves out an empty trace, cause and metadata. *)
Definition MarshalJSON (e : enhancedError) : option json :=
  let causeStr := match cause e with Some c => error_text c | None => "" end in
  md ← encode_fields (sorted_keys (metadata e)) (metadata e);
  Some (JObject (
    [("id", JString (id e)); ("code", JString (code e)); ("message", JString (message e)); ("severity", JString (severity_String (severity e)));
     ("category", JString (category e)); ("recovery_strategy", JString (strategy_String (recoveryStrategy e)))]%string ++
    match trace e with [] => [] | l => [("trace", JArray (JString <$> l))]%string end ++
    [("is_timeout", JBool (isTimeout e)); ("is_temporary", JBool (isTemporary e))]%string ++
    (if (causeStr =? "")%string then [] else [("cause", JString causeStr)]%string) ++
    [("timestamp", JString (rfc3339 (timestamp e))); ("caller_info", JString (callerInfo e))]%string ++
    match md with [] => [] | l => [("metadata", JObject l)]%string end)).
End Marshal.

(** * The aggregator and its entries *)
Module Shared.

(** The map's values are pointers to entries. *)
Record ErrorAggregator : Type := { entries : list aggregatedError; codes : gmap string nat; capacity : Z; has_logger : bool; lines : nat }.

Definition NewErrorAggregator (c : Z) (log : bool) : ErrorAggregator :=
  {| entries := []; codes := ∅; capacity := c; has_logger := log; lines := 0 |}.

Definition store (now : Z) (err : enhancedError) (ea : ErrorAggregator) : ErrorAggregator :=
  match codes ea !! code err with
  | Some a => {| entries := alter (fun x => next_entry now (Some x) err) a (entries ea); codes := codes ea; capacity := capacity ea;
                 has_logger := has_logger ea; lines := lines ea |}
  | None => {| entries := entries ea ++ [next_entry now None err]; codes := <[code err := length (entries ea)]> (codes ea); capacity := capacity ea;
               has_logger := has_logger ea; lines := lines ea |}
  end.

Definition count_line (ea : ErrorAggregator) : ErrorAggregator :=
  {| entries := entries ea; codes := codes ea; capacity := capacity ea; has_logger := has_logger ea; lines := S (lines ea) |}.

Definition Record_ (now : Z) (err : option enhancedError) (ea : ErrorAggregator) : outcome unit * ErrorAggregator :=
  match err with
  | None => (Returns tt, ea)
  | Some err =>
      let ea := store now err ea in
      if severity err >=? SeverityError then
        match has_logger ea, log_fields err with
        | true, Returns _ => (Returns tt, count_line ea)
        | _, _ => (Panics, ea)
        end
      else (Returns tt, ea)
  end.

Definition Clear (ea : ErrorAggregator) : ErrorAggregator :=
  {| entries := entries ea; codes := ∅; capacity := capacity ea; has_logger := has_logger ea; lines := lines ea |}.

(** [GetAggregatedErrors]: a new map of the same pointers. *)
Definition GetAggregatedErrors (ea : ErrorAggregator) : gmap string nat := codes ea.

(** What the holder of such a map finds under a code. *)
Definition look (m : gmap string nat) (c : string) (ea : ErrorAggregator) : option aggregatedError := a ← m !! c; entries ea !! a.

Inductive call : Type := CRecord (now : Z) (err : option enhancedError) | CClear.

Definition exec (c : call) (ea : ErrorAggregator) : ErrorAggregator :=
  match c with CRecord now err => (Record_ now err ea).2 | CClear => Clear ea end.

Definition exec_all (cs : list call) (ea : ErrorAggregator) : ErrorAggregator := foldl (fun ea c => exec c ea) ea cs.

(** The aggregator of Errs.v that this one stands for. *)
Definition abstract (ea : ErrorAggregator) : Errs.ErrorAggregator :=
  {| errors := omap (fun a => entries ea !! a) (codes ea); maxCapacity := capacity ea; logger := has_logger ea; logged := lines ea |}.

End Shared.

(** * Facts *)
Module Facts.

(** ** Ids *)

(** The id tells the first reading of the clock: errors made at different nanoseconds
    differ in it. *)
Theorem ids_tell_time t1 t2 u1 u2 : 0 <= t1 < 2 ^ 63 -> 0 <= u1 < 2 ^ 63 -> generateErrorID t1 t2 = generateErrorID u1 u2 -> t1 = u1.
Proof.
  intros Ht Hu E. apply itoa_inj; [done..|]. assert (Hd : forall z, 0 <= z < 2 ^ 63 -> contains_byte "-" (itoa z) = false).
  { intros z Hz. unfold itoa. rewrite (proj2 (Z.ltb_ge _ 0)) by lia. pose proof (decimal_digits 20 z "" ltac:(lia) I) as Hall.
    induction (decimal 20 z "") as [|c s IH]; [done|]. destruct Hall as [Hc Hs]. rewrite contains_byte_cons, (IH Hs), orb_false_r.
    apply Ascii.eqb_neq. intros ->. unfold is_digit in Hc. change (nat_of_ascii "-") with 45%nat in Hc. lia. }
  unfold generateErrorID in E. change ("-" ++ ?s)%string with (String "-" s) in E.
  pose proof (cut_app "-" (itoa t1) (itoa (randomInt t2)) (Hd _ Ht)) as H1. change (String "-" "" ++ ?s)%string with (String "-" s) in E.
  rewrite E in H1. rewrite cut_app in H1 by (by apply Hd). by injection H1 as <-.
Qed.

(** A clock that ticks less often than errors are made gives one id to several. *)
Example ids_repeat : f_id (frame_at {| callers := {| File := ""; Line := 0; Function := "" |}; capture := {| File := ""; Line := 0; Function := "" |};
    caller_fn := {| File := ""; Line := 0; Function := "" |}; ctor_trace := {| File := ""; Line := 0; Function := "" |};
    ctor_caller := {| File := ""; Line := 0; Function := "" |} |} [] 1700000000123456700 1700000000123456700 0) = "1700000000123456700-456700"%string.
Proof. vm_compute. reflexivity. Qed.

(** ** Traces *)

(** Where the constructor's file is not under a directory named [runtime], a trace starts with the
    constructor itself, followed by the user's frames, whatever they are; the caller
    is the user. *)
Theorem trace_starts_at_constructor o users t1 t2 now cd msg sev cat : Contains (File (ctor_trace o)) "runtime/" = false ->
  let e := NewEnhancedError (frame_at o users t1 t2 now) cd msg sev cat in
  trace e = show_frame (ctor_trace o) :: (show_frame <$> filter (fun f => Contains (File f) "runtime/" = false) (take 31 users)) /\
  callerInfo e = match users with [] => "unknown" | f :: _ => Base (File f) ++ ":" ++ itoa (Line f) end%string /\
  exists fs, log_fields e = Returns (fs ++ [("caller", show_frame (ctor_trace o))]%string).
Proof.
  intros Hc e. assert (Ht : trace e = show_frame (ctor_trace o) :: (show_frame <$> filter (fun f => Contains (File f) "runtime/" = false) (take 31 users))).
  { unfold e. simpl. unfold captureStackTrace. simpl. by rewrite filter_cons_True by done. }
  split; [done|]. split; [by destruct users|]. unfold log_fields. simpl in *. rewrite Ht. by eexists [_; _; _; _; _].
Qed.

(** Built from a directory whose path contains [runtime/], errors made from there have
    no trace: logging one fails. *)
Lemma no_trace_below_runtime o users t1 t2 now cd msg sev cat ea : Contains (File (ctor_trace o)) "runtime/" = true ->
  Forall (fun f => Contains (File f) "runtime/" = true) users -> (SeverityError <=? sev) = true ->
  (Shared.Record_ now (Some (NewEnhancedError (frame_at o users t1 t2 now) cd msg sev cat)) ea).1 = Panics.
Proof.
  intros Hc Hu Hs. set (e := NewEnhancedError _ _ _ _ _). assert (Ht : trace e = []).
  { unfold e. simpl. unfold captureStackTrace. simpl. rewrite filter_cons_False by congruence.
    assert (Hf : filter (fun f => Contains (File f) "runtime/" = false) (take 31 users) = []); [|by rewrite Hf].
    apply (Forall_take _ 31%nat) in Hu. induction Hu as [|f l Hf _ IH]; [done|]. by rewrite filter_cons_False by congruence. }
  unfold Shared.Record_. assert (Hsev : severity e >=? SeverityError = true) by (by rewrite Z.geb_leb). rewrite Hsev. unfold log_fields. simpl in Ht |- *.
  rewrite Ht. by destruct (Shared.has_logger _).
Qed.

(** ** JSON *)
Section JSON.
Context (value_json : string -> option json) (rfc3339 : Z -> string) (error_text : error -> string) (sorted_keys : gmap string string -> list string).
Hypothesis sorted_keys_spec : forall m k, k ∈ sorted_keys m <-> is_Some (m !! k).

Definition field (k : string) (j : json) : option json :=
  match j with JObject l => snd <$> List.find (fun kv => (kv.1 =? k)%string) l | _ => None end.

Lemma encode_fields_Some ks m : (forall k, k ∈ ks -> is_Some (m !! k)) ->
  is_Some (encode_fields value_json ks m) <-> (forall k v, k ∈ ks -> m !! k = Some v -> is_Some (value_json v)).
Proof.
  induction ks as [|k ks IH]; intros Hk; [split; [by intros _ k v []%not_elem_of_nil|by eexists]|]. cbn [encode_fields].
  destruct (Hk k ltac:(by left)) as [v Hv]. rewrite Hv. cbn [mbind option_bind]. specialize (IH (fun k H => Hk k ltac:(by right))).
  destruct (value_json v) as [j|] eqn:Hj; cbn [mbind option_bind].
  - destruct (encode_fields value_json ks m) as [rest|]; cbn [mbind option_bind]; (split; [|intros H]).
    + intros _ k' v' [-> |Hin]%elem_of_cons Hv'; [rewrite Hv in Hv'; injection Hv' as <-; by eexists|]. by eapply (proj1 IH).
    + by eexists.
    + by intros [? ?].
    + apply IH. intros k' v' Hin. apply H. by right.
  - split; [by intros [? ?]|]. intros H. destruct (H k v ltac:(by left) Hv) as [? ?]. congruence.
Qed.

(** An error is serialized exactly when every metadata value can be; then its fields
    read back as they are, and those that may be left out are there when they are not
    empty. *)
Theorem MarshalJSON_fields e :
  (is_Some (MarshalJSON value_json rfc3339 error_text sorted_keys e) <-> forall k v, metadata e !! k = Some v -> is_Some (value_json v)) /\
  forall j, MarshalJSON value_json rfc3339 error_text sorted_keys e = Some j ->
    field "id" j = Some (JString (id e)) /\ field "code" j = Some (JString (code e)) /\ field "message" j = Some (JString (message e)) /\
    field "severity" j = Some (JString (severity_String (severity e))) /\ field "category" j = Some (JString (category e)) /\
    field "recovery_strategy" j = Some (JString (strategy_String (recoveryStrategy e))) /\
    field "is_timeout" j = Some (JBool (isTimeout e)) /\ field "is_temporary" j = Some (JBool (isTemporary e)) /\
    field "timestamp" j = Some (JString (rfc3339 (timestamp e))) /\ field "caller_info" j = Some (JString (callerInfo e)) /\
    field "trace" j = match trace e with [] => None | l => Some (JArray (JString <$> l)) end /\
    field "cause" j = match cause e with Some c => if (error_text c =? "")%string then None else Some (JString (error_text c)) | None => None end.
Proof.
  unfold MarshalJSON. split.
  - destruct (encode_fields value_json (sorted_keys (metadata e)) (metadata e)) as [md|] eqn:He.
    + split; [|by eexists]. intros _ k v Hv. eapply encode_fields_Some; [|by rewrite He| |exact Hv]; [intros k'; apply sorted_keys_spec|].
      apply sorted_keys_spec. by eexists.
    + split; [by intros [? ?]|]. intros H. assert (Hs : is_Some (encode_fields value_json (sorted_keys (metadata e)) (metadata e))).
      { apply encode_fields_Some; [intros k; apply sorted_keys_spec|]. intros k v _. apply H. }
      rewrite He in Hs. by destruct Hs.
  - intros j. destruct (encode_fields _ _ _) as [md|]; [|done]. cbn [mbind option_bind]. intros [= <-].
    destruct (cause e) as [c|]; [destruct (error_text c =? "")%string|]; destruct (trace e), md; by split_and!.
Qed.
End JSON.

(** ** The aggregator *)
Section Aggregator.
Import Shared.

(** Every code has an entry of its own. *)
Definition sound (ea : ErrorAggregator) : Prop :=
  (forall c a, codes ea !! c = Some a -> is_Some (entries ea !! a)) /\
  (forall c c' a, codes ea !! c = Some a -> codes ea !! c' = Some a -> c = c').

Lemma store_sound now err ea : sound ea -> sound (store now err ea).
Proof.
  intros [Hb Hi]. unfold store. destruct (codes ea !! code err) as [a|] eqn:Ha; split; simpl.
  - intros c b Hc. destruct (decide (b = a)) as [->|Hne].
    + rewrite list_lookup_alter_eq. destruct (Hb _ _ Hc) as [x ->]. by eexists.
    + rewrite list_lookup_alter_ne by done. by eapply Hb.
  - done.
  - intros c b Hc. destruct (decide (c = code err)) as [->|Hne].
    + rewrite lookup_insert_eq in Hc. injection Hc as <-. rewrite lookup_app_r, Nat.sub_diag by lia. by eexists.
    + rewrite lookup_insert_ne in Hc by done. destruct (Hb _ _ Hc) as [x Hx]. exists x. by apply lookup_app_l_Some.
  - assert (Hnew : forall c, codes ea !! c = Some (length (entries ea)) -> False).
    { intros c Hc. destruct (Hb _ _ Hc) as [x Hx%lookup_lt_Some]. lia. }
    intros c c' b Hc Hc'. destruct (decide (c = code err)) as [->|H1], (decide (c' = code err)) as [->|H2]; [done| | |].
    + rewrite lookup_insert_eq in Hc. rewrite lookup_insert_ne in Hc' by done. injection Hc as <-. by apply Hnew in Hc'.
    + rewrite lookup_insert_eq in Hc'. rewrite lookup_insert_ne in Hc by done. injection Hc' as <-. by apply Hnew in Hc.
    + rewrite lookup_insert_ne in Hc, Hc' by done. by eapply Hi.
Qed.

Lemma store_errors now err ea : sound ea ->
  errors (abstract (store now err ea)) = <[code err := next_entry now (errors (abstract ea) !! code err) err]> (errors (abstract ea)).
Proof.
  intros [Hb Hi]. apply map_eq. intros c. unfold abstract, store. destruct (codes ea !! code err) as [a|] eqn:Ha; simpl.
  - destruct (Hb _ _ Ha) as [x Hx]. destruct (decide (c = code err)) as [->|Hne].
    + by rewrite lookup_insert_eq, !lookup_omap, Ha; simpl; rewrite list_lookup_alter_eq, Hx.
    + rewrite lookup_insert_ne, !lookup_omap by done. destruct (codes ea !! c) as [b|] eqn:Hcb; simpl; [|done].
      apply list_lookup_alter_ne. intros ->. apply Hne. by eapply Hi.
  - destruct (decide (c = code err)) as [->|Hne].
    + rewrite lookup_insert_eq, !lookup_omap, lookup_insert_eq, Ha. simpl. by rewrite lookup_app_r, Nat.sub_diag by lia.
    + rewrite lookup_insert_ne, !lookup_omap, lookup_insert_ne by done. destruct (codes ea !! c) as [b|] eqn:Hcb; simpl; [|done].
      destruct (Hb _ _ Hcb) as [x Hx]. rewrite Hx. by apply lookup_app_l_Some.
Qed.

Lemma aggregator_store_keeps now err ea : capacity (store now err ea) = capacity ea /\ has_logger (store now err ea) = has_logger ea /\ lines (store now err ea) = lines ea.
Proof. unfold store. by destruct (codes ea !! code err). Qed.

(** The aggregator over shared entries stands for the one over values: every call keeps
    the entries apart, answers as the other does and stands for its state. *)
Lemma Record_refines now err ea (Hs : sound ea) :
  sound (Record_ now err ea).2 /\ (Record_ now err ea).1 = (RecordErr now (abstract ea) err).1 /\
  abstract (Record_ now err ea).2 = (RecordErr now (abstract ea) err).2 /\
  sound (Clear ea) /\ abstract (Clear ea) = Errs.Clear (abstract ea).
Proof.
  assert (Hclear : sound (Clear ea) /\ abstract (Clear ea) = Errs.Clear (abstract ea)).
  { split; [by split|]. unfold abstract, Errs.Clear. simpl. by rewrite omap_empty. }
  destruct err as [e|]; [|by split_and!; try apply Hclear]. pose proof (store_sound now e ea Hs) as Hs'. pose proof (store_errors now e ea Hs) as He.
  destruct (aggregator_store_keeps now e ea) as (H1 & H2 & H3). unfold Record_, RecordErr, log_fields. simpl. rewrite H2.
  destruct (severity e >=? SeverityError); [destruct (has_logger ea) eqn:Hl, (trace e)|]; simpl; (split; [exact Hs'|]); (split; [done|]);
    (split; [unfold abstract in *; simpl in *; by rewrite ?H1, ?H2, ?H3, ?Hl, <- He|exact Hclear]).
Qed.

(** What the calls have recorded since the last time that the aggregator was cleared. *)
Definition since_clear (cs : list call) : list (Z * enhancedError) :=
  foldl (fun l c => match c with CRecord now (Some e) => l ++ [(now, e)] | CRecord _ None => l | CClear => [] end) [] cs.

(** The errors that are logged: severe ones, by an aggregator with a logger, whose trace
    is not empty. *)
Definition logs (log : bool) (c : call) : bool :=
  match c with CRecord _ (Some e) => log && (SeverityError <=? severity e) && match trace e with [] => false | _ => true end | _ => false end.

Lemma since_clear_length cs : (length (since_clear cs) <= length cs)%nat.
Proof.
  induction cs as [|c cs IH] using rev_ind; [done|]. unfold since_clear in *. rewrite foldl_app, length_app. cbn [foldl length].
  destruct c as [now [e|]|]; rewrite ?length_app; simpl; lia.
Qed.

Lemma exec_last cs c ea : exec_all (cs ++ [c]) ea = exec c (exec_all cs ea).
Proof. unfold exec_all. by rewrite foldl_app. Qed.

Lemma exec_history cs cap log : Z.of_nat (length cs) < 2 ^ 63 ->
  let ea := exec_all cs (NewErrorAggregator cap log) in
  sound ea /\ has_logger ea = log /\ (forall c, errors (abstract ea) !! c = entry_of c (with_code c (since_clear cs))) /\
  lines ea = length (filter (fun c => logs log c = true) cs).
Proof.
  induction cs as [|c cs IH] using rev_ind; [intros _; by split_and!|]. rewrite length_app. intros Hlen. cbn [length] in Hlen. cbv zeta.
  destruct IH as (Hs & Hl & He & Hn); [lia|]. rewrite exec_last. pose proof (since_clear_length cs) as Hsc.
  assert (Hsc1 : since_clear (cs ++ [c]) = match c with CRecord now (Some e) => since_clear cs ++ [(now, e)] | CRecord _ None => since_clear cs | CClear => [] end)
    by (unfold since_clear; by rewrite foldl_app).
  rewrite Hsc1, filter_app. set (ea := exec_all cs _) in *. destruct c as [now [e|]|].
  - destruct (Record_refines now (Some e) ea Hs) as (Hs1 & _ & Ha & _). split; [exact Hs1|]. cbn [exec]. rewrite Ha.
    assert (Hlog : has_logger (Record_ now (Some e) ea).2 = log /\ lines (Record_ now (Some e) ea).2 = (lines ea + if logs log (CRecord now (Some e)) then 1 else 0)%nat).
    { destruct (aggregator_store_keeps now e ea) as (_ & H2 & H3). unfold Record_, log_fields, logs. rewrite Z.geb_leb, H2, Hl.
      destruct (SeverityError <=? severity e), log; cbn -[store]; try (destruct (trace e)); cbn -[store]; rewrite ?H2, ?H3, ?Hl; (split; [done|lia]). }
    destruct Hlog as [-> ->]. split; [done|]. split.
    + intros c. rewrite RecordErr_errors, entry_of_record by lia. case_decide as Hc; [by rewrite <- Hc, lookup_insert_eq, He|by rewrite lookup_insert_ne, He].
    + rewrite length_app, Hn, filter_cons, filter_nil. destruct (logs log _); done.
  - split_and!; try done. by rewrite app_nil_r.
  - destruct (Record_refines 0 None ea Hs) as (_ & _ & _ & Hs1 & Ha). split; [exact Hs1|]. split; [done|]. split; [intros c; change (exec CClear ea) with (Clear ea); by rewrite Ha|]. by rewrite app_nil_r.
Qed.

(** C28: whatever errors are recorded, nil ones and those whose logging panics among them, and however often the aggregator is cleared: what it has under a code is what its history says, the number of the errors with that code since the last clearing, the times of the first and the last of them and the first ten as samples, and nothing where there was none; and it has logged exactly the severe errors with a trace, if it has a logger. *)
Theorem entries_are_history (cs : list call) (cap : Z) (log : bool) (c : string) (Hlen : Z.of_nat (length cs) < 2 ^ 63) :
  let ea := exec_all cs (NewErrorAggregator cap log) in
  look (GetAggregatedErrors ea) c ea = entry_of c (with_code c (since_clear cs)) /\
  lines ea = length (filter (fun c => logs log c = true) cs).
Proof.
  destruct (exec_history cs cap log Hlen) as (_ & _ & He & Hn). cbv zeta. split; [|exact Hn]. rewrite <- He. unfold look, GetAggregatedErrors, abstract.
  simpl. by rewrite lookup_omap.
Qed.

(** ** The copy that is not one *)

Lemma exec_codes c ea code a : c <> CClear -> codes ea !! code = Some a -> codes (exec c ea) !! code = Some a.
Proof.
  intros Hne Ha. destruct c as [now [e|]|]; simpl; [|done..]. assert (Hst : codes (store now e ea) !! code = Some a).
  { unfold store. destruct (codes ea !! Errs.code e) as [b|] eqn:Hb; simpl; [done|]. rewrite lookup_insert_ne; [done|]. congruence. }
  destruct (_ >=? _); [destruct (has_logger _), (log_fields e)|]; done.
Qed.

(** The map that [GetAggregatedErrors] returns is no copy of the entries: as long as
    the aggregator is not cleared, its holder sees every later record of the codes that
    it has. *)
Theorem returned_map_is_live cs ea c : Forall (fun x => x <> CClear) cs -> is_Some (GetAggregatedErrors ea !! c) ->
  look (GetAggregatedErrors ea) c (exec_all cs ea) = errors (abstract (exec_all cs ea)) !! c.
Proof.
  intros Hcs [a Ha]. unfold GetAggregatedErrors in *. assert (Hlive : codes (exec_all cs ea) !! c = Some a).
  { revert ea Ha. induction Hcs as [|x cs Hx _ IH]; intros ea Ha; [done|]. apply IH. by apply exec_codes. }
  unfold look, abstract. simpl. rewrite lookup_omap, Ha, Hlive. done.
Qed.

End Aggregator.

(** ** Witnesses *)

Definition go_frame (file : string) (line : Z) (fn : string) : frameInfo := {| File := file; Line := line; Function := fn |}.
Definition some_frames : own_frames :=
  {| callers := go_frame "/go/src/runtime/extern.go" 325 "runtime.Callers"; capture := go_frame "/src/errs/enhanced_errors.go" 509 "errs.captureStackTrace";
     caller_fn := go_frame "/src/errs/enhanced_errors.go" 529 "errs.caller"; ctor_trace := go_frame "/src/errs/enhanced_errors.go" 176 "errs.NewEnhancedError";
     ctor_caller := go_frame "/src/errs/enhanced_errors.go" 178 "errs.NewEnhancedError" |}.
Definition some_users : stack := [go_frame "/app/handler.go" 12 "main.handle"; go_frame "/go/src/runtime/proc.go" 271 "runtime.main"].
Definition some_error : enhancedError := NewEnhancedError (frame_at some_frames some_users 5 6 7) "E1" "boom" SeverityError CategorySystem.

Example some_error_trace : trace some_error = ["enhanced_errors.go:176 errs.NewEnhancedError"; "handler.go:12 main.handle"]%string /\
  callerInfo some_error = "handler.go:12"%string.
Proof. vm_compute. by split. Qed.

Lemma ids_tell_time_witness : 0 <= 5 < 2 ^ 63 /\ 5 = 5.
Proof. split; [lia|]. apply (ids_tell_time 5 6 5 6); [lia..|reflexivity]. Defined.

Lemma trace_starts_at_constructor_witness : exists fs, log_fields some_error =
  Returns (fs ++ [("caller", "enhanced_errors.go:176 errs.NewEnhancedError")]%string).
Proof. exact (proj2 (proj2 (trace_starts_at_constructor some_frames some_users 5 6 7 "E1" "boom" SeverityError CategorySystem ltac:(reflexivity)))). Defined.

Definition all_keys (m : gmap string string) : list string := (map_to_list m).*1.

Lemma MarshalJSON_fields_witness : is_Some (MarshalJSON (fun v => Some (JString v)) (fun _ => "1970"%string) (fun _ => ""%string) all_keys (WithMetadata some_error "k" "v")).
Proof.
  apply (MarshalJSON_fields (fun v => Some (JString v)) (fun _ => "1970"%string) (fun _ => ""%string) all_keys); [|intros; by eexists].
  intros m k. unfold all_keys. rewrite list_elem_of_fmap. split.
  - intros ([k' v] & -> & Hin%elem_of_map_to_list). by eexists.
  - intros [v Hv]. exists (k, v). split; [done|]. by apply elem_of_map_to_list.
Defined.

Lemma entries_are_history_witness :
  let ea := Shared.exec_all [Shared.CRecord 1 (Some some_error); Shared.CClear; Shared.CRecord 2 (Some some_error); Shared.CRecord 3 (Some some_error)]
    (Shared.NewErrorAggregator 5 true) in
  Count <$> Shared.look (Shared.GetAggregatedErrors ea) "E1" ea = Some 2 /\ Shared.lines ea = 3%nat.
Proof.
  intros ea. destruct (entries_are_history [Shared.CRecord 1 (Some some_error); Shared.CClear; Shared.CRecord 2 (Some some_error); Shared.CRecord 3 (Some some_error)] 5 true "E1")
    as [He Hn]; [reflexivity|]. subst ea. rewrite He, Hn. split; vm_compute; reflexivity.
Defined.

Lemma returned_map_is_live_witness : let ea := Shared.exec_all [Shared.CRecord 1 (Some some_error)] (Shared.NewErrorAggregator 5 true) in
  Shared.look (Shared.GetAggregatedErrors ea) "E1" (Shared.exec_all [Shared.CRecord 2 (Some some_error)] ea) =
  errors (Shared.abstract (Shared.exec_all [Shared.CRecord 2 (Some some_error)] ea)) !! "E1"%string.
Proof. intros ea. apply (returned_map_is_live [Shared.CRecord 2 (Some some_error)] ea "E1"); [by repeat constructor|vm_compute; by eexists]. Defined.

(** Cleared, the map keeps its entries as they were. *)
Example cleared_map_stays : let ea := Shared.exec_all [Shared.CRecord 1 (Some some_error)] (Shared.NewErrorAggregator 5 true) in
  Count <$> Shared.look (Shared.GetAggregatedErrors ea) "E1" (Shared.exec_all [Shared.CClear; Shared.CRecord 2 (Some some_error)] ea) = Some 1.
Proof. vm_compute. reflexivity. Qed.

End Facts.
