(* ===== verification/RedisLimit.v ===== *)
(** The Redis rate limiters, [src/ratelimit/redis_fix_window.go],
    [redis_slide_window.go] and the script [lua/fix_window.lua] that both embed, over a
    Redis server that is a parameter.

    A script runs alone on the server, whose clock stands still meanwhile, so that a
    request to a limiter is one step whichever process it comes from. *)
From S2P Require Import Prelude RateLimit.
From Stdlib Require Import Sorted.

(** * The server *)

(** The commands of the script at a time of the server's clock, in milliseconds. A value
    reads as a number or as another text. A failing command fails the script. *)
Inductive reply : Type := Number (z : Z) | Text.

Class ScriptServer := {
  db : Type;
  get : Z -> string -> db -> result string (option reply);
  set_px : Z -> string -> Z -> Z -> db -> result string db;
  incr : Z -> string -> db -> result string db;
  (** the number stored under a key and the time it expires at *)
  stored : string -> db -> option (Z * Z);
  (** the key holds no value of another kind *)
  numeric : string -> db -> Prop }.

(** The documented behaviour on keys that hold numbers: a value is there before it
    expires and gone afterwards; [SET] with [PX] replaces it, and refuses a time that is
    not positive or that passes 64 bits; [INCR] keeps the expiry, and refuses a number
    that would pass 64 bits. *)
Class ScriptServerLaws `{ScriptServer} := {
  get_live now k d v e : numeric k d -> stored k d = Some (v, e) -> now < e -> get now k d = Ok (Some (Number v));
  get_edge k d v e : numeric k d -> stored k d = Some (v, e) -> get e k d = Ok (Some (Number v)) \/ get e k d = Ok None;
  get_expired now k d v e : numeric k d -> stored k d = Some (v, e) -> e < now -> get now k d = Ok None;
  get_missing now k d : numeric k d -> stored k d = None -> get now k d = Ok None;
  set_px_stores now k v e d : numeric k d -> 0 < e -> now + e < 2 ^ 63 ->
    exists d', set_px now k v e d = Ok d' /\ numeric k d' /\ stored k d' = Some (v, now + e);
  set_px_refuses now k v e d : e <= 0 \/ 2 ^ 63 <= now + e -> exists err, set_px now k v e d = Err err;
  incr_counts now k d v e : numeric k d -> stored k d = Some (v, e) -> get now k d = Ok (Some (Number v)) ->
    v + 1 < 2 ^ 63 -> exists d', incr now k d = Ok d' /\ numeric k d' /\ stored k d' = Some (v + 1, e);
  incr_refuses now k d v e : numeric k d -> stored k d = Some (v, e) -> get now k d = Ok (Some (Number v)) ->
    2 ^ 63 <= v + 1 -> exists err, incr now k d = Err err }.

(** * The limiters *)

Section Limiters.
Context `{ScriptServer}.

(** [fix_window.lua] with its key and its two arguments. [tonumber] of a text that is no
    number is nil, which does not compare. *)
Definition run_fix_window (now : Z) (key : string) (expiration limit : Z) (d : db) : result string string * db :=
  match get now key d with
  | Err e => (Err e, d)
  | Ok None =>
      if limit <? 1 then (Ok "true"%string, d)
      else match set_px now key 1 expiration d with Ok d' => (Ok "false"%string, d') | Err e => (Err e, d) end
  | Ok (Some (Number v)) =>
      if v <? limit then match incr now key d with Ok d' => (Ok "false"%string, d') | Err e => (Err e, d) end
      else (Ok "true"%string, d)
  | Ok (Some Text) => (Err "attempt to compare nil with number"%string, d)
  end.

Record RedisFixWindowLimiter : Type := { service : string; interval : Z; rate : Z; onReject : rejectStrategy }.

Definition NewRedisFixWindowLimiter (service : string) (interval rate : Z) : RedisFixWindowLimiter :=
  {| service := service; interval := interval; rate := rate; onReject := defaultRejectStrategy |}.

Definition RedisFixWindowMarkFailed (l : RedisFixWindowLimiter) : RedisFixWindowLimiter :=
  {| service := service l; interval := interval l; rate := rate l; onReject := markFailedStrategy |}.

(** [Duration.Milliseconds] *)
Definition Milliseconds (d : Z) : Z := Z.quot d Millisecond.

(** [Cmd.Bool]: [strconv.ParseBool] of the script's text. *)
Definition Bool (r : result string string) : result string bool :=
  match r with
  | Err e => Err e
  | Ok s => if (s =? "true")%string then Ok true else if (s =? "false")%string then Ok false else Err "strconv.ParseBool"%string
  end.

Definition fix_limit (now : Z) (l : RedisFixWindowLimiter) (d : db) : result string bool * db :=
  let '(r, d) := run_fix_window now (service l) (Milliseconds (interval l)) (rate l) d in (Bool r, d).

Definition fix_LimitUnary (now : Z) (l : RedisFixWindowLimiter) (d : db) : verdict * db :=
  let '(r, d) := fix_limit now l d in
  (match r with Err _ => Reject ErrRedis | Ok true => on_reject (onReject l) | Ok false => Handle false end, d).

(** The limiter that is meant to slide has the same fields; it passes its process's time
    as a third argument to the script that it embeds. *)
Record RedisSlideWindowLimiter : Type := { s_service : string; s_interval : Z; s_rate : Z; s_onReject : rejectStrategy }.

Definition NewRedisSlideWindowLimiter (service : string) (interval rate : Z) : RedisSlideWindowLimiter :=
  {| s_service := service; s_interval := interval; s_rate := rate; s_onReject := defaultRejectStrategy |}.

Definition RedisSlideWindowMarkFailed (l : RedisSlideWindowLimiter) : RedisSlideWindowLimiter :=
  {| s_service := s_service l; s_interval := s_interval l; s_rate := s_rate l; s_onReject := markFailedStrategy |}.

(** [Eval] of an embedded script; the one for fixed windows reads two arguments. *)
Definition eval (s : RedisWindow.script) (now : Z) (key : string) (args : list Z) (slide : Z -> string -> list Z -> db -> result string string * db)
    (d : db) : result string string * db :=
  match s, args with
  | RedisWindow.lua_fix_window, expiration :: limit :: _ => run_fix_window now key expiration limit d
  | RedisWindow.lua_fix_window, _ => (Err "missing argument"%string, d)
  | RedisWindow.lua_slide_window, _ => slide now key args d
  end.

Definition slide_LimitUnary (slide : Z -> string -> list Z -> db -> result string string * db) (now client_now : Z) (l : RedisSlideWindowLimiter)
    (d : db) : verdict * db :=
  let '(r, d) := eval RedisWindow.luaSlideWindow now (s_service l) [Milliseconds (s_interval l); s_rate l; Milliseconds client_now] slide d in
  (match Bool r with Err _ => Reject ErrRedis | Ok true => on_reject (s_onReject l) | Ok false => Handle false end, d).

(** Requests at times of the server's clock, from whatever processes. *)
Fixpoint run (times : list Z) (l : RedisFixWindowLimiter) (d : db) : list verdict * db :=
  match times with
  | [] => ([], d)
  | t :: ts => let '(v, d) := fix_LimitUnary t l d in let '(vs, d) := run ts l d in (v :: vs, d)
  end.

End Limiters.

(** * Facts *)
Module Facts.

Section Facts.
Context `{ScriptServerLaws}.

(** One request, by what is stored: the first of a window opens it, later ones count
    until the rate is reached, and no more pass before it expires; what passes 64 bits
    fails and changes nothing. *)
Lemma fix_LimitUnary_spec now l d : numeric (service l) d -> 0 < Milliseconds (interval l) -> 1 <= rate l ->
  match get now (service l) d with
  | Ok (Some (Number v)) =>
      forall e, stored (service l) d = Some (v, e) ->
      if v <? rate l
      then if v + 1 <? 2 ^ 63
           then exists d', fix_LimitUnary now l d = (Handle false, d') /\ numeric (service l) d' /\ stored (service l) d' = Some (v + 1, e)
           else fix_LimitUnary now l d = (Reject ErrRedis, d)
      else fix_LimitUnary now l d = (on_reject (onReject l), d)
  | Ok None =>
      if now + Milliseconds (interval l) <? 2 ^ 63
      then exists d', fix_LimitUnary now l d = (Handle false, d') /\ numeric (service l) d' /\
                      stored (service l) d' = Some (1, now + Milliseconds (interval l))
      else fix_LimitUnary now l d = (Reject ErrRedis, d)
  | _ => True
  end.
Proof.
  intros Hn Hm Hr. unfold fix_LimitUnary, fix_limit, run_fix_window. destruct (get now (service l) d) as [[[v|]|]|] eqn:Hg; [| done| |done].
  - intros e He. destruct (v <? rate l); [|done]. destruct (Z.ltb_spec (v + 1) (2 ^ 63)) as [Hlt|Hge].
    + destruct (incr_counts now (service l) d v e Hn He Hg Hlt) as (d' & Hi & Hn' & Hs'). rewrite Hi. by exists d'.
    + by destruct (incr_refuses now (service l) d v e Hn He Hg Hge) as [err ->].
  - rewrite (proj2 (Z.ltb_ge (rate l) 1)) by lia. destruct (Z.ltb_spec (now + Milliseconds (interval l)) (2 ^ 63)) as [Hlt|Hge].
    + destruct (set_px_stores now (service l) 1 _ d Hn Hm Hlt) as (d' & Hs & Hn' & Hs'). rewrite Hs. by exists d'.
    + by destruct (set_px_refuses now (service l) 1 (Milliseconds (interval l)) d (or_intror Hge)) as [err ->].
Qed.

(** The admitted requests of a run. *)
Definition admitted_times (times : list Z) (vs : list verdict) : list Z := (filter (fun p => admitted p.2 = true) (zip times vs)).*1.

(** The admitted requests that fall in the [m] milliseconds from [a]. *)
Definition hits (a m : Z) (l : list Z) : Z := Z.of_nat (length (filter (fun t => (a <=? t) && (t <? a + m) = true) l)).

Definition hit (a m t : Z) : Z := if a <=? t then if t <? a + m then 1 else 0 else 0.

Lemma hits_cons a m t l : hits a m (t :: l) = hit a m t + hits a m l.
Proof. unfold hits, hit. rewrite filter_cons. destruct (a <=? t), (t <? a + m); simpl; repeat case_decide; simpl; congruence || lia. Qed.

Lemma hits_nonneg a m l : 0 <= hits a m l.
Proof. unfold hits. lia. Qed.

Lemma admitted_cons t ts v vs : admitted_times (t :: ts) (v :: vs) = if admitted v then t :: admitted_times ts vs else admitted_times ts vs.
Proof. unfold admitted_times. simpl. rewrite filter_cons. simpl. by destruct (admitted v). Qed.

(** What may still be admitted in the [m] milliseconds from [a], after a request at
    [last] that left a window which started at [s] with [c] requests. *)
Definition allowance (a m r s c last : Z) : Z :=
  if a + m <=? last then 0 else if a <=? s then r - c else if a <=? last then (r - c) + r else 2 * r - 1.

Lemma on_reject_not_admitted s : admitted (on_reject s) = false.
Proof. by destruct s. Qed.

Section Window.
Variables (l : RedisFixWindowLimiter) (a : Z).
Let m := Milliseconds (interval l).
Let r := rate l.
Let k := service l.
Hypothesis Hm : 0 < m.
Hypothesis Hr : 1 <= r.

Lemma run_allowance ts : forall d s c last, numeric k d -> stored k d = Some (c, s + m) -> s <= last -> 1 <= c <= r ->
  Sorted Z.le (last :: ts) -> hits a m (admitted_times ts (run ts l d).1) <= allowance a m r s c last.
Proof.
  induction ts as [|t ts IH]; intros d s c last Hn Hst Hsl Hc Hs.
  { unfold hits. simpl. unfold allowance. repeat case_bool; lia. }
  apply Sorted_inv in Hs as [Hs Hlast]. apply HdRel_inv in Hlast. cbn [run].
  assert (Hin : get t k d = Ok (Some (Number c)) \/ (get t k d = Ok None /\ s + m <= t)).
  { destruct (Z.lt_trichotomy t (s + m)) as [Hlt|[-> |Hgt]].
    - left. by eapply get_live.
    - destruct (get_edge k d c (s + m) Hn Hst) as [?|?]; [by left|right; split; [done|lia]].
    - right. split; [by eapply get_expired|lia]. }
  assert (Hskip : forall v, admitted v = false -> s <= t -> hits a m (admitted_times (t :: ts)
    (let '(vs, d2) := run ts l d in (v :: vs, d2)).1) <= allowance a m r s c last).
  { intros v Hv Hst1. pose proof (IH d s c t Hn Hst Hst1 Hc Hs) as Hrest. destruct (run ts l d) as [vs d2]. cbn [fst] in *.
    rewrite admitted_cons, Hv. unfold allowance in *. repeat (case_bool; bool_to_prop); lia. }
  pose proof (fix_LimitUnary_spec t l d Hn Hm Hr) as Hu. fold k in Hu. destruct Hin as [Hg|[Hg Hexp]]; rewrite Hg in Hu.
  - specialize (Hu (s + m) Hst). destruct (Z.ltb_spec c (rate l)) as [Hlt|Hge]; [destruct (c + 1 <? 2 ^ 63)|].
    + destruct Hu as (d' & -> & Hn' & Hst'). pose proof (IH d' s (c + 1) t Hn' Hst' ltac:(lia) ltac:(lia) Hs) as Hrest.
      destruct (run ts l d') as [vs d2]. cbn [fst] in *. rewrite admitted_cons. cbn [admitted]. rewrite hits_cons.
      unfold allowance, hit in *. repeat (case_bool; bool_to_prop); lia.
    + rewrite Hu. apply Hskip; [done|lia].
    + rewrite Hu. apply Hskip; [apply on_reject_not_admitted|lia].
  - destruct (t + Milliseconds (interval l) <? 2 ^ 63); [|rewrite Hu; apply Hskip; [done|lia]].
    destruct Hu as (d' & -> & Hn' & Hst'). pose proof (IH d' t 1 t Hn' Hst' ltac:(lia) ltac:(lia) Hs) as Hrest.
    destruct (run ts l d') as [vs d2]. cbn [fst] in *. rewrite admitted_cons. cbn [admitted]. rewrite hits_cons.
    unfold allowance, hit in *. repeat (case_bool; bool_to_prop); lia.
Qed.

End Window.

(** C40: Over any processes that share a key, which is not there before, when the server's clock does not go back: in no stretch of time as long as the interval in whole milliseconds, of which there is at least one, are twice the rate (of at least one) of requests admitted. *)
Theorem redis_window_bound l d times a : numeric (service l) d -> stored (service l) d = None ->
  0 < Milliseconds (interval l) -> 1 <= rate l -> Sorted Z.le times ->
  hits a (Milliseconds (interval l)) (admitted_times times (run times l d).1) <= 2 * rate l - 1.
Proof.
  intros Hn Hst Hm Hr Hs. induction times as [|t ts IH]; [unfold hits; simpl; lia|]. cbn [run].
  pose proof (fix_LimitUnary_spec t l d Hn Hm Hr) as Hu. rewrite (get_missing t _ d Hn Hst) in Hu.
  destruct (t + Milliseconds (interval l) <? 2 ^ 63).
  - destruct Hu as (d' & -> & Hn' & Hst').
    pose proof (run_allowance l a Hm Hr ts d' t 1 t Hn' Hst' ltac:(lia) ltac:(lia) Hs) as Hrest. destruct (run ts l d') as [vs d2]. cbn [fst] in *.
    rewrite admitted_cons. cbn [admitted]. rewrite hits_cons. unfold allowance, hit in *. repeat (case_bool; bool_to_prop); lia.
  - rewrite Hu. apply Sorted_inv in Hs as [Hs _]. specialize (IH Hs). destruct (run ts l d) as [vs d2]. exact IH.
Qed.

(** The limiter that is meant to slide answers as the fixed window does. *)
Theorem slide_is_fix slide now client_now l d :
  slide_LimitUnary slide now client_now l d =
  fix_LimitUnary now {| service := s_service l; interval := s_interval l; rate := s_rate l; onReject := s_onReject l |} d.
Proof. unfold slide_LimitUnary, fix_LimitUnary, fix_limit. simpl. by destruct (run_fix_window _ _ _ _ d). Qed.

(** An interval below a millisecond: every request that would open a window fails. *)
Theorem short_interval_fails now l d : numeric (service l) d -> stored (service l) d = None -> interval l < Millisecond -> 1 <= rate l ->
  fix_LimitUnary now l d = (Reject ErrRedis, d).
Proof.
  intros Hn Hst Hi Hr. unfold fix_LimitUnary, fix_limit, run_fix_window. rewrite (get_missing now _ d Hn Hst), (proj2 (Z.ltb_ge _ 1)) by lia.
  destruct (set_px_refuses now (service l) 1 (Milliseconds (interval l)) d) as [e ->]; [left|done].
  unfold Milliseconds. destruct (Z.le_gt_cases 0 (interval l)); [rewrite Z.quot_small by lia; lia|].
  pose proof (Z.quot_opp_l (- interval l) Millisecond ltac:(done)) as Ho. rewrite Z.opp_involutive in Ho. rewrite Ho.
  pose proof (Z.quot_pos (- interval l) Millisecond ltac:(lia) ltac:(done)). lia.
Qed.

(** A rate below one admits nothing and touches nothing. *)
Lemma no_rate_admits_nothing now l d : numeric (service l) d -> stored (service l) d = None -> rate l < 1 ->
  fix_LimitUnary now l d = (on_reject (onReject l), d).
Proof.
  intros Hn Hst Hr. unfold fix_LimitUnary, fix_limit, run_fix_window. by rewrite (get_missing now _ d Hn Hst), (proj2 (Z.ltb_lt _ 1)) by lia.
Qed.

End Facts.

(** ** A server *)

(** Numbers with their expiry; [None] for a value of another kind. *)
#[local] Instance toy_server : ScriptServer := {|
  db := gmap string (option (Z * Z));
  get now k d := match d !! k with
                 | None => Ok None
                 | Some None => Err "WRONGTYPE"%string
                 | Some (Some (v, e)) => if now <? e then Ok (Some (Number v)) else Ok None
                 end;
  set_px now k v e d := if (0 <? e) && (now + e <? 2 ^ 63) then Ok (<[k := Some (v, now + e)]> d) else Err "invalid expire time"%string;
  incr now k d := match d !! k with
                  | Some (Some (v, e)) => if (now <? e) && (v + 1 <? 2 ^ 63) then Ok (<[k := Some (v + 1, e)]> d) else Err "other"%string
                  | _ => Err "other"%string
                  end;
  stored k d := match d !! k with Some (Some p) => Some p | _ => None end;
  numeric k d := d !! k <> Some None |}.

#[local] Instance toy_server_laws : ScriptServerLaws.
Proof.
  constructor; unfold get, set_px, incr, stored, numeric; simpl.
  - intros now k d v e Hn Hs Hlt. destruct (d !! k) as [[p|]|]; [|done..]. injection Hs as ->. by rewrite (proj2 (Z.ltb_lt _ _)).
  - intros k d v e Hn Hs. destruct (d !! k) as [[p|]|]; [|done..]. injection Hs as ->. right. by rewrite Z.ltb_irrefl.
  - intros now k d v e Hn Hs Hlt. destruct (d !! k) as [[p|]|]; [|done..]. injection Hs as ->. by rewrite (proj2 (Z.ltb_ge _ _)) by lia.
  - intros now k d Hn Hs. by destruct (d !! k) as [[p|]|].
  - intros now k v e d Hn He Hf. rewrite !(proj2 (Z.ltb_lt _ _)) by done. eexists. split; [done|]. by rewrite lookup_insert_eq.
  - intros now k v e d [He|He]; [rewrite (proj2 (Z.ltb_ge 0 e)) by done|rewrite (proj2 (Z.ltb_ge (now + e) _)), andb_false_r by done]; by eexists.
  - intros now k d v e Hn Hs Hg Hf. destruct (d !! k) as [[p|]|]; [|done..]. injection Hs as ->. destruct (now <? e); [|done].
    rewrite (proj2 (Z.ltb_lt (v + 1) _)) by done. eexists. split; [done|]. by rewrite lookup_insert_eq.
  - intros now k d v e Hn Hs Hg Hf. destruct (d !! k) as [[p|]|]; [|done..]. injection Hs as ->.
    rewrite (proj2 (Z.ltb_ge (v + 1) _)), andb_false_r by done. by eexists.
Qed.

Abbreviation ten_ms := (NewRedisFixWindowLimiter "svc" (10 * Millisecond) 2).
Abbreviation some_times := [100; 108; 109; 110; 111; 112; 125].

Example some_times_admitted : admitted_times some_times (run some_times ten_ms ∅).1 = [100; 108; 110; 111; 125].
Proof. vm_compute. reflexivity. Qed.

(** The bound is reached: three requests pass in the ten milliseconds around the end of
    a window with a rate of two. *)
Example bound_reached : hits 108 10 (admitted_times [100; 109; 110; 111] (run [100; 109; 110; 111] ten_ms ∅).1) = 3.
Proof. vm_compute. reflexivity. Qed.

Lemma redis_window_bound_witness : hits 105 10 (admitted_times some_times (run some_times ten_ms ∅).1) <= 3.
Proof.
  apply (redis_window_bound ten_ms ∅ some_times 105); [done|done|reflexivity|done|].
  repeat constructor; done.
Defined.

Lemma short_interval_fails_witness : fix_LimitUnary 5 (NewRedisFixWindowLimiter "svc" 1000 2) ∅ = (Reject ErrRedis, ∅).
Proof. apply (short_interval_fails 5 (NewRedisFixWindowLimiter "svc" 1000 2) ∅); [done|done|reflexivity|done]. Defined.

End Facts.
