(* ===== verification/ClusterContext.v ===== *)
(** How a call becomes a broadcast: the contexts of the three packages of
    [src/cluster/], and the channel that a context carries through the calls that are
    made with it.

    The interceptors of Cluster.v get the channel that [isBroadCast] finds; each call
    closes it when it returns. *)
From S2P Require Import Prelude Cluster.

(** * Contexts *)

(** A context as the values added to it, the latest first. The packages' key types
    differ although two of them have the same name. *)
Inductive key : Type := BroadcastKey | BroadcastAllKey | FastestKey | OtherKey (n : nat).

#[export] Instance key_eq_dec : EqDecision key.
Proof. solve_decision. Defined.

(** Channels of the two packages have different types; they are known by an address. *)
Inductive value : Type := VBool (b : bool) | VChanAll (ch : nat) | VChanFastest (ch : nat) | VOther.

Abbreviation context := (list (key * value)).

Definition WithValue (ctx : context) (k : key) (v : value) : context := (k, v) :: ctx.
Definition Value (ctx : context) (k : key) : option value := snd <$> List.find (fun e => bool_decide (e.1 = k)) ctx.

(** * [cluster/broadcast] *)
Module One.

Definition UseBroadCast (ctx : context) : context := WithValue ctx BroadcastKey (VBool true).

Definition isBroadCast (ctx : context) : bool := match Value ctx BroadcastKey with Some (VBool b) => b | _ => false end.

Definition interceptor {Reply R : Type} `{Network Reply} `{Registry R} (b : Broadcast.ClusterBuilder R) (ctx : context) (cancelled : bool)
    (plain : result string unit * option Reply) (reply : option Reply) (es : list Broadcast.event) :=
  Broadcast.BuildUnaryInterceptor b (isBroadCast ctx) cancelled plain reply es.

End One.

(** * Channels *)

(** A channel: who receives from it, and whether it is closed. *)
Record channel : Type := { receives : Responses.receiver; closed : bool }.

Definition close_chan (i : nat) (chs : list channel) : list channel := alter (fun c => {| receives := receives c; closed := true |}) i chs.

Section Calls.
Context {Reply R : Type} `{Network Reply} `{Registry R}.

(** A call with the channel of its context. *)
Record session : Type := { the_call : Responses.call Reply; chan_closed : bool }.

(** The steps of Cluster.v with the state of the channel: a send on a closed channel
    panics, and in a select it is ready, so that a default is not taken; the deferred
    close at the end panics on a closed channel. *)
Definition chan_step (k : Responses.kind) (e : Responses.event) (s : session) : option (outcome session) :=
  let next (c : Responses.call Reply) := Returns {| the_call := c; chan_closed := chan_closed s |} in
  match e with
  | Responses.Send i =>
      match Responses.procs (the_call s) !! i with
      | Some (_, Responses.Refused _) | Some (_, Responses.Sending _) =>
          if chan_closed s then Some Panics else c ← Responses.step k e (the_call s); Some (next c)
      | _ => None
      end
  | Responses.GiveUp _ =>
      match k with
      | Responses.Fastest => if chan_closed s then None else c ← Responses.step k e (the_call s); Some (next c)
      | Responses.All => c ← Responses.step k e (the_call s); Some (next c)
      end
  | Responses.Return =>
      c ← Responses.step k e (the_call s); Some (if chan_closed s then Panics else Returns {| the_call := c; chan_closed := true |})
  | _ => c ← Responses.step k e (the_call s); Some (next c)
  end.

(** [None]: the events are not a run. *)
Fixpoint chan_run (k : Responses.kind) (es : list Responses.event) (s : session) : option (outcome session) :=
  match es with
  | [] => Some (Returns s)
  | e :: es => match chan_step k e s with Some (Returns s) => chan_run k es s | r => r end
  end.

(** What a call returned, with the answers that were received from it; [None] as long
    as it has not returned. *)
Definition answer : Type := option (result string unit * option (Responses.call Reply)).

(** The interceptor of both packages with the channel that its context carries: what has
    come of it after the events, and the channels then. *)
Definition call_with (k : Responses.kind) (found : option nat) (b : Broadcast.ClusterBuilder R) (cancelled : bool) (plain : result string unit)
    (es : list Responses.event) (chs : list channel) : option (outcome answer) * list channel * R :=
  match found with
  | None => (Some (Returns (Some (plain, None))), chs, Broadcast.registry b)
  | Some i =>
      match chs !! i with
      | None => (None, chs, Broadcast.registry b)
      | Some ch =>
          match ListServices (Broadcast.service b) (Broadcast.registry b) with
          | (Err e, r) => if closed ch then (Some Panics, chs, r) else (Some (Returns (Some (Err e, None))), close_chan i chs, r)
          | (Ok instances, r) =>
              match chan_run k es {| the_call := Responses.spawn cancelled (receives ch) instances; chan_closed := closed ch |} with
              | None => (None, chs, r)
              | Some Panics => (Some Panics, chs, r)
              | Some (Returns s) =>
                  (Some (Returns (if Responses.returned (the_call s) then Some (Ok tt, Some (the_call s)) else None)),
                   if chan_closed s then close_chan i chs else chs, r)
              end
          end
      end
  end.

End Calls.

(** * [cluster/broadcastall] *)
Module All.

Record ClusterBuilder (R : Type) : Type := { registry : R; service : string }.
Arguments registry {R} c.
Arguments service {R} c.

Definition NewClusterBuilder {R : Type} (r : R) (s : string) : ClusterBuilder R := {| registry := r; service := s |}.

(** [UseBroadcast]: a new channel without a buffer. *)
Definition UseBroadcast (ctx : context) (chs : list channel) : context * nat * list channel :=
  (WithValue ctx BroadcastAllKey (VChanAll (length chs)), length chs, chs ++ [{| receives := Responses.Busy; closed := false |}]).

Definition isBroadcast (ctx : context) : option nat := match Value ctx BroadcastAllKey with Some (VChanAll ch) => Some ch | _ => None end.

Definition BuildUnaryInterceptor {Reply R : Type} `{Network Reply} `{Registry R} (b : ClusterBuilder R) (ctx : context) :=
  @call_with Reply R _ _ Responses.All (isBroadcast ctx) (Broadcast.NewClusterBuilder (registry b) (service b)).

End All.

(** * [cluster/fastest] *)
Module Fastest.

Record ClusterBuilder (R : Type) : Type := { registry : R; service : string }.
Arguments registry {R} c.
Arguments service {R} c.

Definition NewClusterBuilder {R : Type} (r : R) (s : string) : ClusterBuilder R := {| registry := r; service := s |}.

Definition UseBroadCast (ctx : context) (chs : list channel) : context * nat * list channel :=
  (WithValue ctx FastestKey (VChanFastest (length chs)), length chs, chs ++ [{| receives := Responses.Busy; closed := false |}]).

Definition isBroadCast (ctx : context) : option nat := match Value ctx FastestKey with Some (VChanFastest ch) => Some ch | _ => None end.

Definition BuildUnaryInterceptor {Reply R : Type} `{Network Reply} `{Registry R} (b : ClusterBuilder R) (ctx : context) :=
  @call_with Reply R _ _ Responses.Fastest (isBroadCast ctx) (Broadcast.NewClusterBuilder (registry b) (service b)).

End Fastest.

(** * Facts *)
Module Facts.

(** Each package finds what its own function put into a context, and not what the
    others did. *)
Theorem contexts_apart ctx chs :
  One.isBroadCast (One.UseBroadCast ctx) = true /\
  (let '(ctx', ch, chs') := All.UseBroadcast ctx chs in All.isBroadcast ctx' = Some ch /\ closed <$> chs' !! ch = Some false /\
     One.isBroadCast ctx' = One.isBroadCast ctx /\ Fastest.isBroadCast ctx' = Fastest.isBroadCast ctx) /\
  (let '(ctx', ch, chs') := Fastest.UseBroadCast ctx chs in Fastest.isBroadCast ctx' = Some ch /\ closed <$> chs' !! ch = Some false /\
     One.isBroadCast ctx' = One.isBroadCast ctx /\ All.isBroadcast ctx' = All.isBroadcast ctx) /\
  All.isBroadcast (One.UseBroadCast ctx) = All.isBroadcast ctx /\ Fastest.isBroadCast (One.UseBroadCast ctx) = Fastest.isBroadCast ctx.
Proof.
  assert (Hnew : forall c, closed <$> (chs ++ [{| receives := c; closed := false |}]) !! length chs = Some false)
    by (intros c; by rewrite lookup_app_r, Nat.sub_diag by lia).
  unfold All.UseBroadcast, Fastest.UseBroadCast. split_and!; try done; apply Hnew.
Qed.

Section Calls.
Context {Reply R : Type} `{Network Reply} `{Registry R}.

(** A step closes the channel exactly when it ends the call. *)
Lemma step_returned k e c c' : Responses.step k e c = Some c' ->
  Responses.returned c' = match e with Responses.Return => true | _ => Responses.returned c end.
Proof. intros Hs. destruct e; cbn [Responses.step] in Hs; repeat case_match; simplify_option_eq; repeat case_match; by simplify_eq/=. Qed.

Lemma chan_step_closes k e s s' : chan_step k e s = Some (Returns s') ->
  (Responses.returned (the_call s') = Responses.returned (the_call s) /\ chan_closed s' = chan_closed s) \/
  (Responses.returned (the_call s') = true /\ chan_closed s = false /\ chan_closed s' = true).
Proof.
  intros Hs. assert (Hn : forall e0, e0 = e -> e0 <> Responses.Return ->
    (c ← Responses.step k e (the_call s); Some (Returns {| the_call := c; chan_closed := chan_closed s |})) = Some (Returns s') ->
    (Responses.returned (the_call s') = Responses.returned (the_call s) /\ chan_closed s' = chan_closed s)).
  { intros e0 -> He Hst. destruct (Responses.step k e (the_call s)) as [c|] eqn:E; [|done]. injection Hst as <-. split; [|done].
    cbn [the_call]. rewrite (step_returned _ _ _ _ E). by destruct e. }
  destruct e; cbn [chan_step] in Hs; try (left; by eapply Hn).
  - left. repeat case_match; try done; by eapply Hn.
  - left. destruct k; [by eapply Hn|]. destruct (chan_closed s); [done|]. by eapply Hn.
  - right. destruct (Responses.step k Responses.Return (the_call s)) as [c|] eqn:E; [|done]. cbn [mbind option_bind] in Hs.
    destruct (chan_closed s); [done|]. injection Hs as <-. cbn [the_call]. by rewrite (step_returned _ _ _ _ E).
Qed.

(** Over an open channel a call that has returned has closed it. *)
Lemma chan_run_open k es : forall s s', Responses.returned (the_call s) = chan_closed s -> chan_run k es s = Some (Returns s') ->
  Responses.returned (the_call s') = chan_closed s'.
Proof.
  induction es as [|e es IH]; intros s s' Hs Hr; [by injection Hr as <-|]. cbn [chan_run] in Hr.
  destruct (chan_step k e s) as [[s1|]|] eqn:E; try done. eapply IH; [|exact Hr].
  destruct (chan_step_closes _ _ _ _ E) as [[-> ->]|(-> & _ & ->)]; done.
Qed.

(** Over a closed one it never returns. *)
Lemma chan_run_closed k es : forall s s', chan_closed s = true -> Responses.returned (the_call s) = false -> chan_run k es s = Some (Returns s') ->
  chan_closed s' = true /\ Responses.returned (the_call s') = false.
Proof.
  induction es as [|e es IH]; intros s s' Hc Hn Hr; [by injection Hr as <-|]. cbn [chan_run] in Hr.
  destruct (chan_step k e s) as [[s1|]|] eqn:E; try done. destruct (chan_step_closes _ _ _ _ E) as [[H1 H2]|(_ & H2 & _)]; [|congruence].
  eapply IH; [by rewrite H2|by rewrite H1|exact Hr].
Qed.

Lemma chan_run_app k es es' s : chan_run k (es ++ es') s = match chan_run k es s with Some (Returns s') => chan_run k es' s' | r => r end.
Proof. revert s. induction es as [|e es IH]; intros s; [done|]. cbn [app chan_run]. destruct (chan_step k e s) as [[s1|]|]; done. Qed.

(** It panics at the next answer of an instance, or at the end if there is none left. *)
Lemma closed_panics k s : chan_closed s = true -> Responses.returned (the_call s) = false -> exists es, chan_run k es s = Some Panics.
Proof.
  intros Hc Hn. destruct s as [c cl]. cbn [the_call chan_closed] in *. subst cl.
  destruct (forallb Responses.finished (Responses.procs c)) eqn:Hf.
  { exists [Responses.Return]. cbn. by rewrite Hf, Hn. }
  assert (exists i p, Responses.procs c !! i = Some p /\ Responses.finished p = false) as (i & [addr p] & Hi & Hp).
  { clear Hn. induction (Responses.procs c) as [|p l IH]; [done|]. cbn [forallb] in Hf. apply andb_false_iff in Hf as [Hp|Hf].
    - by exists 0%nat, p.
    - destruct (IH Hf) as (i & q & Hi & Hq). by exists (S i), q. }
  assert (Hsend : forall c' p', Responses.procs c' !! i = Some (addr, p') -> (exists r, p' = Responses.Sending r) \/ (exists e, p' = Responses.Refused e) ->
    chan_run k [Responses.Send i] {| the_call := c'; chan_closed := true |} = Some Panics).
  { intros c' p' Hp'. cbn. rewrite Hp'. by intros [[r ->]|[e ->]]. }
  destruct p as [|e| |r|]; [|exists [Responses.Send i]; eapply Hsend; eauto| |exists [Responses.Send i]; eapply Hsend; eauto|done].
  - destruct (dial (Responses.cancelled c) addr) as [e|] eqn:Hd.
    + exists ([Responses.Dial i] ++ [Responses.Send i]). rewrite chan_run_app. cbn [chan_run chan_step Responses.step the_call]. rewrite Hi. cbn. rewrite Hd.
      by rewrite list_lookup_insert_eq by (by eapply lookup_lt_Some).
    + exists ([Responses.Dial i] ++ [Responses.Invoke i] ++ [Responses.Send i]). rewrite !chan_run_app. cbn [chan_run chan_step Responses.step the_call]. rewrite Hi. cbn. rewrite Hd.
      rewrite list_lookup_insert_eq by (by eapply lookup_lt_Some). cbn. destruct (invoke _ _) as [r err]. cbn.
      rewrite list_insert_insert_eq, list_lookup_insert_eq by (by eapply lookup_lt_Some). done.
  - exists ([Responses.Invoke i] ++ [Responses.Send i]). rewrite chan_run_app. cbn [chan_run chan_step Responses.step the_call]. rewrite Hi. cbn.
    destruct (invoke _ _) as [r err]. cbn. by rewrite list_lookup_insert_eq by (by eapply lookup_lt_Some).
Qed.

(** C26: a broadcast that returns has closed its channel; a second call with the same context never returns, in whatever order its goroutines run: it panics, or whatever has happened so far can go on to a panic. *)
Theorem context_serves_once k i b b' cancelled cancelled' plain plain' es chs a chs1 r1 :
  call_with k (Some i) b cancelled plain es chs = (Some (Returns (Some a)), chs1, r1) ->
  closed <$> chs1 !! i = Some true /\
  forall es' o chs2 r2, call_with k (Some i) b' cancelled' plain' es' chs1 = (Some o, chs2, r2) ->
    o = Panics \/ (o = Returns None /\ exists es'', call_with k (Some i) b' cancelled' plain' (es' ++ es'') chs1 = (Some Panics, chs1, r2)).
Proof.
  intros H1. assert (Hcl : exists ch, chs1 !! i = Some ch /\ closed ch = true).
  { unfold call_with in H1. destruct (chs !! i) as [ch|] eqn:Hch; [|done].
    assert (Hclose : close_chan i chs !! i = Some {| receives := receives ch; closed := true |}) by (unfold close_chan; by rewrite list_lookup_alter_eq, Hch).
    destruct (ListServices _ _) as [[ins|e] r]; [|destruct (closed ch); [done|]; injection H1 as _ <- _; by eexists].
    destruct (chan_run _ _ _) as [[s|]|] eqn:Hr; try done. destruct (Responses.returned (the_call s)) eqn:Hret; [|done].
    assert (Hs : chan_closed s = true).
    { destruct (closed ch) eqn:Hc; [by apply chan_run_closed in Hr as [? ?]|]. apply chan_run_open in Hr; [|done]. congruence. }
    rewrite Hs in H1. injection H1 as _ <- _. by eexists. }
  destruct Hcl as (ch & Hch & Hcl). split; [by rewrite Hch; cbn; rewrite Hcl|]. intros es' o chs2 r2 H2. clear H1. unfold call_with in H2 |- *. rewrite Hch, Hcl in H2 |- *.
  destruct (ListServices _ _) as [[ins|e] r']; [|injection H2 as <- <- <-; by left].
  destruct (chan_run k es' _) as [[s|]|] eqn:Hr; try done; [|injection H2 as <- <- <-; by left].
  apply chan_run_closed in Hr as Hsn; [|done..]. destruct Hsn as [Hs Hn]. rewrite Hn in H2. injection H2 as <- <- <-. right. split; [done|].
  destruct (closed_panics k s Hs Hn) as [es'' He]. exists es''. by rewrite chan_run_app, Hr, He.
Qed.

(** Without its package's value in the context a call is the plain call, and no
    channel changes. *)
Lemma plain_call k b cancelled plain es chs :
  call_with k None b cancelled plain es chs = (Some (Returns (Some (plain, None))), chs, Broadcast.registry b).
Proof. done. Qed.

(** A failing registry: the call fails, its channel is closed without an answer. *)
Lemma failing_registry k i ch b cancelled plain es chs e r : chs !! i = Some ch -> closed ch = false ->
  ListServices (Broadcast.service b) (Broadcast.registry b) = (Err e, r) ->
  call_with k (Some i) b cancelled plain es chs = (Some (Returns (Some (Err e, None))), close_chan i chs, r).
Proof. intros Hi Hc Hl. unfold call_with. by rewrite Hi, Hl, Hc. Qed.

(** Over an open channel the steps are those of Cluster.v. *)
Lemma chan_step_open k e c : chan_step k e {| the_call := c; chan_closed := false |} =
  c' ← Responses.step k e c; Some (Returns {| the_call := c'; chan_closed := match e with Responses.Return => true | _ => false end |}).
Proof.
  destruct e; cbn [chan_step the_call chan_closed]; try done; [|by destruct k].
  cbn [Responses.step]. destruct (Responses.procs c !! i) as [[a []]|]; done.
Qed.

End Calls.

#[local] Existing Instance Witnesses.small_network.

(** A registry that always lists two hosts. *)
#[local] Instance two_hosts : Registry unit := {|
  Register _ r := (Ok tt, r); UnRegister _ r := (Ok tt, r); ListServices _ r := (Ok [Witnesses.host "a"; Witnesses.host "b"], r);
  CloseRegistry r := (Ok tt, r) |}.

Abbreviation all_b := (Broadcast.NewClusterBuilder tt "svc").
Abbreviation first_call := [Responses.Dial 0; Responses.Dial 1; Responses.Invoke 0; Responses.Invoke 1; Responses.Listen; Responses.Send 0; Responses.Listen;
  Responses.Send 1; Responses.Return].
Abbreviation fresh_channel := [{| receives := Responses.Busy; closed := false |}].

Example first_call_answers : match call_with (Reply := string) Responses.All (Some 0%nat) all_b false (Ok tt) first_call fresh_channel with
  | (Some (Returns (Some (Ok tt, Some c))), chs, _) => (Responses.received c).*1 = [0%nat; 1%nat] /\ closed <$> chs = [true]
  | _ => False
  end.
Proof. vm_compute. by split. Qed.

Lemma context_serves_once_witness : exists a chs1 r1,
  call_with (Reply := string) Responses.All (Some 0%nat) all_b false (Ok tt) first_call fresh_channel = (Some (Returns (Some a)), chs1, r1) /\
  closed <$> chs1 !! 0%nat = Some true /\
  forall es' o chs2 r2, call_with (Reply := string) Responses.All (Some 0%nat) all_b false (Ok tt) es' chs1 = (Some o, chs2, r2) ->
    o = Panics \/ (o = Returns None /\ exists es'', call_with (Reply := string) Responses.All (Some 0%nat) all_b false (Ok tt) (es' ++ es'') chs1 = (Some Panics, chs1, r2)).
Proof.
  do 3 eexists. split; [vm_compute; reflexivity|].
  eapply (context_serves_once (Reply := string) Responses.All 0 all_b all_b false false (Ok tt) (Ok tt) first_call fresh_channel). vm_compute. reflexivity.
Defined.

(** The second call panics at its first answer. *)
Example second_call_panics : match call_with (Reply := string) Responses.All (Some 0%nat) all_b false (Ok tt) [Responses.Dial 0; Responses.Invoke 0; Responses.Send 0]
    [{| receives := Responses.Ready; closed := true |}] with (o, _, _) => o = Some Panics end.
Proof. vm_compute. reflexivity. Qed.

End Facts.
