(* ===== verification/PoolMonitor.v ===== *)
(** The two background loops of the adaptive pool
    ([src/internal/connpool/adaptive_pool.go]) and the status that it reports. *)
From S2P Require Import Prelude Float64 ConnPool Ticker.
Import Pool AdaptivePool.

(** * Status *)

Record AdaptiveStatus : Type := {
  Status_ : Status; SuccessCount : Z; FailureCount : Z; TimeoutCount : Z; HealthFailures : Z; ScaleUpEvents : Z; ScaleDownEvents : Z }.

(** [AdaptivePool.Status] and [AdaptivePool.Put] are the base pool's. *)
Definition adaptive_Status (ap : AdaptivePool) : Status := get_Status (basePool ap).
Definition adaptive_Put (now : Z) (id : nat) (ap : AdaptivePool) : AdaptivePool := with_base (Put now id (basePool ap)) ap.

Definition GetExtendedStatus (ap : AdaptivePool) : AdaptiveStatus :=
  {| Status_ := get_Status (basePool ap); SuccessCount := successRequests ap; FailureCount := failedRequests ap;
     TimeoutCount := timeouts ap; HealthFailures := healthFailures ap; ScaleUpEvents := scaleUpEvents ap;
     ScaleDownEvents := scaleDownEvents ap |}.

(** * The loops *)

(** Each tick of the health check finds states of the connections, each of the load check a
    time. *)
Definition healthChecker : list (turn grpc_state) -> AdaptivePool -> AdaptivePool * bool := ticker_loop checkHealth.
Definition loadMonitor `{GoImpl} : list (turn Z) -> AdaptivePool -> AdaptivePool * bool := ticker_loop checkAndAdjustPool.

(** What changes the counters: an answer of [Get], over a base pool that its critical
    sections have changed meanwhile; the ticks of both loops; [Close]. *)
Inductive event : Type := EAnswer (r : got) (p : connPool) | EPut (now : Z) (id : nat) | EHealth (g : grpc_state) | ELoad (now : Z).

Definition step `{GoImpl} (e : event) (ap : AdaptivePool) : AdaptivePool :=
  match e with
  | EAnswer r p => count_Get r (with_base p ap)
  | EPut now id => adaptive_Put now id ap
  | EHealth g => (healthChecker [Ticked g] ap).1
  | ELoad now => (loadMonitor [Ticked now] ap).1
  end.

Definition run `{GoImpl} (es : list event) (ap : AdaptivePool) : AdaptivePool := foldl (fun ap e => step e ap) ap es.

(** * Facts *)
Module Facts.

Section Facts.
Context `{GoImpl}.

(** Ended loops do nothing more; the ticks before are all there is. *)
Lemma healthChecker_app ts ts' ap : healthChecker (ts ++ ts') ap =
  if (healthChecker ts ap).2 then healthChecker ts ap else healthChecker ts' (healthChecker ts ap).1.
Proof. revert ap. induction ts as [|[g|] ts IH]; intros ap; [done|apply IH|done]. Qed.

Lemma loadMonitor_app ts ts' ap : loadMonitor (ts ++ ts') ap =
  if (loadMonitor ts ap).2 then loadMonitor ts ap else loadMonitor ts' (loadMonitor ts ap).1.
Proof. revert ap. induction ts as [|[g|] ts IH]; intros ap; [done|apply IH|done]. Qed.

(** How often a kind of answer was given. *)
Definition is_success (e : event) : bool := match e with EAnswer (GotConn _) _ => true | _ => false end.
Definition is_failure (e : event) : bool := match e with EAnswer (GetErr _) _ => true | _ => false end.
Definition is_timeout (e : event) : bool := match e with EAnswer (GetErr ErrTimeout) _ => true | _ => false end.
Definition count (f : event -> bool) (es : list event) : Z := Z.of_nat (length (filter (fun e => f e = true) es)).

Lemma count_snoc f es e : count f (es ++ [e]) = count f es + if f e then 1 else 0.
Proof.
  unfold count. rewrite filter_app, length_app, filter_cons. destruct (f e); [rewrite decide_True by done|rewrite decide_False by done]; simpl; lia.
Qed.

Lemma answer_count_bounds f es : 0 <= count f es <= Z.of_nat (length es).
Proof. unfold count. pose proof (length_filter (fun e => f e = true) es). lia. Qed.

Lemma step_counters e ap : let ap' := step e ap in
  successRequests ap' = u64 (successRequests ap + if is_success e then 1 else 0) \/ (successRequests ap' = successRequests ap /\ is_success e = false).
Proof. destruct e as [[id| |err|] p|now id|g|now]; simpl; auto. unfold checkAndAdjustPool. destruct (measure _ _) as [[n up]|]; auto. Qed.

Lemma step_failures e ap : let ap' := step e ap in
  (failedRequests ap' = if is_failure e then u64 (failedRequests ap + 1) else failedRequests ap) /\
  (timeouts ap' = if is_timeout e then u64 (timeouts ap + 1) else timeouts ap).
Proof.
  destruct e as [[id| |[]|] p|now id|g|now]; simpl; auto. unfold checkAndAdjustPool. destruct (measure _ _) as [[n up]|]; auto.
Qed.

(** The reported counters are the numbers of answers of each kind, below 2^64; time
    outs are failures. *)
Theorem status_counts o now es : Z.of_nat (length es) < 2 ^ 64 ->
  let st := GetExtendedStatus (run es (NewAdaptivePool o now)) in
  SuccessCount st = count is_success es /\ FailureCount st = count is_failure es /\ TimeoutCount st = count is_timeout es /\
  TimeoutCount st <= FailureCount st.
Proof.
  intros Hlen st. assert (Hc : SuccessCount st = count is_success es /\ FailureCount st = count is_failure es /\ TimeoutCount st = count is_timeout es).
  { unfold st. clear st. induction es as [|e es IH] using rev_ind; [done|]. rewrite length_app in Hlen. simpl in Hlen. specialize (IH ltac:(lia)).
    destruct IH as (I1 & I2 & I3). unfold run in *. rewrite foldl_app. simpl. simpl in I1, I2, I3. set (ap := foldl _ _ es) in *.
    destruct (step_failures e ap) as [-> ->]. rewrite I2, I3, !count_snoc.
    assert (Hu : forall f, u64 (count f es + 1) = count f es + 1) by (intros f; pose proof (answer_count_bounds f es); apply Z.mod_small; lia).
    split_and!; [|by case_bool; [apply Hu|lia]..]. destruct (step_counters e ap) as [-> | [-> ->]]; rewrite I1; [|lia].
    destruct (is_success e); [apply Hu|]. rewrite Z.add_0_r. pose proof (answer_count_bounds is_success es). apply Z.mod_small. lia. }
  destruct Hc as (H1 & H2 & H3). split_and!; [done..|]. rewrite H2, H3. clear. induction es as [|e es IH] using rev_ind; [done|].
  rewrite !count_snoc. destruct e as [[id| |[]|] p|? ?|?|?]; simpl; lia.
Qed.

End Facts.

Abbreviation some_events := [EAnswer (GotConn 0%nat) (NewPool PoolFacts.two_conns); EAnswer (GetErr ErrTimeout) (NewPool PoolFacts.two_conns); ELoad 10; EAnswer (GetErr ErrExhausted) (NewPool PoolFacts.two_conns)].

Lemma status_counts_witness : let st := GetExtendedStatus (@run amd64 some_events (NewAdaptivePool AdaptivePoolFacts.small_adaptive 0)) in
  (SuccessCount st, FailureCount st, TimeoutCount st) = (1, 2, 1).
Proof.
  pose proof (@status_counts amd64 AdaptivePoolFacts.small_adaptive 0 some_events ltac:(reflexivity)) as (H1 & H2 & H3 & _). cbv zeta. by rewrite H1, H2, H3.
Defined.

End Facts.
