(* ===== verification/Watch.v ===== *)
(** Watching a service: the goroutine of [Subscribe] in [src/registry/etcd/registry.go]
    and the one of [watch] in [src/resolver.go], with the channel between them.

    The channel has no buffer: an event goes over when the subscriber sends and the
    watcher receives. Once the subscriber has ended, the channel is closed and every
    receive succeeds. *)
From S2P Require Import Prelude Cluster Resolver.

(** * Errors of the resolver *)

Inductive resolver_error : Type := noServiceError (service : string) | retryFailedError (service : string) | resolverClosedError.

Definition error_text (e : resolver_error) : string :=
  match e with
  | noServiceError service => "no available instances for service: " ++ service
  | retryFailedError service => "failed to subscribe service after retries: " ++ service
  | resolverClosedError => "resolver has been closed"
  end%string.

(** * The subscriber *)

(** What etcd's watch channel gives: a response with an error, one that says that the
    watch is cancelled, or one with events. *)
Inductive response : Type := ResponseError | Canceled | Events (n : nat).

(** Where the goroutine is: at the next response, at the send with this many events to
    go, or at its end. *)
Inductive subscriber : Type := Waiting | Sending (n : nat) | Ended.

Definition next_subscriber (n : nat) : subscriber := match n with O => Waiting | S _ => Sending n end.

(** It takes a response. *)
Definition take_response (r : response) : subscriber :=
  match r with ResponseError => Waiting | Canceled => Ended | Events n => next_subscriber n end.

Section Watch.
Context {R CC : Type} `{Registry R} `{ClientConn CC}.

(** [watching]: the watcher's goroutine runs; [resolutions]: how often it has resolved;
    [pending]: responses that etcd has sent; [cancelled]: the subscription's context is. *)
Record system : Type := {
  res : grpcResolver R CC; pending : list response; cancelled : bool; sub : subscriber; watching : bool; resolutions : nat }.

(** The first step of [watch]: without a subscription it reports the error and ends,
    and another goroutine subscribes again. *)
Inductive started : Type := Running (s : system) | Retrying (g : grpcResolver R CC).

Definition watch (subscribed : result string unit) (g : grpcResolver R CC) : started :=
  match subscribed with
  | Err e => Retrying (report e g)
  | Ok _ => Running {| res := g; pending := []; cancelled := false; sub := Waiting; watching := true; resolutions := 0 |}
  end.

Inductive event : Type :=
| Respond (r : response) | Take | RangeEnds | Deliver (now later : Z) (closing : nat -> bool) | ReceiveClosed (now later : Z) (closing : nat -> bool)
| StopWatching | CloseResolver | CloseRegistry.

Definition resolve_again (now later : Z) (closing : nat -> bool) (u : subscriber) (s : system) : system :=
  {| res := notified now later closing (res s); pending := pending s; cancelled := cancelled s; sub := u; watching := watching s;
     resolutions := S (resolutions s) |}.

Definition set_sub (u : subscriber) (l : list response) (s : system) : system :=
  {| res := res s; pending := l; cancelled := cancelled s; sub := u; watching := watching s; resolutions := resolutions s |}.

(** [None]: the event cannot happen. *)
Definition step (e : event) (s : system) : option (outcome system) :=
  match e with
  | Respond r => if cancelled s then None else Some (Returns (set_sub (sub s) (pending s ++ [r]) s))
  | Take => match sub s, pending s with Waiting, r :: l => Some (Returns (set_sub (take_response r) l s)) | _, _ => None end
  | RangeEnds => match sub s, pending s, cancelled s with Waiting, [], true => Some (Returns (set_sub Ended [] s)) | _, _, _ => None end
  | Deliver now later closing =>
      match sub s, watching s with
      | Sending (S n), true => Some (Returns (resolve_again now later closing (next_subscriber n) s))
      | _, _ => None
      end
  | ReceiveClosed now later closing =>
      match sub s, watching s with Ended, true => Some (Returns (resolve_again now later closing Ended s)) | _, _ => None end
  | StopWatching =>
      if watching s && closed (res s)
      then Some (Returns {| res := res s; pending := pending s; cancelled := cancelled s; sub := sub s; watching := false; resolutions := resolutions s |})
      else None
  | CloseResolver =>
      Some (match Close (res s) with
            | Returns g => Returns {| res := g; pending := pending s; cancelled := cancelled s; sub := sub s; watching := watching s;
                                      resolutions := resolutions s |}
            | Panics => Panics
            end)
  | CloseRegistry =>
      Some (Returns {| res := res s; pending := pending s; cancelled := true; sub := sub s; watching := watching s; resolutions := resolutions s |})
  end.

Fixpoint run (es : list event) (s : system) : option (outcome system) :=
  match es with
  | [] => Some (Returns s)
  | e :: es => match step e s with Some (Returns s) => run es s | r => r end
  end.

End Watch.
Arguments system : clear implicits.
Arguments started : clear implicits.

(** * Facts *)
Module Facts.

Section Facts.
Context {R CC : Type} `{Registry R} `{ClientConn CC}.
Implicit Type s : system R CC.

(** Events that etcd has reported and the watcher has not yet received. *)
Definition reported (r : response) : nat := match r with Events n => n | _ => 0 end.
Definition due s : nat := (sum_list_with reported (pending s) + match sub s with Sending n => n | _ => 0 end)%nat.

Definition responses (es : list event) : nat := sum_list_with (fun e => match e with Respond r => reported r | _ => 0%nat end) es.

Lemma next_due n : match next_subscriber n with Sending n => n | _ => 0%nat end = n.
Proof. by destruct n. Qed.

Lemma resolutions_bounded_from es : forall s s', run es s = Some (Returns s') -> sub s' <> Ended ->
  sub s <> Ended /\ (resolutions s' + due s' <= resolutions s + due s + responses es)%nat.
Proof.
  induction es as [|e es IH]; intros s s' Hr Hs'; [injection Hr as <-; split; [done|lia]|]. cbn [run] in Hr.
  destruct (step e s) as [[s1|]|] eqn:Hs; [|done..]. destruct (IH s1 s' Hr Hs') as [Hs1 Hle]. unfold responses. cbn [sum_list_with].
  fold (responses es). unfold due in *. destruct e as [r| | |now later closing|now later closing| | |]; cbn [step] in Hs.
  - destruct (cancelled s); [done|]. injection Hs as <-. simpl in *. rewrite sum_list_with_app in Hle. simpl in Hle. split; [done|lia].
  - destruct (sub s) eqn:Hu; [|done..]. destruct (pending s) as [|r l]; [done|]. injection Hs as <-. simpl in *. split; [done|].
    destruct r as [| |n]; simpl in *; [lia|done|]. rewrite next_due in Hle. lia.
  - destruct (sub s), (pending s), (cancelled s); try done. by injection Hs as <-.
  - destruct (sub s) as [|[|n]|], (watching s); try done. injection Hs as <-. simpl in *. rewrite next_due in Hle. split; [done|lia].
  - destruct (sub s), (watching s); try done. by injection Hs as <-.
  - destruct (_ && _); [|done]. injection Hs as <-. simpl in *. split; [done|lia].
  - destruct (Close (res s)); [|done]. injection Hs as <-. simpl in *. split; [done|lia].
  - injection Hs as <-. simpl in *. split; [done|lia].
Qed.

(** As long as the subscription lives, the watcher resolves at most once for each event
    that etcd reports. *)
Theorem resolutions_bounded es g s s' : watch (Ok tt) g = Running s -> run es s = Some (Returns s') -> sub s' <> Ended ->
  (resolutions s' <= responses es)%nat.
Proof. intros [= <-] Hr Hs. destruct (resolutions_bounded_from _ _ _ Hr Hs) as [_ Hle]. unfold due at 2 in Hle. simpl in Hle. lia. Qed.

(** When the subscription has ended the watcher does not stop: nothing but the close of
    the resolver keeps it from resolving again, at once and any number of times. *)
Theorem closed_channel_spins now later closing k s : sub s = Ended -> watching s = true ->
  exists s', run (replicate k (ReceiveClosed now later closing)) s = Some (Returns s') /\ resolutions s' = (resolutions s + k)%nat /\
    sub s' = Ended /\ watching s' = true.
Proof.
  revert s. induction k as [|k IH]; intros s Hu Hw; [exists s; by rewrite Nat.add_0_r|]. cbn [replicate run step]. rewrite Hu, Hw.
  destruct (IH (resolve_again now later closing Ended s) ltac:(done) Hw) as (s' & -> & Hn & Hs). exists s'. split; [done|]. rewrite Hn. simpl. split; [lia|done].
Qed.

(** A subscriber that sends when nobody watches any more stays for good, also after the
    registry is closed: its channel is never closed. *)
Theorem subscriber_stuck es n s s' : sub s = Sending n -> watching s = false -> run es s = Some (Returns s') -> sub s' = Sending n /\ watching s' = false.
Proof.
  revert s. induction es as [|e es IH]; intros s Hu Hw Hr; [by injection Hr as <-|]. cbn [run] in Hr.
  destruct (step e s) as [[s1|]|] eqn:Hs; [|done..]. apply (IH s1); [| |done]; clear IH Hr;
    destruct e as [r| | |now later closing|now later closing| | |]; cbn [step] in Hs; rewrite ?Hu, ?Hw in Hs; try done;
    try (destruct (cancelled s); [done|]); try (destruct (Close (res s)); [|done]); try (destruct n; done); by injection Hs as <-.
Qed.

(** Without a subscription nothing watches: the error is reported and subscribing is
    tried again. *)
Lemma watch_fails e (g : grpcResolver R CC) : watch (Err e) g = Retrying (report e g).
Proof. done. Qed.

End Facts.

#[local] Existing Instance Resolver.Facts.scripted.
#[local] Existing Instance Resolver.Facts.keeps.

Abbreviation never := (fun _ : nat => false).
Abbreviation a_resolver := (new_resolver (NewResolverBuilder []) "user" (@nil (result string (list ServiceInstance))) (@nil LoadBalance.Address, @nil string)).
Abbreviation fresh := ({| res := a_resolver; pending := []; cancelled := false; sub := Waiting; watching := true; resolutions := 0 |}).
Abbreviation one_change := [Respond (Events 2); Take; Deliver 1 1 never; Deliver 2 2 never].

Lemma resolutions_bounded_witness : exists s', run one_change fresh = Some (Returns s') /\ (resolutions s' <= 2)%nat.
Proof.
  eexists. split; [vm_compute; reflexivity|]. eapply (resolutions_bounded one_change a_resolver fresh); [done|vm_compute; reflexivity|done].
Defined.

(** The registry is closed: the range over the watch channel ends and the watcher spins. *)
Definition after_close : system (list (result string (list ServiceInstance))) (list LoadBalance.Address * list string) :=
  match run [CloseRegistry; RangeEnds] fresh with Some (Returns s) => s | _ => fresh end.

Lemma closed_channel_spins_witness : exists s', run (replicate 3 (ReceiveClosed 5 5 never)) after_close = Some (Returns s') /\ resolutions s' = 3%nat /\ sub s' = Ended /\ watching s' = true.
Proof. apply (closed_channel_spins 5 5 never 3 after_close); reflexivity. Defined.

Definition after_stop : system (list (result string (list ServiceInstance))) (list LoadBalance.Address * list string) :=
  match run [Respond (Events 1); Take; CloseResolver; StopWatching] fresh with Some (Returns s) => s | _ => fresh end.

Lemma subscriber_stuck_witness : exists s', run [CloseRegistry] after_stop = Some (Returns s') /\ sub s' = Sending 1 /\ watching s' = false.
Proof. eexists. split; [reflexivity|]. apply (subscriber_stuck [CloseRegistry] 1 after_stop); reflexivity. Defined.

End Facts.
