(* ===== verification/OAuth2.v ===== *)
(** The OAuth2 side of [src/auth/authentication/auth.go]: the configuration, the request
    for the user's information, and the calls that go on to the library; with what
    they mean for the authenticator of Authentication.v. *)
From S2P Require Import Prelude GoString GoCrypto Authentication.

(** * Configuration *)

Record Endpoint : Type := { AuthURL : string; TokenURL : string }.

(** [OAuth2Config], which is also what the library's configuration holds. *)
Record OAuth2Config : Type := { ClientID : string; ClientSecret : string; RedirectURL : string; Scopes : list string; EndpointOf : Endpoint }.

(** The library [golang.org/x/oauth2], its HTTP client and [encoding/json]: an answer of the
    server is its status and its body, which may fail to be read. *)
Class OAuth2Library := {
  source : Type;
  AuthCodeURL : OAuth2Config -> string -> string;
  library_Exchange : OAuth2Config -> string -> result string string;
  library_TokenSource : OAuth2Config -> string -> source;
  client_Get : OAuth2Config -> string -> string -> result string (Z * result string string);
  Unmarshal : string -> result string (gmap string any) }.

Section OAuth2.
Context `{OAuth2Library}.

Definition userinfo_url : string := "https://api.example.com/userinfo".

(** [getUserInfo]: the status is not looked at. *)
Definition getUserInfo (cfg : OAuth2Config) (token : string) : result string (gmap string any) :=
  match client_Get cfg token userinfo_url with
  | Err e => Err e
  | Ok (_, Err e) => Err e
  | Ok (_, Ok body) => Unmarshal body
  end.

Definition NewOAuth2Authenticator (cfg : OAuth2Config) (verify : string -> bool) : OAuth2Authenticator :=
  {| verify_token := verify; Authentication.getUserInfo := getUserInfo cfg |}.

Definition GetAuthURL (cfg : OAuth2Config) (state : string) : string := AuthCodeURL cfg state.
Definition Exchange (cfg : OAuth2Config) (code : string) : result string string := library_Exchange cfg code.
Definition TokenSource (cfg : OAuth2Config) (token : string) : source := library_TokenSource cfg token.

End OAuth2.

(** * Facts *)
Module Facts.

Section Facts.
Context `{OAuth2Library} {MD : Type} `{GrpcMetadata MD}.

(** The outcome of an accepted token, by what the server sends back. *)
Lemma authenticate_spec cfg verify ctx md t rest : incoming ctx = Some md -> values "authorization" md = ("Bearer " ++ t)%string :: rest ->
  verify t = true ->
  oauth2_authenticate (NewOAuth2Authenticator cfg verify) ctx =
  match getUserInfo cfg t with
  | Err _ => Returns (Ok {| incoming := incoming ctx; oauth_token := Some t |})
  | Ok info =>
      match as_string (info !! "id") with
      | None => Panics
      | Some id =>
          Returns (Ok {| incoming := Some (Join md (Pairs ([("authenticated", "true"); ("oauth_user_id", id)] ++
                     match as_string (info !! "name") with Some n => [("username", n)] | None => [] end ++
                     match as_string (info !! "email") with Some e => [("email", e)] | None => [] end))); oauth_token := Some t |})
      end
  end.
Proof.
  intros Hmd Ha Hv. unfold oauth2_authenticate. rewrite (proj2 (header_iff "Bearer " ErrNotBearer ctx md t)) by (split; [done|]; by eexists).
  simpl. rewrite Hv. simpl. destruct (getUserInfo cfg t) as [info|e]; [|done]. by destruct (as_string (info !! "id")).
Qed.

(** Who the request is from, to a reader of the first value: whoever the client says it
    is, and only without such a claim the user of the token. *)
Theorem oauth2_user_is_the_clients cfg verify ctx md t rest info id : incoming ctx = Some md ->
  values "authorization" md = ("Bearer " ++ t)%string :: rest -> verify t = true -> getUserInfo cfg t = Ok info ->
  info !! "id"%string = Some (AString id) ->
  exists ctx' md', oauth2_authenticate (NewOAuth2Authenticator cfg verify) ctx = Returns (Ok ctx') /\ incoming ctx' = Some md' /\
    hd "" (values "oauth_user_id" md') = hd id (values "oauth_user_id" md) /\
    hd "" (values "authenticated" md') = hd "true" (values "authenticated" md).
Proof.
  intros Hmd Ha Hv Hi Hid. rewrite (authenticate_spec cfg verify ctx md t rest Hmd Ha Hv), Hi, Hid. simpl. do 2 eexists. split; [reflexivity|]. split; [reflexivity|].
  rewrite !values_Join, !values_Pairs. split.
  - destruct (values "oauth_user_id" md); [|done]. by destruct (as_string (info !! "name")), (as_string (info !! "email")).
  - destruct (values "authenticated" md); [|done]. by destruct (as_string (info !! "name")), (as_string (info !! "email")).
Qed.

(** A refusal of the server counts as an answer, and no answer as none: in both cases
    the token is accepted. *)
Lemma refusal_accepted cfg verify ctx md t rest status body info id : incoming ctx = Some md ->
  values "authorization" md = ("Bearer " ++ t)%string :: rest -> verify t = true ->
  client_Get cfg t userinfo_url = Ok (status, Ok body) -> Unmarshal body = Ok info -> info !! "id"%string = Some (AString id) ->
  exists ctx', oauth2_authenticate (NewOAuth2Authenticator cfg verify) ctx = Returns (Ok ctx').
Proof.
  intros Hmd Ha Hv Hg Hu Hid. rewrite (authenticate_spec cfg verify ctx md t rest Hmd Ha Hv). unfold getUserInfo. rewrite Hg, Hu, Hid. simpl. by eexists.
Qed.

Lemma unreachable_accepted cfg verify ctx md t rest e : incoming ctx = Some md ->
  values "authorization" md = ("Bearer " ++ t)%string :: rest -> verify t = true -> client_Get cfg t userinfo_url = Err e ->
  oauth2_authenticate (NewOAuth2Authenticator cfg verify) ctx = Returns (Ok {| incoming := Some md; oauth_token := Some t |}).
Proof. intros Hmd Ha Hv Hg. rewrite (authenticate_spec cfg verify ctx md t rest Hmd Ha Hv). unfold getUserInfo. by rewrite Hg, Hmd. Qed.

End Facts.

#[local] Existing Instance listed_metadata.

(** A server that answers everything with status 401 and an object with an id. *)
#[local] Instance refusing : OAuth2Library := {|
  source := unit; AuthCodeURL _ s := s; library_Exchange _ _ := Err "no"; library_TokenSource _ _ := tt;
  client_Get _ _ _ := Ok (401, Ok "{}"%string); Unmarshal _ := Ok {["id"%string := AString "7"]} |}.

Definition some_config : OAuth2Config :=
  {| ClientID := "c"; ClientSecret := "s"; RedirectURL := "r"; Scopes := []; EndpointOf := {| AuthURL := "a"; TokenURL := "t" |} |}.

Abbreviation forged := (request [("authorization", "Bearer k"); ("oauth_user_id", "admin")]%string).

Lemma oauth2_user_is_the_clients_witness :
  exists ctx' md', oauth2_authenticate (NewOAuth2Authenticator some_config (fun _ => true)) forged = Returns (Ok ctx') /\ incoming ctx' = Some md' /\
    hd "" (values "oauth_user_id" md') = hd "7" ["admin"] /\ hd "" (values "authenticated" md') = hd "true" [].
Proof.
  exact (oauth2_user_is_the_clients some_config (fun _ => true) forged [("authorization", "Bearer k"); ("oauth_user_id", "admin")]%string "k" []
    {["id"%string := AString "7"]} "7" eq_refl eq_refl eq_refl eq_refl eq_refl).
Defined.

End Facts.
