(* ===== verification/TokenClose.v ===== *)
(** The end of a token manager, [CustomTokenManager.Close] of
    [src/auth/token/token.go], with the [Close] of the stores and blacklists that it
    may have: in memory, or over a Redis client that the two may share. *)
From S2P Require Import Prelude.
From S2P Require Redis.

(** * Closing *)

Section Close.
Context {W : Type}.

(** A component with a [Close], over a world that several may share. *)
Abbreviation closer := (W -> result string unit * W).

(** [InMemoryTokenStore.Close] and [InMemoryBlacklist.Close] have nothing to close. *)
Definition memory_Close : closer := fun w => (Ok tt, w).

(** [CustomTokenManager.Close]: both components, whatever the first one answers; the
    messages of the errors. A nil component is [None]. *)
Definition close_part (what : string) (part : option closer) (w : W) : list string * W :=
  match part with
  | None => ([], w)
  | Some f => let '(r, w) := f w in (match r with Ok _ => [] | Err e => [(what ++ ": " ++ e)%string] end, w)
  end.

Definition manager_Close (tokenStore blacklist : option closer) (w : W) : result (list string) unit * W :=
  let '(e1, w) := close_part "关闭令牌存储失败" tokenStore w in
  let '(e2, w) := close_part "关闭黑名单失败" blacklist w in
  (match e1 ++ e2 with [] => Ok tt | errs => Err errs end, w).

End Close.

(** [RedisTokenStore.Close] and [RedisBlacklist.Close] close their client. *)
Section Redis.
Context {C : Type} `{Redis.Client C}.

Definition store_Close (c : C) : result string unit * C := Redis.CloseClient c.
Definition blacklist_Close (c : C) : result string unit * C := Redis.CloseClient c.

(** A store and a blacklist with clients of their own. *)
Definition on_first (f : C -> result string unit * C) (w : C * C) : result string unit * (C * C) := let '(r, c) := f w.1 in (r, (c, w.2)).
Definition on_second (f : C -> result string unit * C) (w : C * C) : result string unit * (C * C) := let '(r, c) := f w.2 in (r, (w.1, c)).

(** The documented behaviour of a client's [Close]: it closes, and fails on a client
    that is closed. *)
Class CloseLaws := {
  is_closed : C -> Prop;
  closes c : is_closed (Redis.CloseClient c).2;
  close_again c : is_closed c -> exists e, (Redis.CloseClient c).1 = Err e }.
End Redis.

(** * Facts *)
Module Facts.

(** Both components are closed, the blacklist after the store; the manager reports an
    error exactly when one of them does, with both errors if both do. *)
Theorem manager_Close_spec {W : Type} (f g : W -> result string unit * W) w :
  (manager_Close (Some f) (Some g) w).2 = (g (f w).2).2 /\
  ((manager_Close (Some f) (Some g) w).1 = Ok tt <-> (f w).1 = Ok tt /\ (g (f w).2).1 = Ok tt) /\
  (forall errs, (manager_Close (Some f) (Some g) w).1 = Err errs ->
     length errs = ((if is_ok (f w).1 then 0 else 1) + (if is_ok (g (f w).2).1 then 0 else 1))%nat).
Proof.
  unfold manager_Close, close_part. destruct (f w) as [[[]|e1] w1] eqn:Hf; simpl; destruct (g w1) as [[[]|e2] w2] eqn:Hg; simpl;
    (split; [done|]; split; [split; [congruence||done|]|by intros errs [= <-]]); by intros [? ?].
Qed.

(** Without components, or with those in memory, closing always succeeds and changes
    nothing. *)
Lemma memory_manager_Close {W : Type} (w : W) : manager_Close (Some memory_Close) (Some memory_Close) w = (Ok tt, w) /\
  manager_Close (Some memory_Close) None w = (Ok tt, w) /\ manager_Close None None w = (Ok tt, w).
Proof. done. Qed.

Section Redis.
Context {C : Type} `{Redis.Client C} `{!CloseLaws}.

(** A store and a blacklist over the same client: the second [Close] finds it closed,
    and closing the manager always fails. *)
Theorem shared_client_never_closes_cleanly c : exists errs, (manager_Close (Some store_Close) (Some blacklist_Close) c).1 = Err errs.
Proof.
  destruct (manager_Close_spec store_Close blacklist_Close c) as (_ & Hok & _). destruct (manager_Close _ _ c) as [[[]|errs] c'] eqn:E; [|by eexists].
  destruct (proj1 Hok eq_refl) as [_ H2]. destruct (close_again (store_Close c).2 (closes c)) as [e He]. unfold blacklist_Close in H2. congruence.
Qed.

(** With a client each, closing fails only if a client does. *)
Lemma own_clients_close c c' : (Redis.CloseClient c).1 = Ok tt -> (Redis.CloseClient c').1 = Ok tt ->
  (manager_Close (Some (on_first store_Close)) (Some (on_second blacklist_Close)) (c, c')).1 = Ok tt.
Proof.
  intros H1 H2. apply manager_Close_spec. unfold on_first, on_second, store_Close, blacklist_Close. simpl.
  destruct (Redis.CloseClient c) as [r1 c1]. simpl in *. by destruct (Redis.CloseClient c') as [r2 c2].
Qed.
End Redis.

(** A client that is open or closed. *)
Definition flag_client : Redis.Client bool := {|
  Redis.Get _ _ c := (Err Redis.Nil, c); Redis.Set_ _ _ _ _ c := (Ok tt, c); Redis.Del _ _ c := (Ok tt, c); Redis.Keys _ _ c := (Ok [], c);
  Redis.HSet _ _ _ _ c := (Ok tt, c); Redis.HGet _ _ _ c := (Err Redis.Nil, c); Redis.HGetAll _ _ c := (Ok ∅, c); Redis.HDel _ _ _ c := (Ok tt, c);
  Redis.Expire _ _ _ c := (Ok tt, c); Redis.TTL _ _ c := (Ok 0, c);
  Redis.CloseClient (c : bool) := if c then (Err "redis: client is closed"%string, c) else (Ok tt, true) |}.

Definition flag_laws : @CloseLaws bool flag_client.
Proof. refine (@Build_CloseLaws bool flag_client (fun c : bool => c = true) _ _); intros []; try done. intros _. by eexists. Defined.

Lemma shared_client_never_closes_cleanly_witness : exists errs,
  (manager_Close (Some (@store_Close bool flag_client)) (Some (@blacklist_Close bool flag_client)) false).1 = Err errs.
Proof. exact (@shared_client_never_closes_cleanly bool flag_client flag_laws false). Defined.

End Facts.
