(* ===== verification/GetPool.v ===== *)
(** [getPool] of [src/client.go], which nothing calls: it makes pools whose factory is
    [createConnection], which itself takes connections from the target's pool.

    What such a pool would do is shown on the pools of ConnPool.v. *)
From S2P Require Import Prelude ConnPool Client.
Import Pool.

(** The pool of a target, made when there is none; both looks at the map find the same. *)
Definition getPool (poolConfig : Options) (target : string) (pools : gmap string base_or_adaptive) : base_or_adaptive * gmap string base_or_adaptive :=
  match pools !! target with
  | Some p => (p, pools)
  | None => let p := Plain (NewPool poolConfig) in (p, <[target := p]> pools)
  end.

(** [Get] on a pool made by [getPool], with pooling enabled: its factory looks the pool up
    and gets from it, and connects by itself when that fails. [real] is the outcome of a
    connection of its own. [None]: the fuel does not suffice. *)
Fixpoint get_through (fuel : nat) (now : Z) (real : bool) (p : connPool) : option (got * connPool) :=
  match fuel with
  | O => None
  | S fuel =>
      match Get_first now p with
      | (CallFactory, p) =>
          match get_through fuel now real p with
          | None => None
          | Some (GotConn _, p) => Some (Get_factory now true p)
          | Some (MustWait, p) => Some (MustWait, p)
          | Some (_, p) => Some (Get_factory now real p)
          end
      | r => Some r
      end
  end.

Module Facts.

Lemma Get_first_empty now p : pool_closed p = false -> idle p = [] ->
  Get_first now p = if may_create p then (CallFactory, add_active 1 p)
                    else if negb (Wait (opts p)) then (GetErr ErrExhausted, p) else (MustWait, add_waiting 1 p).
Proof. intros Hc Hi. unfold Get_first, getIdleConn. by rewrite Hc, Hi. Qed.

(** One [Get] on such a pool, empty and with a limit, takes all its places: one
    connection, counted as many as are left. *)
Theorem get_through_fills now p n : pool_closed p = false -> idle p = [] -> Wait (opts p) = false -> 0 < MaxActive (opts p) < 2 ^ 62 ->
  0 <= active p -> active p + Z.of_nat (S n) = MaxActive (opts p) ->
  exists id p', get_through (S (S n)) now true p = Some (GotConn id, p') /\ active p' = MaxActive (opts p) /\ opts p' = opts p /\
    length (conns p') = (length (conns p) + S n)%nat.
Proof.
  revert p. induction n as [|n IH]; intros p Hc Hi Hw Hm Ha Hn; cbn [get_through]; rewrite Get_first_empty by done.
  all: assert (Hmay : may_create p = true) by (unfold may_create; apply orb_true_iff; right; apply Z.ltb_lt; lia).
  all: assert (Hact : active (add_active 1 p) = active p + 1) by (apply i64_small; unfold is_i64; lia).
  all: rewrite Hmay.
  - rewrite Get_first_empty by done. assert (Hnot : may_create (add_active 1 p) = false).
    { unfold may_create. rewrite Hact. simpl. apply orb_false_iff. split; [apply Z.eqb_neq; lia|apply Z.ltb_ge; lia]. }
    rewrite Hnot. simpl negb. rewrite Hw. cbn [negb Get_factory]. do 2 eexists. split; [reflexivity|]. cbn [active set_conns opts conns]. rewrite Hact.
    rewrite length_app. simpl. split_and!; [lia|done|lia].
  - destruct (IH (add_active 1 p) Hc Hi Hw Hm ltac:(lia)) as (id & p' & Hg & Hact' & Ho & Hl); [rewrite Hact; simpl; lia|].
    cbn [get_through] in Hg. rewrite Hg. do 2 eexists. split; [reflexivity|]. cbn [active set_conns opts conns]. rewrite Hact', Ho, length_app, Hl.
    simpl. split_and!; [done|done|lia].
Qed.

(** Without a limit it does not return. *)
Theorem get_through_unlimited fuel now real p : pool_closed p = false -> idle p = [] -> MaxActive (opts p) = 0 -> get_through fuel now real p = None.
Proof.
  revert p. induction fuel as [|fuel IH]; intros p Hc Hi Hm; [done|]. cbn [get_through]. rewrite Get_first_empty by done.
  unfold may_create. rewrite Hm. simpl orb. cbv iota. by rewrite IH.
Qed.

(** The same pool for the same target. *)
Lemma getPool_same cfg cfg' target pools : let '(p, pools') := getPool cfg target pools in getPool cfg' target pools' = (p, pools').
Proof. unfold getPool. destruct (pools !! target) as [p|] eqn:Hp; [by rewrite Hp|]. by rewrite lookup_insert_eq. Qed.

Abbreviation three := ({| MaxIdle := 1; MaxActive := 3; IdleTimeout := 0; WaitTimeout := 0; Wait := false |}).

Lemma get_through_fills_witness : exists id p', get_through 4 7 true (NewPool three) = Some (GotConn id, p') /\ active p' = 3 /\ opts p' = three /\
  length (conns p') = 3%nat.
Proof. apply (get_through_fills 7 (NewPool three) 2); [done|done|done|done|done|done]. Defined.

Lemma get_through_unlimited_witness : get_through 50 7 true (NewPool {| MaxIdle := 1; MaxActive := 0; IdleTimeout := 0; WaitTimeout := 0; Wait := false |}) = None.
Proof. apply get_through_unlimited; reflexivity. Defined.

End Facts.
