(* ===== verification/AuthContext.v ===== *)
(** The interceptors of [src/auth/interceptor.go] around their handlers: what a request's
    handler gets and returns, the user in its context, and the stream that carries a
    context of its own. The decision itself is [Interceptor.intercept] of Auth.v. *)
From S2P Require Import Prelude Auth.
From S2P Require Rpc.
Import Auth.Interceptor.

(** * Contexts and handlers *)

(** A server's context: the incoming metadata and the value under [UserContextKey]. *)
Record server_context : Type := { incoming : context; user_value : option User }.

Definition UserContextKey : string := "user".

Definition WithUser (user : User) (ctx : server_context) : server_context := {| incoming := incoming ctx; user_value := Some user |}.

Definition GetUserFromContext (ctx : server_context) : option User := user_value ctx.

(** A status error: its code and message. *)
Abbreviation status := (Z * string)%type.

(** A stream as whatever it embeds and the context it answers with. *)
Record ServerStream (T : Type) : Type := { embedded : T; Context_ : server_context }.
Arguments embedded {T} s.
Arguments Context_ {T} s.

Definition newContextServerStream {T : Type} (ctx : server_context) (stream : ServerStream T) : ServerStream T :=
  {| embedded := embedded stream; Context_ := ctx |}.

Section Interceptors.
(** The manager is part of a state that the handlers change, too. *)
Context {X M A S : Type} `{TokenExtractor X} `{TokenManager M} `{Authorizer A} (manager : S -> M) (put_manager : M -> S -> S).
(** The texts of errors. *)
Context (text : auth_error -> string).

(** A handler of requests of a type. *)
Definition handler (Req Resp : Type) : Type := server_context -> Req -> S -> outcome (result status Resp) * S.

Definition auth_failed (e : auth_error) : status := (Rpc.Unauthenticated, "认证失败: " ++ text e)%string.
Definition not_allowed (e : auth_error) : status := (Rpc.PermissionDenied, "授权失败: " ++ text e)%string.

Definition UnaryServerInterceptor {Req Resp : Type} (i : @AuthInterceptor X A) (now : Z) (ctx : server_context) (req : Req) (method : string)
    (h : handler Req Resp) (s : S) : outcome (result status Resp) * S :=
  if bool_decide (method ∈ publicMethods i) then h ctx req s
  else match authenticate i now (incoming ctx) (manager s) with
       | (Err e, m) => (Returns (Err (auth_failed e)), put_manager m s)
       | (Ok user, m) =>
           match authorize i user method with
           | Err e => (Returns (Err (not_allowed e)), put_manager m s)
           | Ok _ => h (WithUser user ctx) req (put_manager m s)
           end
       end.

(** A handler of streams, with its server. *)
Definition stream_handler (Srv T : Type) : Type := Srv -> ServerStream T -> S -> outcome (result status unit) * S.

Definition StreamServerInterceptor {Srv T : Type} (i : @AuthInterceptor X A) (now : Z) (srv : Srv) (ss : ServerStream T) (method : string)
    (h : stream_handler Srv T) (s : S) : outcome (result status unit) * S :=
  let ctx := Context_ ss in
  if bool_decide (method ∈ publicMethods i) then h srv ss s
  else match authenticate i now (incoming ctx) (manager s) with
       | (Err e, m) => (Returns (Err (auth_failed e)), put_manager m s)
       | (Ok user, m) =>
           match authorize i user method with
           | Err e => (Returns (Err (not_allowed e)), put_manager m s)
           | Ok _ => h srv (newContextServerStream (WithUser user ctx) ss) (put_manager m s)
           end
       end.

End Interceptors.
Arguments handler : clear implicits.
Arguments stream_handler : clear implicits.

(** * Facts *)
Module Facts.

Section Facts.
Context {X M A S : Type} `{TokenExtractor X} `{TokenManager M} `{Authorizer A} (manager : S -> M) (put_manager : M -> S -> S) (text : auth_error -> string).
Hypothesis put_same : forall s, put_manager (manager s) s = s.

(** The context that a handler gets with a decision's user. *)
Definition context_for (user : option User) (ctx : server_context) : server_context :=
  match user with Some u => WithUser u ctx | None => ctx end.

(** Both interceptors do what [intercept] decides: a handler runs exactly for
    [Handled], in a context with the same metadata and the decision's user. *)
Theorem unary_is_intercept {Req Resp : Type} (i : @AuthInterceptor X A) now ctx (req : Req) method (h : handler S Req Resp) s :
  UnaryServerInterceptor manager put_manager text i now ctx req method h s =
  let '(d, m) := intercept i now (incoming ctx) method (manager s) in
  match d with
  | Handled user => h (context_for user ctx) req (put_manager m s)
  | Unauthenticated e => (Returns (Err (auth_failed text e)), put_manager m s)
  | Denied e => (Returns (Err (not_allowed text e)), put_manager m s)
  end.
Proof.
  unfold UnaryServerInterceptor, intercept. case_bool_decide; [by rewrite put_same|]. destruct (authenticate _ _ _ _) as [[user|e] m]; [|done].
  by destruct (authorize _ _ _).
Qed.

Theorem stream_is_intercept {Srv T : Type} (i : @AuthInterceptor X A) now (srv : Srv) (ss : ServerStream T) method (h : stream_handler S Srv T) s :
  StreamServerInterceptor manager put_manager text i now srv ss method h s =
  let '(d, m) := intercept i now (incoming (Context_ ss)) method (manager s) in
  match d with
  | Handled user => h srv (newContextServerStream (context_for user (Context_ ss)) ss) (put_manager m s)
  | Unauthenticated e => (Returns (Err (auth_failed text e)), put_manager m s)
  | Denied e => (Returns (Err (not_allowed text e)), put_manager m s)
  end.
Proof.
  unfold StreamServerInterceptor, intercept. case_bool_decide; [rewrite put_same; by destruct ss|].
  destruct (authenticate _ _ _ _) as [[user|e] m]; [|done]. by destruct (authorize _ _ _).
Qed.

(** A request and a stream with the same context and method get the same decision:
    where the handlers do the same with their contexts, so do the interceptors. *)
Lemma stream_agrees_with_unary {T : Type} (i : @AuthInterceptor X A) now ctx (t : T) method (f : server_context -> S -> outcome (result status unit) * S) s :
  StreamServerInterceptor manager put_manager text i now tt {| embedded := t; Context_ := ctx |} method (fun _ ss => f (Context_ ss)) s =
  UnaryServerInterceptor manager put_manager text i now ctx t method (fun ctx _ => f ctx) s.
Proof. done. Qed.

(** Behind a method that is not public a handler always finds a user, whatever the
    handler would have answered without one. *)
Lemma handler_finds_user {Req Resp : Type} (i : @AuthInterceptor X A) now ctx (req : Req) method (h : handler S Req Resp) other s :
  method ∉ publicMethods i ->
  UnaryServerInterceptor manager put_manager text i now ctx req method
    (fun ctx req s => match GetUserFromContext ctx with Some _ => h ctx req s | None => other end) s =
  UnaryServerInterceptor manager put_manager text i now ctx req method h s.
Proof.
  intros Hm. unfold UnaryServerInterceptor. rewrite bool_decide_eq_false_2 by done. destruct (authenticate _ _ _ _) as [[user|e] m]; [|done].
  by destruct (authorize _ _ _).
Qed.

End Facts.
End Facts.
