(* ===== verification/AuthExample.v ===== *)
(** The example service of [src/auth/example/main.go]: a token service, an interceptor and
    an authorizer put together behind gRPC, with the client that walks through a
    session.

    It is the composition of Token.v, Auth.v and AuthContext.v: one token manager,
    in memory, serves both the interceptor and the handlers. *)
From S2P Require Import Prelude GoString Auth AuthContext Token.
From S2P Require Rpc.
Import Encryptor Store Manager Service Extractor Interceptor.

(** * Messages *)
Module Main.

Record User : Type := { Id : string; Username : string; Email : string }.

Record GetUserRequest : Type := { UserId : string }.
(** [User] is a pointer. *)
Record UpdateUserRequest : Type := { UserOf : option User }.
Record LoginRequest : Type := { LUsername : string; LPassword : string }.
Record LoginResponse : Type := { AccessToken : string; RefreshToken : string; ExpiresIn : Z; TokenType : string }.
Record RefreshRequest : Type := { RRefreshToken : string }.
Inductive LogoutRequest : Type := MkLogoutRequest.
Record LogoutResponse : Type := { Success : bool; Message : string }.

End Main.

(** How gRPC's codec carries a type's values; a failure is a status. *)
Class Wire (T : Type) := { encode : T -> result status string; decode : string -> result status T }.

(** * Set-up *)

Definition admin : User := {| ID := "1"; Username := "admin"; Roles := ["admin"]; Permissions := ["*"]; Metadata := ∅ |}.
Definition user2 : User := {| ID := "2"; Username := "user"; Roles := ["user"]; Permissions := ["user:read"]; Metadata := ∅ |}.

Definition authenticator (username password : string) : result auth_error User :=
  if bool_decide (username = "admin") && bool_decide (password = "admin123") then Ok admin
  else if bool_decide (username = "user") && bool_decide (password = "user123") then Ok user2
  else Err ErrInvalidCredentials.

Definition signingKey : string := "your-secret-key-for-testing-only".

Definition bearer : MetadataTokenExtractor := NewMetadataTokenExtractor "authorization" "Bearer ".

(** The authorizer, which both set-up functions build. *)
Definition rbac : RBAC.RBACAuthorizer := RBAC.AddRole "user" ["user:read"] (RBAC.AddRole "admin" ["*"] RBAC.NewRBACAuthorizer).

Abbreviation manager := (@CustomTokenManager HmacEncryptor InMemoryTokenStore InMemoryBlacklist).
Abbreviation service := (@TokenService manager MetadataTokenExtractor RBAC.RBACAuthorizer).
Abbreviation reply T := (outcome (result status T) * service)%type.

Definition token_store : InMemoryTokenStore := StoreUser user2 (StoreUser admin NewInMemoryTokenStore).

Definition setupTokenService : option service :=
  encryptor ← NewHmacEncryptor signingKey;
  m ← NewCustomTokenManager signingKey Hour "eidola-example" encryptor token_store NewInMemoryBlacklist;
  Some (SetAuthorizer rbac (NewTokenService m authenticator bearer
    {| AccessTokenDuration := Minute * 15; RefreshTokenDuration := Hour * 24; EnableRefreshTokenRotation := true; EnableTokenRevocation := true;
       SType := "" |})).

(** The interceptor that [setupGRPCServer] installs; its manager is the service's. *)
Definition grpc_interceptor : @AuthInterceptor MetadataTokenExtractor RBAC.RBACAuthorizer :=
  AddResourceMapping "/UserService/UpdateUser" "user" "write" (AddResourceMapping "/UserService/GetUser" "user" "read"
    (AddPublicMethod "/AuthService/Refresh" (AddPublicMethod "/AuthService/Login" (NewAuthInterceptor bearer (Some rbac))))).

(** * Handlers *)

(** What a call reads: the clock in the interceptor, in the manager and after it, and the
    random strings. *)
Record env : Type := { at_interceptor : Z; at_manager : Z; after : Z; random : entropy }.

Section Example.
Context `{Codec} (hmac_sha256 : string -> string -> string) (text : auth_error -> string).
#[local] Instance example_encryptor : Encryptor HmacEncryptor := hmac_encryptor hmac_sha256.

Definition interceptor : Type := forall Req Resp : Type, server_context -> Req -> string -> handler service Req Resp -> service -> reply Resp.

Definition server_interceptor (e : env) : interceptor := fun Req Resp ctx req method h s =>
  UnaryServerInterceptor (@tokenManager manager MetadataTokenExtractor RBAC.RBACAuthorizer) set_manager text grpc_interceptor (at_interceptor e) ctx req method h s.

Definition GetUser (ctx : server_context) (req : Main.GetUserRequest) (s : service) : reply Main.User :=
  match GetUserFromContext ctx with
  | None => (Returns (Err (Rpc.Unauthenticated, "未授权访问"%string)), s)
  | Some _ => (Returns (Ok {| Main.Id := Main.UserId req; Main.Username := "testuser"; Main.Email := "test@example.com" |}), s)
  end.

(** The line that logs reads the user's field. *)
Definition UpdateUser (ctx : server_context) (req : Main.UpdateUserRequest) (s : service) : reply Main.User :=
  match GetUserFromContext ctx with
  | None => (Returns (Err (Rpc.Unauthenticated, "未授权访问"%string)), s)
  | Some _ => match Main.UserOf req with None => (Panics, s) | Some u => (Returns (Ok u), s) end
  end.

Definition login_response (later : Z) (i : TokenInfo) : Main.LoginResponse :=
  {| Main.AccessToken := AccessToken i; Main.RefreshToken := RefreshToken i; Main.ExpiresIn := i64 (unix (ExpiresAt i) - unix later);
     Main.TokenType := TokenType i |}.

Definition Login (e : env) (ctx : server_context) (req : Main.LoginRequest) (s : service) : reply Main.LoginResponse :=
  match Service.Login (random e) (at_manager e) (Main.LUsername req) (Main.LPassword req) s with
  | (Err err, s) => (Returns (Err (Rpc.Unauthenticated, "登录失败: " ++ text err)%string), s)
  | (Ok i, s) => (Returns (Ok (login_response (after e) i)), s)
  end.

Definition Refresh (e : env) (ctx : server_context) (req : Main.RefreshRequest) (s : service) : reply Main.LoginResponse :=
  match SRefresh (random e) (at_manager e) (Main.RRefreshToken req) s with
  | (Err err, s) => (Returns (Err (Rpc.Unauthenticated, "刷新令牌失败: " ++ text err)%string), s)
  | (Ok i, s) => (Returns (Ok (login_response (after e) i)), s)
  end.

Definition Logout (e : env) (ctx : server_context) (req : Main.LogoutRequest) (s : service) : reply Main.LogoutResponse :=
  match Service.Logout (at_manager e) (incoming ctx) s with
  | (Err err, s) => (Returns (Ok {| Main.Success := false; Main.Message := "登出失败: " ++ text err |}), s)
  | (Ok _, s) => (Returns (Ok {| Main.Success := true; Main.Message := "登出成功" |}), s)
  end.

(** ** Descriptors *)

(** The form of the five handler functions; [dec] is what gRPC's codec makes of the
    request. *)
Definition method_handler (Req Resp : Type) : Type := option interceptor -> server_context -> result status Req -> service -> reply Resp.

Definition unary_handler {Req Resp : Type} (full : string) (h : handler service Req Resp) : method_handler Req Resp := fun i ctx dec s =>
  match dec with
  | Err e => (Returns (Err e), s)
  | Ok req => match i with None => h ctx req s | Some i => i Req Resp ctx req full h s end
  end.

Definition UserService_GetUser_Handler := unary_handler "/UserService/GetUser" GetUser.
Definition UserService_UpdateUser_Handler := unary_handler "/UserService/UpdateUser" UpdateUser.
Definition AuthService_Login_Handler (e : env) := unary_handler "/AuthService/Login" (Login e).
Definition AuthService_Refresh_Handler (e : env) := unary_handler "/AuthService/Refresh" (Refresh e).
Definition AuthService_Logout_Handler (e : env) := unary_handler "/AuthService/Logout" (Logout e).

(** What the server answers to a request that has been decoded, with the metadata that
    has come with it. *)
Definition answer {Req Resp : Type} (e : env) (md : context) (h : method_handler Req Resp) (req : Req) (s : service) : reply Resp :=
  h (Some (server_interceptor e)) {| incoming := md; user_value := None |} (Ok req) s.

Definition server_GetUser (e : env) (md : context) := answer e md UserService_GetUser_Handler.
Definition server_UpdateUser (e : env) (md : context) := answer e md UserService_UpdateUser_Handler.
Definition server_Login (e : env) (md : context) := answer e md (AuthService_Login_Handler e).
Definition server_Refresh (e : env) (md : context) := answer e md (AuthService_Refresh_Handler e).
Definition server_Logout (e : env) (md : context) := answer e md (AuthService_Logout_Handler e).

Context `{Wire Main.GetUserRequest} `{Wire Main.UpdateUserRequest} `{Wire Main.LoginRequest} `{Wire Main.RefreshRequest} `{Wire Main.LogoutRequest}.
Context `{Wire Main.User} `{Wire Main.LoginResponse} `{Wire Main.LogoutResponse}.

(** A handler as the server calls it, with the codec around it. *)
Definition erased : Type := option interceptor -> server_context -> string -> service -> reply string.
Definition erase {Req Resp : Type} `{Wire Req} `{Wire Resp} (h : method_handler Req Resp) : erased :=
  fun i ctx b s => match h i ctx (decode b) s with
                   | (Returns (Ok r), s) => (Returns (encode r), s)
                   | (Returns (Err e), s) => (Returns (Err e), s)
                   | (Panics, s) => (Panics, s)
                   end.

Record ServiceDesc : Type := { ServiceName : string; Methods : list (string * erased) }.

Definition UserService_serviceDesc : ServiceDesc :=
  {| ServiceName := "UserService"; Methods := [("GetUser", erase UserService_GetUser_Handler); ("UpdateUser", erase UserService_UpdateUser_Handler)]%string |}.
Definition AuthService_serviceDesc (e : env) : ServiceDesc :=
  {| ServiceName := "AuthService";
     Methods := [("Login", erase (AuthService_Login_Handler e)); ("Refresh", erase (AuthService_Refresh_Handler e));
                 ("Logout", erase (AuthService_Logout_Handler e))]%string |}.

(** The server of [setupGRPCServer]: its interceptor and its services. *)
Definition setupGRPCServer (e : env) : interceptor * list ServiceDesc := (server_interceptor e, [UserService_serviceDesc; AuthService_serviceDesc e]).

(** gRPC finds the handler by the service's and the method's name. *)
Definition find_method (method : string) (services : list ServiceDesc) : option erased :=
  snd <$> List.find (fun mh => (mh.1 =? method)%string)
    (services ≫= fun d => (fun mh => ("/" ++ ServiceName d ++ "/" ++ mh.1, mh.2)%string) <$> Methods d).

Definition serve (e : env) (md : context) (method b : string) (s : service) : reply string :=
  let '(i, services) := setupGRPCServer e in
  match find_method method services with
  | None => (Returns (Err (Rpc.Unimplemented, "unknown method"%string)), s)
  | Some h => h (Some i) {| incoming := md; user_value := None |} b s
  end.

(** * The client *)

(** [Invoke] of a connection to the server, with the outgoing metadata. *)
Definition Invoke {Req Resp : Type} `{Wire Req} `{Wire Resp} (e : env) (md : context) (method : string) (req : Req) (s : service) : reply Resp :=
  match encode req with
  | Err err => (Returns (Err err), s)
  | Ok b => match serve e md method b s with
            | (Returns (Ok r), s) => (Returns (decode r), s)
            | (Returns (Err err), s) => (Returns (Err err), s)
            | (Panics, s) => (Panics, s)
            end
  end.

Definition client_GetUser (e : env) (md : context) (req : Main.GetUserRequest) : service -> reply Main.User := Invoke e md "/UserService/GetUser" req.
Definition client_UpdateUser (e : env) (md : context) (req : Main.UpdateUserRequest) : service -> reply Main.User := Invoke e md "/UserService/UpdateUser" req.
Definition client_Login (e : env) (md : context) (req : Main.LoginRequest) : service -> reply Main.LoginResponse := Invoke e md "/AuthService/Login" req.
Definition client_Refresh (e : env) (md : context) (req : Main.RefreshRequest) : service -> reply Main.LoginResponse := Invoke e md "/AuthService/Refresh" req.
Definition client_Logout (e : env) (md : context) (req : Main.LogoutRequest) : service -> reply Main.LogoutResponse := Invoke e md "/AuthService/Logout" req.

(** The headers that gRPC itself sends. *)
Context (headers : string -> list string).

Definition background : context := Some headers.
Definition with_token (token : string) : context :=
  Some (fun k => headers k ++ (if (k =? "authorization")%string then [("Bearer " ++ token)%string] else [])).

(** Where [clientExample] gets to: the call that it ends the process at, with its error, or
    its last response. A panic of the server leaves the client with an error of the
    connection. *)
Inductive call_site : Type := AtDial | AtLogin | AtGetUser | AtUpdateUser | AtRefresh | AtLogout.
Inductive ending : Type := Fatal (c : call_site) (e : status) | Finished (r : Main.LogoutResponse).

(** The error of a connection whose server is gone. *)
Context (connection_lost : status).

Definition or_fatal {T : Type} (c : call_site) (r : reply T) (k : T -> service -> ending * service) : ending * service :=
  match r with
  | (Returns (Ok x), s) => k x s
  | (Returns (Err e), s) => (Fatal c e, s)
  | (Panics, s) => (Fatal c connection_lost, s)
  end.

(** [clientExample] with what its five calls read. *)
Definition clientExample (dial : result status unit) (e1 e2 e3 e4 e5 : env) (s : service) : ending * service :=
  match dial with
  | Err e => (Fatal AtDial e, s)
  | Ok _ =>
      or_fatal AtLogin (client_Login e1 background {| Main.LUsername := "admin"; Main.LPassword := "admin123" |} s) (fun login s =>
      let authCtx := with_token (Main.AccessToken login) in
      or_fatal AtGetUser (client_GetUser e2 authCtx {| Main.UserId := "1" |} s) (fun _ s =>
      or_fatal AtUpdateUser (client_UpdateUser e3 authCtx
        {| Main.UserOf := Some {| Main.Id := "1"; Main.Username := "newadmin"; Main.Email := "admin@example.com" |} |} s) (fun _ s =>
      or_fatal AtRefresh (client_Refresh e4 background {| Main.RRefreshToken := Main.RefreshToken login |} s) (fun _ s =>
      or_fatal AtLogout (client_Logout e5 authCtx Main.MkLogoutRequest s) (fun r s => (Finished r, s))))))
  end.

End Example.

(** * The process *)

(** [main] after its set-up: it waits for a signal while a goroutine serves, and
    then stops the server. [Exited 1]: [log.Fatalf]. *)
Inductive main_state : Type := Waiting (serving : bool) | Stopping (serving : bool) | Exited (code : nat).
Inductive main_event : Type := ServeReturns (r : result string unit) | Signal | GracefulStopReturns.

Definition main_start (listen : result string unit) : main_state := match listen with Err _ => Exited 1 | Ok _ => Waiting true end.

(** [None]: the event cannot happen. *)
Definition main_step (ev : main_event) (m : main_state) : option main_state :=
  match m, ev with
  | Waiting true, ServeReturns (Err _) | Stopping true, ServeReturns (Err _) => Some (Exited 1)
  | Waiting true, ServeReturns (Ok _) => Some (Waiting false)
  | Stopping true, ServeReturns (Ok _) => Some (Stopping false)
  | Waiting b, Signal => Some (Stopping b)
  | Stopping b, Signal => Some (Stopping b)
  | Stopping _, GracefulStopReturns => Some (Exited 0)
  | _, _ => None
  end.

(** * Facts *)
Module Facts.

(** ** The manager in memory *)
Section Manager.
Context `{Codec} (hmac_sha256 : string -> string -> string).
#[local] Hint Extern 0 (Encryptor HmacEncryptor) => exact (example_encryptor hmac_sha256) : typeclass_instances.

Definition token_of (m : manager) (payload : string) : string := (b64 payload ++ "." ++ b64 (hmac_sha256 (hkey (encryptor m)) payload))%string.

(** A token that the manager has issued to a user and not revoked. *)
Definition session (m : manager) (u : User) (tok id : string) (exp : Z) : Prop :=
  exists payload c d, tok = token_of m payload /\ unmarshal payload = Some c /\ user_of c = u /\ TokenID c = id /\ CExpiresAt c = exp /\
    tokens (tokenStore m) !! id = Some d /\ Revoked d = false /\ DExpiresAt d = exp /\ Store.blacklist (Manager.blacklist m) !! id = None.

Lemma parse_token_of m payload : parse (token_of m payload) = Some (payload, hmac_sha256 (hkey (encryptor m)) payload).
Proof. apply ManagerFacts.parse_token. Qed.

Lemma Validate_session n now m u tok id exp : session m u tok id exp -> unix now <= exp -> @Validate _ _ _ _ (example_encryptor hmac_sha256) _ _ n now tok m = (Ok u, m).
Proof.
  intros (p & c & d & -> & Hc & <- & <- & He & Hd & Hr & Hde & Hb) Hnow. unfold Validate. rewrite bool_decide_eq_false_2 by apply ManagerFacts.token_not_empty.
  rewrite parse_token_of. simpl. rewrite bool_decide_eq_true_2 by done. simpl. rewrite Hc, (proj2 (Z.ltb_ge _ _)) by lia. simpl. unfold is_blacklisted. rewrite Hb. simpl.
  unfold is_token_valid. rewrite Hd, Hr, (proj2 (Z.ltb_ge _ _)) by lia. by destruct m.
Qed.

(** A revoked token, whatever the blacklist still says of it. *)
Lemma Validate_revoked n now m payload c d : unmarshal payload = Some c -> tokens (tokenStore m) !! TokenID c = Some d -> Revoked d = true ->
  (@Validate _ _ _ _ (example_encryptor hmac_sha256) _ _ n now (token_of m payload) m).1 =
  Err (if CExpiresAt c <? unix now then ErrTokenExpired else ErrTokenRevoked).
Proof.
  intros Hc Hd Hr. unfold Validate. rewrite bool_decide_eq_false_2 by apply ManagerFacts.token_not_empty. rewrite parse_token_of. simpl.
  rewrite bool_decide_eq_true_2 by done. simpl. rewrite Hc. destruct (_ <? _); [done|]. simpl.
  destruct (is_blacklisted _ _ _) as [[|] b]; [done|]. simpl. unfold is_token_valid. by rewrite Hd, Hr.
Qed.

Definition new_data (tok r id : string) (u : User) (exp : Z) : TokenData :=
  {| DAccessToken := tok; DRefreshToken := r; DUserID := ID u; DExpiresAt := exp; DTokenID := id; Revoked := false; CreatedAt := 0 |}.

Lemma Generate_in_memory rnd n now u d id r (m : manager) : rnd 0%nat = Some id -> rnd 1%nat = Some r -> 0 < d ->
  representable (claims_for m id now (now + d) u) ->
  exists payload, unmarshal payload = Some (claims_for m id now (now + d) u) /\
    @Generate _ _ _ _ (example_encryptor hmac_sha256) _ rnd n now u d m =
    (Ok {| AccessToken := token_of m payload; RefreshToken := r; ExpiresAt := now + d; TokenType := "Bearer"; Scope := "" |},
     with_store (store_token now (new_data (token_of m payload) r id u (unix (now + d))) (tokenStore m)) m).
Proof.
  intros H0 H1 Hd Hrep. destruct (marshal_unmarshal _ Hrep) as (p & Hp & Hu). exists p. split; [done|]. unfold Generate.
  rewrite (proj2 (Z.leb_gt _ _)) by done. by rewrite H0, Hp, H1.
Qed.

Lemma Generate_session rnd n now u d id r (m : manager) : rnd 0%nat = Some id -> rnd 1%nat = Some r -> 0 < d ->
  representable (claims_for m id now (now + d) u) -> Store.blacklist (Manager.blacklist m) !! id = None ->
  exists tok m', @Generate _ _ _ _ (example_encryptor hmac_sha256) _ rnd n now u d m =
    (Ok {| AccessToken := tok; RefreshToken := r; ExpiresAt := now + d; TokenType := "Bearer"; Scope := "" |}, m') /\
    session m' u tok id (unix (now + d)) /\ m' = with_store (store_token now (new_data tok r id u (unix (now + d))) (tokenStore m)) m.
Proof.
  intros H0 H1 Hd Hrep Hb. destruct (Generate_in_memory rnd n now u d id r m H0 H1 Hd Hrep) as (p & Hu & ->). do 2 eexists. split; [reflexivity|].
  split; [|done]. exists p. do 2 eexists. split_and!; [done|exact Hu|by destruct u|done|done|simpl; by rewrite lookup_insert_eq|done|done|done].
Qed.

(** A token of the manager that has been revoked. *)
Definition ended (m : manager) (tok : string) (exp : Z) : Prop :=
  exists payload c d, tok = token_of m payload /\ unmarshal payload = Some c /\ CExpiresAt c = exp /\
    tokens (tokenStore m) !! TokenID c = Some d /\ Revoked d = true.

Lemma Revoke_session now m u tok id exp : session m u tok id exp ->
  exists m', @Revoke _ HmacEncryptor _ _ _ _ now tok m = (Ok tt, m') /\ ended m' tok exp.
Proof.
  intros (p & c & d & -> & Hc & <- & <- & He & Hd & Hr & Hde & Hb). pose proof (parse_token_of m p) as Hp. unfold parse in Hp. unfold Revoke.
  destruct (Split (token_of m p) ".") as [|a [|b [|]]]; try done. destruct (unb64 a) as [p'|]; [|done]. destruct (unb64 b); [|done].
  injection Hp as -> _. rewrite Hc. simpl. unfold revoke_stored. rewrite Hd. simpl. eexists. split; [reflexivity|].
  exists p, c. eexists. split_and!; [done|done|done|simpl; by rewrite lookup_insert_eq|done].
Qed.

(** Refreshing with the refresh token of a session: the session ends and a new one
    begins, with the default duration. *)
Lemma Refresh_session rnd n now later r m d u id2 r2 : r <> "" -> get_by_refresh r (tokenStore m) = Ok d -> unix now <= DExpiresAt d ->
  tokens (tokenStore m) !! DTokenID d = Some d -> Store.blacklist (Manager.blacklist m) !! DTokenID d = None ->
  users (tokenStore m) !! DUserID d = Some u -> rnd 0%nat = Some id2 -> rnd 1%nat = Some r2 -> 0 < defaultDuration m -> id2 <> DTokenID d ->
  representable (claims_for m id2 later (later + defaultDuration m) u) ->
  exists tok2 m2, @Manager.Refresh _ _ _ _ (example_encryptor hmac_sha256) _ _ rnd n now later r m =
    (Ok {| AccessToken := tok2; RefreshToken := r2; ExpiresAt := later + defaultDuration m; TokenType := "Bearer"; Scope := "" |}, m2) /\
    encryptor m2 = encryptor m /\ tokens (tokenStore m2) !! DTokenID d = Some (set_revoked d).
Proof.
  intros Hr Hg He Hd Hb Hu H0 H1 Hdur Hne Hrep. unfold Manager.Refresh. rewrite bool_decide_eq_false_2 by done. cbn [GetTokenByRefresh in_memory_store]. rewrite Hg.
  cbv beta iota zeta. rewrite (proj2 (Z.ltb_ge _ _)) by lia. simpl. unfold is_blacklisted. rewrite Hb. simpl. unfold revoke_stored. rewrite Hd. simpl. rewrite Hu.
  match goal with |- context [Generate _ _ _ _ _ ?m'] => destruct (Generate_in_memory rnd n later u _ id2 r2 m' H0 H1 Hdur Hrep) as (p & _ & Hgen) end.
  simpl in Hgen |- *. rewrite Hgen. do 2 eexists. split; [reflexivity|]. split; [done|]. simpl. rewrite lookup_insert_ne by done. by rewrite lookup_insert_eq.
Qed.

End Manager.

(** ** Calls *)
Section Calls.
Context `{Codec} (hmac_sha256 : string -> string -> string) (text : auth_error -> string).
Context (headers : string -> list string).
(** The alphabet of base64 has no spaces, and gRPC's own headers no authorization. *)
Hypothesis b64_graphic : forall x, all_chars graphic (b64 x).
Hypothesis no_authorization : headers "authorization" = [].
#[local] Hint Extern 0 (Encryptor HmacEncryptor) => exact (example_encryptor hmac_sha256) : typeclass_instances.

Abbreviation holding := (with_token headers).

Lemma Extract_bearer tok : all_chars graphic tok -> tok <> "" -> Extract bearer (holding tok) = Ok tok.
Proof.
  intros Hg Hne. change (Extract bearer (holding tok)) with (extract_metadata bearer (holding tok)). unfold extract_metadata, with_token.
  change (key bearer) with "authorization"%string. change (prefix bearer) with "Bearer "%string. cbv beta. rewrite no_authorization.
  change ([] ++ _) with [("Bearer " ++ tok)%string]. cbv iota. rewrite (bool_decide_eq_false_2 ("Bearer "%string = "")) by done.
  rewrite TrimPrefix_app, (TrimSpace_graphic tok Hg).
  unfold HasPrefix. rewrite prefix_app. by rewrite (bool_decide_eq_false_2 (tok = "")).
Qed.

Lemma token_graphic m payload : all_chars graphic (token_of hmac_sha256 m payload).
Proof. apply all_chars_app. split; [apply b64_graphic|]. split; [unfold graphic; vm_compute; lia|apply b64_graphic]. Qed.

Lemma authenticate_token now m tok payload : tok = token_of hmac_sha256 m payload ->
  authenticate (M := manager) grpc_interceptor now (holding tok) m = @Validate _ _ _ _ (example_encryptor hmac_sha256) _ _ (fun _ => "") now tok m.
Proof.
  intros ->. unfold authenticate. change (tokenExtractor grpc_interceptor) with bearer.
  rewrite Extract_bearer; [done|apply token_graphic|apply ManagerFacts.token_not_empty].
Qed.

Lemma set_same (s : service) : set_manager (tokenManager s) s = s.
Proof. by destruct s. Qed.

(** A method that is not public, called with the token of a session: the handler
    runs for its user if the user is allowed to call it. *)
Lemma intercepted_session {Req Resp : Type} e (req : Req) method (h : handler service Req Resp) s u tok id exp :
  method ∉ publicMethods grpc_interceptor -> session hmac_sha256 (tokenManager s) u tok id exp -> unix (at_interceptor e) <= exp ->
  server_interceptor hmac_sha256 text e Req Resp {| incoming := holding tok; user_value := None |} req method h s =
  match authorize grpc_interceptor u method with
  | Err err => (Returns (Err (not_allowed text err)), s)
  | Ok _ => h {| incoming := holding tok; user_value := Some u |} req s
  end.
Proof.
  intros Hm Hs He. unfold server_interceptor, UnaryServerInterceptor. rewrite bool_decide_eq_false_2 by done. cbn [incoming].
  pose proof Hs as (payload & _ & _ & Ht & _). rewrite (authenticate_token _ _ _ payload Ht), (Validate_session _ _ _ _ _ _ _ _ Hs He), set_same.
  by destruct (authorize _ _ _).
Qed.

(** ... or with a token that is no longer accepted. *)
Lemma intercepted_refused {Req Resp : Type} e (req : Req) method (h : handler service Req Resp) s payload err :
  let tok := token_of hmac_sha256 (tokenManager s) payload in
  method ∉ publicMethods grpc_interceptor ->
  (@Validate _ _ _ _ (example_encryptor hmac_sha256) _ _ (fun _ => "") (at_interceptor e) tok (tokenManager s)).1 = Err err ->
  (server_interceptor hmac_sha256 text e Req Resp {| incoming := holding tok; user_value := None |} req method h s).1 = Returns (Err (auth_failed text err)).
Proof.
  intros tok Hm Hv. unfold server_interceptor, UnaryServerInterceptor. rewrite bool_decide_eq_false_2 by done. cbn [incoming].
  rewrite (authenticate_token _ _ tok payload eq_refl). destruct (Validate _ _ _ _) as [[u|e'] m]; [done|]. simpl in *. congruence.
Qed.

Lemma public_call {Req Resp : Type} e md method (req : Req) (h : handler service Req Resp) s : method ∈ publicMethods grpc_interceptor ->
  server_interceptor hmac_sha256 text e Req Resp md req method h s = h md req s.
Proof. intros Hm. unfold server_interceptor, UnaryServerInterceptor. by rewrite bool_decide_eq_true_2. Qed.

Ltac decide_member := apply (bool_decide_unpack _); vm_compute; exact I.

Lemma server_Login_ok e username password u (s : service) id r :
  Service.authenticator s username password = Ok u -> random e 0%nat = Some id -> random e 1%nat = Some r -> 0 < AccessTokenDuration (options s) ->
  representable (claims_for (tokenManager s) id (at_manager e) (at_manager e + AccessTokenDuration (options s)) u) ->
  Store.blacklist (Manager.blacklist (tokenManager s)) !! id = None ->
  let exp := at_manager e + AccessTokenDuration (options s) in
  exists tok m', server_Login hmac_sha256 text e (background headers) {| Main.LUsername := username; Main.LPassword := password |} s =
    (Returns (Ok {| Main.AccessToken := tok; Main.RefreshToken := r; Main.ExpiresIn := i64 (unix exp - unix (after e)); Main.TokenType := "Bearer" |}),
     set_manager m' s) /\
    session hmac_sha256 m' u tok id (unix exp) /\
    m' = with_store (store_token (at_manager e) (new_data tok r id u (unix exp)) (tokenStore (tokenManager s))) (tokenManager s).
Proof.
  intros Ha H0' H1' Hd Hrep Hb exp. unfold server_Login, answer, AuthService_Login_Handler, unary_handler.
  rewrite public_call by decide_member. unfold Login, Service.Login. cbn [Main.LUsername Main.LPassword]. rewrite Ha.
  destruct (Generate_session hmac_sha256 (random e) (nonces_of (random e)) (at_manager e) u _ id r (tokenManager s) H0' H1' Hd Hrep Hb)
    as (tok & m' & Hg & Hs & Hm').
  cbn [GenerateToken custom_token_manager]. rewrite Hg. exists tok, m'. by split.
Qed.

Lemma server_Login_refused e username password err (s : service) : Service.authenticator s username password = Err err ->
  server_Login hmac_sha256 text e (background headers) {| Main.LUsername := username; Main.LPassword := password |} s =
  (Returns (Err (Rpc.Unauthenticated, "登录失败: " ++ text err)%string), s).
Proof.
  intros Ha. unfold server_Login, answer, AuthService_Login_Handler, unary_handler.
  rewrite public_call by decide_member. unfold Login, Service.Login. simpl. by rewrite Ha.
Qed.

(** What the holder of a session gets. *)
Lemma server_GetUser_session e s u tok id exp req : session hmac_sha256 (tokenManager s) u tok id exp -> unix (at_interceptor e) <= exp ->
  server_GetUser hmac_sha256 text e (holding tok) req s =
  match authorize grpc_interceptor u "/UserService/GetUser" with
  | Err err => (Returns (Err (not_allowed text err)), s)
  | Ok _ => (Returns (Ok {| Main.Id := Main.UserId req; Main.Username := "testuser"; Main.Email := "test@example.com" |}), s)
  end.
Proof.
  intros Hs He. unfold server_GetUser, answer, UserService_GetUser_Handler, unary_handler.
  by rewrite (intercepted_session e req "/UserService/GetUser" GetUser s u tok id exp) by (done || decide_member).
Qed.

Lemma server_UpdateUser_session e s u tok id exp req : session hmac_sha256 (tokenManager s) u tok id exp -> unix (at_interceptor e) <= exp ->
  server_UpdateUser hmac_sha256 text e (holding tok) req s =
  match authorize grpc_interceptor u "/UserService/UpdateUser" with
  | Err err => (Returns (Err (not_allowed text err)), s)
  | Ok _ => (match Main.UserOf req with None => Panics | Some x => Returns (Ok x) end, s)
  end.
Proof.
  intros Hs He. unfold server_UpdateUser, answer, UserService_UpdateUser_Handler, unary_handler.
  rewrite (intercepted_session e req "/UserService/UpdateUser" UpdateUser s u tok id exp) by (done || decide_member).
  destruct (authorize _ _ _); [|done]. unfold UpdateUser. simpl. by destruct (Main.UserOf req).
Qed.


Lemma server_Logout_session e (s : service) u tok id exp : session hmac_sha256 (tokenManager s) u tok id exp -> unix (at_interceptor e) <= exp ->
  EnableTokenRevocation (options s) = true -> extractor s = bearer ->
  match authorize grpc_interceptor u "/AuthService/Logout" with
  | Err err => server_Logout hmac_sha256 text e (holding tok) Main.MkLogoutRequest s = (Returns (Err (not_allowed text err)), s)
  | Ok _ => exists m', server_Logout hmac_sha256 text e (holding tok) Main.MkLogoutRequest s =
      (Returns (Ok {| Main.Success := true; Main.Message := "登出成功" |}), set_manager m' s) /\ ended hmac_sha256 m' tok exp
  end.
Proof.
  intros Hs He Hrev Hx. unfold server_Logout, answer, AuthService_Logout_Handler, unary_handler.
  rewrite (intercepted_session e _ "/AuthService/Logout" _ s u tok id exp) by (done || decide_member).
  destruct (authorize _ _ _); [|done]. unfold Logout, Service.Logout. cbn [incoming]. rewrite Hrev, Hx.
  destruct (Revoke_session hmac_sha256 (at_manager e) _ _ _ _ _ Hs) as (m' & Hr & Hend). exists m'. destruct Hs as (p & _ & _ & -> & _).
  rewrite Extract_bearer by (apply token_graphic || apply ManagerFacts.token_not_empty). cbn [negb RevokeToken custom_token_manager]. by rewrite Hr.
Qed.

(** An ended token opens no method that is not public. *)
Lemma intercepted_ended {Req Resp : Type} e (req : Req) method (h : handler service Req Resp) s tok exp :
  method ∉ publicMethods grpc_interceptor -> ended hmac_sha256 (tokenManager s) tok exp ->
  (server_interceptor hmac_sha256 text e Req Resp {| incoming := holding tok; user_value := None |} req method h s).1 =
  Returns (Err (auth_failed text (if exp <? unix (at_interceptor e) then ErrTokenExpired else ErrTokenRevoked))).
Proof.
  intros Hm (p & c & d & -> & Hc & <- & Hd & Hr). apply intercepted_refused; [done|]. by eapply Validate_revoked.
Qed.


(** ** Sessions *)

Abbreviation fifteen := (Minute * 15).

Definition encryptor0 : HmacEncryptor := {| hkey := signingKey |}.
Definition manager0 : manager :=
  {| Manager.signingKey := signingKey; defaultDuration := Hour; issuer := "eidola-example"; Manager.encryptor := encryptor0; tokenStore := token_store;
     Manager.blacklist := NewInMemoryBlacklist |}.

Lemma setup_is s0 : setupTokenService = Some s0 ->
  tokenManager s0 = manager0 /\ Service.authenticator s0 = authenticator /\ extractor s0 = bearer /\
  AccessTokenDuration (options s0) = fifteen /\ EnableTokenRevocation (options s0) = true.
Proof. intros [= <-]. by split_and!. Qed.

(** A login with the right password, on the new service. *)
Lemma first_login s0 e id r username password u : setupTokenService = Some s0 -> authenticator username password = Ok u ->
  random e 0%nat = Some id -> random e 1%nat = Some r -> representable (claims_for manager0 id (at_manager e) (at_manager e + fifteen) u) ->
  let exp := unix (at_manager e + fifteen) in
  exists tok m1, server_Login hmac_sha256 text e (background headers) {| Main.LUsername := username; Main.LPassword := password |} s0 =
    (Returns (Ok {| Main.AccessToken := tok; Main.RefreshToken := r; Main.ExpiresIn := i64 (exp - unix (after e)); Main.TokenType := "Bearer" |}),
     set_manager m1 s0) /\
    session hmac_sha256 m1 u tok id exp /\
    m1 = with_store (store_token (at_manager e) (new_data tok r id u exp) token_store) manager0.
Proof.
  intros (Hm & Ha & Hx & Hd & Hv)%setup_is Hu Hid Hr Hrep.
  destruct (server_Login_ok e username password u s0 id r) as (tok & m1 & Hl & Hs & Hm1); rewrite ?Ha, ?Hm, ?Hd in *; try done.
  by exists tok, m1.
Qed.

(** Only the two passwords open a session. *)
Lemma wrong_password s0 e username password : setupTokenService = Some s0 ->
  (username, password) <> ("admin", "admin123") -> (username, password) <> ("user", "user123") ->
  server_Login hmac_sha256 text e (background headers) {| Main.LUsername := username; Main.LPassword := password |} s0 =
  (Returns (Err (Rpc.Unauthenticated, "登录失败: " ++ text ErrInvalidCredentials)%string), s0).
Proof.
  intros (Hm & Ha & _)%setup_is H1' H2'. apply server_Login_refused. rewrite Ha. unfold authenticator. repeat case_bool_decide; simplify_eq/=; done.
Qed.

(** Who may call what, by the two roles. *)
Lemma admin_may method : method ∈ ["/UserService/GetUser"; "/UserService/UpdateUser"; "/AuthService/Logout"]%string ->
  authorize grpc_interceptor admin method = Ok tt.
Proof. intros Hin. repeat (apply elem_of_cons in Hin as [-> |Hin]; [vm_compute; reflexivity|]). by apply not_elem_of_nil in Hin. Qed.

Lemma user_may : authorize grpc_interceptor user2 "/UserService/GetUser" = Ok tt /\
  authorize grpc_interceptor user2 "/UserService/UpdateUser" = Err ErrPermissionDenied /\
  authorize grpc_interceptor user2 "/AuthService/Logout" = Err ErrPermissionDenied.
Proof. split_and!; vm_compute; reflexivity. Qed.

(** The user without the wildcard can read users and nothing else: the method that ends
    a session has no mapping, so that logging out needs a permission that no role has,
    and the token stays valid until it expires. *)
Theorem user_cannot_log_out s0 e1 id r (Hs0 : setupTokenService = Some s0) (Hid : random e1 0%nat = Some id) (Hr : random e1 1%nat = Some r)
  (Hrep : representable (claims_for manager0 id (at_manager e1) (at_manager e1 + fifteen) user2)) :
  exists login s1,
    server_Login hmac_sha256 text e1 (background headers) {| Main.LUsername := "user"; Main.LPassword := "user123" |} s0 = (Returns (Ok login), s1) /\
    forall e, unix (at_interceptor e) <= unix (at_manager e1 + fifteen) ->
      let ctx := holding (Main.AccessToken login) in
      (forall req, server_GetUser hmac_sha256 text e ctx req s1 =
         (Returns (Ok {| Main.Id := Main.UserId req; Main.Username := "testuser"; Main.Email := "test@example.com" |}), s1)) /\
      (forall req, server_UpdateUser hmac_sha256 text e ctx req s1 = (Returns (Err (not_allowed text ErrPermissionDenied)), s1)) /\
      server_Logout hmac_sha256 text e ctx Main.MkLogoutRequest s1 = (Returns (Err (not_allowed text ErrPermissionDenied)), s1).
Proof.
  destruct (first_login s0 e1 id r "user" "user123" user2 Hs0 eq_refl Hid Hr Hrep) as (tok & m1 & Hl & Hs & _). destruct (setup_is s0 Hs0) as (_ & _ & Hx & _ & Hv).
  do 2 eexists. split; [exact Hl|]. intros e He ctx. subst ctx. cbn [Main.AccessToken]. split; [|split].
  - intros req. by rewrite (server_GetUser_session e (set_manager m1 s0) user2 tok id _ req Hs He), (proj1 user_may).
  - intros req. by rewrite (server_UpdateUser_session e (set_manager m1 s0) user2 tok id _ req Hs He), (proj1 (proj2 user_may)).
  - pose proof (server_Logout_session e (set_manager m1 s0) user2 tok id _ Hs He Hv Hx) as Hlo. by rewrite (proj2 (proj2 user_may)) in Hlo.
Qed.

(** C27: the administrator's session at the server, for requests that its codec has decoded: after a login with the right password, reading and updating succeed, an update without a user brings the server down, and after logging out the token opens nothing. *)
Theorem admin_session s0 e1 id r (Hs0 : setupTokenService = Some s0) (Hid : random e1 0%nat = Some id) (Hr : random e1 1%nat = Some r)
  (Hrep : representable (claims_for manager0 id (at_manager e1) (at_manager e1 + fifteen) admin)) :
  let exp := unix (at_manager e1 + fifteen) in
  exists login s1,
    server_Login hmac_sha256 text e1 (background headers) {| Main.LUsername := "admin"; Main.LPassword := "admin123" |} s0 = (Returns (Ok login), s1) /\
    let ctx := holding (Main.AccessToken login) in
    forall e, unix (at_interceptor e) <= exp ->
      (forall req, server_GetUser hmac_sha256 text e ctx req s1 =
         (Returns (Ok {| Main.Id := Main.UserId req; Main.Username := "testuser"; Main.Email := "test@example.com" |}), s1)) /\
      (forall req, server_UpdateUser hmac_sha256 text e ctx req s1 =
         (match Main.UserOf req with None => Panics | Some x => Returns (Ok x) end, s1)) /\
      exists s2, server_Logout hmac_sha256 text e ctx Main.MkLogoutRequest s1 = (Returns (Ok {| Main.Success := true; Main.Message := "登出成功" |}), s2) /\
        forall e', let refused := auth_failed text (if exp <? unix (at_interceptor e') then ErrTokenExpired else ErrTokenRevoked) in
          (forall req, (server_GetUser hmac_sha256 text e' ctx req s2).1 = Returns (Err refused)) /\
          (forall req, (server_UpdateUser hmac_sha256 text e' ctx req s2).1 = Returns (Err refused)) /\
          (server_Logout hmac_sha256 text e' ctx Main.MkLogoutRequest s2).1 = Returns (Err refused).
Proof.
  intros exp. destruct (first_login s0 e1 id r "admin" "admin123" admin Hs0 eq_refl Hid Hr Hrep) as (tok & m1 & Hl & Hs & _).
  destruct (setup_is s0 Hs0) as (_ & _ & Hx & _ & Hv). do 2 eexists. split; [exact Hl|]. intros ctx e He. subst ctx. cbn [Main.AccessToken]. split; [|split].
  - intros req. by rewrite (server_GetUser_session e (set_manager m1 s0) admin tok id _ req Hs He), admin_may by set_solver.
  - intros req. by rewrite (server_UpdateUser_session e (set_manager m1 s0) admin tok id _ req Hs He), admin_may by set_solver.
  - pose proof (server_Logout_session e (set_manager m1 s0) admin tok id _ Hs He Hv Hx) as Hlo. rewrite admin_may in Hlo by set_solver.
    destruct Hlo as (m2 & Hlo & Hend). eexists. split; [exact Hlo|].
    intros e'. split; [intros req|split; [intros req|]].
    + unfold server_GetUser, answer, UserService_GetUser_Handler, unary_handler.
      by apply intercepted_ended; [decide_member|].
    + unfold server_UpdateUser, answer, UserService_UpdateUser_Handler, unary_handler.
      by apply intercepted_ended; [decide_member|].
    + unfold server_Logout, answer, AuthService_Logout_Handler, unary_handler.
      by apply intercepted_ended; [decide_member|].
Qed.


(** A refresh, on the state after a login: a new token, for an hour and not for the
    fifteen minutes of a login; the old one is revoked. *)
Lemma server_Refresh_session e md (s : service) tok id r u now exp id2 r2 : r <> "" ->
  tokenManager s = with_store (store_token now (new_data tok r id u exp) token_store) manager0 -> users token_store !! ID u = Some u ->
  unix (at_manager e) <= exp -> random e 0%nat = Some id2 -> random e 1%nat = Some r2 -> id2 <> id ->
  representable (claims_for manager0 id2 (at_manager e) (at_manager e + Hour) u) ->
  exists tok2 m2, server_Refresh hmac_sha256 text e md {| Main.RRefreshToken := r |} s =
    (Returns (Ok {| Main.AccessToken := tok2; Main.RefreshToken := r2; Main.ExpiresIn := i64 (unix (at_manager e + Hour) - unix (after e));
                    Main.TokenType := "Bearer" |}), set_manager m2 s) /\
    Manager.encryptor m2 = encryptor0 /\ tokens (tokenStore m2) !! id = Some (set_revoked (set_created now (new_data tok r id u exp))).
Proof.
  intros Hr Hm Hu He H0' H1' Hne Hrep. unfold server_Refresh, answer, AuthService_Refresh_Handler, unary_handler.
  rewrite public_call by decide_member. unfold Refresh, SRefresh. cbn [Main.RRefreshToken]. rewrite bool_decide_eq_false_2 by done. rewrite Hm.
  set (d := set_created now (new_data tok r id u exp)).
  destruct (Refresh_session hmac_sha256 (random e) (nonces_of (random e)) (at_manager e) (at_manager e) r
    (with_store (store_token now (new_data tok r id u exp) token_store) manager0) d u id2 r2) as (tok2 & m2 & Hrf & Henc & Hd); try done.
  - unfold get_by_refresh. simpl. rewrite (bool_decide_eq_false_2 (r = "")), lookup_insert_eq by done. by rewrite lookup_insert_eq.
  - simpl. by rewrite lookup_insert_eq.
  - cbn [RefreshToken_m custom_token_manager]. rewrite Hrf. exists tok2, m2. by split_and!.
Qed.

(** The walk of [clientExample] cannot get to its end, also with messages that the codec
    takes: it refreshes its token, which revokes the one that it still holds, and the
    server refuses the logout that it asks for with that one. *)
Theorem example_fails_at_logout s0 e1 e2 e3 e4 e5 id r id2 r2
  (Hs0 : setupTokenService = Some s0)
  (Hid : random e1 0%nat = Some id) (Hr : random e1 1%nat = Some r) (Hid2 : random e4 0%nat = Some id2) (Hr2 : random e4 1%nat = Some r2)
  (Hne : r <> "") (Hid12 : id2 <> id)
  (Hrep : representable (claims_for manager0 id (at_manager e1) (at_manager e1 + fifteen) admin))
  (Hrep2 : representable (claims_for manager0 id2 (at_manager e4) (at_manager e4 + Hour) admin))
  (He2 : unix (at_interceptor e2) <= unix (at_manager e1 + fifteen)) (He3 : unix (at_interceptor e3) <= unix (at_manager e1 + fifteen))
  (He4 : unix (at_manager e4) <= unix (at_manager e1 + fifteen)) :
  exists login s1, server_Login hmac_sha256 text e1 (background headers) {| Main.LUsername := "admin"; Main.LPassword := "admin123" |} s0 = (Returns (Ok login), s1) /\
    let authCtx := holding (Main.AccessToken login) in
    (exists x, server_GetUser hmac_sha256 text e2 authCtx {| Main.UserId := "1" |} s1 = (Returns (Ok x), s1)) /\
    (forall x, server_UpdateUser hmac_sha256 text e3 authCtx {| Main.UserOf := Some x |} s1 = (Returns (Ok x), s1)) /\
    exists new s2, server_Refresh hmac_sha256 text e4 (background headers) {| Main.RRefreshToken := Main.RefreshToken login |} s1 = (Returns (Ok new), s2) /\
      (server_Logout hmac_sha256 text e5 authCtx Main.MkLogoutRequest s2).1 =
        Returns (Err (auth_failed text (if unix (at_manager e1 + fifteen) <? unix (at_interceptor e5) then ErrTokenExpired else ErrTokenRevoked))).
Proof.
  destruct (first_login s0 e1 id r "admin" "admin123" admin Hs0 eq_refl Hid Hr Hrep) as (tok & m1 & Hl & Hs & Hm1).
  do 2 eexists. split; [exact Hl|]. intros authCtx. subst authCtx. cbn [Main.AccessToken Main.RefreshToken]. split; [|split].
  - eexists. by rewrite (server_GetUser_session e2 (set_manager m1 s0) admin tok id _ _ Hs He2), admin_may by set_solver.
  - intros x. by rewrite (server_UpdateUser_session e3 (set_manager m1 s0) admin tok id _ _ Hs He3), admin_may by set_solver.
  - destruct (server_Refresh_session e4 (background headers) (set_manager m1 s0) tok id r admin (at_manager e1) (unix (at_manager e1 + fifteen)) id2 r2)
      as (tok2 & m2 & Hrf & Henc & Hd); try done.
    do 2 eexists. split; [exact Hrf|]. apply intercepted_ended; [decide_member|].
    destruct Hs as (p & c & d & -> & Hc & _ & Hi & Hx & _). exists p, c. eexists. split_and!; [|done|done|rewrite Hi; exact Hd|done].
    unfold token_of. rewrite Hm1. simpl. by rewrite Henc.
Qed.

End Calls.

(** Where the codec takes no message of the login, as gRPC's own takes none of Go types
    that are no protocol buffers, the example ends with its first call. *)
Lemma example_needs_a_codec `{Codec} hmac_sha256 text `{Wire Main.GetUserRequest} `{Wire Main.UpdateUserRequest} `{Wire Main.LoginRequest}
  `{Wire Main.RefreshRequest} `{Wire Main.LogoutRequest} `{Wire Main.User} `{Wire Main.LoginResponse} `{Wire Main.LogoutResponse}
  headers connection_lost e1 e2 e3 e4 e5 s e : (forall req : Main.LoginRequest, encode req = Err e) ->
  clientExample hmac_sha256 text headers connection_lost (Ok tt) e1 e2 e3 e4 e5 s = (Fatal AtLogin e, s).
Proof. intros He. unfold clientExample, client_Login, Invoke. by rewrite He. Qed.

(** The process ends with success only after a signal. *)
Fixpoint main_run (evs : list main_event) (m : main_state) : option main_state :=
  match evs with [] => Some m | ev :: evs => m' ← main_step ev m; main_run evs m' end.

Lemma clean_exit_after_signal evs listen : main_run evs (main_start listen) = Some (Exited 0) -> Signal ∈ evs.
Proof.
  enough (Hg : forall evs m, (m = Exited 1 \/ exists b, m = Waiting b) -> main_run evs m = Some (Exited 0) -> Signal ∈ evs).
  { apply Hg. destruct listen; simpl; eauto. }
  clear. induction evs as [|ev evs IH]; intros m Hm Hr; [by destruct Hm as [-> |[b ->]]|]. cbn [main_run] in Hr.
  destruct Hm as [-> |[b ->]]; [by destruct ev|]. destruct b, ev as [[u|err]| |]; simpl in Hr; try done; try (by left); right;
    (eapply IH; [|exact Hr]); eauto.
Qed.


(** ** Witnesses *)

(** A codec for three tokens, and one of messages: their number in binary. *)
Abbreviation claims_of id now d u := (claims_for manager0 id now (now + d) u).

Definition known_claims : list TokenClaims :=
  [claims_of "t1" 0 (Minute * 15) admin; claims_of "t2" 0 (Minute * 15) user2; claims_of "t3" Minute Hour admin].

#[refine] Definition three_tokens : Codec := {|
  marshal c := Some (TokenID c); unmarshal p := List.find (fun c => (TokenID c =? p)%string) known_claims;
  b64 := ManagerFacts.letters; unb64 := ManagerFacts.unletters; representable c := c ∈ known_claims |}.
Proof.
  - intros c Hc. repeat (apply elem_of_cons in Hc as [-> |Hc]; [eexists; split; [reflexivity|vm_compute; reflexivity]|]). by apply not_elem_of_nil in Hc.
  - exact (@unb64_b64 ManagerFacts.one_codec).
  - exact (@b64_no_dot ManagerFacts.one_codec).
Defined.

Lemma letters_graphic x : all_chars graphic (ManagerFacts.letters x).
Proof.
  induction x as [|c x IH]; [done|]. cbn [ManagerFacts.letters all_chars].
  split; [|split; [|exact IH]]; destruct c as [[] [] [] [] [] [] [] []]; vm_compute; lia.
Qed.

#[local] Existing Instance three_tokens.

Definition at_time (t : Z) (id r : string) : env :=
  {| at_interceptor := t; at_manager := t; after := t; random n := match n with 0%nat => Some id | 1%nat => Some r | _ => None end |}.
Definition plain_mac (k x : string) : string := x.
Definition some_text (e : auth_error) : string := "error".
Definition no_headers (k : string) : list string := [].

Definition service0 : service :=
  {| tokenManager := manager0; Service.authenticator := authenticator; Service.authorizer := Some rbac; extractor := bearer;
     options := {| AccessTokenDuration := Minute * 15; RefreshTokenDuration := Hour * 24; EnableRefreshTokenRotation := true;
                   EnableTokenRevocation := true; SType := "Bearer" |} |}.

Lemma example_fails_at_logout_witness : exists login s1,
  server_Login plain_mac some_text (at_time 0 "t1" "r1") (background no_headers) {| Main.LUsername := "admin"; Main.LPassword := "admin123" |} service0 =
    (Returns (Ok login), s1) /\
  exists new s2, server_Refresh plain_mac some_text (at_time Minute "t3" "r3") (background no_headers) {| Main.RRefreshToken := Main.RefreshToken login |} s1 =
    (Returns (Ok new), s2) /\
  (server_Logout plain_mac some_text (at_time Hour "" "") (with_token no_headers (Main.AccessToken login)) Main.MkLogoutRequest s2).1 =
    Returns (Err (auth_failed some_text ErrTokenExpired)).
Proof.
  destruct (example_fails_at_logout (H := three_tokens) plain_mac some_text no_headers letters_graphic eq_refl service0
    (at_time 0 "t1" "r1") (at_time 1 "" "") (at_time 2 "" "") (at_time Minute "t3" "r3") (at_time Hour "" "") "t1" "r1" "t3" "r3")
    as (login & s1 & Hl & _ & _ & new & s2 & Hrf & Hlo);
    [reflexivity|reflexivity|reflexivity|reflexivity|reflexivity|done|done|by left|by right; right; left|vm_compute; congruence..|].
  exists login, s1. split; [exact Hl|]. exists new, s2. split; [exact Hrf|]. exact Hlo.
Defined.

Abbreviation logged_in u p := (server_Login plain_mac some_text (at_time 0 (if bool_decide (u = "admin"%string) then "t1" else "t2") "r1") (background no_headers)
  {| Main.LUsername := u; Main.LPassword := p |} service0).

Lemma user_cannot_log_out_witness : exists login s1, logged_in "user" "user123" = (Returns (Ok login), s1) /\
  server_Logout plain_mac some_text (at_time 1 "" "") (with_token no_headers (Main.AccessToken login)) Main.MkLogoutRequest s1 =
  (Returns (Err (not_allowed some_text ErrPermissionDenied)), s1).
Proof.
  destruct (user_cannot_log_out (H := three_tokens) plain_mac some_text no_headers letters_graphic eq_refl service0 (at_time 0 "t2" "r1") "t2" "r1")
    as (login & s1 & Hl & Hrest); [reflexivity|reflexivity|reflexivity|by right; left|].
  exists login, s1. split; [exact Hl|]. apply (Hrest (at_time 1 "" "")). vm_compute. congruence.
Defined.

Lemma admin_session_witness : exists login s1, logged_in "admin" "admin123" = (Returns (Ok login), s1) /\
  exists s2, server_Logout plain_mac some_text (at_time 1 "" "") (with_token no_headers (Main.AccessToken login)) Main.MkLogoutRequest s1 =
    (Returns (Ok {| Main.Success := true; Main.Message := "登出成功" |}), s2).
Proof.
  destruct (admin_session (H := three_tokens) plain_mac some_text no_headers letters_graphic eq_refl service0 (at_time 0 "t1" "r1") "t1" "r1")
    as (login & s1 & Hl & Hrest); [reflexivity|reflexivity|reflexivity|by left|].
  exists login, s1. split; [exact Hl|].
  destruct (Hrest (at_time 1 "" "") ltac:(vm_compute; congruence)) as (_ & _ & s2 & Hlo & _). exists s2. exact Hlo.
Defined.
End Facts.
