(* ===== verification/RetryShared.v ===== *)
(** More of [src/internal/retry/]: how retriers and interceptors are set up, and the
    budget that several calls, also of several interceptors, share while they run at
    the same time.

    In Retry.v one call runs alone; here calls are threads, and a call's look at the
    budget and its registration are different steps with the delay between them. *)
From S2P Require Import Prelude Float64 Retry.
Import Retry.Budget Retry.Interceptor.

(** * Setting up a retrier *)
Module Options.
Import Retry.Retrier Retry.Backoff.

Section Options.
(** The values of the interface [BackoffStrategy], the default one among them. *)
Context {S : Type} `{BackoffStrategy S} (jittered_exponential : S).

(** A retrier with the fields that Retry.v leaves to its callers. *)
Record config : Type := { retrier : Retrier; backoffStrategy : S; useContext : bool }.

Definition RetryOption : Type := config -> config.

Definition with_retrier (f : Retrier -> Retrier) : RetryOption :=
  fun c => {| retrier := f (retrier c); backoffStrategy := backoffStrategy c; useContext := useContext c |}.
Definition WithBackoffStrategy (s : S) : RetryOption := fun c => {| retrier := retrier c; backoffStrategy := s; useContext := useContext c |}.
Definition WithContext (b : bool) : RetryOption := fun c => {| retrier := retrier c; backoffStrategy := backoffStrategy c; useContext := b |}.

Definition NewRetrier (opts : list RetryOption) : config :=
  foldl (fun c opt => opt c) {| retrier := Retrier.NewRetrier; backoffStrategy := jittered_exponential; useContext := true |} opts.

Definition config_DoWithContext (fn : nat -> S -> option error * S) (ctx_err cut : nat -> option error) (c : config) : option report :=
  DoWithContext fn ctx_err cut (retrier c) (backoffStrategy c).

(** A retrier with listeners; a nil one is [false]. *)
Record ListenableRetrier : Type := { embedded : config; beforeRetry : bool; afterRetry : bool }.

Definition NewListenableRetrier (before after : bool) (opts : list RetryOption) : ListenableRetrier :=
  {| embedded := NewRetrier opts; beforeRetry := before; afterRetry := after |}.

End Options.
End Options.

(** * Interceptors and their budgets *)

(** Budgets are shared by pointer: number 0 is the package's [DefaultBudget]. *)
Record RetryInterceptor : Type := { policy : Policy; budget : nat }.

Definition NewRetryInterceptor (p : Policy) (b : option nat) : RetryInterceptor := {| policy := p; budget := default 0%nat b |}.

(** * Calls at the same time *)

(** Where a call is: waiting for the answer of an attempt, in the delay before one, or
    done. [held]: its deferred releases. *)
Inductive phase : Type := Calling (attempt : Z) | Delaying (attempt : Z) | Finished.
Record caller : Type := { at_phase : phase; held : nat }.

Record system : Type := { shared : Budget; callers : list caller }.

(** [EAnswer i again]: the answer of the attempt; [again] says that it is a retryable
    error. [EElapsed]: the delay is over; [ECancelled]: the context ends first. *)
Inductive event : Type := EStart | EAnswer (i : nat) (again : bool) | EElapsed (i : nat) | ECancelled (i : nat).

Definition finish (i : nat) (c : caller) (s : system) : system :=
  {| shared := release_all (held c) (shared s); callers := <[i := {| at_phase := Finished; held := 0 |}]> (callers s) |}.

(** [p]: the policy of all interceptors on this budget. *)
Definition step (p : Policy) (e : event) (s : system) : option system :=
  match e with
  | EStart => Some {| shared := RegisterRequest (shared s); callers := callers s ++ [{| at_phase := Calling 0; held := 0 |}] |}
  | EAnswer i again =>
      c ← callers s !! i;
      match at_phase c with
      | Calling a =>
          if negb again || (a =? MaxAttempts p) then Some (finish i c s)
          else if CanRetry (shared s)
          then Some {| shared := shared s; callers := <[i := {| at_phase := Delaying (u64 (a + 1)); held := held c |}]> (callers s) |}
          else Some (finish i c s)
      | _ => None
      end
  | EElapsed i =>
      c ← callers s !! i;
      match at_phase c with
      | Delaying a => Some {| shared := RegisterRetry (shared s); callers := <[i := {| at_phase := Calling a; held := S (held c) |}]> (callers s) |}
      | _ => None
      end
  | ECancelled i =>
      c ← callers s !! i;
      match at_phase c with Delaying a => Some (finish i c s) | _ => None end
  end.

Fixpoint run (p : Policy) (es : list event) (s : system) : option system :=
  match es with [] => Some s | e :: es => s' ← step p e s; run p es s' end.

(** * Facts *)
Module Facts.

Definition holds (c : caller) : Z := Z.of_nat (held c).
Definition pending (c : caller) : Z := match at_phase c with Delaying _ => 1 | _ => 0 end.

(** A call that retries or is about to. *)
Definition retrying (c : caller) : Z := if (0 <? holds c) || (0 <? pending c) then 1 else 0.

Definition active (s : system) : Z := sum_of retrying (callers s).

Lemma weights c : 0 <= holds c /\ 0 <= pending c <= retrying c /\ retrying c <= 1 /\ retrying c <= holds c + pending c.
Proof. unfold retrying, holds, pending. destruct (held c), (at_phase c); simpl; lia. Qed.

(** The budget's count is what the calls hold; with the delays under way it exceeds the
    limit by at most one less than there are calls that retry. *)
Definition sound (max : Z) (s : system) : Prop :=
  MaxConcurrentRetries (shared s) = max /\ sum_of holds (callers s) + sum_of pending (callers s) <= max - 1 + active s /\
  currentRetries (shared s) = sum_of holds (callers s) /\ Forall (fun c => at_phase c = Finished -> held c = 0%nat) (callers s).

Lemma release_all_spec n b : is_i32 (currentRetries b) -> Z.of_nat n <= currentRetries b ->
  MaxConcurrentRetries (release_all n b) = MaxConcurrentRetries b /\ currentRetries (release_all n b) = currentRetries b - Z.of_nat n.
Proof.
  intros Hi. induction n as [|n IH]; intros Hn; [simpl; split; [done|lia]|].
  change (release_all (S n) b) with (ReleaseRetry (release_all n b)). destruct IH as [IH1 IH2]; [lia|]. cbn [ReleaseRetry currentRetries MaxConcurrentRetries]. rewrite IH1, IH2. split; [done|].
  apply eq_trans with (currentRetries b - Z.of_nat n - 1); [|lia]. apply i32_small. unfold is_i32 in *. lia.
Qed.

Lemma sums_nonneg l : 0 <= sum_of holds l /\ 0 <= sum_of pending l <= sum_of retrying l /\ sum_of retrying l <= Z.of_nat (length l).
Proof. induction l as [|c l IH]; [done|]. rewrite !sum_of_cons. pose proof (weights c). cbn [length]. lia. Qed.

Lemma sum_of_lookup_le l i c : l !! i = Some c -> holds c <= sum_of holds l.
Proof.
  revert i. induction l as [|x l IH]; intros [|i] Hi; [done|done|..]; rewrite sum_of_cons; pose proof (weights x).
  - injection Hi as <-. pose proof (sums_nonneg l). lia.
  - specialize (IH i Hi). lia.
Qed.

Section Step.
Variables (p : Policy) (max : Z).

Lemma finish_sound i c s : sound max s -> max + Z.of_nat (length (callers s)) < 2 ^ 31 -> callers s !! i = Some c -> at_phase c <> Finished ->
  sound max (finish i c s).
Proof.
  intros (Hm & Hb & Hc & Hf) Hlen Hi Hp. pose proof (sum_of_lookup_le _ _ _ Hi) as Hle. pose proof (sums_nonneg (callers s)) as Hsum. pose proof (weights c).
  unfold active in Hb. destruct (release_all_spec (held c) (shared s)) as [H1 H2]; [unfold is_i32; lia|unfold holds in *; lia|].
  unfold sound, finish, active. cbn [shared callers]. rewrite H1, H2, !(sum_of_insert _ _ _ c) by done.
  change (holds {| at_phase := Finished; held := 0 |}) with 0. change (pending {| at_phase := Finished; held := 0 |}) with 0.
  change (retrying {| at_phase := Finished; held := 0 |}) with 0. split; [done|]. split; [lia|]. split; [unfold holds in *; lia|by apply Forall_insert].
Qed.

Lemma step_sound_shared e s s' : sound max s -> max + Z.of_nat (length (callers s)) < 2 ^ 31 -> step p e s = Some s' -> sound max s'.
Proof.
  intros Hs Hlen Hst. pose proof Hs as (Hm & Hb & Hc & Hf). pose proof (sums_nonneg (callers s)) as Hsum. unfold active in Hb. destruct e as [|i again|i|i]; cbn [step] in Hst.
  - injection Hst as <-. unfold sound, active. cbn [shared callers RegisterRequest MaxConcurrentRetries currentRetries]. rewrite !sum_of_app.
    change (sum_of _ [?x]) with 0. rewrite !Z.add_0_r. split_and!; [done|done|done|]. apply Forall_app. split; [done|by repeat constructor].
  - destruct (callers s !! i) as [c|] eqn:Hi; [|done]. cbn [mbind option_bind] in Hst. destruct (at_phase c) as [a|a|] eqn:Hp; [|done..].
    destruct (negb again || _); [injection Hst as <-; by apply finish_sound; [..|rewrite Hp]|].
    destruct (CanRetry (shared s)) eqn:Hcan; injection Hst as <-; [|by apply finish_sound; [..|rewrite Hp]].
    assert (Hlt : currentRetries (shared s) < max).
    { unfold CanRetry in Hcan. rewrite Hm in Hcan. destruct (Z.geb_spec (currentRetries (shared s)) max); [done|lia]. }
    set (c' := {| at_phase := Delaying (u64 (a + 1)); held := held c |}). pose proof (sums_nonneg (<[i := c']> (callers s))) as Hsum'.
    unfold sound, active. cbn [shared callers]. assert (Hh : sum_of holds (<[i := c']> (callers s)) = sum_of holds (callers s)).
    { rewrite (sum_of_insert _ _ _ c) by done. unfold holds. simpl. lia. }
    rewrite Hh. split; [done|]. split; [lia|]. split; [done|by apply Forall_insert].
  - destruct (callers s !! i) as [c|] eqn:Hi; [|done]. cbn [mbind option_bind] in Hst. destruct (at_phase c) as [a|a|] eqn:Hp; [done| |done]. injection Hst as <-.
    unfold sound, active. cbn [shared callers RegisterRetry MaxConcurrentRetries currentRetries]. rewrite !(sum_of_insert _ _ _ c) by done.
    assert (H1 : retrying {| at_phase := Calling a; held := S (held c) |} = 1 /\ retrying c = 1).
    { unfold retrying, holds, pending. rewrite Hp. simpl. by rewrite orb_true_r. }
    destruct H1 as [-> ->]. assert (H2 : pending c = 1 /\ holds {| at_phase := Calling a; held := S (held c) |} = holds c + 1).
    { unfold pending, holds. rewrite Hp. cbn [held]. lia. }
    destruct H2 as [-> ->]. change (pending {| at_phase := Calling a; held := S (held c) |}) with 0.
    split; [done|]. split; [lia|]. split; [|by apply Forall_insert]. rewrite Hc, i32_small; [lia|]. unfold is_i32. lia.
  - destruct (callers s !! i) as [c|] eqn:Hi; [|done]. cbn [mbind option_bind] in Hst. destruct (at_phase c) as [a|a|] eqn:Hp; [done| |done]. injection Hst as <-.
    by apply finish_sound; [..|rewrite Hp].
Qed.

Lemma step_length e s s' : step p e s = Some s' -> length (callers s') = (length (callers s) + match e with EStart => 1 | _ => 0 end)%nat.
Proof.
  intros Hst. destruct e as [|i again|i|i]; cbn [step] in Hst; [injection Hst as <-; simpl; rewrite length_app; simpl; lia|..];
    destruct (callers s !! i) as [c|]; try done; cbn [mbind option_bind] in Hst; destruct (at_phase c); try done; repeat case_match; simplify_eq/=;
    rewrite ?length_insert; lia.
Qed.

Definition starts (es : list event) : nat := sum_list_with (fun e => match e with EStart => 1 | _ => 0 end)%nat es.

Lemma run_sound_shared es : forall s s', sound max s -> max + Z.of_nat (length (callers s)) + Z.of_nat (starts es) < 2 ^ 31 -> run p es s = Some s' -> sound max s'.
Proof.
  induction es as [|e es IH]; intros s s' Hs Hlen Hr; [by injection Hr as <-|]. cbn [run] in Hr. destruct (step p e s) as [s1|] eqn:Hst; [|done].
  cbn [mbind option_bind] in Hr. pose proof (step_length e s s1 Hst) as Hl. unfold starts in *. cbn [sum_list_with] in Hlen.
  eapply IH; [eapply step_sound_shared; [done| |done]| |done]; destruct e; lia.
Qed.

End Step.

Definition fresh (b : Budget) : system := {| shared := b; callers := [] |}.

(** C17: the limit on concurrent retries holds up to the calls that look at the budget at the
    same time: however calls on one budget interleave, what it counts is what they
    hold, it exceeds the limit by less than the number of calls that retry, and
    when no call is under way all is given back. *)
Theorem shared_budget_bound p b es s (Hb : currentRetries b = 0) (Hmax : 1 <= MaxConcurrentRetries b)
  (Hlen : MaxConcurrentRetries b + Z.of_nat (starts es) < 2 ^ 31) (Hr : run p es (fresh b) = Some s) :
  currentRetries (shared s) = sum_of holds (callers s) /\
  0 <= currentRetries (shared s) <= MaxConcurrentRetries b - 1 + active s /\
  (Forall (fun c => at_phase c = Finished) (callers s) -> currentRetries (shared s) = 0).
Proof.
  assert (Hs : sound (MaxConcurrentRetries b) s).
  { refine (run_sound_shared p (MaxConcurrentRetries b) es (fresh b) s _ _ Hr); [|simpl; lia]. unfold sound, active, fresh, sum_of. simpl.
    split_and!; [done|lia|lia|constructor]. }
  destruct Hs as (_ & Hsum & Hc & Hf). pose proof (sums_nonneg (callers s)). split; [done|]. split; [lia|]. intros Hall. rewrite Hc.
  apply sum_of_zero. rewrite Forall_forall in *. intros c Hin. unfold holds. by rewrite (Hf c Hin (Hall c Hin)).
Qed.

(** The bound is reached: with a limit of one, two calls that fail at the same time
    both retry. *)
Abbreviation one_retry := {| MaxConcurrentRetries := 1; currentRetries := 0; MaxRetryRatio := of_int 1; totalRequests := 0; retriedRequests := 0 |}.
Abbreviation two_failures := [EStart; EStart; EAnswer 0 true; EAnswer 1 true; EElapsed 0; EElapsed 1].

Example limit_exceeded : (s ← run DefaultPolicy two_failures (fresh one_retry); Some (currentRetries (shared s))) = Some 2.
Proof. vm_compute. reflexivity. Qed.

Lemma shared_budget_bound_witness : exists s, run DefaultPolicy (two_failures ++ [EAnswer 0 false; EAnswer 1 false]) (fresh one_retry) = Some s /\
  currentRetries (shared s) = 0.
Proof.
  eexists. split; [vm_compute; reflexivity|].
  eapply (shared_budget_bound DefaultPolicy one_retry (two_failures ++ [EAnswer 0 false; EAnswer 1 false])); [done|done|done|vm_compute; reflexivity|].
  by repeat constructor.
Defined.

(** ** Set-up *)

(** Interceptors made without a budget share one. *)
Lemma nil_budgets_are_one p q : budget (NewRetryInterceptor p None) = budget (NewRetryInterceptor q None).
Proof. done. Qed.

Section Options.
Import Options Retry.Backoff.
Context {St : Type} `{BackoffStrategy St}.

(** Whether a context is to be used is stored and never asked: runs do not depend on
    that option. *)
Lemma useContext_ignored fn ctx_err cut c b :
  config_DoWithContext fn ctx_err cut (WithContext b c) = config_DoWithContext fn ctx_err cut c.
Proof. done. Qed.

End Options.
End Facts.
