(* ===== verification/Background.v ===== *)
(** Background goroutines of modelled components: the control loop of the adaptive limiter
    ([src/ratelimit/adaptive_limiter.go]) among its requests, the statistics loop of
    the adaptive batcher ([src/internal/batch/adaptive_batcher.go]), and the polling
    routines of the fastest balancer ([src/loadbalance/fastest/balancer.go]). *)
From S2P Require Import Prelude Float64 Ticker.
From S2P Require RateLimit LoadBalance AdaptiveBatch.

(** * The limiter and its control loop *)
Module Limiter.
Import RateLimit RateLimit.Adaptive.

(** Each tick adjusts the rate. *)
Definition adaptiveControl : list (turn Z) -> AdaptiveLimiter -> AdaptiveLimiter * bool := ticker_loop adjustRate.

(** A limiter with its goroutine: requests, what they record, turns of the loop, which
    may still tick after [Close], and [Close]. *)
Record system : Type := { limiter : AdaptiveLimiter; looping : bool }.

Definition start (o : AdaptiveLimiterOptions) (now : Z) : system := {| limiter := NewAdaptiveLimiter o now; looping := true |}.

Inductive event : Type := ERequest (now later : Z) (ctx_done : bool) | ERecord (now : Z) (began : option Z) | ETurn (t : turn Z) | EClose.

(** [None]: the event cannot happen. *)
Definition step (e : event) (s : system) : option (outcome system) :=
  match e with
  | ERequest now later d => Some (Returns {| limiter := (AllowWithContext now later d (limiter s)).2; looping := looping s |})
  | ERecord now began =>
      Some (match RecordMetrics now began (limiter s) with Returns l => Returns {| limiter := l; looping := looping s |} | Panics => Panics end)
  | ETurn t =>
      if looping s && match t with Stopped => stopCh_closed (limiter s) | Ticked _ => true end then
        let '(l, ended) := adaptiveControl [t] (limiter s) in Some (Returns {| limiter := l; looping := negb ended |})
      else None
  | EClose => Some (match Close (limiter s) with Returns l => Returns {| limiter := l; looping := looping s |} | Panics => Panics end)
  end.

Fixpoint run (es : list event) (s : system) : option (outcome system) :=
  match es with
  | [] => Some (Returns s)
  | e :: es => match step e s with Some (Returns s) => run es s | r => r end
  end.

(** What [Close] waits for. *)
Definition close_returns (s : system) : bool := stopCh_closed (limiter s) && negb (looping s).

End Limiter.

(** * The batcher's statistics *)
Module Batcher.
Import AdaptiveBatch.

Definition statsLoop : list (turn Z) -> AdaptiveBatcher -> AdaptiveBatcher * bool := ticker_loop updateStats.
Definition GetStats (b : AdaptiveBatcher) : BatchStats := stats b.

End Batcher.

(** * The balancer's polling *)
Module Polling.
Import LoadBalance LoadBalance.Fastest.

(** [startUpdateRoutine] has nothing to end it: the answers to its requests so far. *)
Fixpoint startUpdateRoutine (answers : list (option (string * list prom_result))) (b : Balancer) : outcome Balancer :=
  match answers with
  | [] => Returns b
  | a :: answers => match updateRespTime b a with Returns b => startUpdateRoutine answers b | Panics => Panics end
  end.

(** The balancers that gRPC has built, each with a routine: it builds one at every
    change of the ready connections and uses the last. *)
Definition built (flt : option Filter) (readies : list (list (SubConn * Address))) : list Balancer := Build flt <$> readies.

End Polling.

(** * Facts *)
Module Facts.

Section Limiter.
Import RateLimit RateLimit.Adaptive Limiter.

Lemma AllowWithContext_keeps now later d l :
  opts (AllowWithContext now later d l).2 = opts l /\ responseTimeIndex (AllowWithContext now later d l).2 = responseTimeIndex l /\
  stopCh_closed (AllowWithContext now later d l).2 = stopCh_closed l.
Proof.
  unfold AllowWithContext, Allow. destruct (TokenBucket.Allow now (tokenBucket l)) as [[|] tb]; [done|].
  simpl. repeat case_bool; try done. all: by destruct (TokenBucket.Allow later tb) as [[|] ?].
Qed.

(** What every event keeps: the options, a rate within their bounds, the index inside
    the samples, and no loop that has ended before it was stopped. *)
Definition sane (o : AdaptiveLimiterOptions) (s : system) : Prop :=
  opts (limiter s) = with_defaults o /\
  (flt (currentRate (limiter s)) (MinRate o) = false /\ fgt (currentRate (limiter s)) (MaxRate o) = false) /\
  0 <= responseTimeIndex (limiter s) < Z.of_nat (length (responseTimes (limiter s))) /\
  (looping s = false -> stopCh_closed (limiter s) = true).

Lemma start_sane o now : fle (MinRate o) (InitialRate o) = true -> fle (InitialRate o) (MaxRate o) = true -> sane o (start o now).
Proof.
  intros Hmin Hmax. split; [done|]. split.
  { simpl. split; [|unfold fgt]; by apply fle_not_gt. }
  split; [|done]. simpl. rewrite length_replicate. destruct (Z.leb_spec (ResponseTimeSampleSize o) 0); lia.
Qed.

Lemma step_sane o e s : fle (MinRate o) (MaxRate o) = true -> sane o s ->
  match step e s with
  | Some (Returns s') => sane o s'
  | Some Panics => e = EClose /\ stopCh_closed (limiter s) = true
  | None => exists t, e = ETurn t
  end.
Proof.
  intros Hmm Hs. pose proof Hs as (Ho & Hb & Hi & Hl). destruct e as [now later d|now began|t|]; cbn [step].
  - destruct (AllowWithContext_keeps now later d (limiter s)) as (E1 & E2 & E3). destruct (AdaptiveFacts.AllowWithContext_rate now later d (limiter s)) as [E4 E5].
    unfold sane. cbn [limiter looping]. by rewrite E1, E2, E3, E4, E5.
  - destruct (AdaptiveFacts.RecordMetrics_index now began _ Hi) as (l' & Hr & Hi'). rewrite Hr. unfold RecordMetrics in Hr.
    destruct began as [b|]; [|injection Hr as <-; done]. case_bool; [done|]. by injection Hr as <-.
  - destruct (looping s && _) eqn:E; [|by eexists]. apply andb_true_iff in E as [E1 E2]. destruct t as [now|]; cbn [adaptiveControl ticker_loop].
    + split; [done|]. split; [|by split]. cbn [limiter currentRate adjustRate]. unfold next_rate. rewrite Ho. by apply clamp_inside.
    + done.
  - unfold Close. destruct (stopCh_closed (limiter s)) eqn:E; [done|]. done.
Qed.

Lemma run_sane o es : forall s s', fle (MinRate o) (MaxRate o) = true -> sane o s -> run es s = Some (Returns s') -> sane o s'.
Proof.
  induction es as [|e es IH]; intros s s' Hmm Hs Hr; [by injection Hr as <-|]. cbn [run] in Hr. pose proof (step_sane o e s Hmm Hs) as H.
  destruct (step e s) as [[s1|]|]; [|done..]. by eapply IH.
Qed.

(** However requests, their records, ticks of the control loop, also after [Close], and
    [Close] interleave: the rate stays between its bounds, no request panics, and [Close]
    returns only after the loop has ended. *)
Theorem limiter_runs_sane o now es s
  (Hmin : fle (MinRate o) (InitialRate o) = true) (Hmax : fle (InitialRate o) (MaxRate o) = true)
  (Hr : run es (start o now) = Some (Returns s)) :
  flt (currentRate (limiter s)) (MinRate o) = false /\ fgt (currentRate (limiter s)) (MaxRate o) = false /\
  (forall now' later d, exists s', step (ERequest now' later d) s = Some (Returns s')) /\
  (forall now' began, exists s', step (ERecord now' began) s = Some (Returns s')) /\
  (close_returns s = true <-> looping s = false).
Proof.
  assert (Hmm : fle (MinRate o) (MaxRate o) = true) by (by eapply fle_trans).
  pose proof (run_sane o es _ _ Hmm (start_sane o now Hmin Hmax) Hr) as Hs. pose proof Hs as (_ & [Hb1 Hb2] & _ & Hl).
  split_and!; [done|done|by intros; eexists| |].
  - intros now' began. pose proof (step_sane o (ERecord now' began) s Hmm Hs) as H. destruct (step (ERecord now' began) s) as [[s'|]|]; [by eexists|by destruct H|].
    by destruct H.
  - unfold close_returns. rewrite andb_true_iff, negb_true_iff. split; [by intros [_ ?]|]. intros Hf. split; [by apply Hl|done].
Qed.

Abbreviation limiter_run := [ERequest 1 2 false; ERecord 3 (Some 1); ETurn (Ticked 5); EClose; ETurn (Ticked 6); ETurn Stopped; ERequest 7 8 false].

Lemma limiter_runs_sane_witness : exists s, run limiter_run (start DefaultAdaptiveLimiterOptions 0) = Some (Returns s) /\
  flt (currentRate (limiter s)) (of_int 10) = false /\ (close_returns s = true <-> looping s = false).
Proof.
  eexists. split; [vm_compute; reflexivity|].
  match goal with |- context [currentRate (limiter ?s)] =>
    destruct (limiter_runs_sane DefaultAdaptiveLimiterOptions 0 limiter_run s) as (H1 & _ & _ & _ & H2); [reflexivity..|by split]
  end.
Defined.

End Limiter.

Section Polling.
Import LoadBalance LoadBalance.Fastest Polling.

Lemma update_conns_addresses addr v l l' : update_conns addr v l = Returns l' -> address <$> l' = address <$> l.
Proof.
  revert l'. induction l as [|x l IH]; intros l' Hu; [by injection Hu as <-|]. cbn [update_conns] in Hu. destruct (String.eqb _ _).
  - destruct (v !! 1%nat) as [[s|]|]; [|done..]. destruct (update_conns addr v l) as [r|]; [|done]. injection Hu as <-. rewrite !fmap_cons, (IH r eq_refl).
    by destruct (ParseInt s).
  - destruct (update_conns addr v l) as [r|]; [|done]. injection Hu as <-. by rewrite !fmap_cons, (IH r eq_refl).
Qed.

Lemma update_results_addresses rs : forall l l', update_results rs l = Returns l' -> address <$> l' = address <$> l.
Proof.
  induction rs as [|r rs IH]; intros l l' Hu; [by injection Hu as <-|]. cbn [update_results] in Hu. destruct (Metric r !! "address") as [a|]; [|by apply IH].
  destruct (update_conns a (Value r) l) as [l1|] eqn:E; [|done]. rewrite (IH _ _ Hu). by eapply update_conns_addresses.
Qed.

(** Whatever the answers are, a routine that has not panicked has left the connections
    and the filter of its balancer as they were; it only changes their times. *)
Lemma polling_keeps_connections answers : forall b b', startUpdateRoutine answers b = Returns b' ->
  address <$> conns b' = address <$> conns b /\ Fastest.filter b' = Fastest.filter b.
Proof.
  induction answers as [|a answers IH]; intros b b' Hs; [by injection Hs as <-|]. cbn [startUpdateRoutine] in Hs.
  destruct (updateRespTime b a) as [b1|] eqn:E; [|done]. destruct (IH _ _ Hs) as [-> ->]. unfold updateRespTime in E.
  destruct a as [[st rs]|]; [|by injection E as <-]. destruct (negb _); [by injection E as <-|].
  destruct (update_results rs (conns b)) as [l|] eqn:El; [|done]. injection E as <-. split; [|done]. by eapply update_results_addresses.
Qed.

(** Every change of the ready connections leaves one routine more, and the new
    balancer starts with the default time for every connection, whatever was measured. *)
Lemma polling_routines_accumulate flt readies : length (built flt readies) = length readies /\
  Forall (fun b => Forall (fun c => Response c = Millisecond * 100) (conns b)) (built flt readies).
Proof.
  split; [apply length_fmap|]. apply Forall_fmap, Forall_true. intros ready. simpl. by apply Forall_fmap, Forall_true.
Qed.

End Polling.
End Facts.
